(** * solc command-line parser: a shallow embedding of
      [solc/CommandLineParser.cpp] and the properties of its option
      resolution.

    The parser is embedded as a state-passing program over the members of
    [CommandLineParser] that [parse] writes ([m_options], the two output
    streams, [m_hasOutput]).  A C++ [return], a call of [exit] and an
    exception that nobody catches all end the run of [parse]; they are the
    three constructors of [Outcome].  What the tokenizer of
    boost::program_options leaves in [m_args] is the input.

    Code that lives outside this translation unit (libsolutil,
    libsolidity, libyul, liblangutil, boost::filesystem) is collected in
    the class [Collaborators]; the properties are proved for every
    instance.  One instance, [reference], is given to run the parser on
    concrete command lines.

    Layout: strings and sets; option names; the data model; the parser;
    the reference collaborators; the vocabulary of the properties and the
    example command lines; then the properties. *)

From Stdlib Require Import ZArith NArith Ascii String DecimalString List Lia.
From Stdlib Require Strings.Byte.
From Stdlib Require Import Sorted.
From stdpp Require Import base option gmap strings list.

Open Scope string_scope.

(** ** Strings as [std::string] *)

Definition endl : string := String (ascii_of_nat 10) "".

(** [std::string::find(c)] *)
Fixpoint find_char (c : ascii) (s : string) : option nat :=
  match s with
  | EmptyString => None
  | String d s' =>
      if Ascii.eqb d c then Some 0
      else match find_char c s' with
           | Some i => Some (S i)
           | None => None
           end
  end.

(** [std::string::rfind(c)] *)
Fixpoint rfind_char (c : ascii) (s : string) : option nat :=
  match s with
  | EmptyString => None
  | String d s' =>
      match rfind_char c s' with
      | Some i => Some (S i)
      | None => if Ascii.eqb d c then Some 0 else None
      end
  end.

(** [string(s.begin(), s.begin() + n)] *)
Fixpoint string_take (n : nat) (s : string) : string :=
  match n, s with
  | S n', String c s' => String c (string_take n' s')
  | _, _ => EmptyString
  end.

(** [string(s.begin() + n, s.end())], also [s.substr(n)] for [n <= size] *)
Fixpoint string_drop (n : nat) (s : string) : string :=
  match n, s with
  | S n', String _ s' => string_drop n' s'
  | _, _ => s
  end.

(** [boost::is_space()] in the classic locale: space, \t, \n, \v, \f, \r *)
Definition is_space (c : ascii) : bool :=
  let n := nat_of_ascii c in
  Nat.eqb n 32 || (Nat.leb 9 n && Nat.leb n 13).

Definition is_comma (c : ascii) : bool := Ascii.eqb c ",".

Fixpoint trim_left (s : string) : string :=
  match s with
  | String c s' => if is_space c then trim_left s' else s
  | EmptyString => EmptyString
  end.

Fixpoint trim_right (s : string) : string :=
  match s with
  | EmptyString => EmptyString
  | String c s' =>
      match trim_right s' with
      | EmptyString => if is_space c then EmptyString else String c EmptyString
      | t => String c t
      end
  end.

(** [boost::trim] *)
Definition trim (s : string) : string := trim_left (trim_right s).

(** [boost::split(result, s, pred)]: [n] separators give [n + 1] tokens *)
Fixpoint split (is_sep : ascii -> bool) (s : string) : list string :=
  match s with
  | EmptyString => [EmptyString]
  | String c s' =>
      if is_sep c then EmptyString :: split is_sep s'
      else match split is_sep s' with
           | t :: ts => String c t :: ts
           | [] => [String c EmptyString]
           end
  end.

(** [boost::split(result, s, pred, boost::token_compress_on)]: a run of
    adjacent separators counts as one separator.  [prev] tells that the
    previous character was a separator. *)
Fixpoint split_compress_from (is_sep : ascii -> bool) (prev : bool) (s : string)
  : list string :=
  match s with
  | EmptyString => [EmptyString]
  | String c s' =>
      if is_sep c then
        if prev then split_compress_from is_sep true s'
        else EmptyString :: split_compress_from is_sep true s'
      else match split_compress_from is_sep false s' with
           | t :: ts => String c t :: ts
           | [] => [String c EmptyString]
           end
  end.

Definition split_compress (is_sep : ascii -> bool) (s : string) : list string :=
  split_compress_from is_sep false s.

(** [boost::algorithm::join] *)
Fixpoint join (l : list string) (sep : string) : string :=
  match l with
  | [] => EmptyString
  | [x] => x
  | x :: l' => x +:+ sep +:+ join l' sep
  end.

(** [ostream << size_t] *)
Definition decimal (n : nat) : string := NilZero.string_of_uint (Nat.to_uint n).

(** [needle] occurs in [s] *)
Definition occurs_in (needle s : string) : Prop :=
  exists pre post, s = pre +:+ needle +:+ post.

(** ** [std::set<std::string>]: iteration is in ascending order, so the set
    is kept as a strictly ascending list. *)
Fixpoint set_insert (x : string) (l : list string) : list string :=
  match l with
  | [] => [x]
  | y :: l' =>
      if String.eqb x y then l
      else if String.ltb x y then x :: l
      else y :: set_insert x l'
  end.

Definition set_of_list (l : list string) : list string :=
  fold_left (fun acc x => set_insert x acc) l [].

Definition set_count (x : string) (l : list string) : nat :=
  if existsb (String.eqb x) l then 1 else 0.

(** ** Option names (the [g_str...] and [g_arg...] constants) *)

Definition g_strAbi : string := "abi".
Definition g_strAllowPaths : string := "allow-paths".
Definition g_strBasePath : string := "base-path".
Definition g_strAsm : string := "asm".
Definition g_strAsmJson : string := "asm-json".
Definition g_strAssemble : string := "assemble".
Definition g_strAst : string := "ast".
Definition g_strAstCompactJson : string := "ast-compact-json".
Definition g_strBinary : string := "bin".
Definition g_strBinaryRuntime : string := "bin-runtime".
Definition g_strCombinedJson : string := "combined-json".
Definition g_strCompactJSON : string := "compact-format".
Definition g_strErrorRecovery : string := "error-recovery".
Definition g_strEVM : string := "evm".
Definition g_strEVMVersion : string := "evm-version".
Definition g_strEwasm : string := "ewasm".
Definition g_strExperimentalViaIR : string := "experimental-via-ir".
Definition g_strGeneratedSources : string := "generated-sources".
Definition g_strGeneratedSourcesRuntime : string := "generated-sources-runtime".
Definition g_strGas : string := "gas".
Definition g_strHelp : string := "help".
Definition g_strImportAst : string := "import-ast".
Definition g_strInputFile : string := "input-file".
Definition g_strInterface : string := "interface".
Definition g_strYul : string := "yul".
Definition g_strYulDialect : string := "yul-dialect".
Definition g_strIR : string := "ir".
Definition g_strIROptimized : string := "ir-optimized".
Definition g_strIPFS : string := "ipfs".
Definition g_strLicense : string := "license".
Definition g_strLibraries : string := "libraries".
Definition g_strLink : string := "link".
Definition g_strMachine : string := "machine".
Definition g_strMetadata : string := "metadata".
Definition g_strMetadataHash : string := "metadata-hash".
Definition g_strMetadataLiteral : string := "metadata-literal".
Definition g_strModelCheckerContracts : string := "model-checker-contracts".
Definition g_strModelCheckerEngine : string := "model-checker-engine".
Definition g_strModelCheckerTargets : string := "model-checker-targets".
Definition g_strModelCheckerTimeout : string := "model-checker-timeout".
Definition g_strNatspecDev : string := "devdoc".
Definition g_strNatspecUser : string := "userdoc".
Definition g_strNone : string := "none".
Definition g_strNoOptimizeYul : string := "no-optimize-yul".
Definition g_strOpcodes : string := "opcodes".
Definition g_strOptimize : string := "optimize".
Definition g_strOptimizeRuns : string := "optimize-runs".
Definition g_strOptimizeYul : string := "optimize-yul".
Definition g_strYulOptimizations : string := "yul-optimizations".
Definition g_strOutputDir : string := "output-dir".
Definition g_strOverwrite : string := "overwrite".
Definition g_strRevertStrings : string := "revert-strings".
Definition g_strStorageLayout : string := "storage-layout".
Definition g_strStopAfter : string := "stop-after".
Definition g_strParsing : string := "parsing".
Definition g_strSignatureHashes : string := "hashes".
Definition g_strSources : string := "sources".
Definition g_strSourceList : string := "sourceList".
Definition g_strSrcMap : string := "srcmap".
Definition g_strSrcMapRuntime : string := "srcmap-runtime".
Definition g_strFunDebug : string := "function-debug".
Definition g_strFunDebugRuntime : string := "function-debug-runtime".
Definition g_strStandardJSON : string := "standard-json".
Definition g_strStrictAssembly : string := "strict-assembly".
Definition g_strSwarm : string := "swarm".
Definition g_strPrettyJson : string := "pretty-json".
Definition g_strVersion : string := "version".
Definition g_strIgnoreMissingFiles : string := "ignore-missing".
Definition g_strColor : string := "color".
Definition g_strNoColor : string := "no-color".
Definition g_strErrorIds : string := "error-codes".
Definition g_argAbi : string := g_strAbi.
Definition g_argPrettyJson : string := g_strPrettyJson.
Definition g_argAllowPaths : string := g_strAllowPaths.
Definition g_argBasePath : string := g_strBasePath.
Definition g_argAsm : string := g_strAsm.
Definition g_argAsmJson : string := g_strAsmJson.
Definition g_argAssemble : string := g_strAssemble.
Definition g_argAstCompactJson : string := g_strAstCompactJson.
Definition g_argBinary : string := g_strBinary.
Definition g_argBinaryRuntime : string := g_strBinaryRuntime.
Definition g_argCombinedJson : string := g_strCombinedJson.
Definition g_argCompactJSON : string := g_strCompactJSON.
Definition g_argErrorRecovery : string := g_strErrorRecovery.
Definition g_argGas : string := g_strGas.
Definition g_argHelp : string := g_strHelp.
Definition g_argImportAst : string := g_strImportAst.
Definition g_argInputFile : string := g_strInputFile.
Definition g_argYul : string := g_strYul.
Definition g_argIR : string := g_strIR.
Definition g_argIROptimized : string := g_strIROptimized.
Definition g_argEwasm : string := g_strEwasm.
Definition g_argExperimentalViaIR : string := g_strExperimentalViaIR.
Definition g_argLibraries : string := g_strLibraries.
Definition g_argLink : string := g_strLink.
Definition g_argMachine : string := g_strMachine.
Definition g_argMetadata : string := g_strMetadata.
Definition g_argMetadataHash : string := g_strMetadataHash.
Definition g_argMetadataLiteral : string := g_strMetadataLiteral.
Definition g_argModelCheckerContracts : string := g_strModelCheckerContracts.
Definition g_argModelCheckerEngine : string := g_strModelCheckerEngine.
Definition g_argModelCheckerTargets : string := g_strModelCheckerTargets.
Definition g_argModelCheckerTimeout : string := g_strModelCheckerTimeout.
Definition g_argNatspecDev : string := g_strNatspecDev.
Definition g_argNatspecUser : string := g_strNatspecUser.
Definition g_argOpcodes : string := g_strOpcodes.
Definition g_argOptimize : string := g_strOptimize.
Definition g_argOptimizeRuns : string := g_strOptimizeRuns.
Definition g_argOutputDir : string := g_strOutputDir.
Definition g_argSignatureHashes : string := g_strSignatureHashes.
Definition g_argStandardJSON : string := g_strStandardJSON.
Definition g_argStorageLayout : string := g_strStorageLayout.
Definition g_argStrictAssembly : string := g_strStrictAssembly.
Definition g_argVersion : string := g_strVersion.
Definition g_argIgnoreMissingFiles : string := g_strIgnoreMissingFiles.
Definition g_argColor : string := g_strColor.
Definition g_argNoColor : string := g_strNoColor.
Definition g_argErrorIds : string := g_strErrorIds.

(** Possible arguments to [--combined-json] *)
Definition g_combinedJsonArgs : list string :=
  set_of_list [
    g_strAbi; g_strAsm; g_strAst; g_strBinary; g_strBinaryRuntime;
    g_strCompactJSON; g_strFunDebug; g_strFunDebugRuntime;
    g_strGeneratedSources; g_strGeneratedSourcesRuntime; g_strInterface;
    g_strMetadata; g_strNatspecUser; g_strNatspecDev; g_strOpcodes;
    g_strSignatureHashes; g_strSrcMap; g_strSrcMapRuntime; g_strStorageLayout
  ].

(** ** The data model *)

Module RevertStrings.
Inductive t := Default | Strip | Debug | VerboseDebug.
End RevertStrings.

Module InputMode.
Inductive t := Compiler | CompilerWithASTImport | StandardJson | Linker | Assembler.
End InputMode.

(** [yul::AssemblyStack::Machine] *)
Module Machine.
Inductive t := EVM | Ewasm.
End Machine.

(** [yul::AssemblyStack::Language] *)
Module Input.
Inductive t := Yul | Assembly | StrictAssembly | Ewasm.
End Input.

(** [CompilerStack::MetadataHash] and the one member of
    [CompilerStack::State] this file names *)
Module CompilerStack.
Inductive MetadataHash := IPFS | Bzzr1 | None.
Inductive State := Parsed.
End CompilerStack.

#[global] Instance InputMode_eq_dec : EqDecision InputMode.t.
Proof. solve_decision. Defined.
#[global] Instance Machine_eq_dec : EqDecision Machine.t.
Proof. solve_decision. Defined.
#[global] Instance Input_eq_dec : EqDecision Input.t.
Proof. solve_decision. Defined.

Module OutputSelection.
Record t := {
  astCompactJson : bool;
  asm_ : bool;
  asmJson : bool;
  opcodes : bool;
  binary : bool;
  binaryRuntime : bool;
  abi : bool;
  ir : bool;
  irOptimized : bool;
  ewasm : bool;
  signatureHashes : bool;
  natspecUser : bool;
  natspecDev : bool;
  metadata : bool;
  storageLayout : bool
}.
End OutputSelection.

Module CombinedJsonRequests.
Record t := {
  abi : bool;
  metadata : bool;
  binary : bool;
  binaryRuntime : bool;
  opcodes : bool;
  asm_ : bool;
  storageLayout : bool;
  generatedSources : bool;
  generatedSourcesRuntime : bool;
  srcMap : bool;
  srcMapRuntime : bool;
  funDebug : bool;
  funDebugRuntime : bool;
  signatureHashes : bool;
  natspecDev : bool;
  natspecUser : bool;
  ast : bool
}.

(** The 17 flags, in the order of [operator==] *)
Definition flags (r : t) : list bool :=
  [ abi r; metadata r; binary r; binaryRuntime r; opcodes r; asm_ r;
    storageLayout r; generatedSources r; generatedSourcesRuntime r;
    srcMap r; srcMapRuntime r; funDebug r; funDebugRuntime r;
    signatureHashes r; natspecDev r; natspecUser r; ast r ].
End CombinedJsonRequests.

(** [ImportRemapper::Remapping] *)
Record Remapping := {
  context : string;
  prefix : string;
  target : string
}.

(** [util::h160]: 20 bytes *)
Definition h160 : Type := list Byte.byte.

(** [h160()], the zero address *)
Definition h160_zero : h160 := repeat Byte.x00 20.

(** [h160(bytes, h160::AlignRight)]: the last [min(size, 20)] bytes of the
    array, right-aligned in 20 zero-initialised bytes *)
Definition h160_AlignRight (b : list Byte.byte) : h160 :=
  let c := Nat.min (List.length b) 20 in
  (repeat Byte.x00 (20 - c) ++ skipn (List.length b - c) b)%list.

#[global] Instance byte_eq_decision : EqDecision Byte.byte :=
  Strings.Byte.byte_eq_dec.

(** [operator==] of [h160] *)
Definition h160_eqb (a b : h160) : bool :=
  bool_decide (a = b).

(** A value stored by the tokenizer ([boost::program_options::variable_value]):
    a flag without argument, or the typed argument of the option. *)
Inductive variable_value :=
| no_value
| string_value (s : string)
| strings_value (l : list string)
| unsigned_value (n : N).

(** [po::variables_map], a [std::map<std::string, variable_value>] *)
Abbreviation variables_map := (gmap string variable_value).

(** What [cmdLineParser.run()] and [po::store] leave behind: the stored
    options, or the [what()] of a [po::error]. *)
Inductive CommandLine :=
| po_error (what : string)
| po_stored (args : variables_map).

(** [OptimiserSettings]; the parser reads [runYulOptimiser] only. *)
Record OptimiserSettings := { runYulOptimiser : bool }.

(** Modelled from the spec: the presets of libsolidity's OptimiserSettings,
    which is not part of this translation unit.  The "standard" preset has
    the Yul optimizer on, the "minimal" preset has it off
    ([--yul-optimizations] without [--optimize] fails). *)
Definition OptimiserSettings_standard : OptimiserSettings :=
  {| runYulOptimiser := true |}.
Definition OptimiserSettings_minimal : OptimiserSettings :=
  {| runYulOptimiser := false |}.

(** ** External collaborators

    Functions, types and texts that [CommandLineParser.cpp] uses and that
    are defined elsewhere.  An exception a collaborator may raise is an
    [option] in its result. *)
Class Collaborators := {
  (** liblangutil: [EVMVersion], [EVMVersion{}], [EVMVersion::fromString] *)
  EVMVersion : Type;
  EVMVersion_default : EVMVersion;
  EVMVersion_fromString : string -> option EVMVersion;
  (** libsolidity: [revertStringsFromString] *)
  revertStringsFromString : string -> option RevertStrings.t;
  (** libsolidity: the model checker settings and their [fromString] *)
  ModelCheckerContracts : Type;
  ModelCheckerContracts_default : ModelCheckerContracts;
  ModelCheckerContracts_fromString : string -> option ModelCheckerContracts;
  ModelCheckerEngine : Type;
  ModelCheckerEngine_default : ModelCheckerEngine;
  ModelCheckerEngine_fromString : string -> option ModelCheckerEngine;
  ModelCheckerTargets : Type;
  ModelCheckerTargets_default : ModelCheckerTargets;
  ModelCheckerTargets_fromString : string -> option ModelCheckerTargets;
  (** libyul: [OptimiserSuite::validateSequence]; [Some what] is the
      [OptimizerException] it throws *)
  validateSequence : string -> option string;
  (** libsolutil: address checksum and hex decoding; [None] is the
      [InvalidAddress] that is thrown *)
  passesAddressChecksum : string -> bool -> option bool;
  getChecksummedAddress : string -> option string;
  fromHex : string -> list Byte.byte;
  (** boost::filesystem and libsolutil file access; [None] is the
      [filesystem_error], respectively the [FileNotFound], that is thrown *)
  is_regular_file : string -> option bool;
  readFileAsString : string -> option string;
  (** boost::filesystem::path, a path being its string *)
  path_filename : string -> string;
  path_remove_filename : string -> string;
  (** libsolidity: [ImportRemapper::parseRemapping] *)
  parseRemapping : string -> option Remapping;
  (** the printed [po::options_description], the version and licence texts *)
  desc : string;
  VersionString : string;
  otherLicenses : string;
  licenseText : string;
  (** the default argument of [joinOptionNames] declared in the header *)
  joinOptionNames_separator : string
}.

(** ** The parser *)

(** How a run of [parse] ends: [return b], [exit(status)], or an exception
    nobody catches. *)
Inductive Outcome :=
| Returned (b : bool)
| Exited (status : Z)
| Thrown (what : string).

(** One statement either falls through to the next one with a value, or
    ends the function that is running. *)
Inductive Step (A : Type) :=
| Cont (a : A)
| Done (o : Outcome).
Arguments Cont {A} a.
Arguments Done {A} o.

Section Parser.
Context {collaborators : Collaborators}.

#[projections(primitive)]
Record ModelCheckerSettings := {
  contracts : ModelCheckerContracts;
  engine : ModelCheckerEngine;
  targets : ModelCheckerTargets;
  timeout : option N
}.

#[projections(primitive)]
Record CommandLineOptions := {
  sourceFilePaths : gset string;
  standardJsonInputFile : option string;
  remappings : list Remapping;
  addStdin : bool;
  basePath : string;
  allowedDirectories : gset string;
  ignoreMissingInputFiles : bool;
  errorRecovery : bool;
  outputDir : string;
  overwriteFiles : bool;
  evmVersion : EVMVersion;
  experimentalViaIR : bool;
  revertStrings : RevertStrings.t;
  stopAfter : option CompilerStack.State;
  inputMode : InputMode.t;
  targetMachine : Machine.t;
  inputAssemblyLanguage : Input.t;
  libraries : gmap string h160;
  prettyJson : bool;
  coloredOutput : option bool;
  withErrorIds : bool;
  selectedOutputs : OutputSelection.t;
  estimateGas : bool;
  combinedJsonRequests : option CombinedJsonRequests.t;
  metadataHash : CompilerStack.MetadataHash;
  metadataLiteral : bool;
  optimize : bool;
  expectedExecutionsPerDeployment : N;
  noOptimizeYul : bool;
  yulOptimiserSteps : option string;
  initializeModelChecker : bool;
  modelCheckerSettings : ModelCheckerSettings
}.

(** Assignment to one member; the other members are kept. *)
Definition set_contracts (v : ModelCheckerContracts) (s : ModelCheckerSettings)
  : ModelCheckerSettings :=
  let 'Build_ModelCheckerSettings _ x2 x3 x4 := s in
  Build_ModelCheckerSettings v x2 x3 x4.
Definition set_engine (v : ModelCheckerEngine) (s : ModelCheckerSettings)
  : ModelCheckerSettings :=
  let 'Build_ModelCheckerSettings x1 _ x3 x4 := s in
  Build_ModelCheckerSettings x1 v x3 x4.
Definition set_targets (v : ModelCheckerTargets) (s : ModelCheckerSettings)
  : ModelCheckerSettings :=
  let 'Build_ModelCheckerSettings x1 x2 _ x4 := s in
  Build_ModelCheckerSettings x1 x2 v x4.
Definition set_timeout (v : option N) (s : ModelCheckerSettings)
  : ModelCheckerSettings :=
  let 'Build_ModelCheckerSettings x1 x2 x3 _ := s in
  Build_ModelCheckerSettings x1 x2 x3 v.
Definition set_sourceFilePaths (v : gset string) (o : CommandLineOptions)
  : CommandLineOptions :=
  let 'Build_CommandLineOptions _ x2 x3 x4 x5 x6 x7 x8 x9 x10 x11 x12 x13 x14
    x15 x16 x17 x18 x19 x20 x21 x22 x23 x24 x25 x26 x27 x28 x29 x30 x31 x32 := o in
  Build_CommandLineOptions v x2 x3 x4 x5 x6 x7 x8 x9 x10 x11 x12 x13 x14 x15
    x16 x17 x18 x19 x20 x21 x22 x23 x24 x25 x26 x27 x28 x29 x30 x31 x32.
Definition set_standardJsonInputFile (v : option string) (o : CommandLineOptions)
  : CommandLineOptions :=
  let 'Build_CommandLineOptions x1 _ x3 x4 x5 x6 x7 x8 x9 x10 x11 x12 x13 x14
    x15 x16 x17 x18 x19 x20 x21 x22 x23 x24 x25 x26 x27 x28 x29 x30 x31 x32 := o in
  Build_CommandLineOptions x1 v x3 x4 x5 x6 x7 x8 x9 x10 x11 x12 x13 x14 x15
    x16 x17 x18 x19 x20 x21 x22 x23 x24 x25 x26 x27 x28 x29 x30 x31 x32.
Definition set_remappings (v : list Remapping) (o : CommandLineOptions)
  : CommandLineOptions :=
  let 'Build_CommandLineOptions x1 x2 _ x4 x5 x6 x7 x8 x9 x10 x11 x12 x13 x14
    x15 x16 x17 x18 x19 x20 x21 x22 x23 x24 x25 x26 x27 x28 x29 x30 x31 x32 := o in
  Build_CommandLineOptions x1 x2 v x4 x5 x6 x7 x8 x9 x10 x11 x12 x13 x14 x15
    x16 x17 x18 x19 x20 x21 x22 x23 x24 x25 x26 x27 x28 x29 x30 x31 x32.
Definition set_addStdin (v : bool) (o : CommandLineOptions)
  : CommandLineOptions :=
  let 'Build_CommandLineOptions x1 x2 x3 _ x5 x6 x7 x8 x9 x10 x11 x12 x13 x14
    x15 x16 x17 x18 x19 x20 x21 x22 x23 x24 x25 x26 x27 x28 x29 x30 x31 x32 := o in
  Build_CommandLineOptions x1 x2 x3 v x5 x6 x7 x8 x9 x10 x11 x12 x13 x14 x15
    x16 x17 x18 x19 x20 x21 x22 x23 x24 x25 x26 x27 x28 x29 x30 x31 x32.
Definition set_basePath (v : string) (o : CommandLineOptions)
  : CommandLineOptions :=
  let 'Build_CommandLineOptions x1 x2 x3 x4 _ x6 x7 x8 x9 x10 x11 x12 x13 x14
    x15 x16 x17 x18 x19 x20 x21 x22 x23 x24 x25 x26 x27 x28 x29 x30 x31 x32 := o in
  Build_CommandLineOptions x1 x2 x3 x4 v x6 x7 x8 x9 x10 x11 x12 x13 x14 x15
    x16 x17 x18 x19 x20 x21 x22 x23 x24 x25 x26 x27 x28 x29 x30 x31 x32.
Definition set_allowedDirectories (v : gset string) (o : CommandLineOptions)
  : CommandLineOptions :=
  let 'Build_CommandLineOptions x1 x2 x3 x4 x5 _ x7 x8 x9 x10 x11 x12 x13 x14
    x15 x16 x17 x18 x19 x20 x21 x22 x23 x24 x25 x26 x27 x28 x29 x30 x31 x32 := o in
  Build_CommandLineOptions x1 x2 x3 x4 x5 v x7 x8 x9 x10 x11 x12 x13 x14 x15
    x16 x17 x18 x19 x20 x21 x22 x23 x24 x25 x26 x27 x28 x29 x30 x31 x32.
Definition set_ignoreMissingInputFiles (v : bool) (o : CommandLineOptions)
  : CommandLineOptions :=
  let 'Build_CommandLineOptions x1 x2 x3 x4 x5 x6 _ x8 x9 x10 x11 x12 x13 x14
    x15 x16 x17 x18 x19 x20 x21 x22 x23 x24 x25 x26 x27 x28 x29 x30 x31 x32 := o in
  Build_CommandLineOptions x1 x2 x3 x4 x5 x6 v x8 x9 x10 x11 x12 x13 x14 x15
    x16 x17 x18 x19 x20 x21 x22 x23 x24 x25 x26 x27 x28 x29 x30 x31 x32.
Definition set_errorRecovery (v : bool) (o : CommandLineOptions)
  : CommandLineOptions :=
  let 'Build_CommandLineOptions x1 x2 x3 x4 x5 x6 x7 _ x9 x10 x11 x12 x13 x14
    x15 x16 x17 x18 x19 x20 x21 x22 x23 x24 x25 x26 x27 x28 x29 x30 x31 x32 := o in
  Build_CommandLineOptions x1 x2 x3 x4 x5 x6 x7 v x9 x10 x11 x12 x13 x14 x15
    x16 x17 x18 x19 x20 x21 x22 x23 x24 x25 x26 x27 x28 x29 x30 x31 x32.
Definition set_outputDir (v : string) (o : CommandLineOptions)
  : CommandLineOptions :=
  let 'Build_CommandLineOptions x1 x2 x3 x4 x5 x6 x7 x8 _ x10 x11 x12 x13 x14
    x15 x16 x17 x18 x19 x20 x21 x22 x23 x24 x25 x26 x27 x28 x29 x30 x31 x32 := o in
  Build_CommandLineOptions x1 x2 x3 x4 x5 x6 x7 x8 v x10 x11 x12 x13 x14 x15
    x16 x17 x18 x19 x20 x21 x22 x23 x24 x25 x26 x27 x28 x29 x30 x31 x32.
Definition set_overwriteFiles (v : bool) (o : CommandLineOptions)
  : CommandLineOptions :=
  let 'Build_CommandLineOptions x1 x2 x3 x4 x5 x6 x7 x8 x9 _ x11 x12 x13 x14
    x15 x16 x17 x18 x19 x20 x21 x22 x23 x24 x25 x26 x27 x28 x29 x30 x31 x32 := o in
  Build_CommandLineOptions x1 x2 x3 x4 x5 x6 x7 x8 x9 v x11 x12 x13 x14 x15
    x16 x17 x18 x19 x20 x21 x22 x23 x24 x25 x26 x27 x28 x29 x30 x31 x32.
Definition set_evmVersion (v : EVMVersion) (o : CommandLineOptions)
  : CommandLineOptions :=
  let 'Build_CommandLineOptions x1 x2 x3 x4 x5 x6 x7 x8 x9 x10 _ x12 x13 x14
    x15 x16 x17 x18 x19 x20 x21 x22 x23 x24 x25 x26 x27 x28 x29 x30 x31 x32 := o in
  Build_CommandLineOptions x1 x2 x3 x4 x5 x6 x7 x8 x9 x10 v x12 x13 x14 x15
    x16 x17 x18 x19 x20 x21 x22 x23 x24 x25 x26 x27 x28 x29 x30 x31 x32.
Definition set_experimentalViaIR (v : bool) (o : CommandLineOptions)
  : CommandLineOptions :=
  let 'Build_CommandLineOptions x1 x2 x3 x4 x5 x6 x7 x8 x9 x10 x11 _ x13 x14
    x15 x16 x17 x18 x19 x20 x21 x22 x23 x24 x25 x26 x27 x28 x29 x30 x31 x32 := o in
  Build_CommandLineOptions x1 x2 x3 x4 x5 x6 x7 x8 x9 x10 x11 v x13 x14 x15
    x16 x17 x18 x19 x20 x21 x22 x23 x24 x25 x26 x27 x28 x29 x30 x31 x32.
Definition set_revertStrings (v : RevertStrings.t) (o : CommandLineOptions)
  : CommandLineOptions :=
  let 'Build_CommandLineOptions x1 x2 x3 x4 x5 x6 x7 x8 x9 x10 x11 x12 _ x14
    x15 x16 x17 x18 x19 x20 x21 x22 x23 x24 x25 x26 x27 x28 x29 x30 x31 x32 := o in
  Build_CommandLineOptions x1 x2 x3 x4 x5 x6 x7 x8 x9 x10 x11 x12 v x14 x15
    x16 x17 x18 x19 x20 x21 x22 x23 x24 x25 x26 x27 x28 x29 x30 x31 x32.
Definition set_stopAfter (v : option CompilerStack.State) (o : CommandLineOptions)
  : CommandLineOptions :=
  let 'Build_CommandLineOptions x1 x2 x3 x4 x5 x6 x7 x8 x9 x10 x11 x12 x13 _
    x15 x16 x17 x18 x19 x20 x21 x22 x23 x24 x25 x26 x27 x28 x29 x30 x31 x32 := o in
  Build_CommandLineOptions x1 x2 x3 x4 x5 x6 x7 x8 x9 x10 x11 x12 x13 v x15
    x16 x17 x18 x19 x20 x21 x22 x23 x24 x25 x26 x27 x28 x29 x30 x31 x32.
Definition set_inputMode (v : InputMode.t) (o : CommandLineOptions)
  : CommandLineOptions :=
  let 'Build_CommandLineOptions x1 x2 x3 x4 x5 x6 x7 x8 x9 x10 x11 x12 x13 x14
    _ x16 x17 x18 x19 x20 x21 x22 x23 x24 x25 x26 x27 x28 x29 x30 x31 x32 := o in
  Build_CommandLineOptions x1 x2 x3 x4 x5 x6 x7 x8 x9 x10 x11 x12 x13 x14 v
    x16 x17 x18 x19 x20 x21 x22 x23 x24 x25 x26 x27 x28 x29 x30 x31 x32.
Definition set_targetMachine (v : Machine.t) (o : CommandLineOptions)
  : CommandLineOptions :=
  let 'Build_CommandLineOptions x1 x2 x3 x4 x5 x6 x7 x8 x9 x10 x11 x12 x13 x14
    x15 _ x17 x18 x19 x20 x21 x22 x23 x24 x25 x26 x27 x28 x29 x30 x31 x32 := o in
  Build_CommandLineOptions x1 x2 x3 x4 x5 x6 x7 x8 x9 x10 x11 x12 x13 x14 x15
    v x17 x18 x19 x20 x21 x22 x23 x24 x25 x26 x27 x28 x29 x30 x31 x32.
Definition set_inputAssemblyLanguage (v : Input.t) (o : CommandLineOptions)
  : CommandLineOptions :=
  let 'Build_CommandLineOptions x1 x2 x3 x4 x5 x6 x7 x8 x9 x10 x11 x12 x13 x14
    x15 x16 _ x18 x19 x20 x21 x22 x23 x24 x25 x26 x27 x28 x29 x30 x31 x32 := o in
  Build_CommandLineOptions x1 x2 x3 x4 x5 x6 x7 x8 x9 x10 x11 x12 x13 x14 x15
    x16 v x18 x19 x20 x21 x22 x23 x24 x25 x26 x27 x28 x29 x30 x31 x32.
Definition set_libraries (v : gmap string h160) (o : CommandLineOptions)
  : CommandLineOptions :=
  let 'Build_CommandLineOptions x1 x2 x3 x4 x5 x6 x7 x8 x9 x10 x11 x12 x13 x14
    x15 x16 x17 _ x19 x20 x21 x22 x23 x24 x25 x26 x27 x28 x29 x30 x31 x32 := o in
  Build_CommandLineOptions x1 x2 x3 x4 x5 x6 x7 x8 x9 x10 x11 x12 x13 x14 x15
    x16 x17 v x19 x20 x21 x22 x23 x24 x25 x26 x27 x28 x29 x30 x31 x32.
Definition set_prettyJson (v : bool) (o : CommandLineOptions)
  : CommandLineOptions :=
  let 'Build_CommandLineOptions x1 x2 x3 x4 x5 x6 x7 x8 x9 x10 x11 x12 x13 x14
    x15 x16 x17 x18 _ x20 x21 x22 x23 x24 x25 x26 x27 x28 x29 x30 x31 x32 := o in
  Build_CommandLineOptions x1 x2 x3 x4 x5 x6 x7 x8 x9 x10 x11 x12 x13 x14 x15
    x16 x17 x18 v x20 x21 x22 x23 x24 x25 x26 x27 x28 x29 x30 x31 x32.
Definition set_coloredOutput (v : option bool) (o : CommandLineOptions)
  : CommandLineOptions :=
  let 'Build_CommandLineOptions x1 x2 x3 x4 x5 x6 x7 x8 x9 x10 x11 x12 x13 x14
    x15 x16 x17 x18 x19 _ x21 x22 x23 x24 x25 x26 x27 x28 x29 x30 x31 x32 := o in
  Build_CommandLineOptions x1 x2 x3 x4 x5 x6 x7 x8 x9 x10 x11 x12 x13 x14 x15
    x16 x17 x18 x19 v x21 x22 x23 x24 x25 x26 x27 x28 x29 x30 x31 x32.
Definition set_withErrorIds (v : bool) (o : CommandLineOptions)
  : CommandLineOptions :=
  let 'Build_CommandLineOptions x1 x2 x3 x4 x5 x6 x7 x8 x9 x10 x11 x12 x13 x14
    x15 x16 x17 x18 x19 x20 _ x22 x23 x24 x25 x26 x27 x28 x29 x30 x31 x32 := o in
  Build_CommandLineOptions x1 x2 x3 x4 x5 x6 x7 x8 x9 x10 x11 x12 x13 x14 x15
    x16 x17 x18 x19 x20 v x22 x23 x24 x25 x26 x27 x28 x29 x30 x31 x32.
Definition set_selectedOutputs (v : OutputSelection.t) (o : CommandLineOptions)
  : CommandLineOptions :=
  let 'Build_CommandLineOptions x1 x2 x3 x4 x5 x6 x7 x8 x9 x10 x11 x12 x13 x14
    x15 x16 x17 x18 x19 x20 x21 _ x23 x24 x25 x26 x27 x28 x29 x30 x31 x32 := o in
  Build_CommandLineOptions x1 x2 x3 x4 x5 x6 x7 x8 x9 x10 x11 x12 x13 x14 x15
    x16 x17 x18 x19 x20 x21 v x23 x24 x25 x26 x27 x28 x29 x30 x31 x32.
Definition set_estimateGas (v : bool) (o : CommandLineOptions)
  : CommandLineOptions :=
  let 'Build_CommandLineOptions x1 x2 x3 x4 x5 x6 x7 x8 x9 x10 x11 x12 x13 x14
    x15 x16 x17 x18 x19 x20 x21 x22 _ x24 x25 x26 x27 x28 x29 x30 x31 x32 := o in
  Build_CommandLineOptions x1 x2 x3 x4 x5 x6 x7 x8 x9 x10 x11 x12 x13 x14 x15
    x16 x17 x18 x19 x20 x21 x22 v x24 x25 x26 x27 x28 x29 x30 x31 x32.
Definition set_combinedJsonRequests (v : option CombinedJsonRequests.t) (o : CommandLineOptions)
  : CommandLineOptions :=
  let 'Build_CommandLineOptions x1 x2 x3 x4 x5 x6 x7 x8 x9 x10 x11 x12 x13 x14
    x15 x16 x17 x18 x19 x20 x21 x22 x23 _ x25 x26 x27 x28 x29 x30 x31 x32 := o in
  Build_CommandLineOptions x1 x2 x3 x4 x5 x6 x7 x8 x9 x10 x11 x12 x13 x14 x15
    x16 x17 x18 x19 x20 x21 x22 x23 v x25 x26 x27 x28 x29 x30 x31 x32.
Definition set_metadataHash (v : CompilerStack.MetadataHash) (o : CommandLineOptions)
  : CommandLineOptions :=
  let 'Build_CommandLineOptions x1 x2 x3 x4 x5 x6 x7 x8 x9 x10 x11 x12 x13 x14
    x15 x16 x17 x18 x19 x20 x21 x22 x23 x24 _ x26 x27 x28 x29 x30 x31 x32 := o in
  Build_CommandLineOptions x1 x2 x3 x4 x5 x6 x7 x8 x9 x10 x11 x12 x13 x14 x15
    x16 x17 x18 x19 x20 x21 x22 x23 x24 v x26 x27 x28 x29 x30 x31 x32.
Definition set_metadataLiteral (v : bool) (o : CommandLineOptions)
  : CommandLineOptions :=
  let 'Build_CommandLineOptions x1 x2 x3 x4 x5 x6 x7 x8 x9 x10 x11 x12 x13 x14
    x15 x16 x17 x18 x19 x20 x21 x22 x23 x24 x25 _ x27 x28 x29 x30 x31 x32 := o in
  Build_CommandLineOptions x1 x2 x3 x4 x5 x6 x7 x8 x9 x10 x11 x12 x13 x14 x15
    x16 x17 x18 x19 x20 x21 x22 x23 x24 x25 v x27 x28 x29 x30 x31 x32.
Definition set_optimize (v : bool) (o : CommandLineOptions)
  : CommandLineOptions :=
  let 'Build_CommandLineOptions x1 x2 x3 x4 x5 x6 x7 x8 x9 x10 x11 x12 x13 x14
    x15 x16 x17 x18 x19 x20 x21 x22 x23 x24 x25 x26 _ x28 x29 x30 x31 x32 := o in
  Build_CommandLineOptions x1 x2 x3 x4 x5 x6 x7 x8 x9 x10 x11 x12 x13 x14 x15
    x16 x17 x18 x19 x20 x21 x22 x23 x24 x25 x26 v x28 x29 x30 x31 x32.
Definition set_expectedExecutionsPerDeployment (v : N) (o : CommandLineOptions)
  : CommandLineOptions :=
  let 'Build_CommandLineOptions x1 x2 x3 x4 x5 x6 x7 x8 x9 x10 x11 x12 x13 x14
    x15 x16 x17 x18 x19 x20 x21 x22 x23 x24 x25 x26 x27 _ x29 x30 x31 x32 := o in
  Build_CommandLineOptions x1 x2 x3 x4 x5 x6 x7 x8 x9 x10 x11 x12 x13 x14 x15
    x16 x17 x18 x19 x20 x21 x22 x23 x24 x25 x26 x27 v x29 x30 x31 x32.
Definition set_noOptimizeYul (v : bool) (o : CommandLineOptions)
  : CommandLineOptions :=
  let 'Build_CommandLineOptions x1 x2 x3 x4 x5 x6 x7 x8 x9 x10 x11 x12 x13 x14
    x15 x16 x17 x18 x19 x20 x21 x22 x23 x24 x25 x26 x27 x28 _ x30 x31 x32 := o in
  Build_CommandLineOptions x1 x2 x3 x4 x5 x6 x7 x8 x9 x10 x11 x12 x13 x14 x15
    x16 x17 x18 x19 x20 x21 x22 x23 x24 x25 x26 x27 x28 v x30 x31 x32.
Definition set_yulOptimiserSteps (v : option string) (o : CommandLineOptions)
  : CommandLineOptions :=
  let 'Build_CommandLineOptions x1 x2 x3 x4 x5 x6 x7 x8 x9 x10 x11 x12 x13 x14
    x15 x16 x17 x18 x19 x20 x21 x22 x23 x24 x25 x26 x27 x28 x29 _ x31 x32 := o in
  Build_CommandLineOptions x1 x2 x3 x4 x5 x6 x7 x8 x9 x10 x11 x12 x13 x14 x15
    x16 x17 x18 x19 x20 x21 x22 x23 x24 x25 x26 x27 x28 x29 v x31 x32.
Definition set_initializeModelChecker (v : bool) (o : CommandLineOptions)
  : CommandLineOptions :=
  let 'Build_CommandLineOptions x1 x2 x3 x4 x5 x6 x7 x8 x9 x10 x11 x12 x13 x14
    x15 x16 x17 x18 x19 x20 x21 x22 x23 x24 x25 x26 x27 x28 x29 x30 _ x32 := o in
  Build_CommandLineOptions x1 x2 x3 x4 x5 x6 x7 x8 x9 x10 x11 x12 x13 x14 x15
    x16 x17 x18 x19 x20 x21 x22 x23 x24 x25 x26 x27 x28 x29 x30 v x32.
Definition set_modelCheckerSettings (v : ModelCheckerSettings) (o : CommandLineOptions)
  : CommandLineOptions :=
  let 'Build_CommandLineOptions x1 x2 x3 x4 x5 x6 x7 x8 x9 x10 x11 x12 x13 x14
    x15 x16 x17 x18 x19 x20 x21 x22 x23 x24 x25 x26 x27 x28 x29 x30 x31 _ := o in
  Build_CommandLineOptions x1 x2 x3 x4 x5 x6 x7 x8 x9 x10 x11 x12 x13 x14 x15
    x16 x17 x18 x19 x20 x21 x22 x23 x24 x25 x26 x27 x28 x29 x30 x31 v.

(** The members of [CommandLineParser] that [parse] writes.  The two
    streams are the text written to them so far. *)
#[projections(primitive)]
Record CommandLineParser := {
  m_options : CommandLineOptions;
  m_sout : string;
  m_serr : string;
  m_hasOutput : bool
}.

(** A statement of a member function. *)
Definition M (A : Type) : Type :=
  CommandLineParser -> Step A * CommandLineParser.

#[global] Instance M_ret : MRet M :=
  fun A (a : A) st => (Cont a, st).

#[global] Instance M_bind : MBind M :=
  fun A B (f : A -> M B) (m : M A) st =>
    match m st with
    | (Cont a, st') => f a st'
    | (Done o, st') => (Done o, st')
    end.

(** [return b;] *)
Definition return_ {A : Type} (b : bool) : M A :=
  fun st => (Done (Returned b), st).

(** [exit(status);] *)
Definition exit {A : Type} (status : Z) : M A :=
  fun st => (Done (Exited status), st).

(** [throw ...;] with nobody catching *)
Definition throw {A : Type} (what : string) : M A :=
  fun st => (Done (Thrown what), st).

(** The value of a call that may throw *)
Definition try {A : Type} (r : option A) (what : string) : M A :=
  match r with
  | Some a => mret a
  | None => throw what
  end.

(** [sout() << s] *)
Definition sout (s : string) : M unit :=
  fun st =>
    (Cont tt,
     {| m_options := m_options st; m_sout := m_sout st +:+ s;
        m_serr := m_serr st; m_hasOutput := true |}).

(** [serr() << s] *)
Definition serr (s : string) : M unit :=
  fun st =>
    (Cont tt,
     {| m_options := m_options st; m_sout := m_sout st;
        m_serr := m_serr st +:+ s; m_hasOutput := true |}).

(** Reading [m_options] *)
Definition options : M CommandLineOptions :=
  fun st => (Cont (m_options st), st).

(** [m_options.member = v], as [assign (set_member v)] *)
Definition assign (f : CommandLineOptions -> CommandLineOptions) : M unit :=
  fun st =>
    (Cont tt,
     {| m_options := f (m_options st); m_sout := m_sout st;
        m_serr := m_serr st; m_hasOutput := m_hasOutput st |}).

(** [if (c) { ... }] *)
Definition when (c : bool) (body : M unit) : M unit :=
  if c then body else mret tt.

(** [for (x: l) { ... }] *)
Fixpoint for_each {A : Type} (l : list A) (body : A -> M unit) : M unit :=
  match l with
  | [] => mret tt
  | x :: l' => body x;; for_each l' body
  end.

(** [solAssert(c, "")] *)
Definition solAssert (c : bool) : M unit :=
  if c then mret tt else throw "InternalCompilerError".

(** A call of a [bool] member function from another one: the callee's
    [return b] is the value of the call; [exit] and exceptions go on. *)
Definition call (body : M Empty_set) : M bool :=
  fun st =>
    match body st with
    | (Cont e, _) => match e with end
    | (Done (Returned b), st') => (Cont b, st')
    | (Done o, st') => (Done o, st')
    end.

(** A whole run of a member function from state [st]. *)
Definition run (body : M Empty_set) (st : CommandLineParser)
  : Outcome * CommandLineParser :=
  match body st with
  | (Cont e, _) => match e with end
  | (Done o, st') => (o, st')
  end.

(** *** Reading [m_args] *)

(** A [size_t] used as a condition, or compared with [> 0] *)
Definition nonzero (n : nat) : bool := negb (Nat.eqb n 0).

(** [m_args.count(name)] *)
Definition count (args : variables_map) (name : string) : nat :=
  match args !! name with
  | Some _ => 1
  | None => 0
  end.

(** [m_args[name].as<string>()]; a missing entry or another type is a
    [boost::bad_any_cast]. *)
Definition as_string (args : variables_map) (name : string) : M string :=
  match args !! name with
  | Some (string_value s) => mret s
  | _ => throw "boost::bad_any_cast"
  end.

(** [m_args[name].as<vector<string>>()] *)
Definition as_strings (args : variables_map) (name : string)
  : M (list string) :=
  match args !! name with
  | Some (strings_value l) => mret l
  | _ => throw "boost::bad_any_cast"
  end.

(** [m_args[name].as<unsigned>()] *)
Definition as_unsigned (args : variables_map) (name : string) : M N :=
  match args !! name with
  | Some (unsigned_value n) => mret n
  | _ => throw "boost::bad_any_cast"
  end.

Definition quote : string := String (ascii_of_nat 34) "".

Definition version : M unit :=
  sout ("solc, the solidity compiler commandline interface" +:+ endl
        +:+ "Version: " +:+ VersionString +:+ endl);;
  exit 0.

Definition license : M unit :=
  sout (otherLicenses +:+ endl);;
  sout (licenseText +:+ endl);;
  exit 0.

Definition checkMutuallyExclusive
  (args : variables_map) (_optionA _optionB : string) : M bool :=
  if (nonzero (count args _optionA)) && (nonzero (count args _optionB)) then
    serr ("Option " +:+ _optionA +:+ " and " +:+ _optionB
          +:+ " are mutually exclusive." +:+ endl);;
    mret false
  else
    mret true.

Definition countEnabledOptions
  (args : variables_map) (_optionNames : list string) : nat :=
  fold_left (fun count_ _option => count_ + count args _option) _optionNames 0.

Definition joinOptionNames (_optionNames : list string) (_separator : string)
  : string :=
  join (map (fun _option => "--" +:+ _option) _optionNames) _separator.

(** The body of the loop of [parseInputPathsAndRemappings], for one
    positional argument [path]. *)
Definition parseInputPath (path : string) : M unit :=
  match find_char "=" path with
  | Some eq =>
      match parseRemapping path with
      | Some r => assign (fun o => set_remappings (remappings o ++ [r])%list o)
      | None =>
          serr ("Invalid remapping: " +:+ quote +:+ path +:+ quote
                +:+ "." +:+ endl);;
          return_ false
      end;;
      let remappingTarget := string_drop (S eq) path in
      assign (fun o =>
        set_allowedDirectories
          ({[ path_remove_filename remappingTarget ]} ∪ allowedDirectories o) o)
  | None =>
      if String.eqb path "-" then
        assign (set_addStdin true)
      else
        assign (fun o => set_sourceFilePaths ({[ path ]} ∪ sourceFilePaths o) o)
  end.

Definition parseInputPathsAndRemappings (args : variables_map) : M Empty_set :=
  assign (set_ignoreMissingInputFiles (nonzero (count args g_argIgnoreMissingFiles)));;
  when (nonzero (count args g_argInputFile)) (
    paths ← as_strings args g_argInputFile;
    for_each paths parseInputPath
  );;
  return_ true.

(** The body of the loop of [parseLibraryOption], for one element [lib] of
    the split input. *)
Definition parseLibrary (lib : string) : M unit :=
  when (negb (String.eqb lib "")) (
    '(separator, isSeparatorEqualSign) ←
      match rfind_char "=" lib with
      | None =>
          match rfind_char ":" lib with
          | None =>
              serr ("Equal sign separator missing in library address specifier "
                    +:+ quote +:+ lib +:+ quote +:+ endl);;
              return_ false
          | Some separator => mret (separator, false)
          end
      | Some separator =>
          if negb (bool_decide (rfind_char "=" lib = find_char "=" lib)) then
            serr ("Only one equal sign " +:+ quote +:+ "=" +:+ quote
                  +:+ " is allowed in the address string "
                  +:+ quote +:+ lib +:+ quote +:+ "." +:+ endl);;
            return_ false
          else mret (separator, true)
      end;
    let libName := trim (string_take separator lib) in
    o ← options;
    when (bool_decide (is_Some (libraries o !! libName))) (
      serr ("Address specified more than once for library "
            +:+ quote +:+ libName +:+ quote +:+ "." +:+ endl);;
      return_ false
    );;
    let addrString := trim (string_drop (S separator) lib) in
    when (String.eqb addrString "") (
      serr ("Empty address provided for library "
            +:+ quote +:+ libName +:+ quote +:+ "." +:+ endl);;
      serr ("Note that there should not be any whitespace after the "
            +:+ (if isSeparatorEqualSign : bool then "equal sign" else "colon")
            +:+ "." +:+ endl);;
      return_ false
    );;
    addrString ←
      (if String.eqb (string_take 2 addrString) "0x" then
         mret (string_drop 2 addrString)
       else
         serr ("The address " +:+ addrString +:+ " is not prefixed with "
               +:+ quote +:+ "0x" +:+ quote +:+ "." +:+ endl);;
         serr ("Note that the address must be prefixed with "
               +:+ quote +:+ "0x" +:+ quote +:+ "." +:+ endl);;
         return_ false);
    when (negb (Nat.eqb (String.length addrString) 40)) (
      serr ("Invalid length for address for library "
            +:+ quote +:+ libName +:+ quote +:+ ": "
            +:+ decimal (String.length addrString)
            +:+ " instead of 40 characters." +:+ endl);;
      return_ false
    );;
    passes ← try (passesAddressChecksum addrString false) "InvalidAddress";
    when (negb passes) (
      serr ("Invalid checksum on address for library "
            +:+ quote +:+ libName +:+ quote +:+ ": " +:+ addrString +:+ endl);;
      serr "The correct checksum is ";;
      checksummed ← try (getChecksummedAddress addrString) "InvalidAddress";
      serr (checksummed +:+ endl);;
      return_ false
    );;
    let binAddr := fromHex addrString in
    let address := h160_AlignRight binAddr in
    when (Nat.ltb 20 (List.length binAddr) || h160_eqb address h160_zero) (
      serr ("Invalid address for library "
            +:+ quote +:+ libName +:+ quote +:+ ": " +:+ addrString +:+ endl);;
      return_ false
    );;
    assign (fun o => set_libraries (<[ libName := address ]> (libraries o)) o)
  ).

Definition parseLibraryOption (_input : string) : M Empty_set :=
  let data :=
    match is_regular_file _input with
    | Some true =>
        match readFileAsString _input with
        | Some content => content
        | None => _input
        end
    | _ => _input
    end in
  let libraries_ := split_compress (fun c => is_space c || is_comma c) data in
  for_each libraries_ parseLibrary;;
  return_ true.

(** The 17 members of a [CombinedJsonRequests] as [parseCombinedJsonOption]
    assigns them from the set of requested names. *)
Definition requested (requests : list string) : CombinedJsonRequests.t :=
  {|
    CombinedJsonRequests.abi := nonzero (set_count g_strAbi requests);
    CombinedJsonRequests.metadata := nonzero (set_count "metadata" requests);
    CombinedJsonRequests.binary := nonzero (set_count g_strBinary requests);
    CombinedJsonRequests.binaryRuntime := nonzero (set_count g_strBinaryRuntime requests);
    CombinedJsonRequests.opcodes := nonzero (set_count g_strOpcodes requests);
    CombinedJsonRequests.asm_ := nonzero (set_count g_strAsm requests);
    CombinedJsonRequests.storageLayout := nonzero (set_count g_strStorageLayout requests);
    CombinedJsonRequests.generatedSources := nonzero (set_count g_strGeneratedSources requests);
    CombinedJsonRequests.generatedSourcesRuntime :=
      nonzero (set_count g_strGeneratedSourcesRuntime requests);
    CombinedJsonRequests.srcMap := nonzero (set_count g_strSrcMap requests);
    CombinedJsonRequests.srcMapRuntime := nonzero (set_count g_strSrcMapRuntime requests);
    CombinedJsonRequests.funDebug := nonzero (set_count g_strFunDebug requests);
    CombinedJsonRequests.funDebugRuntime := nonzero (set_count g_strFunDebugRuntime requests);
    CombinedJsonRequests.signatureHashes := nonzero (set_count g_strSignatureHashes requests);
    CombinedJsonRequests.natspecDev := nonzero (set_count g_strNatspecDev requests);
    CombinedJsonRequests.natspecUser := nonzero (set_count g_strNatspecUser requests);
    CombinedJsonRequests.ast := nonzero (set_count g_strAst requests)
  |}.

Definition parseCombinedJsonOption (args : variables_map) : M Empty_set :=
  when (negb (nonzero (count args g_argCombinedJson))) (return_ true);;
  value ← as_string args g_argCombinedJson;
  let requests := set_of_list (split is_comma value) in
  for_each requests (fun item =>
    when (negb (nonzero (set_count item g_combinedJsonArgs))) (
      serr ("Invalid option to --" +:+ g_argCombinedJson +:+ ": " +:+ item
            +:+ endl);;
      return_ false
    ));;
  assign (set_combinedJsonRequests (Some (requested requests)));;
  return_ true.

(** *** [CommandLineParser::parse]

    The body of [parse] follows the source from the call of the tokenizer
    on.  It is cut, in source order, into the blocks below; [parse_body]
    is their sequence.  [cmdline] is what the tokenizer stored into
    [m_args]; no notifier is registered, so [po::notify] does nothing. *)

Definition conflictingWithStopAfter : list string :=
  [ g_argBinary; g_argIR; g_argIROptimized; g_argEwasm; g_argGas; g_argAsm;
    g_argAsmJson; g_argOpcodes ].

(** the mutual exclusions of [--color], [--no-color] and [--stop-after] *)
Definition parseExclusions (args : variables_map) : M unit :=
  ok ← checkMutuallyExclusive args g_argColor g_argNoColor;
  when (negb ok) (return_ false);;
  for_each conflictingWithStopAfter (fun option =>
    ok ← checkMutuallyExclusive args g_strStopAfter option;
    when (negb ok) (return_ false)).

Definition parseOutputFormatting (args : variables_map) : M unit :=
  (if nonzero (count args g_argColor) then
     assign (set_coloredOutput (Some true))
   else if nonzero (count args g_argNoColor) then
     assign (set_coloredOutput (Some false))
   else
     o ← options;
     solAssert (negb (bool_decide (is_Some (coloredOutput o)))));;
  assign (set_withErrorIds (nonzero (count args g_argErrorIds))).

(** [--help], [--version], [--license] *)
Definition parseEarlyExits
  (args : variables_map) (_argc : nat) (interactiveTerminal : bool) : M unit :=
  when (nonzero (count args g_argHelp)
        || (interactiveTerminal && Nat.eqb _argc 1)) (
    sout desc;;
    return_ false
  );;
  when (nonzero (count args g_argVersion)) (
    version;;
    return_ false
  );;
  when (nonzero (count args g_strLicense)) (
    license;;
    return_ false
  ).

Definition parseRevertStrings (args : variables_map) : M unit :=
  when (nonzero (count args g_strRevertStrings)) (
    revertStringsString ← as_string args g_strRevertStrings;
    match revertStringsFromString revertStringsString with
    | None =>
        serr ("Invalid option for --" +:+ g_strRevertStrings +:+ ": "
              +:+ revertStringsString +:+ endl);;
        return_ false
    | Some RevertStrings.VerboseDebug =>
        serr ("Only " +:+ quote +:+ "default" +:+ quote +:+ ", "
              +:+ quote +:+ "strip" +:+ quote +:+ " and "
              +:+ quote +:+ "debug" +:+ quote +:+ " are implemented for --"
              +:+ g_strRevertStrings +:+ " for now." +:+ endl);;
        return_ false
    | Some revertStrings_ => assign (set_revertStrings revertStrings_)
    end
  ).

Definition parseCombinedJson (args : variables_map) : M unit :=
  ok ← call (parseCombinedJsonOption args);
  when (negb ok) (return_ false).

(** output directory, output components, base path and allowed paths *)
Definition parseOutputOptions (args : variables_map) : M unit :=
  when (nonzero (count args g_argOutputDir)) (
    outputDir_ ← as_string args g_argOutputDir;
    assign (set_outputDir outputDir_)
  );;
  assign (set_overwriteFiles (nonzero (count args g_strOverwrite)));;
  assign (set_prettyJson (nonzero (count args g_argPrettyJson)));;
  assign (set_selectedOutputs {|
    OutputSelection.astCompactJson := nonzero (count args g_argAstCompactJson);
    OutputSelection.asm_ := nonzero (count args g_argAsm);
    OutputSelection.asmJson := nonzero (count args g_argAsmJson);
    OutputSelection.opcodes := nonzero (count args g_argOpcodes);
    OutputSelection.binary := nonzero (count args g_argBinary);
    OutputSelection.binaryRuntime := nonzero (count args g_argBinaryRuntime);
    OutputSelection.abi := nonzero (count args g_argAbi);
    OutputSelection.ir := nonzero (count args g_argIR);
    OutputSelection.irOptimized := nonzero (count args g_argIROptimized);
    OutputSelection.ewasm := nonzero (count args g_argEwasm);
    OutputSelection.signatureHashes := nonzero (count args g_argSignatureHashes);
    OutputSelection.natspecUser := nonzero (count args g_argNatspecUser);
    OutputSelection.natspecDev := nonzero (count args g_argNatspecDev);
    OutputSelection.metadata := nonzero (count args g_argMetadata);
    OutputSelection.storageLayout := nonzero (count args g_argStorageLayout)
  |});;
  assign (set_estimateGas (nonzero (count args g_argGas)));;
  when (nonzero (count args g_argBasePath)) (
    basePath_ ← as_string args g_argBasePath;
    assign (set_basePath basePath_)
  );;
  when (nonzero (count args g_argAllowPaths)) (
    allowPaths ← as_string args g_argAllowPaths;
    for_each (split is_comma allowPaths) (fun path =>
      let filesystem_path :=
        if String.eqb (path_filename path) "." then path_remove_filename path
        else path in
      assign (fun o =>
        set_allowedDirectories ({[ filesystem_path ]} ∪ allowedDirectories o) o))
  ).

Definition parseStopAfter (args : variables_map) : M unit :=
  when (nonzero (count args g_strStopAfter)) (
    stopAfter_ ← as_string args g_strStopAfter;
    if negb (String.eqb stopAfter_ "parsing") then
      serr ("Valid options for --" +:+ g_strStopAfter +:+ " are: "
            +:+ quote +:+ "parsing" +:+ quote +:+ "." +:+ endl);;
      return_ false
    else
      assign (set_stopAfter (Some CompilerStack.Parsed))
  ).

Definition exclusiveModes : list string :=
  [ g_argStandardJSON; g_argLink; g_argAssemble; g_argStrictAssembly; g_argYul;
    g_argImportAst ].

Definition parseExclusiveModes (args : variables_map) : M unit :=
  when (Nat.ltb 1 (countEnabledOptions args exclusiveModes)) (
    serr ("The following options are mutually exclusive: "
          +:+ joinOptionNames exclusiveModes joinOptionNames_separator +:+ ". ");;
    serr ("Select at most one." +:+ endl);;
    return_ false
  ).

Definition parseStandardJson (args : variables_map) : M unit :=
  when (nonzero (count args g_argStandardJSON)) (
    assign (set_inputMode InputMode.StandardJson);;
    inputFiles ←
      (if nonzero (count args g_argInputFile) then as_strings args g_argInputFile
       else mret []);
    match inputFiles with
    | [] => mret tt
    | [inputFile] => assign (set_standardJsonInputFile (Some inputFile))
    | _ =>
        serr ("If --" +:+ g_argStandardJSON
              +:+ " is used, only zero or one input files are supported."
              +:+ endl);;
        return_ false
    end;;
    return_ true
  ).

Definition parseInputs (args : variables_map) : M unit :=
  ok ← call (parseInputPathsAndRemappings args);
  when (negb ok) (return_ false).

Definition parseLibraries (args : variables_map) : M unit :=
  when (nonzero (count args g_argLibraries)) (
    libraries_ ← as_strings args g_argLibraries;
    for_each libraries_ (fun library =>
      ok ← call (parseLibraryOption library);
      when (negb ok) (return_ false))
  ).

Definition parseEVMVersion (args : variables_map) : M unit :=
  when (nonzero (count args g_strEVMVersion)) (
    versionOptionStr ← as_string args g_strEVMVersion;
    match EVMVersion_fromString versionOptionStr with
    | None =>
        serr ("Invalid option for --" +:+ g_strEVMVersion +:+ ": "
              +:+ versionOptionStr +:+ endl);;
        return_ false
    | Some versionOption => assign (set_evmVersion versionOption)
    end
  ).

Definition nonAssemblyModeOptions : list string :=
  [ g_argOutputDir; g_argGas; g_argCombinedJson; g_strOptimizeYul;
    g_strNoOptimizeYul ].

(** the Yul optimizer step sequence, as both the assembler branch and the
    compiler branch handle it once they know whether the optimizer runs *)
Definition parseYulOptimizations (args : variables_map) (enabled : bool)
  : M unit :=
  when (nonzero (count args g_strYulOptimizations)) (
    when (negb enabled) (
      serr ("--" +:+ g_strYulOptimizations
            +:+ " is invalid if Yul optimizer is disabled" +:+ endl);;
      return_ false
    );;
    steps ← as_string args g_strYulOptimizations;
    match validateSequence steps with
    | Some what =>
        serr ("Invalid optimizer step sequence in --" +:+ g_strYulOptimizations
              +:+ ": " +:+ what +:+ endl);;
        return_ false
    | None => mret tt
    end;;
    assign (set_yulOptimiserSteps (Some steps))
  ).

Definition parseAssembler (args : variables_map) : M unit :=
  if nonzero (count args g_argAssemble)
     || nonzero (count args g_argStrictAssembly)
     || nonzero (count args g_argYul)
  then
    assign (set_inputMode InputMode.Assembler);;
    when (Nat.leb 1 (countEnabledOptions args nonAssemblyModeOptions)) (
      let optionEnabled := fun name => nonzero (count args name) in
      let enabledOptions := List.filter optionEnabled nonAssemblyModeOptions in
      serr "The following options are invalid in assembly mode: ";;
      serr (joinOptionNames enabledOptions joinOptionNames_separator +:+ ".");;
      when (nonzero (count args g_strOptimizeYul)
            || nonzero (count args g_strNoOptimizeYul)) (
        serr (" Optimization is disabled by default and can be enabled with --"
              +:+ g_argOptimize +:+ "." +:+ endl)
      );;
      serr endl;;
      return_ false
    );;
    assign (set_inputAssemblyLanguage
      (if nonzero (count args g_argYul) then Input.Yul
       else if nonzero (count args g_argStrictAssembly) then Input.StrictAssembly
       else Input.Assembly));;
    assign (set_optimize (nonzero (count args g_argOptimize)));;
    assign (set_noOptimizeYul (nonzero (count args g_strNoOptimizeYul)));;
    o ← options;
    parseYulOptimizations args (optimize o);;
    when (nonzero (count args g_argMachine)) (
      machine ← as_string args g_argMachine;
      if String.eqb machine g_strEVM then
        assign (set_targetMachine Machine.EVM)
      else if String.eqb machine g_strEwasm then
        assign (set_targetMachine Machine.Ewasm)
      else
        serr ("Invalid option for --" +:+ g_argMachine +:+ ": " +:+ machine
              +:+ endl);;
        return_ false
    );;
    o ← options;
    when (bool_decide (targetMachine o = Machine.Ewasm)
          && bool_decide (inputAssemblyLanguage o = Input.StrictAssembly)) (
      assign (set_inputAssemblyLanguage Input.Ewasm)
    );;
    when (nonzero (count args g_strYulDialect)) (
      dialect ← as_string args g_strYulDialect;
      if String.eqb dialect g_strEVM then
        assign (set_inputAssemblyLanguage Input.StrictAssembly)
      else if String.eqb dialect g_strEwasm then
        assign (set_inputAssemblyLanguage Input.Ewasm);;
        o ← options;
        when (negb (bool_decide (targetMachine o = Machine.Ewasm))) (
          serr ("If you select Ewasm as --" +:+ g_strYulDialect +:+ ", ");;
          serr ("--" +:+ g_argMachine +:+ " has to be Ewasm as well." +:+ endl);;
          return_ false
        )
      else
        serr ("Invalid option for --" +:+ g_strYulDialect +:+ ": " +:+ dialect
              +:+ endl);;
        return_ false
    );;
    o ← options;
    when (optimize o
          && (negb (bool_decide (inputAssemblyLanguage o = Input.StrictAssembly))
              && negb (bool_decide (inputAssemblyLanguage o = Input.Ewasm)))) (
      serr ("Optimizer can only be used for strict assembly. Use --"
            +:+ g_strStrictAssembly +:+ "." +:+ endl);;
      return_ false
    );;
    when (bool_decide (targetMachine o = Machine.Ewasm)
          && negb (bool_decide (inputAssemblyLanguage o = Input.StrictAssembly))
          && negb (bool_decide (inputAssemblyLanguage o = Input.Ewasm))) (
      serr "The selected input language is not directly supported when targeting the Ewasm machine ";;
      serr ("and automatic translation is not available." +:+ endl);;
      return_ false
    );;
    serr ("Warning: Yul is still experimental. Please use the output with care."
          +:+ endl);;
    return_ true
  else
    when (Nat.leb 1 (countEnabledOptions args [g_strYulDialect; g_argMachine])) (
      serr ("--" +:+ g_strYulDialect +:+ " and --" +:+ g_argMachine +:+ " ");;
      serr ("are only valid in assembly mode." +:+ endl);;
      return_ false
    ).

Definition parseLinker (args : variables_map) : M unit :=
  when (nonzero (count args g_argLink)) (
    assign (set_inputMode InputMode.Linker);;
    return_ true
  ).

(** metadata and model checker options of the compiler mode *)
Definition parseCompilerSettings (args : variables_map) : M unit :=
  when (nonzero (count args g_argMetadataHash)) (
    hashStr ← as_string args g_argMetadataHash;
    if String.eqb hashStr g_strIPFS then
      assign (set_metadataHash CompilerStack.IPFS)
    else if String.eqb hashStr g_strSwarm then
      assign (set_metadataHash CompilerStack.Bzzr1)
    else if String.eqb hashStr g_strNone then
      assign (set_metadataHash CompilerStack.None)
    else
      serr ("Invalid option for --" +:+ g_argMetadataHash +:+ ": " +:+ hashStr
            +:+ endl);;
      return_ false
  );;
  when (nonzero (count args g_argModelCheckerContracts)) (
    contractsStr ← as_string args g_argModelCheckerContracts;
    match ModelCheckerContracts_fromString contractsStr with
    | None =>
        serr ("Invalid option for --" +:+ g_argModelCheckerContracts +:+ ": "
              +:+ contractsStr +:+ endl);;
        return_ false
    | Some contracts_ =>
        assign (fun o =>
          set_modelCheckerSettings (set_contracts contracts_ (modelCheckerSettings o)) o)
    end
  );;
  when (nonzero (count args g_argModelCheckerEngine)) (
    engineStr ← as_string args g_argModelCheckerEngine;
    match ModelCheckerEngine_fromString engineStr with
    | None =>
        serr ("Invalid option for --" +:+ g_argModelCheckerEngine +:+ ": "
              +:+ engineStr +:+ endl);;
        return_ false
    | Some engine_ =>
        assign (fun o =>
          set_modelCheckerSettings (set_engine engine_ (modelCheckerSettings o)) o)
    end
  );;
  when (nonzero (count args g_argModelCheckerTargets)) (
    targetsStr ← as_string args g_argModelCheckerTargets;
    match ModelCheckerTargets_fromString targetsStr with
    | None =>
        serr ("Invalid option for --" +:+ g_argModelCheckerTargets +:+ ": "
              +:+ targetsStr +:+ endl);;
        return_ false
    | Some targets_ =>
        assign (fun o =>
          set_modelCheckerSettings (set_targets targets_ (modelCheckerSettings o)) o)
    end
  );;
  when (nonzero (count args g_argModelCheckerTimeout)) (
    timeout_ ← as_unsigned args g_argModelCheckerTimeout;
    assign (fun o =>
      set_modelCheckerSettings (set_timeout (Some timeout_) (modelCheckerSettings o)) o)
  );;
  assign (set_metadataLiteral (nonzero (count args g_argMetadataLiteral)));;
  assign (set_initializeModelChecker
    (nonzero (count args g_argModelCheckerContracts)
     || nonzero (count args g_argModelCheckerEngine)
     || nonzero (count args g_argModelCheckerTargets)
     || nonzero (count args g_argModelCheckerTimeout)));;
  assign (set_experimentalViaIR (nonzero (count args g_argExperimentalViaIR)));;
  runs ← as_unsigned args g_argOptimizeRuns;
  assign (set_expectedExecutionsPerDeployment runs).

(** optimizer settings, then the choice between the two compiler modes *)
Definition parseCompilerOptimizer (args : variables_map) : M Empty_set :=
  assign (set_optimize (nonzero (count args g_argOptimize)));;
  assign (set_noOptimizeYul (nonzero (count args g_strNoOptimizeYul)));;
  o ← options;
  let settings :=
    if optimize o then OptimiserSettings_standard else OptimiserSettings_minimal in
  let settings :=
    if noOptimizeYul o then {| runYulOptimiser := false |} else settings in
  parseYulOptimizations args (runYulOptimiser settings);;
  (if nonzero (count args g_argImportAst) then
     assign (set_inputMode InputMode.CompilerWithASTImport)
   else
     assign (set_errorRecovery (nonzero (count args g_argErrorRecovery))));;
  o ← options;
  solAssert (bool_decide (inputMode o = InputMode.Compiler)
             || bool_decide (inputMode o = InputMode.CompilerWithASTImport));;
  return_ true.

(** [m_hasOutput = false;] *)
Definition reset_hasOutput : M unit :=
  fun st =>
    (Cont tt,
     {| m_options := m_options st; m_sout := m_sout st; m_serr := m_serr st;
        m_hasOutput := false |}).

Definition parse_body
  (cmdline : CommandLine) (_argc : nat) (interactiveTerminal : bool)
  : M Empty_set :=
  reset_hasOutput;;
  match cmdline with
  | po_error what =>
      serr (what +:+ endl);;
      return_ false
  | po_stored args =>
      parseExclusions args;;
      parseOutputFormatting args;;
      parseEarlyExits args _argc interactiveTerminal;;
      parseRevertStrings args;;
      parseCombinedJson args;;
      parseOutputOptions args;;
      parseStopAfter args;;
      parseExclusiveModes args;;
      parseStandardJson args;;
      parseInputs args;;
      parseLibraries args;;
      parseEVMVersion args;;
      parseAssembler args;;
      parseLinker args;;
      parseCompilerSettings args;;
      parseCompilerOptimizer args
  end.

Definition parse
  (cmdline : CommandLine) (_argc : nat) (interactiveTerminal : bool)
  (st : CommandLineParser) : Outcome * CommandLineParser :=
  run (parse_body cmdline _argc interactiveTerminal) st.

(** *** Program points of [parse]

    The statements of [parse] from its start up to a block, for a command
    line the tokenizer accepted.  [m st = (Cont tt, st')] says that [parse]
    gets past these statements and is in state [st'] then. *)

Definition parse_until_EarlyExits (args : variables_map) : M unit :=
  reset_hasOutput;;
  parseExclusions args;;
  parseOutputFormatting args.

Definition parse_until_CombinedJson
  (args : variables_map) (_argc : nat) (interactiveTerminal : bool) : M unit :=
  parse_until_EarlyExits args;;
  parseEarlyExits args _argc interactiveTerminal;;
  parseRevertStrings args.

Definition parse_until_ExclusiveModes
  (args : variables_map) (_argc : nat) (interactiveTerminal : bool) : M unit :=
  parse_until_CombinedJson args _argc interactiveTerminal;;
  parseCombinedJson args;;
  parseOutputOptions args;;
  parseStopAfter args.

Definition parse_until_Inputs
  (args : variables_map) (_argc : nat) (interactiveTerminal : bool) : M unit :=
  parse_until_ExclusiveModes args _argc interactiveTerminal;;
  parseExclusiveModes args;;
  parseStandardJson args.

Definition parse_until_Libraries
  (args : variables_map) (_argc : nat) (interactiveTerminal : bool) : M unit :=
  parse_until_Inputs args _argc interactiveTerminal;;
  parseInputs args.

Definition parse_until_Assembler
  (args : variables_map) (_argc : nat) (interactiveTerminal : bool) : M unit :=
  parse_until_Libraries args _argc interactiveTerminal;;
  parseLibraries args;;
  parseEVMVersion args.

Definition parse_until_CompilerOptimizer
  (args : variables_map) (_argc : nat) (interactiveTerminal : bool) : M unit :=
  parse_until_Assembler args _argc interactiveTerminal;;
  parseAssembler args;;
  parseLinker args;;
  parseCompilerSettings args.

(** *** Vocabulary of the properties *)

(** How a statement ended, if it did not fall through. *)
Definition ended {A : Type} (r : Step A * CommandLineParser) : option Outcome :=
  match r.1 with
  | Cont _ => None
  | Done o => Some o
  end.

(** A statement that never lets the function return [true]. *)
Definition no_success {A : Type} (m : M A) : Prop :=
  forall st, ended (m st) <> Some (Returned true).

(** A statement that leaves a part [f] of the options as it was. *)
Definition preserves {A B : Type} (f : CommandLineOptions -> B) (m : M A)
  : Prop :=
  forall st, f (m_options (m st).2) = f (m_options st).

(** [serr() << s] as a change of the parser *)
Definition wrote_serr (s : string) (st : CommandLineParser) : CommandLineParser :=
  {| m_options := m_options st; m_sout := m_sout st;
     m_serr := m_serr st +:+ s; m_hasOutput := true |}.

(** [sout() << s] as a change of the parser *)
Definition wrote_sout (s : string) (st : CommandLineParser) : CommandLineParser :=
  {| m_options := m_options st; m_sout := m_sout st +:+ s;
     m_serr := m_serr st; m_hasOutput := true |}.

(** an assignment to [m_options] as a change of the parser *)
Definition assigned (f : CommandLineOptions -> CommandLineOptions)
  (st : CommandLineParser) : CommandLineParser :=
  {| m_options := f (m_options st); m_sout := m_sout st;
     m_serr := m_serr st; m_hasOutput := m_hasOutput st |}.

End Parser.

(** ** Reference collaborators

    The properties below are stated for every instance of [Collaborators].
    To run the parser on concrete command lines, this part gives one
    instance, written after the libraries' documented behaviour. *)

(** Keccak-256, the hash under the address checksum. *)
Module Keccak.

Definition rotl64 (x : N) (n : N) : N :=
  N.land (N.lor (N.shiftl x n) (N.shiftr x (64 - n))) (N.ones 64).

Definition lane (a : list N) (x y : nat) : N :=
  nth (x mod 5 + 5 * (y mod 5)) a 0%N.

Definition lanes (f : nat -> nat -> N) : list N :=
  map (fun i => f (i mod 5) (i / 5)) (seq 0 25).

Definition rotation_offsets : list N :=
  [  0;  1; 62; 28; 27;
    36; 44;  6; 55; 20;
     3; 10; 43; 25; 39;
    41; 45; 15; 21;  8;
    18;  2; 61; 56; 14 ]%N.

Definition round_constants : list N :=
  [ 0x0000000000000001; 0x0000000000008082; 0x800000000000808A;
    0x8000000080008000; 0x000000000000808B; 0x0000000080000001;
    0x8000000080008081; 0x8000000000008009; 0x000000000000008A;
    0x0000000000000088; 0x0000000080008009; 0x000000008000000A;
    0x000000008000808B; 0x800000000000008B; 0x8000000000008089;
    0x8000000000008003; 0x8000000000008002; 0x8000000000000080;
    0x000000000000800A; 0x800000008000000A; 0x8000000080008081;
    0x8000000000008080; 0x0000000080000001; 0x8000000080008008 ]%N.

Definition theta (a : list N) : list N :=
  let c := fun x =>
    N.lxor (lane a x 0) (N.lxor (lane a x 1) (N.lxor (lane a x 2)
      (N.lxor (lane a x 3) (lane a x 4)))) in
  let d := fun x => N.lxor (c (x + 4)) (rotl64 (c (x + 1)) 1) in
  lanes (fun x y => N.lxor (lane a x y) (d x)).

Definition rho_pi (a : list N) : list N :=
  lanes (fun x y =>
    let x0 := (x + 3 * y) mod 5 in
    rotl64 (lane a x0 x) (lane rotation_offsets x0 x)).

Definition chi (b : list N) : list N :=
  lanes (fun x y =>
    N.lxor (lane b x y)
      (N.land (N.lxor (lane b (x + 1) y) (N.ones 64)) (lane b (x + 2) y))).

Definition iota (rc : N) (a : list N) : list N :=
  match a with
  | a0 :: a' => N.lxor a0 rc :: a'
  | [] => []
  end.

Definition keccak_f (a : list N) : list N :=
  fold_left (fun a rc => iota rc (chi (rho_pi (theta a)))) round_constants a.

(** little-endian bytes of a lane and back *)
Fixpoint lane_of_bytes (bs : list N) : N :=
  match bs with
  | [] => 0
  | b :: bs' => b + 256 * lane_of_bytes bs'
  end.

Fixpoint bytes_of_lane (n : nat) (w : N) : list N :=
  match n with
  | O => []
  | S n' => (w mod 256)%N :: bytes_of_lane n' (w / 256)
  end.

(** 136 bytes of a block as 17 lanes *)
Fixpoint block_lanes (n : nat) (bs : list N) : list N :=
  match n with
  | O => []
  | S n' => lane_of_bytes (firstn 8 bs) :: block_lanes n' (skipn 8 bs)
  end.

Fixpoint xor_lanes (a b : list N) : list N :=
  match a, b with
  | x :: a', y :: b' => N.lxor x y :: xor_lanes a' b'
  | _, [] => a
  | [], _ => []
  end.

(** the padding of the original Keccak: 0x01, zeros, 0x80 *)
Definition pad (msg : list N) : list N :=
  let r := (List.length msg mod 136)%nat in
  if Nat.eqb r 135 then (msg ++ [129%N])%list
  else (msg ++ 1%N :: repeat 0%N (134 - r) ++ [128%N])%list.

Fixpoint absorb (blocks : nat) (bs : list N) (a : list N) : list N :=
  match blocks with
  | O => a
  | S blocks' =>
      absorb blocks' (skipn 136 bs)
        (keccak_f (xor_lanes a (block_lanes 17 (firstn 136 bs))))
  end.

Definition keccak256 (msg : list N) : list N :=
  let bs := pad msg in
  let a := absorb (List.length bs / 136) bs (repeat 0%N 25) in
  flat_map (bytes_of_lane 8) (firstn 4 a).

End Keccak.

Module Hex.

Definition char_of_digit (d : N) : ascii :=
  ascii_of_N (if (d <? 10)%N then 48 + d else 87 + d).

(** [fromHex(char)]: the value of a hex digit, [None] for another character *)
Definition digit_of_char (c : ascii) : option N :=
  let n := N_of_ascii c in
  if ((48 <=? n) && (n <=? 57))%N then Some (n - 48)%N
  else if ((97 <=? n) && (n <=? 102))%N then Some (n - 87)%N
  else if ((65 <=? n) && (n <=? 70))%N then Some (n - 55)%N
  else None.

Definition is_hex_digit (c : ascii) : bool :=
  bool_decide (is_Some (digit_of_char c)).

Definition to_lower (c : ascii) : ascii :=
  let n := N_of_ascii c in
  if ((65 <=? n) && (n <=? 90))%N then ascii_of_N (n + 32) else c.

Definition to_upper (c : ascii) : ascii :=
  let n := N_of_ascii c in
  if ((97 <=? n) && (n <=? 122))%N then ascii_of_N (n - 32) else c.

Fixpoint string_map (f : ascii -> ascii) (s : string) : string :=
  match s with
  | EmptyString => EmptyString
  | String c s' => String (f c) (string_map f s')
  end.

Fixpoint string_forallb (f : ascii -> bool) (s : string) : bool :=
  match s with
  | EmptyString => true
  | String c s' => f c && string_forallb f s'
  end.

Fixpoint string_existsb (f : ascii -> bool) (s : string) : bool :=
  match s with
  | EmptyString => false
  | String c s' => f c || string_existsb f s'
  end.

Definition bytes_of_string (s : string) : list N :=
  map N_of_ascii (list_ascii_of_string s).

Definition byte_of_N (n : N) : Byte.byte :=
  match Strings.Byte.of_N n with
  | Some b => b
  | None => Byte.x00
  end.

(** pairs of digits to bytes; [None] at a character that is no digit *)
Fixpoint decode_pairs (s : string) : option (list Byte.byte) :=
  match s with
  | EmptyString => Some []
  | String h (String l s') =>
      match digit_of_char h, digit_of_char l, decode_pairs s' with
      | Some h', Some l', Some bs => Some (byte_of_N (16 * h' + l') :: bs)
      | _, _, _ => None
      end
  | String _ EmptyString => None
  end.

(** Modelled from the spec: the hex decoder of libsolutil ([fromHex] with
    its default [WhenError::DontThrow]), which is outside this translation
    unit.  An optional [0x] is skipped, an odd number of digits starts with
    a single-digit byte, and any character that is no hex digit makes the
    result empty. *)
Definition fromHex (s : string) : list Byte.byte :=
  let s := if String.eqb (string_take 2 s) "0x" then string_drop 2 s else s in
  let r :=
    if Nat.odd (String.length s) then
      match s with
      | String h s' =>
          match digit_of_char h, decode_pairs s' with
          | Some h', Some bs => Some (byte_of_N h' :: bs)
          | _, _ => None
          end
      | EmptyString => Some []
      end
    else decode_pairs s in
  match r with
  | Some bs => bs
  | None => []
  end.

(** Modelled from the spec: the address-checksum function of libsolutil
    (the mixed-case checksum of EIP-55), which is outside this translation
    unit.  The digit at position [i] is written in upper case when nibble
    [i] of the Keccak-256 hash of the lower-case digits is 8 or more.
    [None] is the [InvalidAddress] thrown for a string that is not 40 hex
    digits. *)
Definition getChecksummedAddress (_addr : string) : option string :=
  let s := if String.eqb (string_take 2 _addr) "0x" then string_drop 2 _addr
           else _addr in
  if negb (Nat.eqb (String.length s) 40) then None
  else if negb (string_forallb is_hex_digit s) then None
  else
    let hash := Keccak.keccak256 (bytes_of_string (string_map to_lower s)) in
    let nibbles := flat_map (fun b => [b / 16; b mod 16]%N) hash in
    let cased := fix cased (s : string) (ns : list N) : string :=
      match s, ns with
      | String c s', n :: ns' =>
          String (if (8 <=? n)%N then to_upper c else to_lower c) (cased s' ns')
      | _, _ => EmptyString
      end in
    Some ("0x" +:+ cased s nibbles).

(** Modelled from the spec: [passesAddressChecksum] of libsolutil.  When
    not [_strict], digits that are all of one case pass without a look at
    the checksum. *)
Definition passesAddressChecksum (_str : string) (_strict : bool)
  : option bool :=
  let s := if String.eqb (string_take 2 _str) "0x" then _str
           else "0x" +:+ _str in
  if negb (Nat.eqb (String.length s) 42) then Some false
  else if negb _strict
          && (negb (string_existsb (fun c => bool_decide (is_Some (find_char c "abcdef"))) s)
              || negb (string_existsb (fun c => bool_decide (is_Some (find_char c "ABCDEF"))) s))
  then Some true
  else
    match getChecksummedAddress s with
    | Some c => Some (String.eqb s c)
    | None => None
    end.

Definition hex_of_bytes (bs : list N) : string :=
  string_of_list_ascii
    (flat_map (fun b => [char_of_digit (b / 16); char_of_digit (b mod 16)]) bs).

End Hex.

(** Modelled from the spec: [boost::filesystem::path] (version 3, generic
    POSIX format), a path being its string.  A trailing separator leaves the
    file name [.]; [remove_filename] cuts the path back to its parent.
    Network root names ([//net]) are not modelled. *)
Module BoostPath.

Definition is_separator (c : ascii) : bool := Ascii.eqb c "/".

Definition char_at (s : string) (i : nat) : ascii :=
  match String.get i s with
  | Some c => c
  | None => zero
  end.

(** where the file name starts *)
Definition filename_pos (s : string) : nat :=
  let size := String.length s in
  if negb (Nat.eqb size 0) && is_separator (char_at s (size - 1)) then size - 1
  else match rfind_char "/" s with
       | Some pos => S pos
       | None => 0
       end.

(** skip the separators before [end_pos], the root directory apart *)
Fixpoint skip_separators (s : string) (end_pos : nat) : nat :=
  match end_pos with
  | S n =>
      if negb (Nat.eqb n 0) && is_separator (char_at s n)
      then skip_separators s n
      else end_pos
  | O => O
  end.

Definition remove_filename (s : string) : string :=
  string_take (skip_separators s (filename_pos s)) s.

Definition filename (s : string) : string :=
  let pos := filename_pos s in
  if negb (Nat.eqb (String.length s) 0) && negb (Nat.eqb pos 0)
     && is_separator (char_at s pos)
  then "."
  else string_drop pos s.

End BoostPath.

(** Modelled from the spec: [ImportRemapper::parseRemapping] of libsolidity,
    which is outside this translation unit: [context:prefix=target], the
    context being optional and the prefix not empty. *)
Definition reference_parseRemapping (_remapping : string) : option Remapping :=
  match find_char "=" _remapping with
  | None => None
  | Some eq =>
      let before := string_take eq _remapping in
      let r :=
        match find_char ":" before with
        | None =>
            {| context := ""; prefix := before;
               target := string_drop (S eq) _remapping |}
        | Some colon =>
            {| context := string_take colon before;
               prefix := string_drop (S colon) before;
               target := string_drop (S eq) _remapping |}
        end in
      if String.eqb (prefix r) "" then None else Some r
  end.

(** Modelled from the spec: the step-sequence validator of libyul, which is
    outside this translation unit.  A stand-in grammar: step letters, blanks
    and brackets that are balanced and not nested. *)
Fixpoint reference_validateSequence_from (insideLoop : bool) (s : string)
  : option string :=
  match s with
  | EmptyString => if insideLoop then Some "Unbalanced brackets" else None
  | String c s' =>
      if Ascii.eqb c " " || Ascii.eqb c (ascii_of_nat 10) then
        reference_validateSequence_from insideLoop s'
      else if Ascii.eqb c "[" then
        if insideLoop then Some "Nested brackets are not supported"
        else reference_validateSequence_from true s'
      else if Ascii.eqb c "]" then
        if insideLoop then reference_validateSequence_from false s'
        else Some "Unbalanced brackets"
      else if bool_decide
                (is_Some (find_char c "flcCUnDvejsxIOoighFTLMrRmVatpud")) then
        reference_validateSequence_from insideLoop s'
      else Some ("'" +:+ String c "' is not a valid step abbreviation")
  end.

Definition reference_validateSequence (s : string) : option string :=
  reference_validateSequence_from false s.

Definition member (x : string) (l : list string) : bool :=
  existsb (String.eqb x) l.

Definition reference_revertStringsFromString (s : string)
  : option RevertStrings.t :=
  if String.eqb s "default" then Some RevertStrings.Default
  else if String.eqb s "strip" then Some RevertStrings.Strip
  else if String.eqb s "debug" then Some RevertStrings.Debug
  else if String.eqb s "verboseDebug" then Some RevertStrings.VerboseDebug
  else None.

(** The reference instance.  [files] are the regular files of the file
    system, with their contents.  The enumerations of liblangutil and of
    the model checker are kept as their validated names, taken from the
    help texts of the options. *)
Definition reference (files : gmap string string) : Collaborators := {|
  EVMVersion := string;
  EVMVersion_default := "berlin";
  EVMVersion_fromString := fun s =>
    if member s [ "homestead"; "tangerineWhistle"; "spuriousDragon";
                  "byzantium"; "constantinople"; "petersburg"; "istanbul";
                  "berlin" ]
    then Some s else None;
  revertStringsFromString := reference_revertStringsFromString;
  ModelCheckerContracts := string;
  ModelCheckerContracts_default := "default";
  ModelCheckerContracts_fromString := fun s =>
    if String.eqb s "default" then Some s
    else if forallb (fun pair => bool_decide (is_Some (find_char ":" pair)))
              (split is_comma s)
    then Some s else None;
  ModelCheckerEngine := string;
  ModelCheckerEngine_default := "none";
  ModelCheckerEngine_fromString := fun s =>
    if member s [ "all"; "bmc"; "chc"; "none" ] then Some s else None;
  ModelCheckerTargets := list string;
  ModelCheckerTargets_default := [ "default" ];
  ModelCheckerTargets_fromString := fun s =>
    if forallb (fun t => member t
         [ "default"; "constantCondition"; "underflow"; "overflow";
           "divByZero"; "balance"; "assert"; "popEmptyArray"; "outOfBounds" ])
         (split is_comma s)
    then Some (split is_comma s) else None;
  validateSequence := reference_validateSequence;
  passesAddressChecksum := Hex.passesAddressChecksum;
  getChecksummedAddress := Hex.getChecksummedAddress;
  fromHex := Hex.fromHex;
  is_regular_file := fun p => Some (bool_decide (is_Some (files !! p)));
  readFileAsString := fun p => files !! p;
  path_filename := BoostPath.filename;
  path_remove_filename := BoostPath.remove_filename;
  parseRemapping := reference_parseRemapping;
  desc := "solc, the Solidity commandline compiler." +:+ endl;
  VersionString := "0.8.5";
  otherLicenses := "Most of the code is licensed under GPLv3.";
  licenseText := "GNU GENERAL PUBLIC LICENSE";
  joinOptionNames_separator := ", "
|}.

(** Modelled from the spec: the members of [CommandLineOptions] as the
    header, which is outside this translation unit, initialises them (input
    mode Compiler, 200 runs, no colour choice, no combined-json request). *)
Definition defaultOptions `{Collaborators} : CommandLineOptions := {|
  sourceFilePaths := ∅;
  standardJsonInputFile := None;
  remappings := [];
  addStdin := false;
  basePath := "";
  allowedDirectories := ∅;
  ignoreMissingInputFiles := false;
  errorRecovery := false;
  outputDir := "";
  overwriteFiles := false;
  evmVersion := EVMVersion_default;
  experimentalViaIR := false;
  revertStrings := RevertStrings.Default;
  stopAfter := None;
  inputMode := InputMode.Compiler;
  targetMachine := Machine.EVM;
  inputAssemblyLanguage := Input.StrictAssembly;
  libraries := ∅;
  prettyJson := false;
  coloredOutput := None;
  withErrorIds := false;
  selectedOutputs := {|
    OutputSelection.astCompactJson := false;
    OutputSelection.asm_ := false;
    OutputSelection.asmJson := false;
    OutputSelection.opcodes := false;
    OutputSelection.binary := false;
    OutputSelection.binaryRuntime := false;
    OutputSelection.abi := false;
    OutputSelection.ir := false;
    OutputSelection.irOptimized := false;
    OutputSelection.ewasm := false;
    OutputSelection.signatureHashes := false;
    OutputSelection.natspecUser := false;
    OutputSelection.natspecDev := false;
    OutputSelection.metadata := false;
    OutputSelection.storageLayout := false
  |};
  estimateGas := false;
  combinedJsonRequests := None;
  metadataHash := CompilerStack.IPFS;
  metadataLiteral := false;
  optimize := false;
  expectedExecutionsPerDeployment := 200;
  noOptimizeYul := false;
  yulOptimiserSteps := None;
  initializeModelChecker := false;
  modelCheckerSettings := {|
    contracts := ModelCheckerContracts_default;
    engine := ModelCheckerEngine_default;
    targets := ModelCheckerTargets_default;
    timeout := None
  |}
|}.

(** A freshly constructed parser: nothing written yet. *)
Definition newParser `{Collaborators} : CommandLineParser := {|
  m_options := defaultOptions;
  m_sout := "";
  m_serr := "";
  m_hasOutput := false
|}.

(** The options the tokenizer stores for a command line: the ones that were
    given, and the ones that have a declared default value. *)
Definition stored_args (given : list (string * variable_value)) : variables_map :=
  list_to_map (given ++ [
    (g_strEVMVersion, string_value "berlin");
    (g_argOptimizeRuns, unsigned_value 200);
    (g_strModelCheckerContracts, string_value "default");
    (g_strModelCheckerEngine, string_value "none");
    (g_strModelCheckerTargets, string_value "default")
  ])%list.

Definition stored (given : list (string * variable_value)) : CommandLine :=
  po_stored (stored_args given).

(** ** Vocabulary of the properties *)

(** A string without blanks and commas: one element for [boost::split] *)
Definition is_token (s : string) : bool :=
  Hex.string_forallb (fun c => negb (is_space c || is_comma c)) s.

Section Vocabulary.
Context {collaborators : Collaborators}.

(** A requested name that is not in the vocabulary *)
Definition unknown (item : string) : bool :=
  negb (nonzero (set_count item g_combinedJsonArgs)).

(** The request of [--combined-json abi,bin] *)
Definition abi_and_binary : CombinedJsonRequests.t := {|
  CombinedJsonRequests.abi := true;
  CombinedJsonRequests.metadata := false;
  CombinedJsonRequests.binary := true;
  CombinedJsonRequests.binaryRuntime := false;
  CombinedJsonRequests.opcodes := false;
  CombinedJsonRequests.asm_ := false;
  CombinedJsonRequests.storageLayout := false;
  CombinedJsonRequests.generatedSources := false;
  CombinedJsonRequests.generatedSourcesRuntime := false;
  CombinedJsonRequests.srcMap := false;
  CombinedJsonRequests.srcMapRuntime := false;
  CombinedJsonRequests.funDebug := false;
  CombinedJsonRequests.funDebugRuntime := false;
  CombinedJsonRequests.signatureHashes := false;
  CombinedJsonRequests.natspecDev := false;
  CombinedJsonRequests.natspecUser := false;
  CombinedJsonRequests.ast := false
|}.

(** The request with all 17 flags false *)
Definition no_requests : CombinedJsonRequests.t := {|
  CombinedJsonRequests.abi := false;
  CombinedJsonRequests.metadata := false;
  CombinedJsonRequests.binary := false;
  CombinedJsonRequests.binaryRuntime := false;
  CombinedJsonRequests.opcodes := false;
  CombinedJsonRequests.asm_ := false;
  CombinedJsonRequests.storageLayout := false;
  CombinedJsonRequests.generatedSources := false;
  CombinedJsonRequests.generatedSourcesRuntime := false;
  CombinedJsonRequests.srcMap := false;
  CombinedJsonRequests.srcMapRuntime := false;
  CombinedJsonRequests.funDebug := false;
  CombinedJsonRequests.funDebugRuntime := false;
  CombinedJsonRequests.signatureHashes := false;
  CombinedJsonRequests.natspecDev := false;
  CombinedJsonRequests.natspecUser := false;
  CombinedJsonRequests.ast := false
|}.

(** The diagnostic of the mode exclusivity check *)
Definition exclusiveModes_diagnostic : string :=
  "The following options are mutually exclusive: "
  +:+ joinOptionNames exclusiveModes joinOptionNames_separator +:+ ". "
  +:+ "Select at most one." +:+ endl.

(** The text [version()] writes *)
Definition version_text : string :=
  "solc, the solidity compiler commandline interface" +:+ endl
  +:+ "Version: " +:+ VersionString +:+ endl.

(** Whether the help text is asked for *)
Definition help_requested
  (args : variables_map) (_argc : nat) (interactiveTerminal : bool) : bool :=
  nonzero (count args g_argHelp) || (interactiveTerminal && Nat.eqb _argc 1).

(** The state in which the assembler branch leaves the parser for
    [--yul --machine ewasm]. *)
Definition yul_on_ewasm_rejected (st : CommandLineParser) : CommandLineParser :=
  wrote_serr ("and automatic translation is not available." +:+ endl)
    (wrote_serr
       "The selected input language is not directly supported when targeting the Ewasm machine "
       (assigned (set_targetMachine Machine.Ewasm)
          (assigned (set_noOptimizeYul false)
             (assigned (set_optimize false)
                (assigned (set_inputAssemblyLanguage Input.Yul)
                   (assigned (set_inputMode InputMode.Assembler) st)))))).

(** The state in which it leaves the parser for
    [--yul --machine ewasm --yul-dialect evm]. *)
Definition yul_on_ewasm_evm_dialect (st : CommandLineParser) : CommandLineParser :=
  wrote_serr
    ("Warning: Yul is still experimental. Please use the output with care."
     +:+ endl)
    (assigned (set_inputAssemblyLanguage Input.StrictAssembly)
       (assigned (set_targetMachine Machine.Ewasm)
          (assigned (set_noOptimizeYul false)
             (assigned (set_optimize false)
                (assigned (set_inputAssemblyLanguage Input.Yul)
                   (assigned (set_inputMode InputMode.Assembler) st)))))).

(** The state for [--strict-assembly --machine ewasm]: the language is
    upgraded to Ewasm. *)
Definition strict_assembly_on_ewasm (st : CommandLineParser) : CommandLineParser :=
  wrote_serr
    ("Warning: Yul is still experimental. Please use the output with care."
     +:+ endl)
    (assigned (set_inputAssemblyLanguage Input.Ewasm)
       (assigned (set_targetMachine Machine.Ewasm)
          (assigned (set_noOptimizeYul false)
             (assigned (set_optimize false)
                (assigned (set_inputAssemblyLanguage Input.StrictAssembly)
                   (assigned (set_inputMode InputMode.Assembler) st)))))).

(** The state for [--yul --machine evm --yul-dialect ewasm]: dialect and
    machine do not match. *)
Definition ewasm_dialect_on_evm (st : CommandLineParser) : CommandLineParser :=
  wrote_serr ("--" +:+ g_argMachine +:+ " has to be Ewasm as well." +:+ endl)
    (wrote_serr ("If you select Ewasm as --" +:+ g_strYulDialect +:+ ", ")
       (assigned (set_inputAssemblyLanguage Input.Ewasm)
          (assigned (set_targetMachine Machine.EVM)
             (assigned (set_noOptimizeYul false)
                (assigned (set_optimize false)
                   (assigned (set_inputAssemblyLanguage Input.Yul)
                      (assigned (set_inputMode InputMode.Assembler) st))))))).

(** Whether the Yul optimizer runs: the preset of [--optimize], overridden
    by [--no-optimize-yul] *)
Definition yulOptimiserEnabled (args : variables_map) : bool :=
  nonzero (count args g_argOptimize)
  && negb (nonzero (count args g_strNoOptimizeYul)).

(** The two optimizer flags as the compiler branch assigns them *)
Definition optimizer_flags_assigned (args : variables_map)
  (st : CommandLineParser) : CommandLineParser :=
  assigned (set_noOptimizeYul (nonzero (count args g_strNoOptimizeYul)))
    (assigned (set_optimize (nonzero (count args g_argOptimize))) st).

(** The parser after one remapping argument: the remapping is appended and
    the parent of its target is an allowed directory. *)
Definition remapping_recorded (r : Remapping) (remappingTarget : string)
  (st : CommandLineParser) : CommandLineParser :=
  assigned
    (fun o =>
       set_allowedDirectories
         ({[ path_remove_filename remappingTarget ]} ∪ allowedDirectories o) o)
    (assigned (fun o => set_remappings (remappings o ++ [r])%list o) st).

(** Where [parseLibraryOption] cuts a specifier: at the last [=], which has
    to be the only one, or else at the last [:].  The flag tells that the
    separator is the equal sign. *)
Definition findSeparator (lib : string) : option (nat * bool) :=
  match rfind_char "=" lib with
  | None =>
      match rfind_char ":" lib with
      | None => None
      | Some separator => Some (separator, false)
      end
  | Some separator =>
      if bool_decide (rfind_char "=" lib = find_char "=" lib)
      then Some (separator, true)
      else None
  end.

(** The library name of a specifier *)
Definition specifierName (lib : string) : option string :=
  match findSeparator lib with
  | Some (separator, _) => Some (trim (string_take separator lib))
  | None => None
  end.

(** The elements [parseLibraryOption] splits an argument into *)
Definition libraryTokens (_input : string) : list string :=
  split_compress (fun c => is_space c || is_comma c)
    match is_regular_file _input with
    | Some true =>
        match readFileAsString _input with
        | Some content => content
        | None => _input
        end
    | _ => _input
    end.

(** The diagnostics of [parseLibraryOption] for a name given twice, for a
    wrong number of characters, for a checksum mismatch and for an address
    that is zero or too long *)
Definition duplicate_diagnostic (libName : string) : string :=
  "Address specified more than once for library "
  +:+ quote +:+ libName +:+ quote +:+ "." +:+ endl.

Definition length_diagnostic (libName addrString : string) : string :=
  "Invalid length for address for library "
  +:+ quote +:+ libName +:+ quote +:+ ": "
  +:+ decimal (String.length addrString)
  +:+ " instead of 40 characters." +:+ endl.

Definition checksum_diagnostic (libName addrString : string) : string :=
  "Invalid checksum on address for library "
  +:+ quote +:+ libName +:+ quote +:+ ": " +:+ addrString +:+ endl.



(** The parser after an accepted specifier *)
Definition library_added (libName : string) (address : h160)
  (st : CommandLineParser) : CommandLineParser :=
  assigned (fun o => set_libraries (<[ libName := address ]> (libraries o)) o) st.

End Vocabulary.

(** ** Vocabulary of the further properties *)

Section FurtherVocabulary.
Context {collaborators : Collaborators}.

(** *** Outcomes, output and input modes *)

(** A statement run from a state with [P]: it falls through with a value and
    a state that [Q] relates, or it ends the function with an outcome and a
    state that [E] relates. *)
Definition hoare {A : Type} (P : CommandLineParser -> Prop) (m : M A)
    (Q : A -> CommandLineParser -> Prop)
    (E : Outcome -> CommandLineParser -> Prop) : Prop :=
  forall st, P st ->
    match m st with
    | (Cont a, st') => Q a st'
    | (Done o, st') => E o st'
    end.

(** A statement that keeps the invariant [I] when it falls through. *)
Definition keeps {A : Type} (I : CommandLineParser -> Prop)
    (E : Outcome -> CommandLineParser -> Prop) (m : M A) : Prop :=
  hoare I m (fun _ => I) E.

(** Inside a called member function, [return true] hands the state back to
    the caller, which goes on. *)
Definition callee (I : CommandLineParser -> Prop)
    (E : Outcome -> CommandLineParser -> Prop)
    (o : Outcome) (st : CommandLineParser) : Prop :=
  match o with
  | Returned true => I st
  | _ => E o st
  end.

(** The run has written to [sout()] or [serr()] when it ends with
    [return false] or [exit]. *)
Definition reported (o : Outcome) (st : CommandLineParser) : Prop :=
  match o with
  | Returned false | Exited _ => m_hasOutput st = true
  | Returned true | Thrown _ => True
  end.

Definition anything (st : CommandLineParser) : Prop := True.

(** The warning of the assembler mode *)
Definition yul_warning : string :=
  "Warning: Yul is still experimental. Please use the output with care." +:+ endl.

(** Nothing was written since the streams held [so] and [se] and
    [m_hasOutput] was reset. *)
Definition silent (so se : string) (st : CommandLineParser) : Prop :=
  m_sout st = so /\ m_serr st = se /\ m_hasOutput st = false.

(** What a run that returns [true] has written: the warning in assembler
    mode, nothing in the other modes. *)
Definition success_output (so se : string) (o : Outcome) (st : CommandLineParser)
  : Prop :=
  o = Returned true ->
  m_sout st = so
  /\ if bool_decide (inputMode (m_options st) = InputMode.Assembler)
     then m_serr st = se +:+ yul_warning /\ m_hasOutput st = true
     else m_serr st = se /\ m_hasOutput st = false.

(** Whether one of [--assemble], [--strict-assembly] and [--yul] is given *)
Definition assemblerRequested (args : variables_map) : bool :=
  nonzero (count args g_argAssemble)
  || nonzero (count args g_argStrictAssembly)
  || nonzero (count args g_argYul).

(** The input mode that the mode options select; [before] is the mode the
    parser was constructed with. *)
Definition selectedMode (args : variables_map) (before : InputMode.t)
  : InputMode.t :=
  if nonzero (count args g_argStandardJSON) then InputMode.StandardJson
  else if assemblerRequested args then InputMode.Assembler
  else if nonzero (count args g_argLink) then InputMode.Linker
  else if nonzero (count args g_argImportAst) then InputMode.CompilerWithASTImport
  else before.

(** A statement that never falls through to the next one. *)
Definition never_continues {A : Type} (m : M A) : Prop :=
  forall st, ended (m st) <> None.

(** The members of the options that [parse] assigns after the
    standard-JSON branch only: the input paths, the libraries, the EVM
    version, the assembler, optimizer, metadata and model checker settings. *)
Definition assignedAfterStandardJson (o : CommandLineOptions) :=
  (sourceFilePaths o, remappings o, addStdin o, ignoreMissingInputFiles o,
   libraries o, evmVersion o, targetMachine o, inputAssemblyLanguage o,
   optimize o, noOptimizeYul o, yulOptimiserSteps o, metadataHash o,
   metadataLiteral o, modelCheckerSettings o, initializeModelChecker o,
   experimentalViaIR o, expectedExecutionsPerDeployment o, errorRecovery o).

(** The members that the compiler branch assigns *)
Definition assignedByCompiler (o : CommandLineOptions) :=
  (metadataHash o, metadataLiteral o, modelCheckerSettings o,
   initializeModelChecker o, experimentalViaIR o,
   expectedExecutionsPerDeployment o, errorRecovery o).

(** The members that the assembler branch and the compiler branch assign *)
Definition assignedByAssemblerOrCompiler (o : CommandLineOptions) :=
  (targetMachine o, inputAssemblyLanguage o, optimize o, noOptimizeYul o,
   yulOptimiserSteps o, assignedByCompiler o).

(** *** Libraries *)

(** The options and [sout()] are as in [st0]. *)
Definition options_as_in (st0 st : CommandLineParser) : Prop :=
  m_options st = m_options st0 /\ m_sout st = m_sout st0.

(** What a run of [parseLibraryOption] on [_input] from [st] may leave in
    [st']: the libraries that were there, with their addresses, and new
    ones, each named by a specifier of the input and with an address of 20
    bytes that is not zero; no other member of the options and nothing on
    [sout()] has changed. *)
Definition libraries_added (tokens : list string) (st st' : CommandLineParser)
  : Prop :=
  (forall name address,
     libraries (m_options st) !! name = Some address ->
     libraries (m_options st') !! name = Some address)
  /\ (forall name address,
        libraries (m_options st') !! name = Some address ->
        libraries (m_options st) !! name = Some address
        \/ (List.length address = 20 /\ address <> h160_zero
            /\ exists lib, In lib tokens /\ specifierName lib = Some name))
  /\ set_libraries (libraries (m_options st)) (m_options st') = m_options st
  /\ m_sout st' = m_sout st.

(** *** Input paths, remappings and allowed directories *)

(** The positional arguments, if there are any *)
Definition inputFiles (args : variables_map) : list string :=
  match args !! g_argInputFile with
  | Some (strings_value paths) => paths
  | _ => []
  end.

(** A positional argument with an equal sign is a remapping. *)
Definition isRemapping (path : string) : bool :=
  bool_decide (is_Some (find_char "=" path)).

(** A positional argument that names a source file: no remapping, and not
    the [-] of the standard input *)
Definition isSourceFile (path : string) : bool :=
  negb (isRemapping path) && negb (String.eqb path "-").

(** The directory that a remapping allows: its target, the text after the
    first equal sign, without the file name *)
Definition remappingDirectory (path : string) : string :=
  match find_char "=" path with
  | Some eq => path_remove_filename (string_drop (S eq) path)
  | None => path
  end.

(** The directory that an element of [--allow-paths] allows *)
Definition allowedPath (path : string) : string :=
  if String.eqb (path_filename path) "." then path_remove_filename path
  else path.

(** The elements of [--allow-paths] *)
Definition allowPaths (args : variables_map) : list string :=
  match args !! g_argAllowPaths with
  | Some (string_value value) => split is_comma value
  | _ => []
  end.

(** What the loop over the positional arguments [paths] makes of the options
    [o] when every remapping among them is valid. *)
Definition inputs_collected (paths : list string) (o o' : CommandLineOptions)
  : Prop :=
  sourceFilePaths o'
  = sourceFilePaths o ∪ list_to_set (List.filter isSourceFile paths)
  /\ addStdin o' = addStdin o || existsb (fun path => String.eqb path "-") paths
  /\ remappings o'
     = (remappings o ++ omap parseRemapping (List.filter isRemapping paths))%list
  /\ allowedDirectories o'
     = allowedDirectories o
       ∪ list_to_set (map remappingDirectory (List.filter isRemapping paths)).

(** The options [o'] with the members that [parseInputPathsAndRemappings]
    assigns put back to what they are in [o] *)
Definition withInputsOf (o o' : CommandLineOptions) : CommandLineOptions :=
  set_sourceFilePaths (sourceFilePaths o)
    (set_addStdin (addStdin o)
       (set_remappings (remappings o)
          (set_allowedDirectories (allowedDirectories o)
             (set_ignoreMissingInputFiles (ignoreMissingInputFiles o) o')))).

(** *** Standard JSON and [--stop-after] *)

(** The tokenizer stores the positional arguments as a vector of strings. *)
Definition inputFilesStored (args : variables_map) : Prop :=
  args !! g_argInputFile = None
  \/ exists paths, args !! g_argInputFile = Some (strings_value paths).

(** The diagnostic of [checkMutuallyExclusive] *)
Definition exclusive_diagnostic (_optionA _optionB : string) : string :=
  "Option " +:+ _optionA +:+ " and " +:+ _optionB
  +:+ " are mutually exclusive." +:+ endl.

(** The parser after [m_hasOutput = false] *)
Definition hasOutput_reset (st : CommandLineParser) : CommandLineParser :=
  {| m_options := m_options st; m_sout := m_sout st; m_serr := m_serr st;
     m_hasOutput := false |}.

(** *** The assembler branch *)

(** The languages that the optimizer and the Ewasm machine accept *)
Definition isStrict (language : Input.t) : Prop :=
  language = Input.StrictAssembly \/ language = Input.Ewasm.

(** The language that the assembler options ask for *)
Definition requestedLanguage (args : variables_map) : Input.t :=
  if nonzero (count args g_argYul) then Input.Yul
  else if nonzero (count args g_argStrictAssembly) then Input.StrictAssembly
  else Input.Assembly.

(** The machine that [--machine] selects; [before] is the one the parser
    was constructed with. *)
Definition selectedMachine (args : variables_map) (before : Machine.t)
  : Machine.t :=
  match args !! g_argMachine with
  | Some (string_value machine) =>
      if String.eqb machine g_strEVM then Machine.EVM
      else if String.eqb machine g_strEwasm then Machine.Ewasm
      else before
  | _ => before
  end.

(** The language that [--yul-dialect] selects, or else the requested one,
    strict assembly being Ewasm on the Ewasm machine. *)
Definition selectedLanguage (args : variables_map) (machine : Machine.t)
  : Input.t :=
  let language :=
    if bool_decide (machine = Machine.Ewasm)
       && bool_decide (requestedLanguage args = Input.StrictAssembly)
    then Input.Ewasm
    else requestedLanguage args in
  match args !! g_strYulDialect with
  | Some (string_value dialect) =>
      if String.eqb dialect g_strEVM then Input.StrictAssembly
      else if String.eqb dialect g_strEwasm then Input.Ewasm
      else language
  | _ => language
  end.

(** The step sequence that [--yul-optimizations] gives *)
Definition selectedSteps (args : variables_map) (before : option string)
  : option string :=
  match args !! g_strYulOptimizations with
  | Some (string_value steps) => Some steps
  | _ => before
  end.

(** *** The diagnostics of the assembler branch *)

(** Whether an option is given *)
Definition optionEnabled (args : variables_map) (name : string) : bool :=
  nonzero (count args name).

(** The parser after the assembler branch has rejected the options that are
    invalid in assembly mode. *)
Definition invalid_in_assembly_mode (args : variables_map)
  (st : CommandLineParser) : CommandLineParser :=
  let enabledOptions := List.filter (optionEnabled args) nonAssemblyModeOptions in
  let st1 :=
    wrote_serr (joinOptionNames enabledOptions joinOptionNames_separator +:+ ".")
      (wrote_serr "The following options are invalid in assembly mode: "
         (assigned (set_inputMode InputMode.Assembler) st)) in
  let st2 :=
    if nonzero (count args g_strOptimizeYul)
       || nonzero (count args g_strNoOptimizeYul)
    then wrote_serr
           (" Optimization is disabled by default and can be enabled with --"
            +:+ g_argOptimize +:+ "." +:+ endl) st1
    else st1 in
  wrote_serr endl st2.

(** The parser after [--machine] or [--yul-dialect] was found outside of the
    assembler mode. *)
Definition only_valid_in_assembly_mode (st : CommandLineParser)
  : CommandLineParser :=
  wrote_serr ("are only valid in assembly mode." +:+ endl)
    (wrote_serr ("--" +:+ g_strYulDialect +:+ " and --" +:+ g_argMachine +:+ " ")
       st).

(** *** The compiler branch *)

(** The metadata hash that [--metadata-hash] selects *)
Definition selectedMetadataHash (args : variables_map)
  (before : CompilerStack.MetadataHash) : CompilerStack.MetadataHash :=
  match args !! g_argMetadataHash with
  | Some (string_value hashStr) =>
      if String.eqb hashStr g_strIPFS then CompilerStack.IPFS
      else if String.eqb hashStr g_strSwarm then CompilerStack.Bzzr1
      else if String.eqb hashStr g_strNone then CompilerStack.None
      else before
  | _ => before
  end.

(** Whether one of the model checker options is stored *)
Definition modelCheckerRequested (args : variables_map) : bool :=
  nonzero (count args g_argModelCheckerContracts)
  || nonzero (count args g_argModelCheckerEngine)
  || nonzero (count args g_argModelCheckerTargets)
  || nonzero (count args g_argModelCheckerTimeout).

(** The members that the compiler branch assigns before the optimizer
    settings *)
Definition compilerSettings (o : CommandLineOptions) :=
  (metadataHash o, metadataLiteral o, modelCheckerSettings o,
   initializeModelChecker o, experimentalViaIR o,
   expectedExecutionsPerDeployment o).

(** *** The options before the mode options *)

(** The output components that the output options select *)
Definition requestedOutputs (args : variables_map) : OutputSelection.t := {|
  OutputSelection.astCompactJson := nonzero (count args g_argAstCompactJson);
  OutputSelection.asm_ := nonzero (count args g_argAsm);
  OutputSelection.asmJson := nonzero (count args g_argAsmJson);
  OutputSelection.opcodes := nonzero (count args g_argOpcodes);
  OutputSelection.binary := nonzero (count args g_argBinary);
  OutputSelection.binaryRuntime := nonzero (count args g_argBinaryRuntime);
  OutputSelection.abi := nonzero (count args g_argAbi);
  OutputSelection.ir := nonzero (count args g_argIR);
  OutputSelection.irOptimized := nonzero (count args g_argIROptimized);
  OutputSelection.ewasm := nonzero (count args g_argEwasm);
  OutputSelection.signatureHashes := nonzero (count args g_argSignatureHashes);
  OutputSelection.natspecUser := nonzero (count args g_argNatspecUser);
  OutputSelection.natspecDev := nonzero (count args g_argNatspecDev);
  OutputSelection.metadata := nonzero (count args g_argMetadata);
  OutputSelection.storageLayout := nonzero (count args g_argStorageLayout)
|}.

(** The string stored for an option, or else [before] *)
Definition storedString (args : variables_map) (name : string) (before : string)
  : string :=
  match args !! name with
  | Some (string_value value) => value
  | _ => before
  end.

(** The colour choice of [--color] and [--no-color] *)
Definition selectedColor (args : variables_map) : option bool :=
  if nonzero (count args g_argColor) then Some true
  else if nonzero (count args g_argNoColor) then Some false
  else None.

(** The members that [parse] assigns before it looks at the mode options *)
Definition generalOptions (o : CommandLineOptions) :=
  (coloredOutput o, withErrorIds o, revertStrings o, outputDir o,
   overwriteFiles o, prettyJson o, selectedOutputs o, estimateGas o,
   basePath o, stopAfter o).

(** *** Exceptions *)

(** The options that the option descriptions declare with a string value *)
Definition declaredStrings : list string :=
  [ g_argBasePath; g_argAllowPaths; g_argOutputDir; g_strEVMVersion;
    g_strRevertStrings; g_strStopAfter; g_argMachine; g_strYulDialect;
    g_argCombinedJson; g_argMetadataHash; g_strYulOptimizations;
    g_strModelCheckerContracts; g_strModelCheckerEngine;
    g_strModelCheckerTargets ].

(** What the tokenizer guarantees for the values it stores: each one has the
    type that the option descriptions declare, and [--optimize-runs], which
    has a default value, is always stored. *)
Definition stored_as_declared (args : variables_map) : Prop :=
  (forall name value,
     In name declaredStrings -> args !! name = Some value ->
     exists s, value = string_value s)
  /\ (forall name value,
        In name [ g_argInputFile; g_argLibraries ] -> args !! name = Some value ->
        exists l, value = strings_value l)
  /\ (forall value,
        args !! g_argModelCheckerTimeout = Some value ->
        exists n, value = unsigned_value n)
  /\ (exists n, args !! g_argOptimizeRuns = Some (unsigned_value n)).

(** The members that the two assertions of [parse] look at, as the
    constructor of the options leaves them: no colour choice unless one of
    the colour options sets it, and one of the two compiler modes. *)
Definition as_constructed (args : variables_map) (st : CommandLineParser) : Prop :=
  (nonzero (count args g_argColor) = true
   \/ nonzero (count args g_argNoColor) = true
   \/ coloredOutput (m_options st) = None)
  /\ (inputMode (m_options st) = InputMode.Compiler
      \/ inputMode (m_options st) = InputMode.CompilerWithASTImport).

(** The only exception of a run is the [InvalidAddress] of the address
    checks, and then [--libraries] is given. *)
Definition only_InvalidAddress (args : variables_map)
  (o : Outcome) (st : CommandLineParser) : Prop :=
  forall what, o = Thrown what ->
    what = "InvalidAddress" /\ nonzero (count args g_argLibraries) = true.

End FurtherVocabulary.

(** *** The set of combined-json requests *)

(** A [std::set<std::string>] holds its elements in strictly ascending
    order. *)
Definition ascending (l : list string) : Prop :=
  StronglySorted (fun x y => String.ltb x y = true) l.

(** The names of the 17 requests, in the order of the members of
    [CombinedJsonRequests] *)
Definition combinedJsonRequestNames : list string :=
  [ g_strAbi; "metadata"; g_strBinary; g_strBinaryRuntime; g_strOpcodes;
    g_strAsm; g_strStorageLayout; g_strGeneratedSources;
    g_strGeneratedSourcesRuntime; g_strSrcMap; g_strSrcMapRuntime;
    g_strFunDebug; g_strFunDebugRuntime; g_strSignatureHashes; g_strNatspecDev;
    g_strNatspecUser; g_strAst ].

(** Whether a name is among the items of the option value *)
Definition isRequested (items : list string) (name : string) : bool :=
  existsb (String.eqb name) items.

(** *** The comparison operators *)

(** [OutputSelection::operator==] *)
Definition OutputSelection_operator_eq (this _other : OutputSelection.t) : bool :=
  Bool.eqb (OutputSelection.astCompactJson this) (OutputSelection.astCompactJson _other)
  && Bool.eqb (OutputSelection.asm_ this) (OutputSelection.asm_ _other)
  && Bool.eqb (OutputSelection.asmJson this) (OutputSelection.asmJson _other)
  && Bool.eqb (OutputSelection.opcodes this) (OutputSelection.opcodes _other)
  && Bool.eqb (OutputSelection.binary this) (OutputSelection.binary _other)
  && Bool.eqb (OutputSelection.binaryRuntime this) (OutputSelection.binaryRuntime _other)
  && Bool.eqb (OutputSelection.abi this) (OutputSelection.abi _other)
  && Bool.eqb (OutputSelection.ir this) (OutputSelection.ir _other)
  && Bool.eqb (OutputSelection.irOptimized this) (OutputSelection.irOptimized _other)
  && Bool.eqb (OutputSelection.ewasm this) (OutputSelection.ewasm _other)
  && Bool.eqb (OutputSelection.signatureHashes this)
       (OutputSelection.signatureHashes _other)
  && Bool.eqb (OutputSelection.natspecUser this) (OutputSelection.natspecUser _other)
  && Bool.eqb (OutputSelection.natspecDev this) (OutputSelection.natspecDev _other)
  && Bool.eqb (OutputSelection.metadata this) (OutputSelection.metadata _other)
  && Bool.eqb (OutputSelection.storageLayout this)
       (OutputSelection.storageLayout _other).

(** [CombinedJsonRequests::operator==] *)
Definition CombinedJsonRequests_operator_eq (this _other : CombinedJsonRequests.t)
  : bool :=
  Bool.eqb (CombinedJsonRequests.abi this) (CombinedJsonRequests.abi _other)
  && Bool.eqb (CombinedJsonRequests.metadata this)
       (CombinedJsonRequests.metadata _other)
  && Bool.eqb (CombinedJsonRequests.binary this) (CombinedJsonRequests.binary _other)
  && Bool.eqb (CombinedJsonRequests.binaryRuntime this)
       (CombinedJsonRequests.binaryRuntime _other)
  && Bool.eqb (CombinedJsonRequests.opcodes this) (CombinedJsonRequests.opcodes _other)
  && Bool.eqb (CombinedJsonRequests.asm_ this) (CombinedJsonRequests.asm_ _other)
  && Bool.eqb (CombinedJsonRequests.storageLayout this)
       (CombinedJsonRequests.storageLayout _other)
  && Bool.eqb (CombinedJsonRequests.generatedSources this)
       (CombinedJsonRequests.generatedSources _other)
  && Bool.eqb (CombinedJsonRequests.generatedSourcesRuntime this)
       (CombinedJsonRequests.generatedSourcesRuntime _other)
  && Bool.eqb (CombinedJsonRequests.srcMap this) (CombinedJsonRequests.srcMap _other)
  && Bool.eqb (CombinedJsonRequests.srcMapRuntime this)
       (CombinedJsonRequests.srcMapRuntime _other)
  && Bool.eqb (CombinedJsonRequests.funDebug this)
       (CombinedJsonRequests.funDebug _other)
  && Bool.eqb (CombinedJsonRequests.funDebugRuntime this)
       (CombinedJsonRequests.funDebugRuntime _other)
  && Bool.eqb (CombinedJsonRequests.signatureHashes this)
       (CombinedJsonRequests.signatureHashes _other)
  && Bool.eqb (CombinedJsonRequests.natspecDev this)
       (CombinedJsonRequests.natspecDev _other)
  && Bool.eqb (CombinedJsonRequests.natspecUser this)
       (CombinedJsonRequests.natspecUser _other)
  && Bool.eqb (CombinedJsonRequests.ast this) (CombinedJsonRequests.ast _other).

(** ** The examples

    The reference collaborators on an empty file system, and the command
    lines the properties are tried on. *)

Definition reference_instance : Collaborators := reference ∅.

(** [--yul --link] *)
Definition yul_and_link : variables_map :=
  stored_args [ (g_argYul, no_value); (g_argLink, no_value) ].

(** [--yul --machine ewasm] *)
Definition yul_ewasm : variables_map :=
  stored_args [ (g_argYul, no_value); (g_argMachine, string_value "ewasm") ].

(** [--yul --machine ewasm --yul-dialect evm] *)
Definition yul_ewasm_evm : variables_map :=
  stored_args [ (g_argYul, no_value); (g_argMachine, string_value "ewasm");
                (g_strYulDialect, string_value "evm") ].

(** [--combined-json abi,bin] *)
Definition combined_abi_bin : variables_map :=
  stored_args [ (g_argCombinedJson, string_value "abi,bin") ].

(** [--combined-json abi,bogus] *)
Definition combined_abi_bogus : variables_map :=
  stored_args [ (g_argCombinedJson, string_value "abi,bogus") ].

(** no option at all *)
Definition no_options : variables_map := stored_args [].

(** [--standard-json --combined-json abi,bogus] *)
Definition standard_json_bogus : variables_map :=
  stored_args [ (g_argStandardJSON, no_value);
                (g_argCombinedJson, string_value "abi,bogus") ].

(** [--combined-json compact-format,interface] *)
Definition combined_compact_interface : variables_map :=
  stored_args [ (g_argCombinedJson, string_value "compact-format,interface") ].

(** [--help], [--version], [--license] *)
Definition only_help : variables_map := stored_args [ (g_argHelp, no_value) ].
Definition only_version : variables_map := stored_args [ (g_argVersion, no_value) ].
Definition only_license : variables_map := stored_args [ (g_strLicense, no_value) ].

(** [--help --color --no-color] *)
Definition help_color_no_color : variables_map :=
  stored_args [ (g_argHelp, no_value); (g_argColor, no_value);
                (g_argNoColor, no_value) ].

(** [--yul-optimizations dhfoDgvulfnTUtnIf], alone, with [--optimize], and
    with [--optimize --no-optimize-yul] *)
Definition steps_only : variables_map :=
  stored_args [ (g_strYulOptimizations, string_value "dhfoDgvulfnTUtnIf") ].
Definition steps_optimize : variables_map :=
  stored_args [ (g_argOptimize, no_value);
                (g_strYulOptimizations, string_value "dhfoDgvulfnTUtnIf") ].
Definition steps_optimize_no_yul : variables_map :=
  stored_args [ (g_argOptimize, no_value); (g_strNoOptimizeYul, no_value);
                (g_strYulOptimizations, string_value "dhfoDgvulfnTUtnIf") ].

(** [--optimize --yul-optimizations dhf[o[D]]], brackets nested *)
Definition steps_nested : variables_map :=
  stored_args [ (g_argOptimize, no_value);
                (g_strYulOptimizations, string_value "dhf[o[D]]") ].

(** Two checksummed addresses; the first one with the case of its third
    digit flipped, and in lower case throughout; 40 characters in mixed case
    one of which is no hex digit *)
Definition address1 : string := "0x5aAeb6053F3E94C9b9A09f33669435E7Ef1BeAed".
Definition address1_flipped : string := "0x5aaeb6053F3E94C9b9A09f33669435E7Ef1BeAed".
Definition address2 : string := "0xfB6916095ca1df60bB79Ce92cE3Ea74c37c5d359".

Definition address1_bytes : h160 :=
  [ Byte.x5a; Byte.xae; Byte.xb6; Byte.x05; Byte.x3f; Byte.x3e; Byte.x94;
    Byte.xc9; Byte.xb9; Byte.xa0; Byte.x9f; Byte.x33; Byte.x66; Byte.x94;
    Byte.x35; Byte.xe7; Byte.xef; Byte.x1b; Byte.xea; Byte.xed ].

(** [--libraries "A=<address1>,B=<address2>" --libraries "A=<address2> C=<address1>"] *)
Definition libraries_twice : list string :=
  [ "A=" +:+ address1 +:+ ",B=" +:+ address2;
    "A=" +:+ address2 +:+ " C=" +:+ address1 ].

Definition duplicate_libraries : variables_map :=
  stored_args [ (g_argLibraries, strings_value libraries_twice) ].

(** positional arguments: a remapping whose target ends in a separator, a
    source file, a remapping whose target ends in a file name *)
Definition remapping_directory : string := "ctx:a/b=/usr/lib/".
Definition remapping_file : string := "x=/usr/lib/foo".

Definition with_remappings : variables_map :=
  stored_args [ (g_argInputFile,
                 strings_value [ remapping_directory; "c.sol"; remapping_file ]) ].

(** Command lines for the further properties *)

(** [--yul --gas] *)
Definition yul_gas : variables_map :=
  stored_args [ (g_argYul, no_value); (g_argGas, no_value) ].

(** [--machine evm] *)
Definition only_machine : variables_map :=
  stored_args [ (g_argMachine, string_value "evm") ].

(** [--stop-after parsing --abi --pretty-json] and [--stop-after parsing --bin] *)
Definition stop_after_abi : variables_map :=
  stored_args [ (g_strStopAfter, string_value "parsing"); (g_argAbi, no_value);
                (g_argPrettyJson, no_value) ].
Definition stop_after_bin : variables_map :=
  stored_args [ (g_strStopAfter, string_value "parsing"); (g_argBinary, no_value) ].

(** [--standard-json input.json] *)
Definition standard_json_file : variables_map :=
  stored_args [ (g_argStandardJSON, no_value);
                (g_argInputFile, strings_value [ "input.json" ]) ].

(** [--combined-json bin,abi,bin] and [--combined-json zzz,abi,bogus] *)
Definition combined_bin_abi_bin : variables_map :=
  stored_args [ (g_argCombinedJson, string_value "bin,abi,bin") ].
Definition combined_zzz_abi_bogus : variables_map :=
  stored_args [ (g_argCombinedJson, string_value "zzz,abi,bogus") ].
Definition combined_bogus_zzz : variables_map :=
  stored_args [ (g_argCombinedJson, string_value "bogus,abi,zzz,bogus") ].

(** [--color --error-codes --revert-strings strip] *)
Definition color_strip : variables_map :=
  stored_args [ (g_argColor, no_value); (g_argErrorIds, no_value);
                (g_strRevertStrings, string_value "strip") ].

(** [--metadata-hash swarm --optimize --model-checker-timeout 7] *)
Definition metadata_swarm : variables_map :=
  stored_args [ (g_argMetadataHash, string_value "swarm"); (g_argOptimize, no_value);
                (g_argModelCheckerTimeout, unsigned_value 7) ].

(** positional arguments with a remapping without a prefix *)
Definition invalid_remapping : variables_map :=
  stored_args [ (g_argInputFile,
                 strings_value [ "c.sol"; remapping_file; "=/usr"; "d.sol" ]) ].

(** [--allow-paths /a/,/b/c] with the positional arguments of
    [with_remappings] *)
Definition allow_paths : variables_map :=
  stored_args [ (g_argAllowPaths, string_value "/a/,/b/c");
                (g_argInputFile,
                 strings_value [ remapping_directory; "c.sol"; remapping_file ]) ].

(** [--evm-version berlin --link] *)
Definition link_berlin : variables_map :=
  stored_args [ (g_strEVMVersion, string_value "berlin"); (g_argLink, no_value) ].

(** [--libraries L=0xaAg0...0], an address of 40 characters in mixed case
    with one that is no hex digit *)
Definition invalid_address_library : variables_map :=
  stored_args [ (g_argLibraries,
                 strings_value [ "L=0xaAg0000000000000000000000000000000000000" ]) ].

(** * Properties *)

(** ** How statements compose *)

Section Statements.
Context {collaborators : Collaborators}.

Lemma bind_cont {A B : Type} (m : M A) (f : A -> M B) st a st1 :
  m st = (Cont a, st1) -> (m ≫= f) st = f a st1.
Proof. intros Hm. unfold mbind, M_bind. now rewrite Hm. Qed.

Lemma bind_done {A B : Type} (m : M A) (f : A -> M B) st o st1 :
  m st = (Done o, st1) -> (m ≫= f) st = (Done o, st1).
Proof. intros Hm. unfold mbind, M_bind. now rewrite Hm. Qed.

Lemma bind_cont_inv {A B : Type} (m : M A) (f : A -> M B) st b st' :
  (m ≫= f) st = (Cont b, st') ->
  exists a st1, m st = (Cont a, st1) /\ f a st1 = (Cont b, st').
Proof.
  unfold mbind, M_bind. destruct (m st) as [[a | o] st1]; intros Hf.
  - now exists a, st1.
  - discriminate.
Qed.

Lemma bind_done_inv {A B : Type} (m : M A) (f : A -> M B) st o st' :
  (m ≫= f) st = (Done o, st') ->
  m st = (Done o, st') \/
  exists a st1, m st = (Cont a, st1) /\ f a st1 = (Done o, st').
Proof.
  unfold mbind, M_bind. destruct (m st) as [[a | o1] st1]; intros Hf.
  - right. now exists a, st1.
  - left. now inversion Hf.
Qed.

Lemma for_each_app {A : Type} (l1 l2 : list A) (body : A -> M unit) st :
  for_each (l1 ++ l2)%list body st = (for_each l1 body;; for_each l2 body) st.
Proof.
  revert st. induction l1 as [| x l1 IH]; intros st; simpl.
  - reflexivity.
  - unfold mbind, M_bind in *. destruct (body x st) as [[[] | o] st1].
    + apply IH.
    + reflexivity.
Qed.

Lemma no_success_bind {A B : Type} (m : M A) (k : A -> M B) :
  no_success m -> (forall a, no_success (k a)) -> no_success (m ≫= k).
Proof.
  intros Hm Hk st. unfold mbind, M_bind.
  specialize (Hm st). destruct (m st) as [[a | o] st1]; simpl in *.
  - apply Hk.
  - exact Hm.
Qed.

Lemma no_success_when (c : bool) (m : M unit) :
  no_success m -> no_success (when c m).
Proof. intros Hm. destruct c; simpl; [exact Hm | intros st; discriminate]. Qed.

Lemma no_success_for_each {A : Type} (l : list A) (body : A -> M unit) :
  (forall x, no_success (body x)) -> no_success (for_each l body).
Proof.
  intros Hb. induction l as [| x l IH]; simpl.
  - intros st; discriminate.
  - apply no_success_bind; [apply Hb | intros _; exact IH].
Qed.

Lemma no_success_call (body : M Empty_set) : no_success (call body).
Proof.
  intros st. unfold call.
  destruct (body st) as [[[] | [b | status | what]] st1]; discriminate.
Qed.

Lemma no_success_try {A : Type} (r : option A) what : no_success (try r what).
Proof. intros st. destruct r; discriminate. Qed.

Lemma no_success_as_string args name : no_success (as_string args name).
Proof.
  intros st. unfold as_string. destruct (args !! name) as [[]|]; discriminate.
Qed.

Lemma no_success_as_strings args name : no_success (as_strings args name).
Proof.
  intros st. unfold as_strings. destruct (args !! name) as [[]|]; discriminate.
Qed.

Lemma no_success_as_unsigned args name : no_success (as_unsigned args name).
Proof.
  intros st. unfold as_unsigned. destruct (args !! name) as [[]|]; discriminate.
Qed.

Lemma preserves_bind {A B C : Type} (f : CommandLineOptions -> C)
    (m : M A) (k : A -> M B) :
  preserves f m -> (forall a, preserves f (k a)) -> preserves f (m ≫= k).
Proof.
  intros Hm Hk st. unfold mbind, M_bind.
  specialize (Hm st). destruct (m st) as [[a | o] st1]; simpl in *.
  - rewrite <- Hm. apply Hk.
  - exact Hm.
Qed.

Lemma preserves_when {C : Type} (f : CommandLineOptions -> C) (c : bool) (m : M unit) :
  preserves f m -> preserves f (when c m).
Proof. intros Hm. destruct c; simpl; [exact Hm | intros st; reflexivity]. Qed.

Lemma preserves_for_each {A C : Type} (f : CommandLineOptions -> C)
    (l : list A) (body : A -> M unit) :
  (forall x, preserves f (body x)) -> preserves f (for_each l body).
Proof.
  intros Hb. induction l as [| x l IH]; simpl.
  - intros st; reflexivity.
  - apply preserves_bind; [apply Hb | intros _; exact IH].
Qed.

Lemma preserves_call {C : Type} (f : CommandLineOptions -> C) (body : M Empty_set) :
  preserves f body -> preserves f (call body).
Proof.
  intros Hb st. specialize (Hb st). unfold call.
  destruct (body st) as [[[] | [b | status | what]] st1]; exact Hb.
Qed.

Lemma preserves_try {A C : Type} (f : CommandLineOptions -> C) (r : option A) what :
  preserves f (try r what).
Proof. intros st. destruct r; reflexivity. Qed.

Lemma preserves_as_string {C : Type} (f : CommandLineOptions -> C) args name :
  preserves f (as_string args name).
Proof.
  intros st. unfold as_string. destruct (args !! name) as [[]|]; reflexivity.
Qed.

Lemma preserves_as_strings {C : Type} (f : CommandLineOptions -> C) args name :
  preserves f (as_strings args name).
Proof.
  intros st. unfold as_strings. destruct (args !! name) as [[]|]; reflexivity.
Qed.

Lemma preserves_as_unsigned {C : Type} (f : CommandLineOptions -> C) args name :
  preserves f (as_unsigned args name).
Proof.
  intros st. unfold as_unsigned. destruct (args !! name) as [[]|]; reflexivity.
Qed.

Lemma preserves_solAssert {C : Type} (f : CommandLineOptions -> C) c :
  preserves f (solAssert c).
Proof. intros st. destruct c; reflexivity. Qed.

Lemma no_success_solAssert c : no_success (solAssert c).
Proof. intros st. destruct c; discriminate. Qed.

End Statements.

(** Syntax-directed proofs of [no_success] and [preserves]. *)
Ltac statement_step :=
  match goal with
  | |- no_success (mbind _ _) => apply no_success_bind; [| intros ?]
  | |- no_success (when _ _) => apply no_success_when
  | |- no_success (for_each _ _) => apply no_success_for_each; intros ?
  | |- no_success (call _) => apply no_success_call
  | |- no_success (try _ _) => apply no_success_try
  | |- no_success (as_string _ _) => apply no_success_as_string
  | |- no_success (as_strings _ _) => apply no_success_as_strings
  | |- no_success (as_unsigned _ _) => apply no_success_as_unsigned
  | |- no_success (solAssert _) => apply no_success_solAssert
  | |- no_success (if ?c then _ else _) => destruct c
  | |- no_success (match ?x with _ => _ end) => destruct x
  | |- no_success _ => solve [intros ?; discriminate]
  | |- preserves _ (mbind _ _) => apply preserves_bind; [| intros ?]
  | |- preserves _ (when _ _) => apply preserves_when
  | |- preserves _ (for_each _ _) => apply preserves_for_each; intros ?
  | |- preserves _ (call _) => apply preserves_call
  | |- preserves _ (try _ _) => apply preserves_try
  | |- preserves _ (as_string _ _) => apply preserves_as_string
  | |- preserves _ (as_strings _ _) => apply preserves_as_strings
  | |- preserves _ (as_unsigned _ _) => apply preserves_as_unsigned
  | |- preserves _ (solAssert _) => apply preserves_solAssert
  | |- preserves _ (if ?c then _ else _) => destruct c
  | |- preserves _ (match ?x with _ => _ end) => destruct x
  | |- preserves _ _ => solve [intros ?; reflexivity]
  end.

Ltac statement := repeat statement_step.

(** Unfolding of the blocks of [parse] and of the member functions they call. *)
Ltac unfold_blocks :=
  unfold parseExclusions, parseOutputFormatting, parseEarlyExits,
    parseRevertStrings, parseCombinedJson, parseOutputOptions, parseStopAfter,
    parseExclusiveModes, parseStandardJson, parseInputs, parseLibraries,
    parseEVMVersion, parseAssembler, parseLinker, parseCompilerSettings,
    parseCompilerOptimizer, parseYulOptimizations, checkMutuallyExclusive,
    version, license, parseInputPathsAndRemappings, parseInputPath,
    parseLibraryOption, parseLibrary, parseCombinedJsonOption, reset_hasOutput.

Ltac block := unfold_blocks; statement.

(** ** Which blocks of [parse] can return [true], and what they assign *)

Section Blocks.
Context {collaborators : Collaborators}.

Lemma no_success_reset_hasOutput : no_success reset_hasOutput.
Proof. block. Qed.

Lemma no_success_parseExclusions args : no_success (parseExclusions args).
Proof. block. Qed.

Lemma no_success_parseOutputFormatting args :
  no_success (parseOutputFormatting args).
Proof. block. Qed.

Lemma no_success_parseEarlyExits args argc it :
  no_success (parseEarlyExits args argc it).
Proof. block. Qed.

Lemma no_success_parseRevertStrings args : no_success (parseRevertStrings args).
Proof. block. Qed.

Lemma no_success_parseCombinedJson args : no_success (parseCombinedJson args).
Proof. block. Qed.

Lemma no_success_parseOutputOptions args : no_success (parseOutputOptions args).
Proof. block. Qed.

Lemma no_success_parseStopAfter args : no_success (parseStopAfter args).
Proof. block. Qed.

Lemma no_success_parseExclusiveModes args : no_success (parseExclusiveModes args).
Proof. block. Qed.

(** [combinedJsonRequests] is assigned by [parseCombinedJsonOption] only. *)
Lemma combinedJsonRequests_before args argc it :
  preserves combinedJsonRequests reset_hasOutput /\
  preserves combinedJsonRequests (parseExclusions args) /\
  preserves combinedJsonRequests (parseOutputFormatting args) /\
  preserves combinedJsonRequests (parseEarlyExits args argc it) /\
  preserves combinedJsonRequests (parseRevertStrings args).
Proof. repeat split; block. Qed.

Lemma combinedJsonRequests_after args :
  preserves combinedJsonRequests
    (parseOutputOptions args;;
     parseStopAfter args;;
     parseExclusiveModes args;;
     parseStandardJson args;;
     parseInputs args;;
     parseLibraries args;;
     parseEVMVersion args;;
     parseAssembler args;;
     parseLinker args;;
     parseCompilerSettings args;;
     parseCompilerOptimizer args).
Proof. block. Qed.

(** The input mode is not assigned before the mode blocks. *)
Lemma inputMode_before args argc it :
  preserves inputMode reset_hasOutput /\
  preserves inputMode (parseExclusions args) /\
  preserves inputMode (parseOutputFormatting args) /\
  preserves inputMode (parseEarlyExits args argc it) /\
  preserves inputMode (parseRevertStrings args) /\
  preserves inputMode (parseCombinedJson args) /\
  preserves inputMode (parseOutputOptions args) /\
  preserves inputMode (parseStopAfter args) /\
  preserves inputMode (parseExclusiveModes args).
Proof. repeat split; block. Qed.

End Blocks.

(** ** Sets of strings *)

Lemma set_insert_In x y l : In y (set_insert x l) <-> y = x \/ In y l.
Proof.
  induction l as [| z l IH]; simpl.
  - intuition.
  - destruct (String.eqb x z) eqn:Exz.
    + apply String.eqb_eq in Exz. subst z. simpl. intuition.
    + destruct (String.ltb x z); simpl; rewrite ?IH; intuition.
Qed.

Lemma set_of_list_In y l : In y (set_of_list l) <-> In y l.
Proof.
  unfold set_of_list.
  assert (Hgen : forall acc,
    In y (fold_left (fun acc x => set_insert x acc) l acc) <-> In y acc \/ In y l).
  { induction l as [| x l IH]; intros acc; simpl.
    - intuition.
    - rewrite IH, set_insert_In. intuition. }
  rewrite Hgen. simpl. intuition.
Qed.

Lemma set_count_In x l : nonzero (set_count x l) = true <-> In x l.
Proof.
  unfold set_count. destruct (existsb (String.eqb x) l) eqn:E; simpl.
  - split; [intros _ | reflexivity].
    apply existsb_exists in E as (y & Hy & Exy).
    apply String.eqb_eq in Exy. now subst y.
  - split; [discriminate | intros Hin].
    assert (existsb (String.eqb x) l = true) as E'.
    { apply existsb_exists. exists x. split; [exact Hin | apply String.eqb_refl]. }
    congruence.
Qed.

Lemma set_count_not_In x l : nonzero (set_count x l) = false <-> ~ In x l.
Proof.
  rewrite <- set_count_In. destruct (nonzero (set_count x l)); intuition congruence.
Qed.

(** ** The combined-json decoder *)

Section CombinedJson.
Context {collaborators : Collaborators}.

(** The loop over the requests stops at the first unknown name. *)
Lemma check_requests (requests : list string) st :
  for_each requests (fun item =>
    when (negb (nonzero (set_count item g_combinedJsonArgs))) (
      serr ("Invalid option to --" +:+ g_argCombinedJson +:+ ": " +:+ item
            +:+ endl);;
      return_ false)) st
  = match List.find unknown requests with
    | Some item =>
        (Done (Returned false),
         wrote_serr ("Invalid option to --combined-json: " +:+ item +:+ endl) st)
    | None => (Cont tt, st)
    end.
Proof.
  induction requests as [| item requests IH]; simpl.
  - reflexivity.
  - unfold unknown at 1. unfold mbind, M_bind in *.
    destruct (negb (nonzero (set_count item g_combinedJsonArgs))); simpl.
    + reflexivity.
    + exact IH.
Qed.

(** What a call of [parseCombinedJsonOption] does. *)
Lemma parseCombinedJsonOption_absent args st :
  args !! g_argCombinedJson = None ->
  call (parseCombinedJsonOption args) st = (Cont true, st).
Proof.
  intros Habsent. unfold call, parseCombinedJsonOption, count.
  rewrite Habsent. reflexivity.
Qed.

Lemma parseCombinedJsonOption_given args value st :
  args !! g_argCombinedJson = Some (string_value value) ->
  call (parseCombinedJsonOption args) st
  = let requests := set_of_list (split is_comma value) in
    match List.find unknown requests with
    | Some item =>
        (Cont false,
         wrote_serr ("Invalid option to --combined-json: " +:+ item +:+ endl) st)
    | None =>
        (Cont true, assigned (set_combinedJsonRequests (Some (requested requests))) st)
    end.
Proof.
  intros Hgiven. unfold call, parseCombinedJsonOption, as_string, count.
  rewrite Hgiven. cbn [nonzero Nat.eqb negb when].
  unfold mbind at 1 2, M_bind. cbn [mret M_ret].
  unfold mbind at 1, M_bind. rewrite check_requests.
  cbv zeta. destruct (List.find unknown _); reflexivity.
Qed.

Lemma find_unknown_some (tokens : list string) item :
  In item tokens -> unknown item = true ->
  exists item', List.find unknown (set_of_list tokens) = Some item'
    /\ In item' tokens /\ unknown item' = true.
Proof.
  intros Hin Hunknown.
  destruct (List.find unknown (set_of_list tokens)) as [item' |] eqn:Hfind.
  - apply find_some in Hfind as [Hin' Hu'].
    apply (proj1 (set_of_list_In _ _)) in Hin'.
    exists item'. repeat split; assumption.
  - pose proof (find_none _ _ Hfind item) as Hnone.
    rewrite Hunknown in Hnone. discriminate Hnone.
    apply (proj2 (set_of_list_In _ _)). exact Hin.
Qed.

Lemma find_unknown_none (tokens : list string) :
  (forall item, In item tokens -> unknown item = false) ->
  List.find unknown (set_of_list tokens) = None.
Proof.
  intros Hknown.
  destruct (List.find unknown (set_of_list tokens)) as [item |] eqn:Hfind.
  - apply find_some in Hfind as [Hin Hu].
    apply (proj1 (set_of_list_In _ _)) in Hin.
    rewrite (Hknown _ Hin) in Hu. discriminate.
  - reflexivity.
Qed.

End CombinedJson.

Section CombinedJsonClaims.
Context {collaborators : Collaborators}.

Lemma run_inv (body : M Empty_set) st o st' :
  run body st = (o, st') -> body st = (Done o, st').
Proof.
  unfold run. destruct (body st) as [[[] | o1] st1]. now intros [= -> ->].
Qed.

Lemma run_done (body : M Empty_set) st o st' :
  body st = (Done o, st') -> run body st = (o, st').
Proof. unfold run. now intros ->. Qed.

Lemma preserves_run {A B : Type} (f : CommandLineOptions -> B) (m : M A) st r st' :
  preserves f m -> m st = (r, st') -> f (m_options st') = f (m_options st).
Proof. intros Hp Hm. specialize (Hp st). now rewrite Hm in Hp. Qed.

Lemma no_success_run {A : Type} (m : M A) st st' :
  no_success m -> m st = (Done (Returned true), st') -> False.
Proof. intros Hn Hm. apply (Hn st). unfold ended. now rewrite Hm. Qed.

Lemma parseCombinedJson_absent args st :
  args !! g_argCombinedJson = None ->
  parseCombinedJson args st = (Cont tt, st).
Proof.
  intros Habsent. unfold parseCombinedJson.
  rewrite (bind_cont _ _ _ _ _ (parseCombinedJsonOption_absent _ _ Habsent)).
  reflexivity.
Qed.

Lemma parseCombinedJson_given args value st :
  args !! g_argCombinedJson = Some (string_value value) ->
  parseCombinedJson args st
  = let requests := set_of_list (split is_comma value) in
    match List.find unknown requests with
    | Some item =>
        (Done (Returned false),
         wrote_serr ("Invalid option to --combined-json: " +:+ item +:+ endl) st)
    | None =>
        (Cont tt, assigned (set_combinedJsonRequests (Some (requested requests))) st)
    end.
Proof.
  intros Hgiven. unfold parseCombinedJson, mbind, M_bind.
  rewrite (parseCombinedJsonOption_given _ _ _ Hgiven). cbv zeta.
  destruct (List.find unknown _); reflexivity.
Qed.

(** After the combined-json block the request is there iff the option was
    given. *)
Lemma parseCombinedJson_presence args st a st' :
  combinedJsonRequests (m_options st) = None ->
  parseCombinedJson args st = (Cont a, st') ->
  (is_Some (combinedJsonRequests (m_options st')) <-> 0 < count args g_argCombinedJson).
Proof.
  intros Hnone Hrun. unfold count.
  destruct (args !! g_argCombinedJson) as [[| value | |] |] eqn:Hargs.
  - unfold parseCombinedJson, call, parseCombinedJsonOption, as_string, count in Hrun.
    rewrite Hargs in Hrun. discriminate Hrun.
  - rewrite (parseCombinedJson_given _ _ _ Hargs) in Hrun. cbv zeta in Hrun.
    destruct (List.find unknown _); [discriminate Hrun |].
    injection Hrun as _ <-. simpl. split; [lia | eauto].
  - unfold parseCombinedJson, call, parseCombinedJsonOption, as_string, count in Hrun.
    rewrite Hargs in Hrun. discriminate Hrun.
  - unfold parseCombinedJson, call, parseCombinedJsonOption, as_string, count in Hrun.
    rewrite Hargs in Hrun. discriminate Hrun.
  - rewrite (parseCombinedJson_absent _ _ Hargs) in Hrun.
    injection Hrun as _ <-. rewrite Hnone. split; [intros [? [=]] | lia].
Qed.

End CombinedJsonClaims.

(** Taking apart a run that got past a chain of statements, and running
    [parse] along such a chain. *)
Ltac split_conts :=
  repeat match goal with
  | Hx : parse_until_EarlyExits _ _ = _ |- _ =>
      unfold parse_until_EarlyExits in Hx
  | Hx : parse_until_CombinedJson _ _ _ _ = _ |- _ =>
      unfold parse_until_CombinedJson in Hx
  | Hx : parse_until_ExclusiveModes _ _ _ _ = _ |- _ =>
      unfold parse_until_ExclusiveModes in Hx
  | Hx : parse_until_Inputs _ _ _ _ = _ |- _ =>
      unfold parse_until_Inputs in Hx
  | Hx : parse_until_Libraries _ _ _ _ = _ |- _ =>
      unfold parse_until_Libraries in Hx
  | Hx : parse_until_Assembler _ _ _ _ = _ |- _ =>
      unfold parse_until_Assembler in Hx
  | Hx : parse_until_CompilerOptimizer _ _ _ _ = _ |- _ =>
      unfold parse_until_CompilerOptimizer in Hx
  | Hx : (mbind _ _) _ = (Cont _, _) |- _ =>
      apply bind_cont_inv in Hx as (? & ? & ? & ?)
  end.

Ltac run_conts :=
  unfold parse; apply run_done; unfold parse_body;
  repeat (erewrite bind_cont by eassumption).

(** One block of [parse] that cannot have returned [true]: either it fell
    through, leaving [f] as it was, or the run is not the one assumed. *)
Ltac peel Hrun Hno Hpres :=
  let Hc := fresh "Hc" in
  apply bind_done_inv in Hrun as [Hrun | (? & ? & Hc & Hrun)];
  [ exfalso; exact (no_success_run _ _ _ Hno Hrun)
  | apply (preserves_run _ _ _ _ _ Hpres) in Hc ].

Section CombinedJsonTheorems.
Context {collaborators : Collaborators}.

(** A successful [parse] leaves in [combinedJsonRequests] what the
    combined-json block put there. *)
Lemma parse_success_combinedJson args _argc interactiveTerminal st st' :
  parse (po_stored args) _argc interactiveTerminal st = (Returned true, st') ->
  exists st1 st2,
    combinedJsonRequests (m_options st1) = combinedJsonRequests (m_options st)
    /\ parseCombinedJson args st1 = (Cont tt, st2)
    /\ combinedJsonRequests (m_options st') = combinedJsonRequests (m_options st2).
Proof.
  intros Hparse. apply run_inv in Hparse. unfold parse_body in Hparse.
  destruct (combinedJsonRequests_before args _argc interactiveTerminal)
    as (P0 & P1 & P2 & P3 & P4).
  peel Hparse no_success_reset_hasOutput P0.
  peel Hparse (no_success_parseExclusions args) P1.
  peel Hparse (no_success_parseOutputFormatting args) P2.
  peel Hparse (no_success_parseEarlyExits args _argc interactiveTerminal) P3.
  peel Hparse (no_success_parseRevertStrings args) P4.
  apply bind_done_inv in Hparse as [Hparse | ([] & st2 & Hcj & Hparse)];
    [ exfalso; exact (no_success_run _ _ _ (no_success_parseCombinedJson args) Hparse) |].
  apply (preserves_run _ _ _ _ _ (combinedJsonRequests_after args)) in Hparse.
  eexists _, st2. split; [| split; [exact Hcj | exact Hparse]].
  congruence.
Qed.

(** With an unknown name among the requests, [parse] never returns [true]. *)
Lemma parse_unknown_request args _argc interactiveTerminal st value item :
  args !! g_argCombinedJson = Some (string_value value) ->
  In item (split is_comma value) ->
  unknown item = true ->
  (parse (po_stored args) _argc interactiveTerminal st).1 <> Returned true.
Proof.
  intros Hgiven Hin Hunknown Hparse.
  destruct (parse _ _ _ _) as [o st'] eqn:Heq. simpl in Hparse. subst o.
  apply parse_success_combinedJson in Heq as (st1 & st2 & _ & Hcj & _).
  rewrite (parseCombinedJson_given _ _ _ Hgiven) in Hcj. cbv zeta in Hcj.
  destruct (find_unknown_some _ _ Hin Hunknown) as (item' & Hfind & _).
  rewrite Hfind in Hcj. discriminate Hcj.
Qed.

(** When [parse] gets to the combined-json block with an unknown name among
    the requests, it returns [false] and names the first unknown one. *)
Lemma parse_unknown_request_reached args _argc interactiveTerminal st st1 value item :
  args !! g_argCombinedJson = Some (string_value value) ->
  In item (split is_comma value) ->
  unknown item = true ->
  parse_until_CombinedJson args _argc interactiveTerminal st = (Cont tt, st1) ->
  exists item',
    In item' (split is_comma value) /\ unknown item' = true /\
    parse (po_stored args) _argc interactiveTerminal st
    = (Returned false,
       wrote_serr ("Invalid option to --combined-json: " +:+ item' +:+ endl) st1).
Proof.
  intros Hgiven Hin Hunknown Hreach.
  destruct (find_unknown_some _ _ Hin Hunknown) as (item' & Hfind & Hin' & Hu').
  exists item'. split; [exact Hin' | split; [exact Hu' |]].
  split_conts. run_conts.
  apply bind_done. rewrite (parseCombinedJson_given _ _ _ Hgiven).
  cbv zeta. rewrite Hfind. reflexivity.
Qed.

(** C4: the combined-json request is present in the resolved options iff
    [--combined-json] was supplied.  With the value [abi,bin] it holds
    exactly the abi and binary flags; with [abi,bogus] resolution fails and
    names [bogus]; without the option the request stays absent. *)
Theorem C4_combined_json_presence args _argc interactiveTerminal st :
  combinedJsonRequests (m_options st) = None ->
  (forall st',
     parse (po_stored args) _argc interactiveTerminal st = (Returned true, st') ->
     (is_Some (combinedJsonRequests (m_options st'))
      <-> 0 < count args g_argCombinedJson)
     /\ (args !! g_argCombinedJson = None ->
         combinedJsonRequests (m_options st') = None)
     /\ (args !! g_argCombinedJson = Some (string_value "abi,bin") ->
         combinedJsonRequests (m_options st') = Some abi_and_binary))
  /\ (args !! g_argCombinedJson = Some (string_value "abi,bogus") ->
      (parse (po_stored args) _argc interactiveTerminal st).1 <> Returned true
      /\ forall st1,
           parse_until_CombinedJson args _argc interactiveTerminal st = (Cont tt, st1) ->
           parse (po_stored args) _argc interactiveTerminal st
           = (Returned false,
              wrote_serr ("Invalid option to --combined-json: bogus" +:+ endl) st1)).
Proof.
  intros Hnone. split.
  - intros st' Hparse.
    apply parse_success_combinedJson in Hparse as (st1 & st2 & H1 & Hcj & H2).
    rewrite Hnone in H1. rewrite H2. split; [| split].
    + exact (parseCombinedJson_presence _ _ _ _ H1 Hcj).
    + intros Habsent. rewrite (parseCombinedJson_absent _ _ Habsent) in Hcj.
      injection Hcj as <-. exact H1.
    + intros Hgiven. rewrite (parseCombinedJson_given _ _ _ Hgiven) in Hcj.
      vm_compute in Hcj. injection Hcj as <-. reflexivity.
  - intros Hgiven. split.
    + apply (parse_unknown_request _ _ _ _ _ "bogus" Hgiven).
      * vm_compute. auto.
      * reflexivity.
    + intros st1 Hreach.
      assert (Hin : In "bogus" (split is_comma "abi,bogus")) by (vm_compute; auto).
      destruct (parse_unknown_request_reached _ _ _ _ _ _ "bogus" Hgiven Hin
                  eq_refl Hreach) as (item' & Hin' & Hu' & ->).
      vm_compute in Hin'. destruct Hin' as [<- | [<- | []]].
      * discriminate Hu'.
      * reflexivity.
Qed.

End CombinedJsonTheorems.

(** One block of [parse] in a run that ended somehow: if the run ended in
    this block, [f] is as it was; if not, go on with the next block. *)
Ltac peel_any Hrun Hpres :=
  let Hc := fresh "Hc" in
  apply bind_done_inv in Hrun as [Hrun | (? & ? & Hc & Hrun)];
  [ apply (preserves_run _ _ _ _ _ Hpres) in Hrun; congruence
  | apply (preserves_run _ _ _ _ _ Hpres) in Hc ].

Section CombinedJsonOrder.
Context {collaborators : Collaborators}.

(** A run of [parse] that ends in the combined-json block or before it has
    not assigned the input mode. *)
Lemma parse_unknown_request_inputMode args _argc interactiveTerminal st value item :
  args !! g_argCombinedJson = Some (string_value value) ->
  In item (split is_comma value) ->
  unknown item = true ->
  inputMode (m_options (parse (po_stored args) _argc interactiveTerminal st).2)
  = inputMode (m_options st).
Proof.
  intros Hgiven Hin Hunknown.
  destruct (parse _ _ _ _) as [o st'] eqn:Hparse. simpl.
  apply run_inv in Hparse. unfold parse_body in Hparse.
  destruct (inputMode_before args _argc interactiveTerminal)
    as (P0 & P1 & P2 & P3 & P4 & P5 & _).
  peel_any Hparse P0. peel_any Hparse P1. peel_any Hparse P2.
  peel_any Hparse P3. peel_any Hparse P4.
  apply bind_done_inv in Hparse as [Hparse | (? & ? & Hcj & _)].
  - apply (preserves_run _ _ _ _ _ P5) in Hparse. congruence.
  - rewrite (parseCombinedJson_given _ _ _ Hgiven) in Hcj. cbv zeta in Hcj.
    destruct (find_unknown_some _ _ Hin Hunknown) as (item' & Hfind & _).
    rewrite Hfind in Hcj. discriminate Hcj.
Qed.

(** C9: the combined-json requests are decoded before the standard-json
    branch.  With [--standard-json] and an unknown name among the
    [--combined-json] requests, [parse] never returns [true] and never
    assigns the input mode; when it gets to the decoder it returns [false]
    and the diagnostic names the unknown request. *)
Theorem C9_combined_json_before_standard_json
    args _argc interactiveTerminal st value item :
  0 < count args g_argStandardJSON ->
  args !! g_argCombinedJson = Some (string_value value) ->
  In item (split is_comma value) ->
  unknown item = true ->
  (parse (po_stored args) _argc interactiveTerminal st).1 <> Returned true
  /\ inputMode (m_options (parse (po_stored args) _argc interactiveTerminal st).2)
     = inputMode (m_options st)
  /\ forall st1,
       parse_until_CombinedJson args _argc interactiveTerminal st = (Cont tt, st1) ->
       exists item',
         In item' (split is_comma value) /\ unknown item' = true /\
         parse (po_stored args) _argc interactiveTerminal st
         = (Returned false,
            wrote_serr ("Invalid option to --combined-json: " +:+ item' +:+ endl) st1).
Proof.
  intros _ Hgiven Hin Hunknown. split; [| split].
  - exact (parse_unknown_request _ _ _ _ _ _ Hgiven Hin Hunknown).
  - exact (parse_unknown_request_inputMode _ _ _ _ _ _ Hgiven Hin Hunknown).
  - intros st1 Hreach.
    exact (parse_unknown_request_reached _ _ _ _ _ _ _ Hgiven Hin Hunknown Hreach).
Qed.

(** The requests decoded from names that are all [compact-format] or
    [interface]. *)
Lemma requested_no_requests (tokens : list string) :
  (forall item, In item tokens -> item = g_strCompactJSON \/ item = g_strInterface) ->
  requested (set_of_list tokens) = no_requests.
Proof.
  intros Hnames.
  assert (Hout : forall name,
    name <> g_strCompactJSON -> name <> g_strInterface ->
    nonzero (set_count name (set_of_list tokens)) = false).
  { intros name H1 H2. apply set_count_not_In. intros Hin.
    apply (proj1 (set_of_list_In _ _)) in Hin.
    destruct (Hnames _ Hin); contradiction. }
  unfold requested, no_requests.
  rewrite !Hout by discriminate. reflexivity.
Qed.

(** C10: [compact-format] and [interface] are accepted names of the
    combined-json vocabulary that set none of the 17 flags: a value made of
    these names only is accepted, and the resolved options hold a request
    with all 17 flags false. *)
Theorem C10_compact_format_and_interface
    args _argc interactiveTerminal st value :
  args !! g_argCombinedJson = Some (string_value value) ->
  (forall item, In item (split is_comma value) ->
     item = g_strCompactJSON \/ item = g_strInterface) ->
  unknown g_strCompactJSON = false
  /\ unknown g_strInterface = false
  /\ call (parseCombinedJsonOption args) st
     = (Cont true, assigned (set_combinedJsonRequests (Some no_requests)) st)
  /\ Forall (fun flag => flag = false) (CombinedJsonRequests.flags no_requests)
  /\ List.length (CombinedJsonRequests.flags no_requests) = 17
  /\ forall st',
       parse (po_stored args) _argc interactiveTerminal st = (Returned true, st') ->
       combinedJsonRequests (m_options st') = Some no_requests.
Proof.
  intros Hgiven Hnames.
  assert (Hfind : List.find unknown (set_of_list (split is_comma value)) = None).
  { apply find_unknown_none. intros item Hin.
    destruct (Hnames _ Hin) as [-> | ->]; reflexivity. }
  split; [reflexivity |]. split; [reflexivity |]. split; [| split; [| split]].
  - rewrite (parseCombinedJsonOption_given _ _ _ Hgiven). cbv zeta.
    rewrite Hfind, (requested_no_requests _ Hnames). reflexivity.
  - repeat constructor.
  - reflexivity.
  - intros st' Hparse.
    apply parse_success_combinedJson in Hparse as (st1 & st2 & _ & Hcj & ->).
    rewrite (parseCombinedJson_given _ _ _ Hgiven) in Hcj. cbv zeta in Hcj.
    rewrite Hfind, (requested_no_requests _ Hnames) in Hcj.
    injection Hcj as <-. reflexivity.
Qed.

End CombinedJsonOrder.

(** ** Mode exclusivity and the early exits *)

Section Modes.
Context {collaborators : Collaborators}.

Lemma countEnabledOptions_sum args (names : list string) (n : nat) :
  fold_left (fun count_ _option => count_ + count args _option) names n
  = n + countEnabledOptions args names.
Proof.
  unfold countEnabledOptions. revert n.
  induction names as [| name names IH]; intros n; simpl.
  - lia.
  - rewrite IH, (IH (count args name)). lia.
Qed.

Lemma countEnabledOptions_cons args name (names : list string) :
  countEnabledOptions args (name :: names)
  = count args name + countEnabledOptions args names.
Proof. unfold countEnabledOptions at 1. simpl. apply countEnabledOptions_sum. Qed.

Lemma countEnabledOptions_one args (names : list string) a :
  In a names -> 0 < count args a -> 1 <= countEnabledOptions args names.
Proof.
  induction names as [| name names IH]; intros Hin Ha; [destruct Hin |].
  rewrite countEnabledOptions_cons. destruct Hin as [-> | Hin].
  - lia.
  - specialize (IH Hin Ha). lia.
Qed.

(** Two different enabled options of a list count as two at least. *)
Lemma countEnabledOptions_two args (names : list string) a b :
  In a names -> In b names -> a <> b ->
  0 < count args a -> 0 < count args b ->
  1 < countEnabledOptions args names.
Proof.
  induction names as [| name names IH]; intros Ha Hb Hab Hca Hcb; [destruct Ha |].
  rewrite countEnabledOptions_cons.
  destruct Ha as [-> | Ha], Hb as [-> | Hb].
  - contradiction.
  - pose proof (countEnabledOptions_one args names b Hb Hcb). lia.
  - pose proof (countEnabledOptions_one args names a Ha Hca). lia.
  - specialize (IH Ha Hb Hab Hca Hcb). lia.
Qed.

Lemma append_cons (x : ascii) (a b : string) :
  String x a +:+ b = String x (a +:+ b).
Proof. reflexivity. Qed.

Lemma string_app_assoc (a b c : string) : (a +:+ b) +:+ c = a +:+ (b +:+ c).
Proof.
  induction a as [| x a IH]; [reflexivity |].
  rewrite !append_cons. now rewrite IH.
Qed.

Lemma string_app_nil_r (a : string) : a +:+ "" = a.
Proof.
  induction a as [| x a IH]; [reflexivity |].
  rewrite append_cons. now rewrite IH.
Qed.

Lemma parseExclusiveModes_conflict args st :
  1 < countEnabledOptions args exclusiveModes ->
  parseExclusiveModes args st
  = (Done (Returned false), wrote_serr exclusiveModes_diagnostic st).
Proof.
  intros Hcount. unfold parseExclusiveModes.
  apply Nat.ltb_lt in Hcount. rewrite Hcount.
  unfold when, serr, return_, mbind, M_bind, wrote_serr, exclusiveModes_diagnostic.
  cbn [m_serr m_options m_sout m_hasOutput].
  rewrite !string_app_assoc. reflexivity.
Qed.

Lemma occurs_in_app_r (needle a b : string) :
  occurs_in needle b -> occurs_in needle (a +:+ b).
Proof.
  intros (pre & post & ->). exists (a +:+ pre), post.
  now rewrite string_app_assoc.
Qed.

Lemma occurs_in_app_l (needle a b : string) :
  occurs_in needle a -> occurs_in needle (a +:+ b).
Proof.
  intros (pre & post & ->). exists pre, (post +:+ b).
  now rewrite !string_app_assoc.
Qed.

Lemma occurs_in_refl (needle : string) : occurs_in needle needle.
Proof.
  exists "", "". now rewrite string_app_nil_r.
Qed.

(** Every name of a joined list occurs in the result, with its dashes. *)
Lemma joinOptionNames_occurs (names : list string) (sep name : string) :
  In name names -> occurs_in ("--" +:+ name) (joinOptionNames names sep).
Proof.
  unfold joinOptionNames.
  induction names as [| x names IH]; intros Hin; [destruct Hin |].
  destruct Hin as [-> | Hin].
  - destruct names as [| y names]; simpl map; simpl join.
    + apply occurs_in_refl.
    + apply occurs_in_app_l, occurs_in_refl.
  - destruct names as [| y names]; [destruct Hin |].
    specialize (IH Hin). simpl map in *. simpl join.
    change (occurs_in ("--" +:+ name)
      (("--" +:+ x) +:+ (sep +:+ join (("--" +:+ y) :: map (fun o => "--" +:+ o) names) sep))).
    now apply occurs_in_app_r, occurs_in_app_r.
Qed.

End Modes.

(** One block of [parse] that cannot have returned [true]. *)
Ltac peel_no_success Hrun Hno :=
  apply bind_done_inv in Hrun as [Hrun | (? & ? & _ & Hrun)];
  [ exfalso; exact (no_success_run _ _ _ Hno Hrun) |].

Section ModeTheorems.
Context {collaborators : Collaborators}.

Lemma parse_conflicting_modes_no_success args _argc interactiveTerminal st :
  1 < countEnabledOptions args exclusiveModes ->
  (parse (po_stored args) _argc interactiveTerminal st).1 <> Returned true.
Proof.
  intros Hcount Htrue.
  destruct (parse _ _ _ _) as [o st'] eqn:Hparse. simpl in Htrue. subst o.
  apply run_inv in Hparse. unfold parse_body in Hparse.
  peel_no_success Hparse no_success_reset_hasOutput.
  peel_no_success Hparse (no_success_parseExclusions args).
  peel_no_success Hparse (no_success_parseOutputFormatting args).
  peel_no_success Hparse (no_success_parseEarlyExits args _argc interactiveTerminal).
  peel_no_success Hparse (no_success_parseRevertStrings args).
  peel_no_success Hparse (no_success_parseCombinedJson args).
  peel_no_success Hparse (no_success_parseOutputOptions args).
  peel_no_success Hparse (no_success_parseStopAfter args).
  rewrite (bind_done _ _ _ _ _ (parseExclusiveModes_conflict _ _ Hcount)) in Hparse.
  discriminate Hparse.
Qed.

(** C1 (amended): with two or more of the six mode options, [parse] never
    returns [true]; when it gets to the mode check it returns [false], and
    the diagnostic lists all six mode options, whether supplied or not. *)
Theorem C1_exclusive_modes args _argc interactiveTerminal st a b :
  In a exclusiveModes -> In b exclusiveModes -> a <> b ->
  0 < count args a -> 0 < count args b ->
  (parse (po_stored args) _argc interactiveTerminal st).1 <> Returned true
  /\ (forall st1,
        parse_until_ExclusiveModes args _argc interactiveTerminal st = (Cont tt, st1) ->
        parse (po_stored args) _argc interactiveTerminal st
        = (Returned false, wrote_serr exclusiveModes_diagnostic st1))
  /\ (forall name,
        In name exclusiveModes ->
        occurs_in ("--" +:+ name) exclusiveModes_diagnostic).
Proof.
  intros Ha Hb Hab Hca Hcb.
  pose proof (countEnabledOptions_two args _ a b Ha Hb Hab Hca Hcb) as Hcount.
  split; [| split].
  - exact (parse_conflicting_modes_no_success _ _ _ _ Hcount).
  - intros st1 Hreach. split_conts. run_conts.
    apply bind_done, parseExclusiveModes_conflict, Hcount.
  - intros name Hin. unfold exclusiveModes_diagnostic.
    apply occurs_in_app_r, occurs_in_app_l.
    now apply joinOptionNames_occurs.
Qed.

Lemma nonzero_pos (n : nat) : 0 < n -> nonzero n = true.
Proof. destruct n; [lia | reflexivity]. Qed.

Lemma nonzero_zero (n : nat) : n = 0 -> nonzero n = false.
Proof. now intros ->. Qed.

Lemma parseExclusions_color_conflict args st :
  0 < count args g_argColor -> 0 < count args g_argNoColor ->
  parseExclusions args st
  = (Done (Returned false),
     wrote_serr ("Option color and no-color are mutually exclusive." +:+ endl) st).
Proof.
  intros Hc Hn. unfold parseExclusions, checkMutuallyExclusive.
  rewrite (nonzero_pos _ Hc), (nonzero_pos _ Hn). reflexivity.
Qed.

(** C5 (amended): the exclusivity checks run before the early exits, and
    they reject [--color --no-color] whatever else is supplied.  When they
    pass: with the help flag [parse] writes the help text and returns
    (with [false]); else with the version flag it writes the version text
    and exits with status 0; else with the license flag it writes the
    licence texts and exits with status 0.  No later rule runs in any of
    the three cases. *)
Theorem C5_early_exits args _argc interactiveTerminal st :
  (forall st1,
     parse_until_EarlyExits args st = (Cont tt, st1) ->
     (help_requested args _argc interactiveTerminal = true ->
      parse (po_stored args) _argc interactiveTerminal st
      = (Returned false, wrote_sout desc st1))
     /\ (help_requested args _argc interactiveTerminal = false ->
         0 < count args g_argVersion ->
         parse (po_stored args) _argc interactiveTerminal st
         = (Exited 0, wrote_sout version_text st1))
     /\ (help_requested args _argc interactiveTerminal = false ->
         count args g_argVersion = 0 ->
         0 < count args g_strLicense ->
         parse (po_stored args) _argc interactiveTerminal st
         = (Exited 0,
            wrote_sout (licenseText +:+ endl)
              (wrote_sout (otherLicenses +:+ endl) st1))))
  /\ (0 < count args g_argColor -> 0 < count args g_argNoColor ->
      parse (po_stored args) _argc interactiveTerminal st
      = (Returned false,
         wrote_serr ("Option color and no-color are mutually exclusive." +:+ endl)
           (reset_hasOutput st).2)).
Proof.
  split.
  - intros st1 Hreach. unfold help_requested. split_conts.
    split; [| split].
    + intros Hhelp. run_conts. apply bind_done.
      unfold parseEarlyExits. rewrite Hhelp. reflexivity.
    + intros Hhelp Hversion. run_conts. apply bind_done.
      unfold parseEarlyExits. rewrite Hhelp, (nonzero_pos _ Hversion). reflexivity.
    + intros Hhelp Hversion Hlicense. run_conts. apply bind_done.
      unfold parseEarlyExits.
      rewrite Hhelp, (nonzero_zero _ Hversion), (nonzero_pos _ Hlicense).
      reflexivity.
  - intros Hc Hn. unfold parse. apply run_done. unfold parse_body.
    erewrite bind_cont by reflexivity.
    apply bind_done, parseExclusions_color_conflict; assumption.
Qed.

End ModeTheorems.

(** ** Assembler mode and the Yul optimizer steps *)

Section Assembler.
Context {collaborators : Collaborators}.

Lemma countEnabledOptions_none args (names : list string) :
  (forall name, In name names -> count args name = 0) ->
  countEnabledOptions args names = 0.
Proof.
  induction names as [| name names IH]; intros Hnone; [reflexivity |].
  rewrite countEnabledOptions_cons, (Hnone name), IH; simpl; auto.
  intros name' Hin. apply Hnone. now right.
Qed.

Lemma count_lookup args name value :
  args !! name = Some value -> count args name = 1.
Proof. unfold count. now intros ->. Qed.

Lemma parseAssembler_yul_ewasm args st :
  0 < count args g_argYul ->
  args !! g_argMachine = Some (string_value "ewasm") ->
  (forall name, In name nonAssemblyModeOptions -> count args name = 0) ->
  count args g_argOptimize = 0 ->
  count args g_strYulOptimizations = 0 ->
  (count args g_strYulDialect = 0 ->
   parseAssembler args st = (Done (Returned false), yul_on_ewasm_rejected st))
  /\ (args !! g_strYulDialect = Some (string_value "evm") ->
      parseAssembler args st = (Done (Returned true), yul_on_ewasm_evm_dialect st)).
Proof.
  intros Hyul Hmachine Hdeny Hopt Hsteps.
  assert (Hno : count args g_strNoOptimizeYul = 0).
  { apply Hdeny. do 4 right. left. reflexivity. }
  unfold parseAssembler, parseYulOptimizations.
  rewrite (countEnabledOptions_none _ _ Hdeny).
  rewrite (nonzero_pos _ Hyul), !orb_true_r.
  rewrite Hopt, Hsteps, Hno, (count_lookup _ _ _ Hmachine).
  unfold as_string. rewrite Hmachine.
  split.
  - intros Hdialect. rewrite Hdialect. reflexivity.
  - intros Hdialect. rewrite (count_lookup _ _ _ Hdialect), Hdialect. reflexivity.
Qed.

Lemma parseAssembler_strict_assembly_ewasm args st :
  count args g_argYul = 0 ->
  0 < count args g_argStrictAssembly ->
  args !! g_argMachine = Some (string_value "ewasm") ->
  (forall name, In name nonAssemblyModeOptions -> count args name = 0) ->
  count args g_argOptimize = 0 ->
  count args g_strYulOptimizations = 0 ->
  count args g_strYulDialect = 0 ->
  parseAssembler args st = (Done (Returned true), strict_assembly_on_ewasm st).
Proof.
  intros Hyul Hstrict Hmachine Hdeny Hopt Hsteps Hdialect.
  assert (Hno : count args g_strNoOptimizeYul = 0).
  { apply Hdeny. do 4 right. left. reflexivity. }
  unfold parseAssembler, parseYulOptimizations.
  rewrite (countEnabledOptions_none _ _ Hdeny).
  rewrite (nonzero_pos _ Hstrict), Hyul, !orb_true_r.
  rewrite Hopt, Hsteps, Hno, Hdialect, (count_lookup _ _ _ Hmachine).
  unfold as_string. rewrite Hmachine. reflexivity.
Qed.

Lemma parseAssembler_ewasm_dialect_evm args st :
  0 < count args g_argYul ->
  args !! g_argMachine = Some (string_value "evm") ->
  (forall name, In name nonAssemblyModeOptions -> count args name = 0) ->
  count args g_argOptimize = 0 ->
  count args g_strYulOptimizations = 0 ->
  args !! g_strYulDialect = Some (string_value "ewasm") ->
  parseAssembler args st = (Done (Returned false), ewasm_dialect_on_evm st).
Proof.
  intros Hyul Hmachine Hdeny Hopt Hsteps Hdialect.
  assert (Hno : count args g_strNoOptimizeYul = 0).
  { apply Hdeny. do 4 right. left. reflexivity. }
  unfold parseAssembler, parseYulOptimizations.
  rewrite (countEnabledOptions_none _ _ Hdeny).
  rewrite (nonzero_pos _ Hyul), !orb_true_r.
  rewrite Hopt, Hsteps, Hno, (count_lookup _ _ _ Hmachine),
    (count_lookup _ _ _ Hdialect).
  unfold as_string. rewrite Hmachine, Hdialect. reflexivity.
Qed.

(** C2 (amended): when [parse] gets to the assembler branch with [--yul
    --machine ewasm] and none of the other options this branch reads,
    then without [--yul-dialect] it returns [false], the language being Yul,
    which the Ewasm machine does not accept; with [--yul-dialect evm] it
    returns [true] with language StrictAssembly on machine Ewasm. *)
Theorem C2_yul_on_ewasm args _argc interactiveTerminal st st1 :
  parse_until_Assembler args _argc interactiveTerminal st = (Cont tt, st1) ->
  0 < count args g_argYul ->
  args !! g_argMachine = Some (string_value "ewasm") ->
  (forall name, In name nonAssemblyModeOptions -> count args name = 0) ->
  count args g_argOptimize = 0 ->
  count args g_strYulOptimizations = 0 ->
  (count args g_strYulDialect = 0 ->
   parse (po_stored args) _argc interactiveTerminal st
   = (Returned false, yul_on_ewasm_rejected st1)
   /\ inputAssemblyLanguage (m_options (yul_on_ewasm_rejected st1)) = Input.Yul
   /\ targetMachine (m_options (yul_on_ewasm_rejected st1)) = Machine.Ewasm)
  /\ (args !! g_strYulDialect = Some (string_value "evm") ->
      parse (po_stored args) _argc interactiveTerminal st
      = (Returned true, yul_on_ewasm_evm_dialect st1)
      /\ inputAssemblyLanguage (m_options (yul_on_ewasm_evm_dialect st1))
         = Input.StrictAssembly
      /\ targetMachine (m_options (yul_on_ewasm_evm_dialect st1)) = Machine.Ewasm
      /\ inputMode (m_options (yul_on_ewasm_evm_dialect st1)) = InputMode.Assembler).
Proof.
  intros Hreach Hyul Hmachine Hdeny Hopt Hsteps.
  destruct (parseAssembler_yul_ewasm args st1 Hyul Hmachine Hdeny Hopt Hsteps)
    as [Hnone Hevm].
  split_conts. split.
  - intros Hdialect. split; [| split; reflexivity].
    run_conts. apply bind_done. subst. exact (Hnone Hdialect).
  - intros Hdialect. split; [| repeat split; reflexivity].
    run_conts. apply bind_done. subst. exact (Hevm Hdialect).
Qed.

(** Where the silent upgrade and the mismatch of C2 do apply: the language
    becomes Ewasm for [--strict-assembly --machine ewasm], and
    [--yul-dialect ewasm] is refused on the EVM machine. *)
Lemma assembler_upgrade_and_mismatch args _argc interactiveTerminal st st1 :
  parse_until_Assembler args _argc interactiveTerminal st = (Cont tt, st1) ->
  (forall name, In name nonAssemblyModeOptions -> count args name = 0) ->
  count args g_argOptimize = 0 ->
  count args g_strYulOptimizations = 0 ->
  (count args g_argYul = 0 ->
   0 < count args g_argStrictAssembly ->
   args !! g_argMachine = Some (string_value "ewasm") ->
   count args g_strYulDialect = 0 ->
   parse (po_stored args) _argc interactiveTerminal st
   = (Returned true, strict_assembly_on_ewasm st1)
   /\ inputAssemblyLanguage (m_options (strict_assembly_on_ewasm st1)) = Input.Ewasm)
  /\ (0 < count args g_argYul ->
      args !! g_argMachine = Some (string_value "evm") ->
      args !! g_strYulDialect = Some (string_value "ewasm") ->
      parse (po_stored args) _argc interactiveTerminal st
      = (Returned false, ewasm_dialect_on_evm st1)).
Proof.
  intros Hreach Hdeny Hopt Hsteps. split_conts. split.
  - intros Hyul Hstrict Hmachine Hdialect. split; [| reflexivity].
    run_conts. apply bind_done. subst.
    now apply parseAssembler_strict_assembly_ewasm.
  - intros Hyul Hmachine Hdialect.
    run_conts. apply bind_done. subst.
    now apply parseAssembler_ewasm_dialect_evm.
Qed.

(** *** The optimizer step sequence in compiler mode *)

Lemma parseCompilerOptimizer_steps args steps st :
  args !! g_strYulOptimizations = Some (string_value steps) ->
  (yulOptimiserEnabled args = false ->
   parseCompilerOptimizer args st
   = (Done (Returned false),
      wrote_serr ("--yul-optimizations is invalid if Yul optimizer is disabled"
                  +:+ endl)
        (optimizer_flags_assigned args st)))
  /\ (yulOptimiserEnabled args = true ->
      forall what, validateSequence steps = Some what ->
      parseCompilerOptimizer args st
      = (Done (Returned false),
         wrote_serr ("Invalid optimizer step sequence in --yul-optimizations: "
                     +:+ what +:+ endl)
           (optimizer_flags_assigned args st)))
  /\ (yulOptimiserEnabled args = true ->
      validateSequence steps = None ->
      inputMode (m_options st) = InputMode.Compiler ->
      exists st',
        parseCompilerOptimizer args st = (Done (Returned true), st')
        /\ yulOptimiserSteps (m_options st') = Some steps
        /\ m_serr st' = m_serr st).
Proof.
  intros Hgiven. unfold yulOptimiserEnabled.
  unfold parseCompilerOptimizer, parseYulOptimizations, as_string.
  rewrite (count_lookup _ _ _ Hgiven), Hgiven.
  destruct (nonzero (count args g_argOptimize)) eqn:Hopt,
    (nonzero (count args g_strNoOptimizeYul)) eqn:Hno;
    simpl andb; (split; [| split]); try discriminate.
  all: try (intros _; unfold optimizer_flags_assigned; rewrite Hopt, Hno; reflexivity).
  - intros _ what Hwhat. unfold optimizer_flags_assigned, mbind, M_bind.
    cbn. rewrite Hwhat, Hopt, Hno. reflexivity.
  - intros _ Hvalid Hmode. unfold mbind, M_bind. cbn. rewrite Hvalid.
    destruct (nonzero (count args g_argImportAst)); cbn.
    + eexists; (split; [reflexivity | split; reflexivity]).
    + destruct st as [o so se ho]; destruct o; cbn in Hmode; subst.
      eexists; (split; [reflexivity | split; reflexivity]).
Qed.

(** C6: in plain compiler mode, [--yul-optimizations] makes resolution fail
    when the Yul optimizer is off after the presets and the
    [--no-optimize-yul] override, that is without [--optimize] and with
    [--optimize --no-optimize-yul]; with the optimizer on, a sequence the
    validator rejects fails with the validator's message, and a sequence it
    accepts is stored verbatim by a successful resolution. *)
Theorem C6_yul_optimizations args _argc interactiveTerminal st st1 steps :
  parse_until_CompilerOptimizer args _argc interactiveTerminal st = (Cont tt, st1) ->
  inputMode (m_options st1) = InputMode.Compiler ->
  args !! g_strYulOptimizations = Some (string_value steps) ->
  (count args g_argOptimize = 0 \/ 0 < count args g_strNoOptimizeYul ->
   parse (po_stored args) _argc interactiveTerminal st
   = (Returned false,
      wrote_serr ("--yul-optimizations is invalid if Yul optimizer is disabled"
                  +:+ endl)
        (optimizer_flags_assigned args st1)))
  /\ (0 < count args g_argOptimize -> count args g_strNoOptimizeYul = 0 ->
      forall what, validateSequence steps = Some what ->
      parse (po_stored args) _argc interactiveTerminal st
      = (Returned false,
         wrote_serr ("Invalid optimizer step sequence in --yul-optimizations: "
                     +:+ what +:+ endl)
           (optimizer_flags_assigned args st1)))
  /\ (0 < count args g_argOptimize -> count args g_strNoOptimizeYul = 0 ->
      validateSequence steps = None ->
      exists st',
        parse (po_stored args) _argc interactiveTerminal st = (Returned true, st')
        /\ yulOptimiserSteps (m_options st') = Some steps).
Proof.
  intros Hreach Hmode Hgiven.
  destruct (parseCompilerOptimizer_steps args steps st1 Hgiven)
    as (Hoff & Hinvalid & Hvalid).
  split_conts. subst. split; [| split].
  - intros Hdisabled. run_conts. apply Hoff. unfold yulOptimiserEnabled.
    destruct Hdisabled as [Hopt | Hno].
    + now rewrite Hopt.
    + rewrite (nonzero_pos _ Hno). apply andb_false_r.
  - intros Hopt Hno what Hwhat. run_conts. apply Hinvalid; [| exact Hwhat].
    unfold yulOptimiserEnabled. now rewrite (nonzero_pos _ Hopt), Hno.
  - intros Hopt Hno Hok.
    destruct Hvalid as (st' & Hrun & Hsteps & _); [| exact Hok | exact Hmode |].
    { unfold yulOptimiserEnabled. now rewrite (nonzero_pos _ Hopt), Hno. }
    exists st'. split; [| exact Hsteps]. run_conts. exact Hrun.
Qed.

End Assembler.

(** ** Input paths and remappings *)

Section Remappings.
Context {collaborators : Collaborators}.

Lemma parseInputPath_remapping path eq r st :
  find_char "=" path = Some eq ->
  parseRemapping path = Some r ->
  parseInputPath path st
  = (Cont tt, remapping_recorded r (string_drop (S eq) path) st).
Proof. intros Heq Hr. unfold parseInputPath. rewrite Heq, Hr. reflexivity. Qed.

Lemma parseInputPath_invalid path eq st :
  find_char "=" path = Some eq ->
  parseRemapping path = None ->
  parseInputPath path st
  = (Done (Returned false),
     wrote_serr ("Invalid remapping: " +:+ quote +:+ path +:+ quote
                 +:+ "." +:+ endl) st).
Proof. intros Heq Hr. unfold parseInputPath. rewrite Heq, Hr. reflexivity. Qed.

Lemma parseInputPath_plain path st :
  find_char "=" path = None ->
  parseInputPath path st
  = (Cont tt,
     if String.eqb path "-" then assigned (set_addStdin true) st
     else assigned (fun o => set_sourceFilePaths ({[ path ]} ∪ sourceFilePaths o) o) st).
Proof.
  intros Heq. unfold parseInputPath. rewrite Heq.
  destruct (String.eqb path "-"); reflexivity.
Qed.

(** What the loop over the positional arguments leaves in the source file
    paths and in the allowed directories. *)
Lemma for_each_parseInputPath (paths : list string) st r st' :
  for_each paths parseInputPath st = (r, st') ->
  (forall p, p ∈ sourceFilePaths (m_options st') ->
     p ∈ sourceFilePaths (m_options st)
     \/ (In p paths /\ find_char "=" p = None))
  /\ (forall d, d ∈ allowedDirectories (m_options st) ->
        d ∈ allowedDirectories (m_options st'))
  /\ (r = Cont tt ->
      forall p eq, In p paths -> find_char "=" p = Some eq ->
        path_remove_filename (string_drop (S eq) p)
        ∈ allowedDirectories (m_options st')).
Proof.
  revert st. induction paths as [| path paths IH]; intros st Hrun.
  - injection Hrun as <- <-. repeat split; auto. intros _ p eq [].
  - simpl in Hrun. destruct (find_char "=" path) as [eq0 |] eqn:Heq.
    + destruct (parseRemapping path) as [r0 |] eqn:Hr.
      * rewrite (bind_cont _ _ _ _ _ (parseInputPath_remapping _ _ _ st Heq Hr)) in Hrun.
        apply IH in Hrun as (Hsrc & Hdirs & Hadded). split; [| split].
        -- intros p Hp. destruct (Hsrc p Hp) as [Hp0 | [Hin Hplain]].
           ++ left. exact Hp0.
           ++ right. split; [now right | exact Hplain].
        -- intros d Hd. apply Hdirs. cbn. apply elem_of_union. now right.
        -- intros Hr' p eq [<- | Hin] Hpeq.
           ++ rewrite Heq in Hpeq. injection Hpeq as <-.
              apply Hdirs. cbn. apply elem_of_union. left.
              now apply elem_of_singleton.
           ++ now apply (Hadded Hr' p eq).
      * rewrite (bind_done _ _ _ _ _ (parseInputPath_invalid _ _ st Heq Hr)) in Hrun.
        injection Hrun as <- <-. split; [| split].
        -- intros p Hp. left. exact Hp.
        -- intros d Hd. exact Hd.
        -- discriminate.
    + rewrite (bind_cont _ _ _ _ _ (parseInputPath_plain _ st Heq)) in Hrun.
      apply IH in Hrun as (Hsrc & Hdirs & Hadded). split; [| split].
      * intros p Hp. destruct (Hsrc p Hp) as [Hp0 | [Hin Hplain]].
        -- destruct (String.eqb path "-"); cbn in Hp0.
           ++ left. exact Hp0.
           ++ apply elem_of_union in Hp0 as [Hp0 | Hp0].
              ** apply elem_of_singleton in Hp0. subst p.
                 right. split; [now left | exact Heq].
              ** left. exact Hp0.
        -- right. split; [now right | exact Hplain].
      * intros d Hd. apply Hdirs. destruct (String.eqb path "-"); exact Hd.
      * intros Hr' p eq [<- | Hin] Hpeq.
        -- rewrite Heq in Hpeq. discriminate.
        -- now apply (Hadded Hr' p eq).
Qed.

(** C8 (amended): a positional argument with [=] that parses as a
    remapping is appended to the remappings and is not inserted into the
    source file paths; the allowed directories get its target with the
    file-name component removed, whatever that component is, and nothing
    else changes.  Over all positional arguments: a path enters the source
    file paths only if it has no [=], and the parent of every remapping
    target is an allowed directory at the end. *)
Theorem C8_remapping_targets path eq r st :
  find_char "=" path = Some eq ->
  parseRemapping path = Some r ->
  let remappingTarget := string_drop (S eq) path in
  let st' := remapping_recorded r remappingTarget st in
  parseInputPath path st = (Cont tt, st')
  /\ remappings (m_options st') = (remappings (m_options st) ++ [r])%list
  /\ sourceFilePaths (m_options st') = sourceFilePaths (m_options st)
  /\ allowedDirectories (m_options st')
     = {[ path_remove_filename remappingTarget ]} ∪ allowedDirectories (m_options st)
  /\ (forall args paths st0 st1,
        args !! g_argInputFile = Some (strings_value paths) ->
        call (parseInputPathsAndRemappings args) st0 = (Cont true, st1) ->
        (forall p, p ∈ sourceFilePaths (m_options st1) ->
           p ∈ sourceFilePaths (m_options st0) \/ find_char "=" p = None)
        /\ (In path paths ->
            path_remove_filename remappingTarget
            ∈ allowedDirectories (m_options st1))).
Proof.
  intros Heq Hr remappingTarget st'.
  split; [exact (parseInputPath_remapping _ _ _ _ Heq Hr) |].
  split; [reflexivity |]. split; [reflexivity |]. split; [reflexivity |].
  intros args paths st0 st1 Hpaths Hcall.
  unfold call, parseInputPathsAndRemappings, as_strings in Hcall.
  rewrite (count_lookup _ _ _ Hpaths), Hpaths in Hcall.
  cbn [nonzero Nat.eqb negb when] in Hcall.
  unfold mbind at 1 2 3, M_bind in Hcall. cbn [assign mret M_ret] in Hcall.
  match type of Hcall with
  | context [for_each paths parseInputPath ?s] =>
      destruct (for_each paths parseInputPath s) as [[[] | o] s'] eqn:Hloop
  end.
  - injection Hcall as <-.
    apply for_each_parseInputPath in Hloop as (Hsrc & _ & Hadded).
    split.
    + intros p Hp. destruct (Hsrc p Hp) as [Hp0 | [_ Hplain]]; [left | right]; auto.
    + intros Hin. exact (Hadded eq_refl path eq Hin Heq).
  - destruct o as [[] | |]; try discriminate Hcall.
    exfalso. refine (no_success_run _ _ _ _ Hloop).
    apply no_success_for_each. intros p. block.
Qed.

End Remappings.

(** ** Library specifiers *)

Section Libraries.
Context {collaborators : Collaborators}.

Lemma no_success_parseLibrary lib : no_success (parseLibrary lib).
Proof. block. Qed.

(** [parseLibrary] on a specifier with a separator, case by case in the
    order of its checks. *)
Lemma parseLibrary_run lib separator isSeparatorEqualSign st :
  lib <> "" ->
  findSeparator lib = Some (separator, isSeparatorEqualSign) ->
  let libName := trim (string_take separator lib) in
  let addrString := trim (string_drop (S separator) lib) in
  let digits := string_drop 2 addrString in
  parseLibrary lib st =
    if bool_decide (is_Some (libraries (m_options st) !! libName)) then
      (Done (Returned false), wrote_serr (duplicate_diagnostic libName) st)
    else if String.eqb addrString "" then
      (Done (Returned false),
       wrote_serr
         ("Note that there should not be any whitespace after the "
          +:+ (if isSeparatorEqualSign then "equal sign" else "colon")
          +:+ "." +:+ endl)
         (wrote_serr
            ("Empty address provided for library "
             +:+ quote +:+ libName +:+ quote +:+ "." +:+ endl) st))
    else if negb (String.eqb (string_take 2 addrString) "0x") then
      (Done (Returned false),
       wrote_serr
         ("Note that the address must be prefixed with "
          +:+ quote +:+ "0x" +:+ quote +:+ "." +:+ endl)
         (wrote_serr
            ("The address " +:+ addrString +:+ " is not prefixed with "
             +:+ quote +:+ "0x" +:+ quote +:+ "." +:+ endl) st))
    else if negb (Nat.eqb (String.length digits) 40) then
      (Done (Returned false), wrote_serr (length_diagnostic libName digits) st)
    else
      match passesAddressChecksum digits false with
      | None => (Done (Thrown "InvalidAddress"), st)
      | Some false =>
          let st1 :=
            wrote_serr "The correct checksum is "
              (wrote_serr (checksum_diagnostic libName digits) st) in
          match getChecksummedAddress digits with
          | None => (Done (Thrown "InvalidAddress"), st1)
          | Some checksummed =>
              (Done (Returned false), wrote_serr (checksummed +:+ endl) st1)
          end
      | Some true =>
          if Nat.ltb 20 (List.length (fromHex digits))
             || h160_eqb (h160_AlignRight (fromHex digits)) h160_zero
          then
            (Done (Returned false),
             wrote_serr
               ("Invalid address for library "
                +:+ quote +:+ libName +:+ quote +:+ ": " +:+ digits +:+ endl) st)
          else
            (Cont tt, library_added libName (h160_AlignRight (fromHex digits)) st)
      end.
Proof.
  intros Hne Hsep libName addrString digits.
  unfold parseLibrary.
  assert (String.eqb lib "" = false) as -> by now apply String.eqb_neq.
  cbn [negb when].
  assert (Hfirst :
    match rfind_char "=" lib with
    | None =>
        match rfind_char ":" lib with
        | None =>
            serr ("Equal sign separator missing in library address specifier "
                  +:+ quote +:+ lib +:+ quote +:+ endl);;
            return_ false
        | Some separator => mret (separator, false)
        end
    | Some separator =>
        if negb (bool_decide (rfind_char "=" lib = find_char "=" lib)) then
          serr ("Only one equal sign " +:+ quote +:+ "=" +:+ quote
                +:+ " is allowed in the address string "
                +:+ quote +:+ lib +:+ quote +:+ "." +:+ endl);;
          return_ false
        else mret (separator, true)
    end st = (Cont (separator, isSeparatorEqualSign), st)).
  { unfold findSeparator in Hsep.
    destruct (rfind_char "=" lib) as [s |].
    - destruct (bool_decide (Some s = find_char "=" lib)); [| discriminate].
      injection Hsep as <- <-. reflexivity.
    - destruct (rfind_char ":" lib) as [s |]; [| discriminate].
      injection Hsep as <- <-. reflexivity. }
  rewrite (bind_cont _ _ _ _ _ Hfirst). clear Hfirst.
  fold libName. fold addrString.
  unfold mbind, M_bind, try. cbn [options when].
  destruct (bool_decide (is_Some (libraries (m_options st) !! libName)));
    [reflexivity |].
  cbn [mret M_ret when].
  destruct (String.eqb addrString ""); [reflexivity |].
  cbn [mret M_ret when].
  destruct (String.eqb (string_take 2 addrString) "0x"); [| reflexivity].
  cbn [mret M_ret when negb]. fold digits.
  destruct (Nat.eqb (String.length digits) 40); [| reflexivity].
  cbn [mret M_ret when negb].
  destruct (passesAddressChecksum digits false) as [[|] |]; cbn [negb when].
  - cbn [mret M_ret].
    destruct (Nat.ltb 20 (List.length (fromHex digits))
              || h160_eqb (h160_AlignRight (fromHex digits)) h160_zero);
      reflexivity.
  - destruct (getChecksummedAddress digits); reflexivity.
  - reflexivity.
Qed.

Lemma parseLibrary_empty st : parseLibrary "" st = (Cont tt, st).
Proof. reflexivity. Qed.

Lemma parseLibrary_no_separator lib st a st' :
  lib <> "" -> findSeparator lib = None ->
  parseLibrary lib st <> (Cont a, st').
Proof.
  intros Hne Hsep. unfold parseLibrary, findSeparator in *.
  assert (String.eqb lib "" = false) as -> by now apply String.eqb_neq.
  cbn [negb when]. unfold mbind at 1, M_bind.
  destruct (rfind_char "=" lib) as [s |].
  - destruct (bool_decide (Some s = find_char "=" lib)); discriminate.
  - destruct (rfind_char ":" lib) as [s |]; discriminate.
Qed.

(** An accepted specifier is empty, or it has a name that had no address
    before and has one afterwards; nothing else changes. *)
Lemma parseLibrary_accepted lib st st' :
  parseLibrary lib st = (Cont tt, st') ->
  (lib = "" /\ st' = st)
  \/ (lib <> "" /\ exists name address,
        specifierName lib = Some name
        /\ libraries (m_options st) !! name = None
        /\ st' = library_added name address st).
Proof.
  intros Hrun. destruct (String.eqb lib "") eqn:Hempty.
  - apply String.eqb_eq in Hempty. subst lib. left.
    rewrite parseLibrary_empty in Hrun. now injection Hrun as <-.
  - apply String.eqb_neq in Hempty. right. split; [exact Hempty |].
    destruct (findSeparator lib) as [[separator isEq] |] eqn:Hsep.
    + rewrite (parseLibrary_run _ _ _ _ Hempty Hsep) in Hrun. cbv zeta in Hrun.
      unfold specifierName. rewrite Hsep.
      destruct (bool_decide (is_Some (libraries (m_options st) !! _))) eqn:Hdup;
        [discriminate Hrun |].
      apply bool_decide_eq_false in Hdup.
      repeat match type of Hrun with
      | (if ?c then _ else _) = _ => destruct c; try discriminate Hrun
      | match ?x with _ => _ end = _ => destruct x; try discriminate Hrun
      end.
      injection Hrun as <-. eexists _, _. split; [reflexivity |]. split; [| reflexivity].
      destruct (libraries (m_options st) !! _) eqn:Hlook; [| reflexivity].
      exfalso. apply Hdup. eauto.
    + exfalso. exact (parseLibrary_no_separator _ _ _ _ Hempty Hsep Hrun).
Qed.

Lemma library_added_lookup name address st other :
  is_Some (libraries (m_options st) !! other) \/ other = name ->
  is_Some (libraries (m_options (library_added name address st)) !! other).
Proof.
  intros Hcase. cbn. destruct (decide (name = other)) as [-> | Hne].
  - rewrite lookup_insert_eq. eauto.
  - rewrite lookup_insert_ne by exact Hne.
    destruct Hcase as [Hold | ->]; [exact Hold | contradiction].
Qed.

(** After a run of accepted specifiers every name among them has an
    address, and so has every name that had one before. *)
Lemma for_each_parseLibrary_names (tokens : list string) st st' :
  for_each tokens parseLibrary st = (Cont tt, st') ->
  (forall name, is_Some (libraries (m_options st) !! name) ->
     is_Some (libraries (m_options st') !! name))
  /\ (forall lib name, In lib tokens -> lib <> "" ->
        specifierName lib = Some name ->
        is_Some (libraries (m_options st') !! name)).
Proof.
  revert st. induction tokens as [| token tokens IH]; intros st Hrun.
  - injection Hrun as <-. split; [auto | intros lib name []].
  - simpl in Hrun. apply bind_cont_inv in Hrun as ([] & st1 & Htoken & Hrest).
    apply IH in Hrest as (Hkeep & Hnames).
    apply parseLibrary_accepted in Htoken
      as [[-> ->] | (Hne & name0 & address & Hname0 & _ & ->)].
    + split; [exact Hkeep |].
      intros lib name [<- | Hin] Hne Hname; [congruence | eauto].
    + split.
      * intros name Hold. apply Hkeep, library_added_lookup. now left.
      * intros lib name [<- | Hin] Hne' Hname.
        -- apply Hkeep, library_added_lookup. right. congruence.
        -- eauto.
Qed.

(** The loop of [parse] over the [--libraries] arguments is one loop over
    all their specifiers. *)
Lemma parseLibraryOption_tokens _input st :
  (ok ← call (parseLibraryOption _input); when (negb ok) (return_ false)) st
  = for_each (libraryTokens _input) parseLibrary st.
Proof.
  unfold parseLibraryOption, call. fold (libraryTokens _input).
  unfold mbind at 1 2, M_bind.
  pose proof (no_success_for_each (libraryTokens _input) parseLibrary
                no_success_parseLibrary st) as Hno.
  unfold ended in Hno.
  destruct (for_each (libraryTokens _input) parseLibrary st)
    as [[[] | [[] | status | what]] st1]; try reflexivity.
  exfalso. now apply Hno.
Qed.

Lemma parseLibraries_tokens (inputs : list string) st :
  for_each inputs (fun library =>
    ok ← call (parseLibraryOption library);
    when (negb ok) (return_ false)) st
  = for_each (flat_map libraryTokens inputs) parseLibrary st.
Proof.
  revert st. induction inputs as [| input inputs IH]; intros st.
  - reflexivity.
  - cbn [for_each flat_map]. rewrite for_each_app.
    unfold mbind at 1 4, M_bind.
    rewrite parseLibraryOption_tokens.
    destruct (for_each (libraryTokens input) parseLibrary st) as [[[] | o] st1].
    + apply IH.
    + reflexivity.
Qed.

(** C7: when the specifiers of the [--libraries] arguments, taken in order,
    give a library name an address a second time, resolution fails at that
    specifier, the diagnostic names the library, and the libraries are the
    ones of the specifiers before it: nothing of a later specifier is
    added. *)
Theorem C7_duplicate_library
    args (inputs before after : list string) (earlier lib name : string)
    st st1 :
  args !! g_argLibraries = Some (strings_value inputs) ->
  flat_map libraryTokens inputs = (before ++ lib :: after)%list ->
  for_each before parseLibrary st = (Cont tt, st1) ->
  In earlier before -> earlier <> "" -> specifierName earlier = Some name ->
  lib <> "" -> specifierName lib = Some name ->
  parseLibraries args st
  = (Done (Returned false), wrote_serr (duplicate_diagnostic name) st1)
  /\ libraries (m_options (wrote_serr (duplicate_diagnostic name) st1))
     = libraries (m_options st1)
  /\ forall _argc interactiveTerminal st0,
       parse_until_Libraries args _argc interactiveTerminal st0 = (Cont tt, st) ->
       parse (po_stored args) _argc interactiveTerminal st0
       = (Returned false, wrote_serr (duplicate_diagnostic name) st1).
Proof.
  intros Hargs Htokens Hbefore Hin Hne Hname Hlib Hlibname.
  assert (Hloop : parseLibraries args st
    = (Done (Returned false), wrote_serr (duplicate_diagnostic name) st1)).
  { unfold parseLibraries, as_strings.
    rewrite (count_lookup _ _ _ Hargs), Hargs. cbn [nonzero Nat.eqb negb when].
    unfold mbind at 1, M_bind. cbn [mret M_ret].
    rewrite parseLibraries_tokens, Htokens, for_each_app.
    rewrite (bind_cont _ _ _ _ _ Hbefore). cbn [for_each].
    apply bind_done.
    destruct (for_each_parseLibrary_names _ _ _ Hbefore) as [_ Hnames].
    unfold specifierName in Hlibname.
    destruct (findSeparator lib) as [[separator isEq] |] eqn:Hsep; [| discriminate].
    injection Hlibname as Hlibname.
    rewrite (parseLibrary_run _ _ _ _ Hlib Hsep). cbv zeta. rewrite Hlibname.
    rewrite bool_decide_eq_true_2; [reflexivity |].
    exact (Hnames earlier name Hin Hne Hname). }
  split; [exact Hloop |]. split; [reflexivity |].
  intros _argc interactiveTerminal st0 Hreach.
  split_conts. run_conts. subst. apply bind_done. exact Hloop.
Qed.

End Libraries.

(** ** One specifier [name=address] *)

Lemma is_token_app (a b : string) :
  is_token (a +:+ b) = is_token a && is_token b.
Proof.
  unfold is_token. induction a as [| c a IH]; [reflexivity |].
  rewrite append_cons. simpl. rewrite IH. now rewrite andb_assoc.
Qed.

Lemma split_compress_token (s : string) :
  is_token s = true ->
  split_compress_from (fun c => is_space c || is_comma c) false s = [s].
Proof.
  unfold is_token. induction s as [| c s IH]; intros Htoken; [reflexivity |].
  simpl in *. apply andb_true_iff in Htoken as [Hc Hs].
  apply negb_true_iff in Hc. rewrite Hc, (IH Hs). reflexivity.
Qed.

Lemma trim_right_token (s : string) : is_token s = true -> trim_right s = s.
Proof.
  unfold is_token. induction s as [| c s IH]; intros Htoken; [reflexivity |].
  simpl in *. apply andb_true_iff in Htoken as [Hc Hs].
  rewrite (IH Hs). apply negb_true_iff, orb_false_iff in Hc as [Hc _].
  rewrite Hc. now destruct s.
Qed.

Lemma trim_token (s : string) : is_token s = true -> trim s = s.
Proof.
  intros Htoken. unfold trim. rewrite (trim_right_token _ Htoken).
  unfold is_token in Htoken. destruct s as [| c s]; [reflexivity |].
  simpl in *. apply andb_true_iff in Htoken as [Hc _].
  apply negb_true_iff, orb_false_iff in Hc as [Hc _]. now rewrite Hc.
Qed.

Lemma rfind_char_none c (s : string) :
  find_char c s = None -> rfind_char c s = None.
Proof.
  induction s as [| d s IH]; [reflexivity |]. simpl.
  destruct (Ascii.eqb d c); [discriminate |].
  destruct (find_char c s); [discriminate |]. intros _. now rewrite IH.
Qed.

Lemma find_char_app c (a b : string) :
  find_char c a = None ->
  find_char c (a +:+ String c b) = Some (String.length a).
Proof.
  induction a as [| d a IH]; intros Ha.
  - simpl. now rewrite Ascii.eqb_refl.
  - rewrite append_cons. simpl in *.
    destruct (Ascii.eqb d c); [discriminate |].
    destruct (find_char c a); [discriminate |]. now rewrite IH.
Qed.

Lemma rfind_char_app c (a b : string) :
  find_char c b = None ->
  rfind_char c (a +:+ String c b) = Some (String.length a).
Proof.
  intros Hb. induction a as [| d a IH].
  - simpl. rewrite (rfind_char_none _ _ Hb). now rewrite Ascii.eqb_refl.
  - rewrite append_cons. simpl. now rewrite IH.
Qed.

Lemma string_take_app (a b : string) : string_take (String.length a) (a +:+ b) = a.
Proof.
  induction a as [| d a IH]; [now destruct b |].
  rewrite append_cons. simpl. now rewrite IH.
Qed.

Lemma string_drop_app c (a b : string) :
  string_drop (S (String.length a)) (a +:+ String c b) = b.
Proof.
  induction a as [| d a IH]; [reflexivity |].
  rewrite append_cons. simpl. exact IH.
Qed.


(** ** The address functions on 40 characters *)

(** Pairs of hex digits, and nothing else, decode. *)
Lemma decode_pairs_hex (n : nat) (s : string) (bs : list Byte.byte) :
  String.length s <= n ->
  Hex.decode_pairs s = Some bs ->
  Hex.string_forallb Hex.is_hex_digit s = true.
Proof.
  revert s bs. induction n as [| n IH]; intros s bs Hlen Hdecode.
  - destruct s; [reflexivity | simpl in Hlen; lia].
  - destruct s as [| h [| l s]]; [reflexivity | discriminate Hdecode |].
    simpl in Hdecode. unfold Hex.string_forallb; fold Hex.string_forallb.
    unfold Hex.is_hex_digit at 1 2.
    destruct (Hex.digit_of_char h); [| discriminate Hdecode].
    destruct (Hex.digit_of_char l); [| discriminate Hdecode].
    destruct (Hex.decode_pairs s) as [bs' |] eqn:Hrest; [| discriminate Hdecode].
    simpl. apply (IH s bs'); [simpl in Hlen; lia | exact Hrest].
Qed.









Section OneSpecifier.
Context {collaborators : Collaborators}.

Lemma findSeparator_equal_sign (name addr : string) :
  find_char "=" name = None -> find_char "=" addr = None ->
  findSeparator (name +:+ "=" +:+ addr) = Some (String.length name, true).
Proof.
  intros Hname Haddr. unfold findSeparator.
  change ("=" +:+ addr) with (String "=" addr).
  rewrite (rfind_char_app _ name addr Haddr), (find_char_app _ name addr Hname).
  now rewrite bool_decide_eq_true_2.
Qed.

(** A specifier [name=address] that is one token and no file name is
    handled by one run of the loop body. *)
Lemma parseLibraryOption_one (lib : string) st :
  is_token lib = true ->
  is_regular_file lib <> Some true ->
  run (parseLibraryOption lib) st
  = match parseLibrary lib st with
    | (Cont _, st') => (Returned true, st')
    | (Done o, st') => (o, st')
    end.
Proof.
  intros Htoken Hfile. unfold run, parseLibraryOption.
  assert (match is_regular_file lib with
          | Some true =>
              match readFileAsString lib with
              | Some content => content
              | None => lib
              end
          | _ => lib
          end = lib) as ->.
  { destruct (is_regular_file lib) as [[|] |]; congruence. }
  unfold split_compress. rewrite (split_compress_token _ Htoken).
  cbn [for_each]. unfold mbind, M_bind.
  destruct (parseLibrary lib st) as [[[] | o] st']; reflexivity.
Qed.

End OneSpecifier.

Section LibraryAddress.
Context {collaborators : Collaborators}.

(** The verdict on one specifier [name=address] with a fresh name. *)
Lemma parseLibraryOption_specifier (name addr : string) st :
  let lib := name +:+ "=" +:+ addr in
  let digits := string_drop 2 addr in
  find_char "=" name = None -> find_char "=" addr = None ->
  is_token lib = true ->
  is_regular_file lib <> Some true ->
  libraries (m_options st) !! name = None ->
  String.eqb (string_take 2 addr) "0x" = true ->
  run (parseLibraryOption lib) st =
    if negb (Nat.eqb (String.length digits) 40) then
      (Returned false, wrote_serr (length_diagnostic name digits) st)
    else
      match passesAddressChecksum digits false with
      | None => (Thrown "InvalidAddress", st)
      | Some false =>
          let st1 :=
            wrote_serr "The correct checksum is "
              (wrote_serr (checksum_diagnostic name digits) st) in
          match getChecksummedAddress digits with
          | None => (Thrown "InvalidAddress", st1)
          | Some checksummed =>
              (Returned false, wrote_serr (checksummed +:+ endl) st1)
          end
      | Some true =>
          if Nat.ltb 20 (List.length (fromHex digits))
             || h160_eqb (h160_AlignRight (fromHex digits)) h160_zero
          then
            (Returned false,
             wrote_serr
               ("Invalid address for library "
                +:+ quote +:+ name +:+ quote +:+ ": " +:+ digits +:+ endl) st)
          else
            (Returned true, library_added name (h160_AlignRight (fromHex digits)) st)
      end.
Proof.
  intros lib digits Hname Haddr Htoken Hfile Hfresh Hprefix.
  subst lib.
  assert (Hne : name +:+ "=" +:+ addr <> "").
  { destruct name; discriminate. }
  pose proof (findSeparator_equal_sign name addr Hname Haddr) as Hsep.
  pose proof Htoken as Htokens.
  rewrite !is_token_app in Htokens.
  apply andb_true_iff in Htokens as [Htname Htaddr].
  apply andb_true_iff in Htaddr as [_ Htaddr].
  pose proof (parseLibrary_run _ _ _ st Hne Hsep) as Hrun. cbv zeta in Hrun.
  change ("=" +:+ addr) with (String "=" addr) in Hrun.
  rewrite !string_take_app, !string_drop_app in Hrun.
  rewrite !(trim_token _ Htname), !(trim_token _ Htaddr) in Hrun.
  rewrite Hfresh in Hrun.
  rewrite bool_decide_eq_false_2 in Hrun by (intros [? [=]]).
  assert (String.eqb addr "" = false) as Hnonempty.
  { destruct addr; [discriminate Hprefix | reflexivity]. }
  rewrite Hnonempty, Hprefix in Hrun. cbn [negb] in Hrun.
  change (String "=" addr) with ("=" +:+ addr) in Hrun.
  rewrite (parseLibraryOption_one _ st Htoken Hfile), Hrun.
  fold digits.
  destruct (negb (Nat.eqb (String.length digits) 40)); [reflexivity |].
  destruct (passesAddressChecksum digits false) as [[|] |]; [| | reflexivity].
  - destruct (Nat.ltb 20 (List.length (fromHex digits))
              || h160_eqb (h160_AlignRight (fromHex digits)) h160_zero);
      reflexivity.
  - cbv zeta. destruct (getChecksummedAddress digits); reflexivity.
Qed.

(** Without the [0x] prefix the specifier is refused. *)
Lemma parseLibraryOption_no_prefix (name addr : string) st :
  let lib := name +:+ "=" +:+ addr in
  find_char "=" name = None -> find_char "=" addr = None ->
  is_token lib = true ->
  is_regular_file lib <> Some true ->
  libraries (m_options st) !! name = None ->
  String.eqb (string_take 2 addr) "0x" = false ->
  (run (parseLibraryOption lib) st).1 = Returned false.
Proof.
  intros lib Hname Haddr Htoken Hfile Hfresh Hprefix.
  subst lib.
  assert (Hne : name +:+ "=" +:+ addr <> "").
  { destruct name; discriminate. }
  pose proof (findSeparator_equal_sign name addr Hname Haddr) as Hsep.
  pose proof Htoken as Htokens.
  rewrite !is_token_app in Htokens.
  apply andb_true_iff in Htokens as [Htname Htaddr].
  apply andb_true_iff in Htaddr as [_ Htaddr].
  pose proof (parseLibrary_run _ _ _ st Hne Hsep) as Hrun. cbv zeta in Hrun.
  change ("=" +:+ addr) with (String "=" addr) in Hrun.
  rewrite !string_take_app, !string_drop_app in Hrun.
  rewrite !(trim_token _ Htname), !(trim_token _ Htaddr) in Hrun.
  rewrite Hfresh in Hrun.
  rewrite bool_decide_eq_false_2 in Hrun by (intros [? [=]]).
  rewrite Hprefix in Hrun. cbn [negb] in Hrun.
  change (String "=" addr) with ("=" +:+ addr) in Hrun.
  rewrite (parseLibraryOption_one _ st Htoken Hfile), Hrun.
  destruct (String.eqb addr ""); reflexivity.
Qed.

(** What an accepted specifier [name=address] has gone through. *)
Lemma parseLibraryOption_accepted (name addr : string) st :
  let lib := name +:+ "=" +:+ addr in
  let digits := string_drop 2 addr in
  find_char "=" name = None -> find_char "=" addr = None ->
  is_token lib = true ->
  is_regular_file lib <> Some true ->
  libraries (m_options st) !! name = None ->
  (run (parseLibraryOption lib) st).1 = Returned true ->
  string_take 2 addr = "0x"
  /\ String.length digits = 40
  /\ passesAddressChecksum digits false = Some true
  /\ List.length (fromHex digits) <= 20
  /\ h160_AlignRight (fromHex digits) <> h160_zero.
Proof.
  intros lib digits Hname Haddr Htoken Hfile Hfresh Htrue.
  destruct (String.eqb (string_take 2 addr) "0x") eqn:Hprefix.
  2: { pose proof (parseLibraryOption_no_prefix name addr st
                     Hname Haddr Htoken Hfile Hfresh Hprefix) as Hrun.
       fold lib in Hrun. congruence. }
  pose proof (parseLibraryOption_specifier name addr st
                Hname Haddr Htoken Hfile Hfresh Hprefix) as Hrun.
  cbv zeta in Hrun. fold lib digits in Hrun.
  apply String.eqb_eq in Hprefix. unfold h160_eqb in Hrun.
  rewrite Hrun in Htrue.
  destruct (Nat.eqb (String.length digits) 40) eqn:Hlen;
    [| discriminate Htrue].
  destruct (passesAddressChecksum digits false) as [[|] |];
    [| destruct (getChecksummedAddress digits); discriminate Htrue
     | discriminate Htrue].
  destruct (Nat.ltb 20 (List.length (fromHex digits))) eqn:Hsize;
    [discriminate Htrue |].
  destruct (bool_decide_reflect (h160_AlignRight (fromHex digits) = h160_zero))
    as [Hzero | Hzero]; [discriminate Htrue |].
  apply Nat.eqb_eq in Hlen. apply Nat.ltb_ge in Hsize. auto.
Qed.



End LibraryAddress.

(** * Further properties of the parser *)

(** ** A program logic for the statements of the parser *)

Section Hoare.
Context {collaborators : Collaborators}.

Lemma keeps_bind {A B : Type} I E (m : M A) (k : A -> M B) :
  keeps I E m -> (forall a, keeps I E (k a)) -> keeps I E (m ≫= k).
Proof.
  intros Hm Hk st HI. unfold mbind, M_bind.
  specialize (Hm st HI). destruct (m st) as [[a | o] st1].
  - exact (Hk a st1 Hm).
  - exact Hm.
Qed.

Lemma hoare_bind {A B : Type} P Q Q' E (m : M A) (k : A -> M B) :
  hoare P m Q E -> (forall a, hoare (Q a) (k a) Q' E) -> hoare P (m ≫= k) Q' E.
Proof.
  intros Hm Hk st HP. unfold mbind, M_bind.
  specialize (Hm st HP). destruct (m st) as [[a | o] st1].
  - exact (Hk a st1 Hm).
  - exact Hm.
Qed.

Lemma hoare_weaken {A : Type} (P P' : CommandLineParser -> Prop)
    (Q Q' : A -> CommandLineParser -> Prop) (E E' : Outcome -> CommandLineParser -> Prop)
    (m : M A) :
  hoare P' m Q' E' ->
  (forall st, P st -> P' st) ->
  (forall a st, Q' a st -> Q a st) ->
  (forall o st, E' o st -> E o st) ->
  hoare P m Q E.
Proof.
  intros Hm HP HQ HE st Hst. specialize (Hm st (HP st Hst)).
  destruct (m st) as [[a | o] st1]; auto.
Qed.

Lemma keeps_when I E (c : bool) (m : M unit) :
  (c = true -> keeps I E m) -> keeps I E (when c m).
Proof.
  intros Hm. destruct c; simpl; [exact (Hm eq_refl) | intros st HI; exact HI].
Qed.

Lemma keeps_for_each {A : Type} I E (l : list A) (body : A -> M unit) :
  (forall x, In x l -> keeps I E (body x)) -> keeps I E (for_each l body).
Proof.
  induction l as [| x l IH]; intros Hb; simpl.
  - intros st HI; exact HI.
  - apply keeps_bind; [apply Hb; now left | intros _; apply IH].
    intros y Hy. apply Hb. now right.
Qed.

(** [if (!f(...)) return false;] for a member function [f] *)
Lemma keeps_call I E (body : M Empty_set) :
  keeps I (callee I E) body ->
  keeps I E (call body ≫= fun ok => when (negb ok) (return_ false)).
Proof.
  intros Hb st HI. specialize (Hb st HI).
  unfold mbind, M_bind, call.
  destruct (body st) as [[[] | [[|] | status | what]] st1]; exact Hb.
Qed.

Lemma keeps_call_then {B : Type} I E (body : M Empty_set) (k : M B) :
  keeps I (callee I E) body -> keeps I E k ->
  keeps I E (call body ≫= fun ok => when (negb ok) (return_ false) ≫= fun _ => k).
Proof.
  intros Hb Hk st HI. specialize (Hb st HI).
  unfold mbind, M_bind, call.
  destruct (body st) as [[[] | [[|] | status | what]] st1]; simpl; try exact Hb.
  exact (Hk st1 Hb).
Qed.

(** [if (!checkMutuallyExclusive(...)) return false;] *)
Lemma keeps_checkMutuallyExclusive I E args _optionA _optionB :
  (forall st s, I st -> E (Returned false) (wrote_serr s st)) ->
  keeps I E (checkMutuallyExclusive args _optionA _optionB
             ≫= fun ok => when (negb ok) (return_ false)).
Proof.
  intros HE st HI. unfold checkMutuallyExclusive.
  destruct (nonzero (count args _optionA) && nonzero (count args _optionB)).
  - apply HE, HI.
  - exact HI.
Qed.

Lemma keeps_checkMutuallyExclusive_then {B : Type} I E args _optionA _optionB (k : M B) :
  (forall st s, I st -> E (Returned false) (wrote_serr s st)) ->
  keeps I E k ->
  keeps I E (checkMutuallyExclusive args _optionA _optionB
             ≫= fun ok => when (negb ok) (return_ false) ≫= fun _ => k).
Proof.
  intros HE Hk st HI. unfold checkMutuallyExclusive.
  destruct (nonzero (count args _optionA) && nonzero (count args _optionB)).
  - apply HE, HI.
  - exact (Hk st HI).
Qed.

Lemma keeps_try {A : Type} I E (r : option A) what :
  (forall st, I st -> E (Thrown what) st) -> keeps I E (try r what).
Proof. intros HE st HI. destruct r; simpl; auto. Qed.

Lemma keeps_as_string I E args name :
  (forall st, I st -> E (Thrown "boost::bad_any_cast") st) ->
  keeps I E (as_string args name).
Proof.
  intros HE st HI. unfold as_string.
  destruct (args !! name) as [[]|]; simpl; auto.
Qed.

Lemma keeps_as_strings I E args name :
  (forall st, I st -> E (Thrown "boost::bad_any_cast") st) ->
  keeps I E (as_strings args name).
Proof.
  intros HE st HI. unfold as_strings.
  destruct (args !! name) as [[]|]; simpl; auto.
Qed.

Lemma keeps_as_unsigned I E args name :
  (forall st, I st -> E (Thrown "boost::bad_any_cast") st) ->
  keeps I E (as_unsigned args name).
Proof.
  intros HE st HI. unfold as_unsigned.
  destruct (args !! name) as [[]|]; simpl; auto.
Qed.

Lemma keeps_solAssert I E c :
  (forall st, I st -> E (Thrown "InternalCompilerError") st) ->
  keeps I E (solAssert c).
Proof. intros HE st HI. destruct c; simpl; auto. Qed.

Lemma keeps_options I E : keeps I E options.
Proof. intros st HI. exact HI. Qed.

Lemma keeps_mret {A : Type} I E (a : A) : keeps I E (mret a).
Proof. intros st HI. exact HI. Qed.

Lemma keeps_done {A : Type} (I : CommandLineParser -> Prop) E (m : M A) st o st' :
  keeps I E m -> I st -> m st = (Done o, st') -> E o st'.
Proof. intros Hm HI Hrun. specialize (Hm st HI). now rewrite Hrun in Hm. Qed.

Lemma keeps_cont {A : Type} (I : CommandLineParser -> Prop) E (m : M A) st a st' :
  keeps I E m -> I st -> m st = (Cont a, st') -> I st'.
Proof. intros Hm HI Hrun. specialize (Hm st HI). now rewrite Hrun in Hm. Qed.

Lemma hoare_run (P : CommandLineParser -> Prop) E (body : M Empty_set) st o st' :
  hoare P body (fun _ _ => False) E -> P st -> run body st = (o, st') -> E o st'.
Proof.
  intros Hb HP Hrun. apply run_inv in Hrun. specialize (Hb st HP).
  now rewrite Hrun in Hb.
Qed.

Lemma keeps_run (I : CommandLineParser -> Prop) E (body : M Empty_set) st o st' :
  keeps I E body -> I st -> run body st = (o, st') -> E o st'.
Proof.
  intros Hb HP Hrun. apply run_inv in Hrun. specialize (Hb st HP).
  now rewrite Hrun in Hb.
Qed.

End Hoare.

(** One step of symbolic execution of a statement on a state. *)
Ltac exec_cbn :=
  unfold mbind, M_bind, mret, M_ret, serr, sout, assign, options, return_,
    exit, throw, when, try, solAssert, as_string, as_strings, as_unsigned, call;
  cbn -[append count countEnabledOptions joinOptionNames nonzero for_each
        split split_compress set_of_list set_count trim string_take string_drop
        rfind_char find_char decimal String.length String.eqb h160_AlignRight
        h160_eqb lookup insert union singleton].

Ltac exec_step :=
  match goal with
  | |- context [match ?c with _ => _ end] =>
      lazymatch c with
      | context [match _ with _ => _ end] => fail
      | context [for_each] => fail
      | _ => first [ is_var c; destruct c | destruct c eqn:? ]
      end
  end.

Ltac exec :=
  unfold keeps, hoare, callee;
  let st := fresh "st" in let HI := fresh "HI" in
  intros st HI;
  exec_cbn; do 30 (try (exec_step; exec_cbn)).

(** Syntax-directed proof that a statement keeps an invariant.  [breaks m]
    succeeds on a statement [m] that falls through with the invariant
    broken; the sequence that starts with it is left to [tail], as are the
    leaves.  A read of [m_args] is given to [tail] twice: as the exception
    it may throw and, if that is not allowed, as the statement itself. *)
Ltac keeps_tac breaks tail :=
  cbv beta zeta;
  lazymatch goal with
  | |- keeps _ _ (mbind _ (call _)) =>
      first [ apply keeps_call; keeps_tac breaks tail
            | apply keeps_call_then; keeps_tac breaks tail ]
  | |- keeps _ _ (mbind _ (checkMutuallyExclusive _ _ _)) =>
      first [ apply keeps_checkMutuallyExclusive; solve [tail]
            | apply keeps_checkMutuallyExclusive_then;
              [ solve [tail] | keeps_tac breaks tail ] ]
  | |- keeps _ _ (mbind _ ?m) =>
      tryif breaks m then solve [tail]
      else (apply keeps_bind; [ keeps_tac breaks tail | intros ?; keeps_tac breaks tail ])
  | |- keeps _ _ (when _ _) => apply keeps_when; intros ?; keeps_tac breaks tail
  | |- keeps _ _ (for_each _ _) =>
      apply keeps_for_each; intros ? ?; keeps_tac breaks tail
  | |- keeps _ _ (try _ _) => apply keeps_try; solve [tail]
  | |- keeps _ _ (as_string _ _) =>
      first [ apply keeps_as_string; solve [tail] | solve [tail] ]
  | |- keeps _ _ (as_strings _ _) =>
      first [ apply keeps_as_strings; solve [tail] | solve [tail] ]
  | |- keeps _ _ (as_unsigned _ _) =>
      first [ apply keeps_as_unsigned; solve [tail] | solve [tail] ]
  | |- keeps _ _ (solAssert _) => apply keeps_solAssert; solve [tail]
  | |- keeps _ _ options => apply keeps_options
  | |- keeps _ _ (mret _) => apply keeps_mret
  | |- keeps _ _ (if ?c then _ else _) => destruct c eqn:?; keeps_tac breaks tail
  | |- keeps _ _ (match ?x with _ => _ end) => destruct x eqn:?; keeps_tac breaks tail
  | |- keeps _ _ _ => solve [tail]
  end.

(** The statements that write to a stream and go on. *)
Ltac writes m :=
  idtac;
  lazymatch m with
  | serr _ => idtac
  | sout _ => idtac
  | version => idtac
  | license => idtac
  end.

Ltac unfold_functions :=
  unfold parseExclusions, parseOutputFormatting, parseEarlyExits,
    parseRevertStrings, parseCombinedJson, parseOutputOptions, parseStopAfter,
    parseExclusiveModes, parseStandardJson, parseInputs, parseLibraries,
    parseEVMVersion, parseAssembler, parseLinker, parseCompilerSettings,
    parseCompilerOptimizer, parseYulOptimizations,
    parseInputPathsAndRemappings, parseInputPath,
    parseLibraryOption, parseLibrary, parseCombinedJsonOption.

Section Reported.
Context {collaborators : Collaborators}.

Ltac reported_tail :=
  idtac;
  first [ solve [intros; unfold reported, anything in *; cbn; tauto]
        | unfold checkMutuallyExclusive, version, license, reset_hasOutput; exec;
          unfold reported, anything in *; cbn; first [tauto | reflexivity | congruence] ].

Lemma reported_parseCombinedJsonOption args :
  keeps anything (callee anything reported) (parseCombinedJsonOption args).
Proof. unfold parseCombinedJsonOption. keeps_tac writes reported_tail. Qed.

Lemma reported_parse_body cmdline _argc interactiveTerminal :
  keeps anything reported (parse_body cmdline _argc interactiveTerminal).
Proof.
  unfold parse_body. destruct cmdline as [what | args].
  - keeps_tac writes reported_tail.
  - unfold_functions. keeps_tac writes reported_tail.
Qed.

(** X1: a failure is never silent.  When [parse] returns [false], or ends
    the process through [exit], it has written to [sout()] or to [serr()]:
    [m_hasOutput], which it reset on entry, is [true]. *)
Theorem parse_failure_has_output cmdline _argc interactiveTerminal st o st' :
  parse cmdline _argc interactiveTerminal st = (o, st') ->
  o = Returned false \/ (exists status, o = Exited status) ->
  m_hasOutput st' = true.
Proof.
  intros Hrun Ho.
  pose proof (keeps_run _ _ _ _ _ _
    (reported_parse_body cmdline _argc interactiveTerminal) I Hrun) as Hreported.
  destruct Ho as [-> | [status ->]]; exact Hreported.
Qed.

End Reported.

Section SuccessOutput.
Context {collaborators : Collaborators}.

(** The statements after which the input mode is known. *)
Ltac writes_or_selects m :=
  idtac;
  lazymatch m with
  | serr _ => idtac
  | sout _ => idtac
  | version => idtac
  | license => idtac
  | assign (set_inputMode _) => idtac
  | (if _ then assign (set_inputMode _) else _) => idtac
  end.

Ltac success_output_finish :=
  unfold success_output, silent, callee, yul_warning in *; cbn in *;
  repeat match goal with
  | H : _ /\ _ |- _ => destruct H
  | H : orb _ _ = true |- _ => apply orb_prop in H as [H | H]
  | H : bool_decide _ = true |- _ => apply bool_decide_eq_true in H
  | H : inputMode _ = _ |- _ => rewrite H
  | |- _ = Returned true -> _ => intros ?
  | H : Returned _ = Returned true |- _ => try discriminate H; clear H
  | H : Exited _ = Returned true |- _ => discriminate H
  | H : Thrown _ = Returned true |- _ => discriminate H
  end;
  cbn; try rewrite string_app_nil_r; repeat split; try assumption; try reflexivity;
  try congruence.

Ltac success_output_tail :=
  idtac;
  first [ solve [intros; success_output_finish]
        | unfold version, license, reset_hasOutput; exec; success_output_finish ].

Lemma success_output_parseAssembler so se args :
  keeps (silent so se) (success_output so se) (parseAssembler args).
Proof.
  unfold parseAssembler.
  destruct (nonzero (count args g_argAssemble)
            || nonzero (count args g_argStrictAssembly)
            || nonzero (count args g_argYul)).
  - apply hoare_bind with
      (Q := fun _ st => silent so se st
                        /\ inputMode (m_options st) = InputMode.Assembler).
    + success_output_tail.
    + intros _.
      apply hoare_weaken with
        (P' := fun st => silent so se st
                         /\ inputMode (m_options st) = InputMode.Assembler)
        (Q' := fun _ st => silent so se st
                         /\ inputMode (m_options st) = InputMode.Assembler)
        (E' := success_output so se); [| tauto | intros; tauto | tauto].
      match goal with |- hoare ?P ?m _ ?E => change (keeps P E m) end.
      unfold parseYulOptimizations.
      keeps_tac writes success_output_tail.
  - keeps_tac writes success_output_tail.
Qed.


Lemma success_output_parseCombinedJsonOption so se args :
  keeps (silent so se) (callee (silent so se) (success_output so se))
    (parseCombinedJsonOption args).
Proof. unfold parseCombinedJsonOption. keeps_tac writes success_output_tail. Qed.

Lemma success_output_parse_body so se cmdline _argc interactiveTerminal :
  hoare (fun st => m_sout st = so /\ m_serr st = se)
    (parse_body cmdline _argc interactiveTerminal)
    (fun _ _ => False) (success_output so se).
Proof.
  unfold parse_body.
  apply hoare_bind with (Q := fun _ => silent so se).
  { success_output_tail. }
  intros _.
  apply hoare_weaken with (P' := silent so se) (Q' := fun _ => silent so se)
    (E' := success_output so se); [| tauto | | tauto].
  2:{ intros []. }
  match goal with |- hoare ?P ?m _ ?E => change (keeps P E m) end.
  destruct cmdline as [what | args].
  - keeps_tac writes success_output_tail.
  - unfold parseExclusions, parseOutputFormatting, parseEarlyExits,
    parseRevertStrings, parseCombinedJson, parseOutputOptions, parseStopAfter,
    parseExclusiveModes, parseStandardJson, parseInputs, parseLibraries,
    parseEVMVersion, parseLinker, parseCompilerSettings,
    parseCompilerOptimizer, parseYulOptimizations,
    parseInputPathsAndRemappings, parseInputPath,
    parseLibraryOption, parseLibrary, parseCombinedJsonOption.
    keeps_tac writes_or_selects
      ltac:(idtac; first [ apply success_output_parseAssembler
                         | success_output_tail ]).
Qed.


(** X2: a successful [parse] writes nothing to [sout()].  To [serr()] it
    writes the Yul warning when the resulting input mode is the assembler
    mode, and nothing in the other modes; [m_hasOutput] tells the two
    apart. *)
Theorem parse_success_output cmdline _argc interactiveTerminal st st' :
  parse cmdline _argc interactiveTerminal st = (Returned true, st') ->
  m_sout st' = m_sout st
  /\ m_serr st'
     = m_serr st +:+ (if bool_decide (inputMode (m_options st') = InputMode.Assembler)
                      then yul_warning else "")
  /\ m_hasOutput st'
     = bool_decide (inputMode (m_options st') = InputMode.Assembler).
Proof.
  intros Hrun.
  pose proof (hoare_run _ _ _ _ _ _
    (success_output_parse_body (m_sout st) (m_serr st) cmdline _argc interactiveTerminal)
    (conj eq_refl eq_refl) Hrun eq_refl) as [Hsout Hserr].
  split; [exact Hsout |].
  destruct (bool_decide (inputMode (m_options st') = InputMode.Assembler)).
  - exact Hserr.
  - rewrite string_app_nil_r. exact Hserr.
Qed.

End SuccessOutput.

(** ** The input mode *)

Section InputModes.
Context {collaborators : Collaborators}.

Lemma never_continues_bind {A B : Type} (m : M A) (k : A -> M B) :
  (forall a, never_continues (k a)) -> never_continues (m ≫= k).
Proof.
  intros Hk st. unfold mbind, M_bind, ended.
  destruct (m st) as [[a | o] st1]; simpl.
  - apply Hk.
  - discriminate.
Qed.

Lemma bind_never_continues {A B : Type} (m : M A) (k : A -> M B) st o st' :
  never_continues m -> (m ≫= k) st = (Done o, st') -> m st = (Done o, st').
Proof.
  intros Hm Hrun. specialize (Hm st). unfold ended in Hm.
  apply bind_done_inv in Hrun as [Hrun | (a & st1 & Hc & _)]; [exact Hrun |].
  rewrite Hc in Hm. now destruct Hm.
Qed.

End InputModes.

(** A sequence never falls through when its last statement does not. *)
Ltac never_continues_tac :=
  repeat (apply never_continues_bind; intros ?);
  repeat match goal with
  | |- never_continues (if ?c then _ else _) => destruct c
  | |- never_continues (match ?x with _ => _ end) => destruct x
  end;
  try (intros ?; discriminate).

Section InputModeTheorems.
Context {collaborators : Collaborators}.

Lemma parseExclusiveModes_passed args st a st' :
  parseExclusiveModes args st = (Cont a, st') ->
  countEnabledOptions args exclusiveModes <= 1.
Proof.
  unfold parseExclusiveModes.
  destruct (Nat.ltb 1 (countEnabledOptions args exclusiveModes)) eqn:Hmodes.
  - discriminate.
  - intros _. apply Nat.ltb_ge in Hmodes. exact Hmodes.
Qed.

Lemma assigned_then {A : Type} f (k : M A) st r st' :
  (assign f ≫= fun _ => k) st = (r, st') -> k (assigned f st) = (r, st').
Proof. intros Hrun. exact Hrun. Qed.

(** With [--standard-json], the block ends the run in standard-JSON mode. *)
Lemma parseStandardJson_given args :
  nonzero (count args g_argStandardJSON) = true ->
  never_continues (parseStandardJson args)
  /\ forall st o st',
       parseStandardJson args st = (Done o, st') ->
       inputMode (m_options st') = InputMode.StandardJson.
Proof.
  intros Hgiven. unfold parseStandardJson. rewrite Hgiven. cbn [when]. split.
  - never_continues_tac.
  - intros st o st' Hrun. apply assigned_then in Hrun.
    match type of Hrun with ?m _ = _ =>
      assert (Hpres : preserves inputMode m) by statement
    end.
    etransitivity; [exact (preserves_run _ _ _ _ _ Hpres Hrun) | reflexivity].
Qed.

Lemma parseStandardJson_absent args st :
  nonzero (count args g_argStandardJSON) = false ->
  parseStandardJson args st = (Cont tt, st).
Proof. intros Habsent. unfold parseStandardJson. now rewrite Habsent. Qed.

(** With an assembler option, the block ends the run in assembler mode. *)
Lemma parseAssembler_requested args :
  assemblerRequested args = true ->
  never_continues (parseAssembler args)
  /\ forall st o st',
       parseAssembler args st = (Done o, st') ->
       inputMode (m_options st') = InputMode.Assembler.
Proof.
  unfold assemblerRequested. intros Hgiven.
  unfold parseAssembler. rewrite Hgiven. split.
  - never_continues_tac.
  - intros st o st' Hrun. apply assigned_then in Hrun.
    match type of Hrun with ?m _ = _ =>
      assert (Hpres : preserves inputMode m) by block
    end.
    etransitivity; [exact (preserves_run _ _ _ _ _ Hpres Hrun) | reflexivity].
Qed.

Lemma parseAssembler_not_requested args :
  assemblerRequested args = false ->
  no_success (parseAssembler args)
  /\ forall {B : Type} (f : CommandLineOptions -> B), preserves f (parseAssembler args).
Proof.
  unfold assemblerRequested. intros Habsent.
  unfold parseAssembler. rewrite Habsent. split; [| intros B f]; statement.
Qed.

Lemma parseLinker_given args :
  nonzero (count args g_argLink) = true ->
  never_continues (parseLinker args)
  /\ forall st o st',
       parseLinker args st = (Done o, st') ->
       o = Returned true /\ st' = assigned (set_inputMode InputMode.Linker) st.
Proof.
  intros Hgiven. unfold parseLinker. rewrite Hgiven. cbn [when]. split.
  - never_continues_tac.
  - intros st o st' [= <- <-]. split; reflexivity.
Qed.

Lemma parseLinker_absent args st :
  nonzero (count args g_argLink) = false ->
  parseLinker args st = (Cont tt, st).
Proof. intros Habsent. unfold parseLinker. now rewrite Habsent. Qed.

(** The compiler branch ends in one of the two compiler modes. *)
Lemma parseCompilerOptimizer_inputMode args st st' :
  parseCompilerOptimizer args st = (Done (Returned true), st') ->
  inputMode (m_options st')
  = (if nonzero (count args g_argImportAst) then InputMode.CompilerWithASTImport
     else inputMode (m_options st))
  /\ (inputMode (m_options st') = InputMode.Compiler
      \/ inputMode (m_options st') = InputMode.CompilerWithASTImport).
Proof.
  pose (m0 := inputMode (m_options st)).
  assert (Hkeeps : keeps (fun st => inputMode (m_options st) = m0)
    (fun o st => o = Returned true ->
       inputMode (m_options st)
       = (if nonzero (count args g_argImportAst) then InputMode.CompilerWithASTImport
          else m0)
       /\ (inputMode (m_options st) = InputMode.Compiler
           \/ inputMode (m_options st) = InputMode.CompilerWithASTImport))
    (parseCompilerOptimizer args)).
  { unfold parseCompilerOptimizer, parseYulOptimizations.
    keeps_tac
      ltac:(fun m => idtac; lazymatch m with
                            | serr _ => idtac
                            | (if _ then assign (set_inputMode _) else _) => idtac
                            end)
      ltac:(idtac; first
        [ solve [intros; try discriminate; cbn; auto]
        | exec; intros; try discriminate; cbn in *;
          repeat match goal with
          | H : orb _ _ = true |- _ => apply orb_prop in H as [H | H]
          | H : bool_decide _ = true |- _ => apply bool_decide_eq_true in H
          end; auto ]). }
  intros Hrun. exact (keeps_done _ _ _ _ _ _ Hkeeps eq_refl Hrun eq_refl).
Qed.

Lemma inputMode_inputs args :
  (no_success (parseInputs args) /\ preserves inputMode (parseInputs args))
  /\ (no_success (parseLibraries args) /\ preserves inputMode (parseLibraries args))
  /\ (no_success (parseEVMVersion args) /\ preserves inputMode (parseEVMVersion args))
  /\ (no_success (parseCompilerSettings args)
      /\ preserves inputMode (parseCompilerSettings args)).
Proof. repeat split; block. Qed.

(** X3: the input mode of a successful [parse] is the one the mode options
    select.  At most one of the six mode options was given;
    [--standard-json] gives the standard-JSON mode, [--assemble],
    [--strict-assembly] and [--yul] give the assembler mode, [--link] gives
    the linker mode, [--import-ast] gives the compiler mode with AST import;
    without any of them the mode is left as it was, and it is one of the two
    compiler modes. *)
Theorem parse_success_inputMode args _argc interactiveTerminal st st' :
  parse (po_stored args) _argc interactiveTerminal st = (Returned true, st') ->
  countEnabledOptions args exclusiveModes <= 1
  /\ inputMode (m_options st') = selectedMode args (inputMode (m_options st))
  /\ (nonzero (count args g_argStandardJSON) = false ->
      assemblerRequested args = false ->
      nonzero (count args g_argLink) = false ->
      inputMode (m_options st') = InputMode.Compiler
      \/ inputMode (m_options st') = InputMode.CompilerWithASTImport).
Proof.
  intros Hrun. apply run_inv in Hrun. unfold parse_body in Hrun.
  destruct (inputMode_before args _argc interactiveTerminal)
    as (P1 & P2 & P3 & P4 & P5 & P6 & P7 & P8 & P9).
  destruct (inputMode_inputs args)
    as ((N10 & P10) & (N11 & P11) & (N12 & P12) & (N13 & P13)).
  peel Hrun no_success_reset_hasOutput P1.
  peel Hrun (no_success_parseExclusions args) P2.
  peel Hrun (no_success_parseOutputFormatting args) P3.
  peel Hrun (no_success_parseEarlyExits args _argc interactiveTerminal) P4.
  peel Hrun (no_success_parseRevertStrings args) P5.
  peel Hrun (no_success_parseCombinedJson args) P6.
  peel Hrun (no_success_parseOutputOptions args) P7.
  peel Hrun (no_success_parseStopAfter args) P8.
  apply bind_done_inv in Hrun as [Hrun | (? & ? & Hmodes & Hrun)];
    [exfalso; exact (no_success_run _ _ _ (no_success_parseExclusiveModes args) Hrun) |].
  pose proof (preserves_run _ _ _ _ _ P9 Hmodes) as Hc8.
  apply parseExclusiveModes_passed in Hmodes.
  split; [exact Hmodes |].
  unfold selectedMode.
  destruct (nonzero (count args g_argStandardJSON)) eqn:Hjson.
  { destruct (parseStandardJson_given args Hjson) as [Hends Hmode].
    apply (bind_never_continues _ _ _ _ _ Hends) in Hrun.
    split; [exact (Hmode _ _ _ Hrun) | discriminate]. }
  rewrite (bind_cont _ _ _ _ _ (parseStandardJson_absent args _ Hjson)) in Hrun.
  peel Hrun N10 P10. peel Hrun N11 P11. peel Hrun N12 P12.
  destruct (assemblerRequested args) eqn:Hasm.
  { destruct (parseAssembler_requested args Hasm) as [Hends Hmode].
    apply (bind_never_continues _ _ _ _ _ Hends) in Hrun.
    split; [exact (Hmode _ _ _ Hrun) | discriminate]. }
  destruct (parseAssembler_not_requested args Hasm) as [N13' P13'].
  peel Hrun N13' (P13' _ inputMode).
  destruct (nonzero (count args g_argLink)) eqn:Hlink.
  { destruct (parseLinker_given args Hlink) as [Hends Hmode].
    apply (bind_never_continues _ _ _ _ _ Hends) in Hrun.
    destruct (Hmode _ _ _ Hrun) as [_ ->].
    split; [reflexivity | discriminate]. }
  rewrite (bind_cont _ _ _ _ _ (parseLinker_absent args _ Hlink)) in Hrun.
  peel Hrun N13 P13.
  apply parseCompilerOptimizer_inputMode in Hrun as [Hmode Hcompiler].
  split; [| intros _ _ _; exact Hcompiler].
  destruct (nonzero (count args g_argImportAst)); [exact Hmode |].
  etransitivity; [exact Hmode |]. congruence.
Qed.

End InputModeTheorems.


(** ** What the alternative input modes leave alone *)

Section Frames.
Context {collaborators : Collaborators}.

Lemma preserves_bind_never {A B C : Type} (f : CommandLineOptions -> C)
    (m : M A) (k : A -> M B) :
  preserves f m -> never_continues m -> preserves f (m ≫= k).
Proof.
  intros Hm Hends st. specialize (Hm st). specialize (Hends st).
  unfold mbind, M_bind, ended in *.
  destruct (m st) as [[a | o] st1]; simpl in *.
  - now destruct Hends.
  - exact Hm.
Qed.

Lemma preserves_parse {C : Type} (f : CommandLineOptions -> C)
    cmdline _argc interactiveTerminal st o st' :
  preserves f (parse_body cmdline _argc interactiveTerminal) ->
  parse cmdline _argc interactiveTerminal st = (o, st') ->
  f (m_options st') = f (m_options st).
Proof.
  intros Hpres Hrun. apply run_inv in Hrun.
  exact (preserves_run _ _ _ _ _ Hpres Hrun).
Qed.

Lemma assemblerRequested_inv args :
  assemblerRequested args = true ->
  exists name, In name [g_argAssemble; g_argStrictAssembly; g_argYul]
               /\ 0 < count args name.
Proof.
  unfold assemblerRequested, nonzero. intros Hasm.
  apply orb_prop in Hasm as [Hasm | Hasm]; [apply orb_prop in Hasm as [Hasm | Hasm] |].
  - exists g_argAssemble. split; [now left |].
    destruct (count args g_argAssemble); [discriminate | lia].
  - exists g_argStrictAssembly. split; [right; now left |].
    destruct (count args g_argStrictAssembly); [discriminate | lia].
  - exists g_argYul. split; [right; right; now left |].
    destruct (count args g_argYul); [discriminate | lia].
Qed.

Lemma parseExclusiveModes_never args :
  1 < countEnabledOptions args exclusiveModes ->
  never_continues (parseExclusiveModes args).
Proof.
  intros Hcount st. rewrite (parseExclusiveModes_conflict _ _ Hcount). discriminate.
Qed.

(** X4: with [--standard-json], [parse] ignores the options of the later
    stages: whatever the outcome, the source file paths, the remappings, the
    libraries, the EVM version and the assembler, optimizer, metadata and
    model checker settings are as they were. *)
Theorem standard_json_ignores_later_options
    args _argc interactiveTerminal st o st' :
  0 < count args g_argStandardJSON ->
  parse (po_stored args) _argc interactiveTerminal st = (o, st') ->
  assignedAfterStandardJson (m_options st')
  = assignedAfterStandardJson (m_options st).
Proof.
  intros Hgiven. apply nonzero_pos in Hgiven. apply preserves_parse.
  unfold parse_body.
  do 9 (apply preserves_bind; [solve [block] | intros _]).
  apply preserves_bind_never.
  - block.
  - apply parseStandardJson_given, Hgiven.
Qed.

Lemma link_and_assembler args :
  0 < count args g_argLink -> assemblerRequested args = true ->
  1 < countEnabledOptions args exclusiveModes.
Proof.
  intros Hlink Hasm.
  apply assemblerRequested_inv in Hasm as (name & Hin & Hname).
  apply (countEnabledOptions_two args exclusiveModes g_argLink name);
    try assumption.
  - right. now left.
  - simpl in Hin. unfold exclusiveModes.
    destruct Hin as [<- | [<- | [<- | []]]]; simpl; auto 6.
  - simpl in Hin. destruct Hin as [<- | [<- | [<- | []]]]; discriminate.
Qed.

(** X5: with [--link], [parse] ignores the options of the assembler and of
    the compiler: whatever the outcome, the target machine, the assembly
    language and the optimizer, metadata and model checker settings are as
    they were. *)
Theorem link_ignores_compiler_options args _argc interactiveTerminal st o st' :
  0 < count args g_argLink ->
  parse (po_stored args) _argc interactiveTerminal st = (o, st') ->
  assignedByAssemblerOrCompiler (m_options st')
  = assignedByAssemblerOrCompiler (m_options st).
Proof.
  intros Hgiven. apply preserves_parse. unfold parse_body.
  do 8 (apply preserves_bind; [solve [block] | intros _]).
  destruct (assemblerRequested args) eqn:Hasm.
  - apply preserves_bind_never; [block |].
    apply parseExclusiveModes_never, link_and_assembler; assumption.
  - do 5 (apply preserves_bind; [solve [block] | intros _]).
    apply preserves_bind; [apply parseAssembler_not_requested, Hasm | intros _].
    apply preserves_bind_never; [block |].
    apply parseLinker_given, nonzero_pos, Hgiven.
Qed.

(** X6: with [--assemble], [--strict-assembly] or [--yul], [parse] ignores
    the options of the compiler branch: whatever the outcome, the metadata
    and model checker settings, the number of runs and the error recovery
    flag are as they were. *)
Theorem assembler_ignores_compiler_options
    args _argc interactiveTerminal st o st' :
  assemblerRequested args = true ->
  parse (po_stored args) _argc interactiveTerminal st = (o, st') ->
  assignedByCompiler (m_options st') = assignedByCompiler (m_options st).
Proof.
  intros Hgiven. apply preserves_parse. unfold parse_body.
  do 13 (apply preserves_bind; [solve [block] | intros _]).
  apply preserves_bind_never; [block |].
  apply parseAssembler_requested, Hgiven.
Qed.

End Frames.

(** ** What [parseLibraryOption] adds *)

Section HoareLast.
Context {collaborators : Collaborators}.

Lemma hoare_bind_inv {A B : Type} I E Q (m : M A) (k : A -> M B) :
  keeps I E m -> (forall a, hoare I (k a) Q E) -> hoare I (m ≫= k) Q E.
Proof. apply hoare_bind. Qed.

Lemma hoare_when I E Q (c : bool) (m : M unit) :
  (c = true -> hoare I m Q E) -> (forall st, I st -> Q tt st) ->
  hoare I (when c m) Q E.
Proof.
  intros Hm HQ. destruct c; simpl; [exact (Hm eq_refl) | exact HQ].
Qed.

End HoareLast.

(** Syntax-directed proof of a triple whose invariant holds up to the last
    statement. *)
Ltac hoare_tac breaks tail :=
  cbv beta zeta;
  lazymatch goal with
  | |- hoare _ (mbind _ ?m) _ _ =>
      tryif breaks m then solve [tail]
      else (apply hoare_bind_inv;
            [ keeps_tac breaks tail | intros ?; hoare_tac breaks tail ])
  | |- hoare _ (when _ _) _ _ =>
      apply hoare_when; [ intros ?; hoare_tac breaks tail | solve [tail] ]
  | |- hoare _ (if ?c then _ else _) _ _ => destruct c eqn:?; hoare_tac breaks tail
  | |- hoare _ (match ?x with _ => _ end) _ _ =>
      destruct x eqn:?; hoare_tac breaks tail
  | |- hoare _ _ _ _ => solve [tail]
  end.

Section LibrariesAdded.
Context {collaborators : Collaborators}.

Ltac failed_tail :=
  idtac;
  first [ solve [intros; unfold options_as_in in *; cbn; auto]
        | exec; unfold options_as_in in *; cbn in *; auto ].

(** A specifier that is rejected leaves the options as they were. *)
Lemma parseLibrary_failed lib st o st' :
  parseLibrary lib st = (Done o, st') -> options_as_in st st'.
Proof.
  assert (Hfailed : hoare (options_as_in st) (parseLibrary lib)
                      (fun _ _ => True) (fun _ => options_as_in st)).
  { unfold parseLibrary. hoare_tac writes failed_tail. }
  intros Hrun. specialize (Hfailed st (conj eq_refl eq_refl)).
  now rewrite Hrun in Hfailed.
Qed.

Lemma h160_AlignRight_length (b : list Byte.byte) :
  List.length (h160_AlignRight b) = 20.
Proof.
  unfold h160_AlignRight.
  rewrite List.length_app, List.repeat_length, List.length_skipn. lia.
Qed.

(** An accepted specifier stores an address of 20 bytes that is not zero
    under a name that had none. *)
Lemma parseLibrary_stored lib st st' :
  parseLibrary lib st = (Cont tt, st') ->
  (lib = "" /\ st' = st)
  \/ (lib <> "" /\ exists name address,
        specifierName lib = Some name
        /\ libraries (m_options st) !! name = None
        /\ List.length address = 20 /\ address <> h160_zero
        /\ st' = library_added name address st).
Proof.
  intros Hrun. destruct (String.eqb lib "") eqn:Hempty.
  - apply String.eqb_eq in Hempty. subst lib. left.
    rewrite parseLibrary_empty in Hrun. now injection Hrun as <-.
  - apply String.eqb_neq in Hempty. right. split; [exact Hempty |].
    destruct (findSeparator lib) as [[separator isEq] |] eqn:Hsep.
    + rewrite (parseLibrary_run _ _ _ _ Hempty Hsep) in Hrun. cbv zeta in Hrun.
      unfold specifierName. rewrite Hsep.
      destruct (bool_decide (is_Some (libraries (m_options st) !! _))) eqn:Hdup;
        [discriminate Hrun |].
      apply bool_decide_eq_false in Hdup.
      repeat match type of Hrun with
      | (if ?c then _ else _) = _ => destruct c eqn:?; try discriminate Hrun
      | match ?x with _ => _ end = _ => destruct x eqn:?; try discriminate Hrun
      end.
      injection Hrun as <-. eexists _, _. split; [reflexivity |].
      split; [| split; [apply h160_AlignRight_length | split; [| reflexivity]]].
      * destruct (libraries (m_options st) !! _) eqn:Hlook; [| reflexivity].
        exfalso. apply Hdup. eauto.
      * match goal with H : orb _ _ = false |- _ =>
          apply orb_false_iff in H as [_ H]; unfold h160_eqb in H;
          apply bool_decide_eq_false in H; exact H
        end.
    + exfalso. exact (parseLibrary_no_separator _ _ _ _ Hempty Hsep Hrun).
Qed.

Lemma libraries_added_refl tokens st : libraries_added tokens st st.
Proof. repeat split; auto. Qed.

Lemma libraries_added_failed tokens st st' :
  options_as_in st st' -> libraries_added tokens st st'.
Proof.
  intros [Hoptions Hsout]. unfold libraries_added.
  rewrite Hoptions, Hsout. repeat split; auto.
Qed.

Lemma libraries_added_step token tokens name address st st' :
  In token (token :: tokens) ->
  specifierName token = Some name ->
  libraries (m_options st) !! name = None ->
  List.length address = 20 -> address <> h160_zero ->
  libraries_added tokens (library_added name address st) st' ->
  libraries_added (token :: tokens) st st'.
Proof.
  intros Hin Hname Hfresh Hlen Hnonzero (Hold & Hnew & Hother & Hsout).
  split; [| split; [| split]].
  - intros other a Hother'. apply Hold. cbn.
    rewrite lookup_insert_ne; [exact Hother' |]. congruence.
  - intros other a Hother'. destruct (Hnew other a Hother') as [Hbefore | Hadded].
    + cbn in Hbefore. destruct (decide (name = other)) as [<- | Hne].
      * rewrite lookup_insert_eq in Hbefore. injection Hbefore as <-.
        right. repeat split; eauto.
      * rewrite lookup_insert_ne in Hbefore by exact Hne. now left.
    + right. destruct Hadded as (Ha & Hb & lib & Hlib & Hspec).
      repeat split; auto. exists lib. split; [now right | exact Hspec].
  - apply (f_equal (set_libraries (libraries (m_options st)))) in Hother.
    exact Hother.
  - exact Hsout.
Qed.

Lemma for_each_parseLibrary_added (tokens : list string) st r st' :
  for_each tokens parseLibrary st = (r, st') ->
  libraries_added tokens st st'.
Proof.
  revert st. induction tokens as [| token tokens IH]; intros st Hrun.
  - injection Hrun as _ <-. apply libraries_added_refl.
  - simpl in Hrun. destruct r as [[] | o].
    + apply bind_cont_inv in Hrun as ([] & st1 & Htoken & Hrest).
      apply IH in Hrest.
      apply parseLibrary_stored in Htoken
        as [[-> ->] | (Hne & name & address & Hname & Hfresh & Hlen & Hnz & ->)].
      * destruct Hrest as (Hold & Hnew & Hother & Hsout).
        repeat split; auto.
        intros other a Ha. destruct (Hnew other a Ha) as [| (? & ? & lib & ? & ?)];
          [now left | right; repeat split; auto; exists lib; split; [now right | auto]].
      * eapply libraries_added_step; eauto. now left.
    + apply bind_done_inv in Hrun as [Hrun | ([] & st1 & Htoken & Hrest)].
      * apply libraries_added_failed. exact (parseLibrary_failed _ _ _ _ Hrun).
      * apply IH in Hrest.
        apply parseLibrary_stored in Htoken
          as [[-> ->] | (Hne & name & address & Hname & Hfresh & Hlen & Hnz & ->)].
        -- destruct Hrest as (Hold & Hnew & Hother & Hsout).
           repeat split; auto.
           intros other a Ha. destruct (Hnew other a Ha) as [| (? & ? & lib & ? & ?)];
             [now left | right; repeat split; auto; exists lib; split; [now right | auto]].
        -- eapply libraries_added_step; eauto. now left.
Qed.

(** X7: [parseLibraryOption] only adds libraries.  Whatever the outcome,
    every library that had an address keeps it; every new entry is named by
    a specifier of the input and its address has 20 bytes and is not zero;
    no other member of the options changes, and nothing is written to
    [sout()]. *)
Theorem parseLibraryOption_only_adds _input st o st' :
  run (parseLibraryOption _input) st = (o, st') ->
  (forall name address,
     libraries (m_options st) !! name = Some address ->
     libraries (m_options st') !! name = Some address)
  /\ (forall name address,
        libraries (m_options st') !! name = Some address ->
        libraries (m_options st) !! name = Some address
        \/ (List.length address = 20 /\ address <> h160_zero
            /\ exists lib,
                 In lib (libraryTokens _input) /\ specifierName lib = Some name))
  /\ set_libraries (libraries (m_options st)) (m_options st') = m_options st
  /\ m_sout st' = m_sout st.
Proof.
  intros Hrun. apply run_inv in Hrun.
  unfold parseLibraryOption in Hrun. fold (libraryTokens _input) in Hrun.
  apply bind_done_inv in Hrun as [Hrun | ([] & st1 & Hloop & Hret)].
  - exact (for_each_parseLibrary_added _ _ _ _ Hrun).
  - injection Hret as _ <-. exact (for_each_parseLibrary_added _ _ _ _ Hloop).
Qed.

End LibrariesAdded.

(** ** The separator of a library specifier *)

Section Separator.
Context {collaborators : Collaborators}.

Lemma find_char_app_none c (a b : string) :
  find_char c a = None -> find_char c b = None -> find_char c (a +:+ b) = None.
Proof.
  intros Ha Hb. induction a as [| d a IH]; [exact Hb |].
  rewrite append_cons. simpl in *.
  destruct (Ascii.eqb d c); [discriminate |].
  destruct (find_char c a); [discriminate |]. now rewrite IH.
Qed.

Lemma findSeparator_colon (name addr : string) :
  find_char "=" name = None -> find_char "=" addr = None ->
  find_char ":" addr = None ->
  findSeparator (name +:+ ":" +:+ addr) = Some (String.length name, false).
Proof.
  intros Hname Haddr Hcolon. unfold findSeparator.
  change (":" +:+ addr) with (String ":" addr).
  rewrite (rfind_char_none "=" (name +:+ String ":" addr)).
  - now rewrite (rfind_char_app ":" name addr Hcolon).
  - apply find_char_app_none; [exact Hname |]. simpl. now rewrite Haddr.
Qed.

Lemma append_not_empty (a b : string) c : a +:+ String c b <> "".
Proof. destruct a; discriminate. Qed.

(** X8: a colon separates the library name from the address as well as an
    equal sign does.  The loop body of [parseLibraryOption] treats
    [name:address] exactly as it treats [name=address], when the address
    holds neither separator and is not blank. *)
Theorem library_colon_separator (name addr : string) st :
  find_char "=" name = None ->
  find_char "=" addr = None ->
  find_char ":" addr = None ->
  trim addr <> "" ->
  parseLibrary (name +:+ ":" +:+ addr) st = parseLibrary (name +:+ "=" +:+ addr) st.
Proof.
  intros Hname Haddr Hcolon Hblank.
  change (":" +:+ addr) with (String ":" addr).
  change ("=" +:+ addr) with (String "=" addr).
  rewrite (parseLibrary_run (name +:+ String ":" addr) _ _ st
             (append_not_empty _ _ _)
             (findSeparator_colon _ _ Hname Haddr Hcolon)).
  rewrite (parseLibrary_run (name +:+ String "=" addr) _ _ st
             (append_not_empty _ _ _)
             (findSeparator_equal_sign _ _ Hname Haddr)).
  cbv zeta.
  rewrite !string_take_app, !string_drop_app.
  apply String.eqb_neq in Hblank. rewrite Hblank. reflexivity.
Qed.

Lemma split_compress_first (is_sep : ascii -> bool) (a : string) c rest :
  Hex.string_forallb (fun d => negb (is_sep d)) a = true ->
  is_sep c = true ->
  split_compress_from is_sep false (a +:+ String c rest)
  = a :: split_compress_from is_sep true rest.
Proof.
  intros Ha Hc. induction a as [| d a IH].
  - simpl. now rewrite Hc.
  - rewrite append_cons. simpl in *. apply andb_true_iff in Ha as [Hd Ha].
    apply negb_true_iff in Hd. rewrite Hd, (IH Ha). reflexivity.
Qed.

(** X9: no blank may follow the separator.  The input is cut at blanks and
    commas before the separator is looked for, so in [name= address] the
    specifier is [name=]: [parseLibraryOption] returns [false] and reports
    an empty address, with the note about whitespace after the equal sign. *)
Theorem library_blank_after_separator (name rest : string) c st :
  is_token name = true ->
  find_char "=" name = None ->
  is_space c || is_comma c = true ->
  is_regular_file (name +:+ "=" +:+ String c rest) <> Some true ->
  libraries (m_options st) !! name = None ->
  run (parseLibraryOption (name +:+ "=" +:+ String c rest)) st
  = (Returned false,
     wrote_serr
       ("Note that there should not be any whitespace after the equal sign."
        +:+ endl)
       (wrote_serr
          ("Empty address provided for library "
           +:+ quote +:+ name +:+ quote +:+ "." +:+ endl) st)).
Proof.
  intros Htoken Hname Hc Hfile Hfresh.
  apply run_done. unfold parseLibraryOption.
  assert (match is_regular_file (name +:+ "=" +:+ String c rest) with
          | Some true =>
              match readFileAsString (name +:+ "=" +:+ String c rest) with
              | Some content => content
              | None => name +:+ "=" +:+ String c rest
              end
          | _ => name +:+ "=" +:+ String c rest
          end = (name +:+ "=") +:+ String c rest) as ->.
  { rewrite string_app_assoc.
    destruct (is_regular_file _) as [[|] |]; congruence. }
  unfold split_compress.
  rewrite (split_compress_first _ (name +:+ "=") c rest); [| | exact Hc].
  2:{ fold (is_token (name +:+ "=")). rewrite is_token_app, Htoken. reflexivity. }
  cbn [for_each].
  assert (Hfirst : parseLibrary (name +:+ "=") st
    = (Done (Returned false),
       wrote_serr
         ("Note that there should not be any whitespace after the equal sign."
          +:+ endl)
         (wrote_serr
            ("Empty address provided for library "
             +:+ quote +:+ name +:+ quote +:+ "." +:+ endl) st))).
  { rewrite (parseLibrary_run (name +:+ "=") (String.length name) true st).
    - cbv zeta. change "=" with (String "=" "") at 1 2.
      rewrite string_take_app, string_drop_app.
      rewrite (trim_token _ Htoken), Hfresh.
      rewrite bool_decide_eq_false_2 by (intros [? [=]]). reflexivity.
    - change "=" with (String "=" ""). apply append_not_empty.
    - exact (findSeparator_equal_sign name "" Hname eq_refl). }
  rewrite (bind_done _ _ _ _ _ (bind_done _ _ _ _ _ Hfirst)). reflexivity.
Qed.

End Separator.

(** ** The positional arguments *)

Section Inputs.
Context {collaborators : Collaborators}.

Lemma isRemapping_true path :
  isRemapping path = true <-> exists eq, find_char "=" path = Some eq.
Proof.
  unfold isRemapping. rewrite bool_decide_eq_true. reflexivity.
Qed.

Lemma isRemapping_false path :
  isRemapping path = false <-> find_char "=" path = None.
Proof.
  unfold isRemapping. rewrite bool_decide_eq_false.
  destruct (find_char "=" path) as [eq |]; split; intros H.
  - exfalso. apply H. eauto.
  - discriminate.
  - reflexivity.
  - intros [? [=]].
Qed.

Lemma union_singleton_assoc (a : string) (X Y : gset string) :
  ({[ a ]} ∪ X) ∪ Y = X ∪ ({[ a ]} ∪ Y).
Proof.
  apply set_eq. intros x. rewrite !elem_of_union. tauto.
Qed.

(** The loop over the positional arguments, when it gets to its end. *)
Lemma for_each_parseInputPath_collected (paths : list string) st st' :
  for_each paths parseInputPath st = (Cont tt, st') ->
  inputs_collected paths (m_options st) (m_options st')
  /\ Forall (fun path => is_Some (parseRemapping path))
       (List.filter isRemapping paths)
  /\ st' = assigned (fun _ => m_options st') st
  /\ set_sourceFilePaths (sourceFilePaths (m_options st))
       (set_addStdin (addStdin (m_options st))
          (set_remappings (remappings (m_options st))
             (set_allowedDirectories (allowedDirectories (m_options st))
                (m_options st'))))
     = m_options st.
Proof.
  revert st. induction paths as [| path paths IH]; intros st Hrun.
  - injection Hrun as <-. unfold inputs_collected. simpl.
    rewrite orb_false_r, app_nil_r.
    repeat split; try reflexivity; try (symmetry; apply (right_id_L ∅ (∪))).
    constructor.
  - simpl in Hrun. apply bind_cont_inv in Hrun as ([] & st1 & Hpath & Hrest).
    apply IH in Hrest as ((Hsrc & Hstdin & Hmaps & Hdirs) & Hvalid & Hframe & Hother).
    destruct (find_char "=" path) as [eq |] eqn:Heq.
    + assert (Hrem : isRemapping path = true) by (apply isRemapping_true; eauto).
      destruct (parseRemapping path) as [r |] eqn:Hr.
      2:{ rewrite (parseInputPath_invalid _ _ st Heq Hr) in Hpath. discriminate. }
      rewrite (parseInputPath_remapping _ _ _ st Heq Hr) in Hpath.
      injection Hpath as <-.
      unfold inputs_collected, isSourceFile. simpl. rewrite Hrem. simpl.
      assert (String.eqb path "-" = false) as ->.
      { apply String.eqb_neq. intros ->. discriminate Heq. }
      rewrite Hr. unfold remappingDirectory at 1. rewrite Heq.
      repeat split.
      * exact Hsrc.
      * exact Hstdin.
      * rewrite Hmaps. cbn. now rewrite <- app_assoc.
      * rewrite Hdirs. cbn. apply union_singleton_assoc.
      * constructor; [rewrite Hr; eauto | exact Hvalid].
      * rewrite Hframe at 1. reflexivity.
      * exact (f_equal
                 (fun o => set_remappings (remappings (m_options st))
                             (set_allowedDirectories
                                (allowedDirectories (m_options st)) o)) Hother).
    + assert (Hrem : isRemapping path = false) by (now apply isRemapping_false).
      rewrite (parseInputPath_plain _ st Heq) in Hpath.
      injection Hpath as <-.
      unfold inputs_collected, isSourceFile. simpl. rewrite Hrem. simpl.
      destruct (String.eqb path "-") eqn:Hdash; simpl;
        repeat split; try assumption;
        try (rewrite Hstdin; cbn; now rewrite ?orb_true_r);
        try (rewrite Hsrc; cbn; apply union_singleton_assoc);
        try (rewrite Hframe at 1; reflexivity).
      * exact (f_equal (set_addStdin (addStdin (m_options st))) Hother).
      * exact (f_equal (set_sourceFilePaths (sourceFilePaths (m_options st))) Hother).
Qed.

Lemma parseInputPathsAndRemappings_collected args st st' :
  run (parseInputPathsAndRemappings args) st = (Returned true, st') ->
  let paths := inputFiles args in
  let o := m_options st in
  let o' := m_options st' in
  sourceFilePaths o'
  = sourceFilePaths o ∪ list_to_set (List.filter isSourceFile paths)
  /\ addStdin o' = addStdin o || existsb (fun path => String.eqb path "-") paths
  /\ remappings o'
     = (remappings o ++ omap parseRemapping (List.filter isRemapping paths))%list
  /\ allowedDirectories o'
     = allowedDirectories o
       ∪ list_to_set (map remappingDirectory (List.filter isRemapping paths))
  /\ Forall (fun path => is_Some (parseRemapping path))
       (List.filter isRemapping paths)
  /\ ignoreMissingInputFiles o' = nonzero (count args g_argIgnoreMissingFiles)
  /\ withInputsOf o o' = o
  /\ m_sout st' = m_sout st /\ m_serr st' = m_serr st
  /\ m_hasOutput st' = m_hasOutput st.
Proof.
  intros Hrun paths o o'. apply run_inv in Hrun.
  unfold parseInputPathsAndRemappings in Hrun. apply assigned_then in Hrun.
  subst paths. unfold inputFiles, count, as_strings in *.
  destruct (args !! g_argInputFile) as [[| | paths |] |] eqn:Hargs;
    cbn [nonzero Nat.eqb negb when] in Hrun; try discriminate Hrun.
  - apply bind_done_inv in Hrun as [Hrun | ([] & st1 & Hloop & Hret)].
    { apply bind_done_inv in Hrun as [Hrun | (? & ? & [= <- <-] & Hrun)];
        [discriminate Hrun |].
      exfalso. refine (no_success_run _ _ _ _ Hrun).
      apply no_success_for_each. intros p. block. }
    injection Hret as <-.
    apply bind_cont_inv in Hloop as (? & ? & [= <- <-] & Hloop).
    apply for_each_parseInputPath_collected in Hloop
      as ((Hsrc & Hstdin & Hmaps & Hdirs) & Hvalid & Hframe & Hother).
    subst o o'. repeat split; try assumption.
    + exact (f_equal ignoreMissingInputFiles Hother).
    + exact (f_equal
               (set_ignoreMissingInputFiles
                  (ignoreMissingInputFiles (m_options st))) Hother).
    + exact (f_equal m_sout Hframe).
    + exact (f_equal m_serr Hframe).
    + exact (f_equal m_hasOutput Hframe).
  - injection Hrun as <-. subst o o'. simpl.
    rewrite orb_false_r, app_nil_r.
    repeat split; try reflexivity; try (symmetry; apply (right_id_L ∅ (∪))).
    constructor.
Qed.

(** X10: what a successful [parseInputPathsAndRemappings] has collected
    from the positional arguments.  The arguments without an equal sign,
    [-] apart, are the new source file paths; [-] asks for the standard
    input; every argument with an equal sign is a valid remapping, they are
    appended in their order, and the directory of each target is allowed.
    [ignoreMissingInputFiles] tells whether [--ignore-missing] was given;
    no other member changes and nothing is written. *)
Theorem parseInputPathsAndRemappings_success args st st' :
  run (parseInputPathsAndRemappings args) st = (Returned true, st') ->
  let paths := inputFiles args in
  let o := m_options st in
  let o' := m_options st' in
  sourceFilePaths o'
  = sourceFilePaths o ∪ list_to_set (List.filter isSourceFile paths)
  /\ addStdin o' = addStdin o || existsb (fun path => String.eqb path "-") paths
  /\ remappings o'
     = (remappings o ++ omap parseRemapping (List.filter isRemapping paths))%list
  /\ allowedDirectories o'
     = allowedDirectories o
       ∪ list_to_set (map remappingDirectory (List.filter isRemapping paths))
  /\ Forall (fun path => is_Some (parseRemapping path))
       (List.filter isRemapping paths)
  /\ ignoreMissingInputFiles o' = nonzero (count args g_argIgnoreMissingFiles)
  /\ withInputsOf o o' = o
  /\ m_sout st' = m_sout st /\ m_serr st' = m_serr st
  /\ m_hasOutput st' = m_hasOutput st.
Proof. apply parseInputPathsAndRemappings_collected. Qed.


Lemma for_each_parseInputPath_valid (paths : list string) st :
  Forall (fun path => isRemapping path = true -> is_Some (parseRemapping path))
    paths ->
  exists st', for_each paths parseInputPath st = (Cont tt, st').
Proof.
  intros Hvalid. revert st.
  induction Hvalid as [| path paths Hpath _ IH]; intros st.
  - now exists st.
  - simpl. destruct (find_char "=" path) as [eq |] eqn:Heq.
    + destruct Hpath as [r Hr]; [apply isRemapping_true; eauto |].
      rewrite (bind_cont _ _ _ _ _ (parseInputPath_remapping _ _ _ st Heq Hr)).
      apply IH.
    + rewrite (bind_cont _ _ _ _ _ (parseInputPath_plain _ st Heq)). apply IH.
Qed.

(** X11: the first invalid remapping ends [parseInputPathsAndRemappings].
    It returns [false] and names the argument in the diagnostic; the
    arguments before it have been collected, the ones after it have not
    been looked at. *)
Theorem parseInputPathsAndRemappings_invalid_remapping args before bad after st :
  args !! g_argInputFile = Some (strings_value (before ++ bad :: after)%list) ->
  Forall (fun path => isRemapping path = true -> is_Some (parseRemapping path))
    before ->
  isRemapping bad = true ->
  parseRemapping bad = None ->
  exists st1,
    run (parseInputPathsAndRemappings args) st
    = (Returned false,
       wrote_serr ("Invalid remapping: " +:+ quote +:+ bad +:+ quote +:+ "."
                   +:+ endl) st1)
    /\ sourceFilePaths (m_options st1)
       = sourceFilePaths (m_options st)
         ∪ list_to_set (List.filter isSourceFile before)
    /\ remappings (m_options st1)
       = (remappings (m_options st)
          ++ omap parseRemapping (List.filter isRemapping before))%list
    /\ m_serr st1 = m_serr st.
Proof.
  intros Hargs Hvalid Hbad Hnone.
  apply isRemapping_true in Hbad as [eq Heq].
  pose (st0 := assigned
    (set_ignoreMissingInputFiles (nonzero (count args g_argIgnoreMissingFiles))) st).
  destruct (for_each_parseInputPath_valid before st0 Hvalid) as [st1 Hloop].
  exists st1. split.
  - apply run_done. unfold parseInputPathsAndRemappings, as_strings.
    rewrite (count_lookup _ _ _ Hargs), Hargs. cbn [nonzero Nat.eqb negb when].
    change ((for_each (before ++ bad :: after) parseInputPath
             ≫= fun _ => (return_ true : M Empty_set)) st0
            = (Done (Returned false),
               wrote_serr ("Invalid remapping: " +:+ quote +:+ bad +:+ quote
                           +:+ "." +:+ endl) st1)).
    apply bind_done. rewrite for_each_app.
    rewrite (bind_cont _ _ _ _ _ Hloop). cbn [for_each].
    apply bind_done, (parseInputPath_invalid _ _ _ Heq Hnone).
  - apply for_each_parseInputPath_collected in Hloop
      as ((Hsrc & _ & Hmaps & _) & _ & Hframe & _).
    split; [exact Hsrc |]. split; [exact Hmaps |].
    exact (f_equal m_serr Hframe).
Qed.

End Inputs.

(** ** The allowed directories *)

Section AllowedDirectories.
Context {collaborators : Collaborators}.

(** The loop over the elements of [--allow-paths] *)
Lemma for_each_allowPaths (paths : list string) st :
  exists st',
    for_each paths (fun path =>
      let filesystem_path :=
        if String.eqb (path_filename path) "." then path_remove_filename path
        else path in
      assign (fun o =>
        set_allowedDirectories ({[ filesystem_path ]} ∪ allowedDirectories o) o)) st
    = (Cont tt, st')
    /\ allowedDirectories (m_options st')
       = allowedDirectories (m_options st) ∪ list_to_set (map allowedPath paths).
Proof.
  revert st. induction paths as [| path paths IH]; intros st.
  - exists st. split; [reflexivity |]. simpl. symmetry. apply (right_id_L ∅ (∪)).
  - cbn [for_each]. cbv zeta.
    match goal with |- context [assign ?f] =>
      destruct (IH (assigned f st)) as (st' & Hloop & Hdirs)
    end.
    exists st'. split; [exact Hloop |].
    rewrite Hdirs. cbn. apply union_singleton_assoc.
Qed.

Lemma parseOutputOptions_allowedDirectories args st st' :
  parseOutputOptions args st = (Cont tt, st') ->
  allowedDirectories (m_options st')
  = allowedDirectories (m_options st) ∪ list_to_set (map allowedPath (allowPaths args)).
Proof.
  intros Hrun. unfold parseOutputOptions in Hrun.
  repeat match type of Hrun with
  | (mbind _ ?m) _ = (Cont _, _) =>
      let Hm := fresh "Hm" in
      let Hp := fresh "Hp" in
      apply bind_cont_inv in Hrun as (? & ? & Hm & Hrun);
      assert (Hp : preserves allowedDirectories m) by statement;
      apply (preserves_run _ _ _ _ _ Hp) in Hm
  end.
  unfold allowPaths, count, as_string in *.
  match type of Hrun with _ ?st1 = _ =>
    assert (Hbefore : allowedDirectories (m_options st1)
                      = allowedDirectories (m_options st)) by congruence;
    rewrite <- Hbefore;
    destruct (args !! g_argAllowPaths) as [[| value | |] |];
      cbn [nonzero Nat.eqb negb when] in Hrun; try discriminate Hrun;
    [ unfold mbind, M_bind in Hrun; cbn [mret M_ret] in Hrun;
      destruct (for_each_allowPaths (split is_comma value) st1)
        as (st2 & Hloop & Hdirs);
      cbv zeta in Hloop; rewrite Hloop in Hrun; injection Hrun as <-; exact Hdirs
    | injection Hrun as <-; simpl; symmetry; apply (right_id_L ∅ (∪)) ]
  end.
Qed.

Lemma called_true (body : M Empty_set) st a st' :
  (call body ≫= fun ok => when (negb ok) (return_ false)) st = (Cont a, st') ->
  run body st = (Returned true, st').
Proof.
  unfold mbind, M_bind, call, run.
  destruct (body st) as [[[] | [[|] | status | what]] st1]; simpl;
    try discriminate.
  now intros [= _ <-].
Qed.

Lemma allowedDirectories_before args _argc interactiveTerminal :
  preserves allowedDirectories reset_hasOutput /\
  preserves allowedDirectories (parseExclusions args) /\
  preserves allowedDirectories (parseOutputFormatting args) /\
  preserves allowedDirectories (parseEarlyExits args _argc interactiveTerminal) /\
  preserves allowedDirectories (parseRevertStrings args) /\
  preserves allowedDirectories (parseCombinedJson args) /\
  preserves allowedDirectories (parseStopAfter args) /\
  preserves allowedDirectories (parseExclusiveModes args) /\
  preserves allowedDirectories (parseStandardJson args).
Proof. repeat split; block. Qed.

Lemma allowedDirectories_after args :
  preserves allowedDirectories
    (parseLibraries args;;
     parseEVMVersion args;;
     parseAssembler args;;
     parseLinker args;;
     parseCompilerSettings args;;
     parseCompilerOptimizer args).
Proof. block. Qed.

(** X12: the allowed directories after a successful [parse] are the ones
    that were allowed before, the elements of [--allow-paths], each without
    the file name [.] that a trailing separator leaves, and, unless
    [--standard-json] is given, the directory of the target of every
    remapping among the positional arguments. *)
Theorem parse_success_allowedDirectories args _argc interactiveTerminal st st' :
  parse (po_stored args) _argc interactiveTerminal st = (Returned true, st') ->
  allowedDirectories (m_options st')
  = allowedDirectories (m_options st)
    ∪ list_to_set (map allowedPath (allowPaths args))
    ∪ (if nonzero (count args g_argStandardJSON) then ∅
       else list_to_set
              (map remappingDirectory (List.filter isRemapping (inputFiles args)))).
Proof.
  intros Hrun. apply run_inv in Hrun. unfold parse_body in Hrun.
  destruct (allowedDirectories_before args _argc interactiveTerminal)
    as (P1 & P2 & P3 & P4 & P5 & P6 & P8 & P9 & P10).
  peel Hrun no_success_reset_hasOutput P1.
  peel Hrun (no_success_parseExclusions args) P2.
  peel Hrun (no_success_parseOutputFormatting args) P3.
  peel Hrun (no_success_parseEarlyExits args _argc interactiveTerminal) P4.
  peel Hrun (no_success_parseRevertStrings args) P5.
  peel Hrun (no_success_parseCombinedJson args) P6.
  apply bind_done_inv in Hrun as [Hrun | ([] & ? & Hallow & Hrun)];
    [exfalso; exact (no_success_run _ _ _ (no_success_parseOutputOptions args) Hrun) |].
  apply parseOutputOptions_allowedDirectories in Hallow.
  peel Hrun (no_success_parseStopAfter args) P8.
  peel Hrun (no_success_parseExclusiveModes args) P9.
  destruct (nonzero (count args g_argStandardJSON)) eqn:Hjson.
  { destruct (parseStandardJson_given args Hjson) as [Hends _].
    apply (bind_never_continues _ _ _ _ _ Hends) in Hrun.
    apply (preserves_run _ _ _ _ _ P10) in Hrun.
    rewrite (right_id_L ∅ (∪)). congruence. }
  rewrite (bind_cont _ _ _ _ _ (parseStandardJson_absent args _ Hjson)) in Hrun.
  apply bind_done_inv in Hrun as [Hrun | ([] & ? & Hinputs & Hrun)];
    [exfalso; refine (no_success_run _ _ _ _ Hrun); block |].
  apply called_true, parseInputPathsAndRemappings_collected in Hinputs.
  cbv zeta in Hinputs. destruct Hinputs as (_ & _ & _ & Hdirs & _).
  apply (preserves_run _ _ _ _ _ (allowedDirectories_after args)) in Hrun.
  congruence.
Qed.

End AllowedDirectories.

(** ** Standard JSON input and the conflicts of [--stop-after] *)

Section StandardJson.
Context {collaborators : Collaborators}.

Lemma parseExclusiveModes_at_most_one args st :
  countEnabledOptions args exclusiveModes <= 1 ->
  parseExclusiveModes args st = (Cont tt, st).
Proof.
  intros Hmodes. unfold parseExclusiveModes.
  apply Nat.ltb_ge in Hmodes. now rewrite Hmodes.
Qed.

(** X13: in standard-JSON mode at most one input file is accepted.  When
    [parse] gets to the mode options with [--standard-json] as the only one
    of them, it selects the standard-JSON mode and returns [true] for no
    positional argument and for one, which becomes the input file; for more
    than one it returns [false] with a diagnostic. *)
Theorem standard_json_input_files args _argc interactiveTerminal st st1 :
  0 < count args g_argStandardJSON ->
  countEnabledOptions args exclusiveModes <= 1 ->
  inputFilesStored args ->
  parse_until_ExclusiveModes args _argc interactiveTerminal st = (Cont tt, st1) ->
  let st2 := assigned (set_inputMode InputMode.StandardJson) st1 in
  parse (po_stored args) _argc interactiveTerminal st
  = match inputFiles args with
    | [] => (Returned true, st2)
    | [inputFile] =>
        (Returned true, assigned (set_standardJsonInputFile (Some inputFile)) st2)
    | _ =>
        (Returned false,
         wrote_serr ("If --standard-json is used, only zero or one input files are supported."
                     +:+ endl) st2)
    end.
Proof.
  intros Hjson Hmodes Hstored Hreach st2.
  apply nonzero_pos in Hjson.
  assert (Hblock : parseStandardJson args st1
    = match inputFiles args with
      | [] => (Done (Returned true), st2)
      | [inputFile] =>
          (Done (Returned true),
           assigned (set_standardJsonInputFile (Some inputFile)) st2)
      | _ =>
          (Done (Returned false),
           wrote_serr ("If --standard-json is used, only zero or one input files are supported."
                       +:+ endl) st2)
      end).
  { unfold parseStandardJson, inputFiles, as_strings. rewrite Hjson. cbn [when].
    unfold count.
    destruct Hstored as [Hnone | [paths Hpaths]].
    - rewrite Hnone. reflexivity.
    - rewrite Hpaths. cbn [nonzero Nat.eqb negb].
      destruct paths as [| inputFile [| second paths]]; reflexivity. }
  split_conts.
  destruct (inputFiles args) as [| inputFile [| second paths]];
    run_conts;
    rewrite (bind_cont _ _ _ _ _ (parseExclusiveModes_at_most_one _ _ Hmodes));
    apply bind_done; exact Hblock.
Qed.

End StandardJson.

Section StopAfter.
Context {collaborators : Collaborators}.

(** The loop over the options that conflict with [--stop-after] stops at the
    first one that is given. *)
Lemma check_conflictingWithStopAfter args (options_ : list string) st :
  nonzero (count args g_strStopAfter) = true ->
  for_each options_ (fun option =>
    ok ← checkMutuallyExclusive args g_strStopAfter option;
    when (negb ok) (return_ false)) st
  = match List.find (fun option => nonzero (count args option)) options_ with
    | Some option =>
        (Done (Returned false),
         wrote_serr (exclusive_diagnostic g_strStopAfter option) st)
    | None => (Cont tt, st)
    end.
Proof.
  intros Hstop. induction options_ as [| option options_ IH]; [reflexivity |].
  cbn [for_each List.find].
  destruct (nonzero (count args option)) eqn:Hoption.
  - apply bind_done. erewrite bind_cont.
    2:{ unfold checkMutuallyExclusive. rewrite Hstop, Hoption. reflexivity. }
    reflexivity.
  - erewrite bind_cont; [exact IH |].
    erewrite bind_cont.
    2:{ unfold checkMutuallyExclusive. rewrite Hstop, Hoption. reflexivity. }
    reflexivity.
Qed.

(** X14: [--stop-after] excludes the outputs of the later stages.  With
    [--stop-after] and one of [--bin], [--ir], [--ir-optimized], [--ewasm],
    [--gas], [--asm], [--asm-json], [--opcodes], and no conflict between
    [--color] and [--no-color], [parse] returns [false], whatever else is
    given; its only output is the diagnostic that names the first of these
    options, in this order, that is given. *)
Theorem stop_after_conflict args _argc interactiveTerminal st option :
  count args g_argColor = 0 \/ count args g_argNoColor = 0 ->
  0 < count args g_strStopAfter ->
  List.find (fun option => nonzero (count args option)) conflictingWithStopAfter
  = Some option ->
  parse (po_stored args) _argc interactiveTerminal st
  = (Returned false,
     wrote_serr (exclusive_diagnostic g_strStopAfter option) (hasOutput_reset st)).
Proof.
  intros Hcolor Hstop Hfirst. apply nonzero_pos in Hstop.
  unfold parse. apply run_done. unfold parse_body.
  assert (Hreset : reset_hasOutput st = (Cont tt, hasOutput_reset st)) by reflexivity.
  rewrite (bind_cont _ _ _ _ _ Hreset).
  apply bind_done. unfold parseExclusions.
  assert (Hcheck : checkMutuallyExclusive args g_argColor g_argNoColor
                     (hasOutput_reset st) = (Cont true, hasOutput_reset st)).
  { unfold checkMutuallyExclusive.
    destruct Hcolor as [-> | ->]; [| rewrite andb_false_r]; reflexivity. }
  rewrite (bind_cont _ _ _ _ _ Hcheck). cbn [negb when].
  unfold mbind at 1, M_bind. cbn [mret M_ret].
  rewrite (check_conflictingWithStopAfter _ _ _ Hstop), Hfirst. reflexivity.
Qed.

End StopAfter.

(** ** A successful assembler run *)

(** Symbolic execution of a statement in a hypothesis [H : m st = r]. *)
Ltac exec_cbn_in H :=
  unfold mbind, M_bind, mret, M_ret, serr, sout, assign, options, return_,
    exit, throw, when, try, solAssert, as_string, as_strings, as_unsigned, call in H;
  cbn -[append count countEnabledOptions joinOptionNames nonzero for_each
        split split_compress set_of_list set_count trim string_take string_drop
        rfind_char find_char decimal String.length String.eqb h160_AlignRight
        h160_eqb lookup insert union singleton] in H.

Ltac exec_step_in H :=
  match type of H with
  | context [match ?c with _ => _ end] =>
      lazymatch c with
      | context [match _ with _ => _ end] => fail
      | _ => destruct c eqn:?
      end
  end.

Ltac exec_decide_in H :=
  repeat match type of H with
  | context [bool_decide (?a = ?b)] =>
      first [ rewrite (bool_decide_eq_true_2 (a = b)) in H by reflexivity
            | rewrite (bool_decide_eq_false_2 (a = b)) in H by discriminate ]
  end.

Ltac exec_in H :=
  exec_cbn_in H; exec_decide_in H; exec_cbn_in H;
  repeat (exec_step_in H; exec_cbn_in H; exec_decide_in H; exec_cbn_in H;
          try discriminate H).

Section Reach.
Context {collaborators : Collaborators}.

Lemma no_success_inputs args :
  no_success (parseInputs args) /\ no_success (parseLibraries args)
  /\ no_success (parseEVMVersion args) /\ no_success (parseCompilerSettings args).
Proof. repeat split; block. Qed.

(** A successful [parse] without [--standard-json] has got to the assembler
    branch, and the rest of [parse] returned [true] from there. *)
Lemma parse_success_reaches_Assembler args _argc interactiveTerminal st st' :
  nonzero (count args g_argStandardJSON) = false ->
  parse (po_stored args) _argc interactiveTerminal st = (Returned true, st') ->
  exists st1,
    parse_until_Assembler args _argc interactiveTerminal st = (Cont tt, st1)
    /\ (parseAssembler args;; parseLinker args;; parseCompilerSettings args;;
        parseCompilerOptimizer args) st1 = (Done (Returned true), st').
Proof.
  intros Hjson Hrun. apply run_inv in Hrun. unfold parse_body in Hrun.
  destruct (no_success_inputs args) as (N10 & N11 & N12 & _).
  apply bind_done_inv in Hrun as [Hrun | ([] & s1 & H1 & Hrun)];
    [exfalso; exact (no_success_run _ _ _ no_success_reset_hasOutput Hrun) |].
  apply bind_done_inv in Hrun as [Hrun | ([] & s2 & H2 & Hrun)];
    [exfalso; exact (no_success_run _ _ _ (no_success_parseExclusions args) Hrun) |].
  apply bind_done_inv in Hrun as [Hrun | ([] & s3 & H3 & Hrun)];
    [exfalso; exact (no_success_run _ _ _ (no_success_parseOutputFormatting args) Hrun) |].
  apply bind_done_inv in Hrun as [Hrun | ([] & s4 & H4 & Hrun)];
    [exfalso; exact (no_success_run _ _ _
       (no_success_parseEarlyExits args _argc interactiveTerminal) Hrun) |].
  apply bind_done_inv in Hrun as [Hrun | ([] & s5 & H5 & Hrun)];
    [exfalso; exact (no_success_run _ _ _ (no_success_parseRevertStrings args) Hrun) |].
  apply bind_done_inv in Hrun as [Hrun | ([] & s6 & H6 & Hrun)];
    [exfalso; exact (no_success_run _ _ _ (no_success_parseCombinedJson args) Hrun) |].
  apply bind_done_inv in Hrun as [Hrun | ([] & s7 & H7 & Hrun)];
    [exfalso; exact (no_success_run _ _ _ (no_success_parseOutputOptions args) Hrun) |].
  apply bind_done_inv in Hrun as [Hrun | ([] & s8 & H8 & Hrun)];
    [exfalso; exact (no_success_run _ _ _ (no_success_parseStopAfter args) Hrun) |].
  apply bind_done_inv in Hrun as [Hrun | ([] & s9 & H9 & Hrun)];
    [exfalso; exact (no_success_run _ _ _ (no_success_parseExclusiveModes args) Hrun) |].
  pose proof (parseStandardJson_absent args s9 Hjson) as H10.
  rewrite (bind_cont _ _ _ _ _ H10) in Hrun.
  apply bind_done_inv in Hrun as [Hrun | ([] & s11 & H11 & Hrun)];
    [exfalso; exact (no_success_run _ _ _ N10 Hrun) |].
  apply bind_done_inv in Hrun as [Hrun | ([] & s12 & H12 & Hrun)];
    [exfalso; exact (no_success_run _ _ _ N11 Hrun) |].
  apply bind_done_inv in Hrun as [Hrun | ([] & s13 & H13 & Hrun)];
    [exfalso; exact (no_success_run _ _ _ N12 Hrun) |].
  exists s13. split; [| exact Hrun].
  unfold parse_until_Assembler, parse_until_Libraries, parse_until_Inputs,
    parse_until_ExclusiveModes, parse_until_CombinedJson, parse_until_EarlyExits.
  unfold mbind, M_bind.
  rewrite H1, H2, H3, H4, H5, H6, H7, H8, H9, H10, H11, H12, H13. reflexivity.
Qed.

Lemma standard_json_and_assembler args :
  nonzero (count args g_argStandardJSON) = true ->
  assemblerRequested args = true ->
  1 < countEnabledOptions args exclusiveModes.
Proof.
  intros Hjson Hasm.
  apply assemblerRequested_inv in Hasm as (name & Hin & Hname).
  apply (countEnabledOptions_two args exclusiveModes g_argStandardJSON name);
    try assumption.
  - now left.
  - simpl in Hin. unfold exclusiveModes.
    destruct Hin as [<- | [<- | [<- | []]]]; simpl; auto 6.
  - simpl in Hin. destruct Hin as [<- | [<- | [<- | []]]]; discriminate.
  - unfold nonzero in Hjson. destruct (count args g_argStandardJSON);
      [discriminate | lia].
Qed.

(** A successful [parse] with an assembler option has got to the assembler
    branch, which returned [true]. *)
Lemma parse_success_assembler args _argc interactiveTerminal st st' :
  assemblerRequested args = true ->
  parse (po_stored args) _argc interactiveTerminal st = (Returned true, st') ->
  exists st1,
    parse_until_Assembler args _argc interactiveTerminal st = (Cont tt, st1)
    /\ parseAssembler args st1 = (Done (Returned true), st').
Proof.
  intros Hasm Hrun.
  destruct (nonzero (count args g_argStandardJSON)) eqn:Hjson.
  { exfalso.
    apply (parse_conflicting_modes_no_success args _argc interactiveTerminal st
             (standard_json_and_assembler _ Hjson Hasm)).
    now rewrite Hrun. }
  destruct (parse_success_reaches_Assembler _ _ _ _ _ Hjson Hrun)
    as (st1 & Hreach & Hrest).
  exists st1. split; [exact Hreach |].
  exact (bind_never_continues _ _ _ _ _
           (proj1 (parseAssembler_requested args Hasm)) Hrest).
Qed.

End Reach.

(** The leaves of a symbolic execution: the tests on the argument map that
    the run has passed decide the ones in the goal. *)
Ltac flags_step :=
  match goal with
  | H : negb _ = false |- _ => apply negb_false_iff in H
  | H : negb _ = true |- _ => apply negb_true_iff in H
  | H : ?v = string_value _ |- _ => subst v
  | H : nonzero (count _ _) = _ |- _ => rewrite H
  | H : nonzero (count ?a ?n) = _, H' : context [nonzero (count ?a ?n)] |- _ =>
      lazymatch type of H' with
      | nonzero (count a n) = _ => fail
      | _ => rewrite H in H'; cbn [andb orb negb] in H'; try discriminate H'
      end
  | H : String.eqb _ _ = _ |- _ => rewrite H
  | H : ?a !! ?n = Some _ |- context [?a !! ?n] => rewrite H
  | H : nonzero (count ?a ?n) = false |- context [?a !! ?n] =>
      unfold nonzero, count in H;
      let E := fresh "E" in
      destruct (a !! n) eqn:E; [discriminate H |]; clear H
  | H : context [_ && true] |- _ => rewrite andb_true_r in H
  | H : context [_ && false] |- _ => rewrite andb_false_r in H
  | H : andb _ _ = true |- _ => apply andb_true_iff in H as [? ?]
  | H : bool_decide _ = true |- _ => apply bool_decide_eq_true in H
  | H : bool_decide _ = false |- _ => apply bool_decide_eq_false in H
  | |- context [bool_decide (?a = ?b)] =>
      first [ rewrite (bool_decide_eq_true_2 (a = b)) by (reflexivity || assumption)
            | rewrite (bool_decide_eq_false_2 (a = b)) by (discriminate || assumption) ]
  | |- _ => rewrite andb_false_r
  | |- _ => rewrite andb_true_r
  | |- _ => progress cbn -[count nonzero countEnabledOptions]
  end.

Ltac flags_finish :=
  repeat flags_step;
  try solve [repeat split; intros; try reflexivity; try discriminate;
             try congruence; auto].

Section AssemblerSuccess.
Context {collaborators : Collaborators}.

Lemma countEnabledOptions_zero args (names : list string) name :
  countEnabledOptions args names = 0 -> In name names -> count args name = 0.
Proof.
  induction names as [| name0 names IH]; intros Hzero Hin; [destruct Hin |].
  rewrite countEnabledOptions_cons in Hzero.
  destruct Hin as [-> | Hin]; [lia | apply IH; [lia | exact Hin]].
Qed.

(** The assembler branch, when it returns [true] *)
Lemma parseAssembler_success args st st' :
  assemblerRequested args = true ->
  parseAssembler args st = (Done (Returned true), st') ->
  let o := m_options st in
  let o' := m_options st' in
  (targetMachine o' = selectedMachine args (targetMachine o)
   /\ inputAssemblyLanguage o' = selectedLanguage args (targetMachine o')
   /\ (optimize o' = true -> isStrict (inputAssemblyLanguage o'))
   /\ (targetMachine o' = Machine.Ewasm -> isStrict (inputAssemblyLanguage o'))
   /\ (inputAssemblyLanguage o' = Input.Ewasm -> targetMachine o' = Machine.Ewasm))
  /\ (countEnabledOptions args nonAssemblyModeOptions = 0
      /\ optimize o' = nonzero (count args g_argOptimize)
      /\ noOptimizeYul o' = nonzero (count args g_strNoOptimizeYul)
      /\ yulOptimiserSteps o' = selectedSteps args (yulOptimiserSteps o)
      /\ (forall steps,
            args !! g_strYulOptimizations = Some (string_value steps) ->
            nonzero (count args g_argOptimize) = true
            /\ validateSequence steps = None)).
Proof.
  unfold assemblerRequested. intros Hasm Hrun.
  unfold parseAssembler, parseYulOptimizations in Hrun. rewrite Hasm in Hrun.
  clear Hasm.
  exec_in Hrun.
  all: injection Hrun as <-; cbn -[count nonzero countEnabledOptions].
  all: unfold selectedMachine, selectedLanguage, selectedSteps, requestedLanguage,
         isStrict.
  all: flags_finish.
Qed.

(** The values of [--machine] and [--yul-dialect] that the assembler branch
    accepts *)
Lemma parseAssembler_accepted_values args st st' :
  assemblerRequested args = true ->
  parseAssembler args st = (Done (Returned true), st') ->
  (forall machine,
     args !! g_argMachine = Some (string_value machine) ->
     machine = g_strEVM \/ machine = g_strEwasm)
  /\ (forall dialect,
        args !! g_strYulDialect = Some (string_value dialect) ->
        dialect = g_strEVM \/ dialect = g_strEwasm).
Proof.
  unfold assemblerRequested. intros Hasm Hrun.
  unfold parseAssembler, parseYulOptimizations in Hrun. rewrite Hasm in Hrun.
  clear Hasm.
  exec_in Hrun.
  all: clear Hrun; split; intros value Hvalue.
  all: repeat match goal with
       | H : ?v = string_value _ |- _ => subst v
       | H : String.eqb _ _ = true |- _ => apply String.eqb_eq in H
       end.
  all: try match goal with
       | H : nonzero (count ?a ?n) = false, H' : ?a !! ?n = Some _ |- _ =>
           unfold nonzero, count in H; rewrite H' in H; discriminate H
       end.
  all: try match type of Hvalue with
       | ?a !! ?n = _ =>
           match goal with
           | H : a !! n = Some (string_value ?s) |- _ =>
               lazymatch s with
               | value => fail
               | _ => rewrite H in Hvalue
               end
           end
       end.
  all: assert (Hsame : forall x y : string,
                 Some (string_value x) = Some (string_value y) -> x = y)
         by (intros x y [= ->]; reflexivity).
  all: apply Hsame in Hvalue; subst; auto.
Qed.

Lemma preserves_parse_until_Assembler {B : Type} (f : CommandLineOptions -> B)
    args _argc interactiveTerminal :
  preserves f (parseExclusions args) ->
  preserves f (parseOutputFormatting args) ->
  preserves f (parseEarlyExits args _argc interactiveTerminal) ->
  preserves f (parseRevertStrings args) ->
  preserves f (parseCombinedJson args) ->
  preserves f (parseOutputOptions args) ->
  preserves f (parseStopAfter args) ->
  preserves f (parseExclusiveModes args) ->
  preserves f (parseStandardJson args) ->
  preserves f (parseInputs args) ->
  preserves f (parseLibraries args) ->
  preserves f (parseEVMVersion args) ->
  preserves f (parse_until_Assembler args _argc interactiveTerminal).
Proof.
  intros. unfold parse_until_Assembler, parse_until_Libraries, parse_until_Inputs,
    parse_until_ExclusiveModes, parse_until_CombinedJson, parse_until_EarlyExits.
  repeat first [ assumption
               | apply preserves_bind; [| intros _]
               | solve [intros ?; reflexivity] ].
Qed.

Lemma assembler_members_before args _argc interactiveTerminal :
  preserves (fun o => (targetMachine o, yulOptimiserSteps o))
    (parse_until_Assembler args _argc interactiveTerminal).
Proof. apply preserves_parse_until_Assembler; block. Qed.

(** X15: the language and the machine of a successful assembler run.
    [--machine] selects the target machine and [--yul-dialect] the language,
    each with one of the values [evm] and [ewasm]; without a dialect the
    language is the one of the mode option, strict assembly counting as
    Ewasm on the Ewasm machine.  The result is consistent: with the
    optimizer or with the Ewasm machine the language is strict assembly or
    Ewasm, and the language Ewasm goes with the Ewasm machine only. *)
Theorem assembler_language_and_machine args _argc interactiveTerminal st st' :
  assemblerRequested args = true ->
  parse (po_stored args) _argc interactiveTerminal st = (Returned true, st') ->
  let o' := m_options st' in
  targetMachine o' = selectedMachine args (targetMachine (m_options st))
  /\ inputAssemblyLanguage o' = selectedLanguage args (targetMachine o')
  /\ (forall machine,
        args !! g_argMachine = Some (string_value machine) ->
        machine = g_strEVM \/ machine = g_strEwasm)
  /\ (forall dialect,
        args !! g_strYulDialect = Some (string_value dialect) ->
        dialect = g_strEVM \/ dialect = g_strEwasm)
  /\ (optimize o' = true -> isStrict (inputAssemblyLanguage o'))
  /\ (targetMachine o' = Machine.Ewasm -> isStrict (inputAssemblyLanguage o'))
  /\ (inputAssemblyLanguage o' = Input.Ewasm -> targetMachine o' = Machine.Ewasm).
Proof.
  intros Hasm Hrun o'.
  destruct (parse_success_assembler _ _ _ _ _ Hasm Hrun) as (st1 & Hreach & Hblock).
  apply (preserves_run _ _ _ _ _
           (assembler_members_before args _argc interactiveTerminal)) in Hreach.
  injection Hreach as Hmachine _.
  destruct (parseAssembler_accepted_values _ _ _ Hasm Hblock) as [Hmachines Hdialects].
  destruct (parseAssembler_success _ _ _ Hasm Hblock)
    as [(H1 & H2 & H3 & H4 & H5) _].
  cbv zeta in *. subst o'. rewrite <- Hmachine.
  repeat (split; [assumption |]). assumption.
Qed.

(** X16: the optimizer of a successful assembler run.  None of
    [--output-dir], [--gas], [--combined-json], [--optimize-yul] and
    [--no-optimize-yul] was given; [optimize] tells whether [--optimize]
    was; a step sequence is there only with [--optimize], it has passed the
    validator and is stored as it was given. *)
Theorem assembler_optimizer args _argc interactiveTerminal st st' :
  assemblerRequested args = true ->
  parse (po_stored args) _argc interactiveTerminal st = (Returned true, st') ->
  let o' := m_options st' in
  (forall name, In name nonAssemblyModeOptions -> count args name = 0)
  /\ optimize o' = nonzero (count args g_argOptimize)
  /\ noOptimizeYul o' = false
  /\ yulOptimiserSteps o' = selectedSteps args (yulOptimiserSteps (m_options st))
  /\ (forall steps,
        args !! g_strYulOptimizations = Some (string_value steps) ->
        optimize o' = true /\ validateSequence steps = None).
Proof.
  intros Hasm Hrun o'.
  destruct (parse_success_assembler _ _ _ _ _ Hasm Hrun) as (st1 & Hreach & Hblock).
  apply (preserves_run _ _ _ _ _
           (assembler_members_before args _argc interactiveTerminal)) in Hreach.
  injection Hreach as _ Hsteps.
  destruct (parseAssembler_success _ _ _ Hasm Hblock)
    as (_ & Hzero & Hoptimize & Hno & Hstored & Hvalid).
  subst o'. split; [| split; [| split; [| split]]].
  - intros name Hin. exact (countEnabledOptions_zero _ _ _ Hzero Hin).
  - exact Hoptimize.
  - rewrite Hno.
    rewrite (countEnabledOptions_zero _ _ g_strNoOptimizeYul Hzero); [reflexivity |].
    do 4 right. now left.
  - rewrite <- Hsteps. exact Hstored.
  - intros steps Hgiven. rewrite Hoptimize. exact (Hvalid steps Hgiven).
Qed.

End AssemblerSuccess.

(** ** What the assembler branch rejects *)

Section AssemblerErrors.
Context {collaborators : Collaborators}.

(** [countEnabledOptions] counts the names that are given, one by one. *)
Lemma countEnabledOptions_filter args (names : list string) :
  countEnabledOptions args names
  = List.length (List.filter (optionEnabled args) names).
Proof.
  induction names as [| name names IH]; [reflexivity |].
  rewrite countEnabledOptions_cons, IH. simpl.
  unfold optionEnabled at 2, nonzero, count.
  destruct (args !! name); reflexivity.
Qed.

Lemma parseAssembler_invalid_options args st :
  assemblerRequested args = true ->
  1 <= countEnabledOptions args nonAssemblyModeOptions ->
  parseAssembler args st
  = (Done (Returned false), invalid_in_assembly_mode args st).
Proof.
  unfold assemblerRequested. intros Hasm Hcount.
  unfold parseAssembler, invalid_in_assembly_mode. rewrite Hasm.
  apply Nat.leb_le in Hcount. rewrite Hcount. cbn [when]. cbv zeta.
  unfold mbind, M_bind. cbn [assign serr when].
  fold (optionEnabled args).
  destruct (nonzero (count args g_strOptimizeYul)
            || nonzero (count args g_strNoOptimizeYul)); reflexivity.
Qed.

(** X17: the options that the assembler mode rejects.  With an assembler
    option and at least one of [--output-dir], [--gas], [--combined-json],
    [--optimize-yul] and [--no-optimize-yul], [parse] never returns [true];
    when it gets to the assembler branch it returns [false], and the
    diagnostic lists the options of this group that are given, and only
    them: as many as [countEnabledOptions] has counted. *)
Theorem assembler_invalid_options args _argc interactiveTerminal st :
  assemblerRequested args = true ->
  1 <= countEnabledOptions args nonAssemblyModeOptions ->
  (parse (po_stored args) _argc interactiveTerminal st).1 <> Returned true
  /\ (forall st1,
        parse_until_Assembler args _argc interactiveTerminal st = (Cont tt, st1) ->
        parse (po_stored args) _argc interactiveTerminal st
        = (Returned false, invalid_in_assembly_mode args st1))
  /\ List.length (List.filter (optionEnabled args) nonAssemblyModeOptions)
     = countEnabledOptions args nonAssemblyModeOptions
  /\ (forall name,
        In name (List.filter (optionEnabled args) nonAssemblyModeOptions)
        <-> In name nonAssemblyModeOptions /\ 0 < count args name).
Proof.
  intros Hasm Hcount. split; [| split; [| split]].
  - intros Htrue.
    destruct (parse _ _ _ _) as [o st'] eqn:Hrun. simpl in Htrue. subst o.
    destruct (parse_success_assembler _ _ _ _ _ Hasm Hrun) as (st1 & _ & Hblock).
    rewrite (parseAssembler_invalid_options _ _ Hasm Hcount) in Hblock.
    discriminate Hblock.
  - intros st1 Hreach. split_conts. run_conts.
    apply bind_done, parseAssembler_invalid_options; assumption.
  - symmetry. apply countEnabledOptions_filter.
  - intros name. rewrite filter_In. unfold optionEnabled, nonzero.
    split; intros [Hin Hgiven]; (split; [exact Hin |]).
    + destruct (count args name); [discriminate | lia].
    + destruct (count args name); [lia | reflexivity].
Qed.

Lemma parseAssembler_machine_outside args st :
  assemblerRequested args = false ->
  0 < count args g_argMachine \/ 0 < count args g_strYulDialect ->
  parseAssembler args st
  = (Done (Returned false), only_valid_in_assembly_mode st).
Proof.
  unfold assemblerRequested. intros Hasm Hgiven.
  unfold parseAssembler. rewrite Hasm.
  assert (Hcount : 1 <= countEnabledOptions args [g_strYulDialect; g_argMachine]).
  { destruct Hgiven as [Hgiven | Hgiven];
      [apply (countEnabledOptions_one _ _ g_argMachine)
      | apply (countEnabledOptions_one _ _ g_strYulDialect)];
      simpl; auto. }
  apply Nat.leb_le in Hcount. rewrite Hcount. reflexivity.
Qed.

(** X18: [--machine] and [--yul-dialect] belong to the assembler mode.
    Without an assembler option and without [--standard-json], an argument
    map with one of the two never makes [parse] return [true]; when [parse]
    gets to the assembler branch it returns [false] and says that the two
    options are only valid in assembly mode. *)
Theorem machine_outside_assembler args _argc interactiveTerminal st :
  assemblerRequested args = false ->
  count args g_argStandardJSON = 0 ->
  0 < count args g_argMachine \/ 0 < count args g_strYulDialect ->
  (parse (po_stored args) _argc interactiveTerminal st).1 <> Returned true
  /\ (forall st1,
        parse_until_Assembler args _argc interactiveTerminal st = (Cont tt, st1) ->
        parse (po_stored args) _argc interactiveTerminal st
        = (Returned false, only_valid_in_assembly_mode st1)).
Proof.
  intros Hasm Hjson Hgiven. split.
  - intros Htrue.
    destruct (parse _ _ _ _) as [o st'] eqn:Hrun. simpl in Htrue. subst o.
    destruct (parse_success_reaches_Assembler _ _ _ _ _ (nonzero_zero _ Hjson) Hrun)
      as (st1 & _ & Hrest).
    rewrite (bind_done _ _ _ _ _ (parseAssembler_machine_outside _ st1 Hasm Hgiven))
      in Hrest.
    discriminate Hrest.
  - intros st1 Hreach. split_conts. run_conts.
    apply bind_done, parseAssembler_machine_outside; assumption.
Qed.

End AssemblerErrors.

(** ** A successful compiler run *)

Section CompilerSuccess.
Context {collaborators : Collaborators}.

(** A successful [parse] without a mode option other than [--import-ast]
    has run the compiler branch to its end. *)
Lemma parse_success_compiler args _argc interactiveTerminal st st' :
  count args g_argStandardJSON = 0 ->
  assemblerRequested args = false ->
  count args g_argLink = 0 ->
  parse (po_stored args) _argc interactiveTerminal st = (Returned true, st') ->
  exists st1 st2 st3,
    parse_until_Assembler args _argc interactiveTerminal st = (Cont tt, st1)
    /\ m_options st2 = m_options st1
    /\ parseCompilerSettings args st2 = (Cont tt, st3)
    /\ parseCompilerOptimizer args st3 = (Done (Returned true), st').
Proof.
  intros Hjson Hasm Hlink Hrun.
  destruct (parse_success_reaches_Assembler _ _ _ _ _ (nonzero_zero _ Hjson) Hrun)
    as (st1 & Hreach & Hrest).
  destruct (parseAssembler_not_requested args Hasm) as [Nasm Pasm].
  destruct (no_success_inputs args) as (_ & _ & _ & Nsettings).
  apply bind_done_inv in Hrest as [Hrest | ([] & st2 & Hblock & Hrest)];
    [exfalso; exact (no_success_run _ _ _ Nasm Hrest) |].
  rewrite (bind_cont _ _ _ _ _ (parseLinker_absent args _ (nonzero_zero _ Hlink)))
    in Hrest.
  apply bind_done_inv in Hrest as [Hrest | ([] & st3 & Hsettings & Hrest)];
    [exfalso; exact (no_success_run _ _ _ Nsettings Hrest) |].
  exists st1, st2, st3. repeat split; try assumption.
  exact (preserves_run _ _ _ _ _ (Pasm _ (fun o => o)) Hblock).
Qed.

(** The settings of the compiler branch, when it goes on to the optimizer *)
Lemma parseCompilerSettings_success args st st' :
  parseCompilerSettings args st = (Cont tt, st') ->
  let o := m_options st in
  let o' := m_options st' in
  (metadataHash o' = selectedMetadataHash args (metadataHash o)
   /\ metadataLiteral o' = nonzero (count args g_argMetadataLiteral)
   /\ experimentalViaIR o' = nonzero (count args g_argExperimentalViaIR)
   /\ args !! g_argOptimizeRuns
      = Some (unsigned_value (expectedExecutionsPerDeployment o')))
  /\ (initializeModelChecker o' = modelCheckerRequested args
      /\ (forall contractsStr,
            args !! g_argModelCheckerContracts = Some (string_value contractsStr) ->
            ModelCheckerContracts_fromString contractsStr
            = Some (contracts (modelCheckerSettings o')))
      /\ (forall engineStr,
            args !! g_argModelCheckerEngine = Some (string_value engineStr) ->
            ModelCheckerEngine_fromString engineStr
            = Some (engine (modelCheckerSettings o')))
      /\ (forall targetsStr,
            args !! g_argModelCheckerTargets = Some (string_value targetsStr) ->
            ModelCheckerTargets_fromString targetsStr
            = Some (targets (modelCheckerSettings o')))
      /\ (forall timeout_,
            args !! g_argModelCheckerTimeout = Some (unsigned_value timeout_) ->
            timeout (modelCheckerSettings o') = Some timeout_)).
Proof.
  intros Hrun. unfold parseCompilerSettings in Hrun.
  exec_in Hrun.
  all: injection Hrun as <-; cbn -[count nonzero countEnabledOptions].
  all: unfold selectedMetadataHash, modelCheckerRequested.
  all: flags_finish.
Qed.

Lemma parseCompilerSettings_invalid_hash args st st' :
  parseCompilerSettings args st = (Cont tt, st') ->
  forall hashStr,
    args !! g_argMetadataHash = Some (string_value hashStr) ->
    hashStr = g_strIPFS \/ hashStr = g_strSwarm \/ hashStr = g_strNone.
Proof.
  intros Hrun hashStr Hgiven. unfold parseCompilerSettings in Hrun.
  apply bind_cont_inv in Hrun as ([] & st1 & Hhash & _).
  assert (Hcount : nonzero (count args g_argMetadataHash) = true)
    by (rewrite (count_lookup _ _ _ Hgiven); reflexivity).
  rewrite Hcount in Hhash.
  unfold as_string in Hhash. rewrite Hgiven in Hhash.
  exec_in Hhash;
    match goal with
    | H : String.eqb _ _ = true |- _ => apply String.eqb_eq in H; auto
    end.
Qed.

(** The optimizer settings of the compiler branch, when it returns [true] *)
Lemma parseCompilerOptimizer_success args st st' :
  parseCompilerOptimizer args st = (Done (Returned true), st') ->
  let o := m_options st in
  let o' := m_options st' in
  optimize o' = nonzero (count args g_argOptimize)
  /\ noOptimizeYul o' = nonzero (count args g_strNoOptimizeYul)
  /\ errorRecovery o'
     = (if nonzero (count args g_argImportAst) then errorRecovery o
        else nonzero (count args g_argErrorRecovery))
  /\ compilerSettings o' = compilerSettings o.
Proof.
  intros Hrun. unfold parseCompilerOptimizer, parseYulOptimizations in Hrun.
  exec_in Hrun.
  all: injection Hrun as <-; cbn -[count nonzero countEnabledOptions].
  all: unfold compilerSettings.
  all: flags_finish.
Qed.

Lemma compiler_members_before args _argc interactiveTerminal :
  preserves (fun o => (metadataHash o, errorRecovery o))
    (parse_until_Assembler args _argc interactiveTerminal).
Proof. apply preserves_parse_until_Assembler; block. Qed.

(** X19: the settings of a successful compiler run.  When [parse] returns
    [true] without [--standard-json], [--link] and an assembler option,
    [--metadata-hash] was absent or one of [ipfs], [swarm] and [none], which
    select IPFS, Bzzr1 and no hash; the number of runs is the stored value
    of [--optimize-runs]; the flags [--metadata-literal],
    [--experimental-via-ir], [--optimize] and [--no-optimize-yul] are copied;
    [--error-recovery] is copied unless [--import-ast] is given, which leaves
    the member as it was. *)
Theorem compiler_settings args _argc interactiveTerminal st st' :
  count args g_argStandardJSON = 0 ->
  assemblerRequested args = false ->
  count args g_argLink = 0 ->
  parse (po_stored args) _argc interactiveTerminal st = (Returned true, st') ->
  let o := m_options st in
  let o' := m_options st' in
  metadataHash o' = selectedMetadataHash args (metadataHash o)
  /\ (forall hashStr,
        args !! g_argMetadataHash = Some (string_value hashStr) ->
        hashStr = g_strIPFS \/ hashStr = g_strSwarm \/ hashStr = g_strNone)
  /\ args !! g_argOptimizeRuns
     = Some (unsigned_value (expectedExecutionsPerDeployment o'))
  /\ metadataLiteral o' = nonzero (count args g_argMetadataLiteral)
  /\ experimentalViaIR o' = nonzero (count args g_argExperimentalViaIR)
  /\ optimize o' = nonzero (count args g_argOptimize)
  /\ noOptimizeYul o' = nonzero (count args g_strNoOptimizeYul)
  /\ errorRecovery o'
     = (if nonzero (count args g_argImportAst) then errorRecovery o
        else nonzero (count args g_argErrorRecovery)).
Proof.
  intros Hjson Hasm Hlink Hrun o o'.
  destruct (parse_success_compiler _ _ _ _ _ Hjson Hasm Hlink Hrun)
    as (st1 & st2 & st3 & Hreach & Hsame & Hsettings & Hoptimizer).
  apply (preserves_run _ _ _ _ _
           (compiler_members_before args _argc interactiveTerminal)) in Hreach.
  injection Hreach as Hhash Hrecovery.
  assert (Hrecovery3 : errorRecovery (m_options st3) = errorRecovery (m_options st2)).
  { match type of Hsettings with ?m _ = _ =>
      assert (Hpres : preserves errorRecovery m) by block
    end.
    exact (preserves_run _ _ _ _ _ Hpres Hsettings). }
  pose proof (parseCompilerSettings_invalid_hash _ _ _ Hsettings) as Hvalid.
  apply parseCompilerSettings_success in Hsettings
    as [(Hhash3 & Hliteral & Hvia & Hruns) _].
  apply parseCompilerOptimizer_success in Hoptimizer
    as (Hoptimize & Hno & Herror & Hkept).
  cbv zeta in *. unfold compilerSettings in Hkept.
  injection Hkept as Hk1 Hk2 _ _ Hk5 Hk6.
  subst o o'. rewrite Hk1, Hk2, Hk5, Hk6, Hoptimize, Hno, Herror.
  rewrite Hhash3, Hliteral, Hvia, Hrecovery3, Hsame, Hhash, Hrecovery.
  repeat split; try reflexivity; [exact Hvalid | congruence].
Qed.

(** X20: the model checker settings of a successful compiler run.  The
    model checker is initialised exactly when one of its four options is
    stored, and each stored value has been accepted by its parser: the
    settings hold what the parsers returned for the contracts, the engine
    and the targets, and the timeout as it was given. *)
Theorem compiler_model_checker args _argc interactiveTerminal st st' :
  count args g_argStandardJSON = 0 ->
  assemblerRequested args = false ->
  count args g_argLink = 0 ->
  parse (po_stored args) _argc interactiveTerminal st = (Returned true, st') ->
  let settings := modelCheckerSettings (m_options st') in
  initializeModelChecker (m_options st') = modelCheckerRequested args
  /\ (forall contractsStr,
        args !! g_argModelCheckerContracts = Some (string_value contractsStr) ->
        ModelCheckerContracts_fromString contractsStr = Some (contracts settings))
  /\ (forall engineStr,
        args !! g_argModelCheckerEngine = Some (string_value engineStr) ->
        ModelCheckerEngine_fromString engineStr = Some (engine settings))
  /\ (forall targetsStr,
        args !! g_argModelCheckerTargets = Some (string_value targetsStr) ->
        ModelCheckerTargets_fromString targetsStr = Some (targets settings))
  /\ (forall timeout_,
        args !! g_argModelCheckerTimeout = Some (unsigned_value timeout_) ->
        timeout settings = Some timeout_).
Proof.
  intros Hjson Hasm Hlink Hrun settings.
  destruct (parse_success_compiler _ _ _ _ _ Hjson Hasm Hlink Hrun)
    as (st1 & st2 & st3 & _ & _ & Hsettings & Hoptimizer).
  apply parseCompilerSettings_success in Hsettings as [_ Hchecker].
  apply parseCompilerOptimizer_success in Hoptimizer as (_ & _ & _ & Hkept).
  cbv zeta in *. unfold compilerSettings in Hkept.
  injection Hkept as _ _ Hk3 Hk4 _ _.
  subst settings. rewrite Hk3, Hk4. exact Hchecker.
Qed.

Lemma stored_args_default (given : list (string * variable_value)) name value :
  In (name, value)
    [ (g_strEVMVersion, string_value "berlin");
      (g_argOptimizeRuns, unsigned_value 200);
      (g_strModelCheckerContracts, string_value "default");
      (g_strModelCheckerEngine, string_value "none");
      (g_strModelCheckerTargets, string_value "default") ] ->
  count (stored_args given) name = 1.
Proof.
  intros Hin. unfold count, stored_args.
  match goal with |- context [?m !! name] => destruct (m !! name) eqn:Hlookup end;
    [reflexivity | exfalso].
  apply not_elem_of_list_to_map in Hlookup. apply Hlookup.
  rewrite fmap_app, elem_of_app. right.
  apply list_elem_of_In in Hin.
  exact (list_elem_of_fmap_2 fst _ _ Hin).
Qed.

(** X21: with the defaults that the option descriptions declare, the model
    checker is always initialised.  The tokenizer stores [--model-checker-engine],
    [--model-checker-contracts] and [--model-checker-targets] with their
    default values when they are not given, so every successful compiler run
    sets [initializeModelChecker]. *)
Theorem model_checker_initialised_by_default
    (given : list (string * variable_value)) _argc interactiveTerminal st st' :
  count (stored_args given) g_argStandardJSON = 0 ->
  assemblerRequested (stored_args given) = false ->
  count (stored_args given) g_argLink = 0 ->
  parse (stored given) _argc interactiveTerminal st = (Returned true, st') ->
  initializeModelChecker (m_options st') = true.
Proof.
  intros Hjson Hasm Hlink Hrun.
  destruct (parse_success_compiler _ _ _ _ _ Hjson Hasm Hlink Hrun)
    as (st1 & st2 & st3 & _ & _ & Hsettings & Hoptimizer).
  apply parseCompilerSettings_success in Hsettings as [_ [Hinit _]].
  apply parseCompilerOptimizer_success in Hoptimizer as (_ & _ & _ & Hkept).
  cbv zeta in *. unfold compilerSettings in Hkept.
  injection Hkept as _ _ _ Hk4 _ _.
  rewrite Hk4, Hinit. unfold modelCheckerRequested.
  rewrite (stored_args_default given g_argModelCheckerContracts
             (string_value "default")) by (simpl; auto).
  reflexivity.
Qed.

End CompilerSuccess.

(** ** The options that every mode shares *)

Section GeneralOptions.
Context {collaborators : Collaborators}.

(** A successful [parse] has run the blocks before the mode options to
    their end. *)
Lemma parse_success_blocks args _argc interactiveTerminal st st' :
  parse (po_stored args) _argc interactiveTerminal st = (Returned true, st') ->
  exists s1 s2 s3 s4 s5 s6 s7 s8,
    reset_hasOutput st = (Cont tt, s1)
    /\ parseExclusions args s1 = (Cont tt, s2)
    /\ parseOutputFormatting args s2 = (Cont tt, s3)
    /\ parseEarlyExits args _argc interactiveTerminal s3 = (Cont tt, s4)
    /\ parseRevertStrings args s4 = (Cont tt, s5)
    /\ parseCombinedJson args s5 = (Cont tt, s6)
    /\ parseOutputOptions args s6 = (Cont tt, s7)
    /\ parseStopAfter args s7 = (Cont tt, s8)
    /\ generalOptions (m_options st') = generalOptions (m_options s8).
Proof.
  intros Hrun. apply run_inv in Hrun. unfold parse_body in Hrun.
  apply bind_done_inv in Hrun as [Hrun | ([] & s1 & H1 & Hrun)];
    [exfalso; exact (no_success_run _ _ _ no_success_reset_hasOutput Hrun) |].
  apply bind_done_inv in Hrun as [Hrun | ([] & s2 & H2 & Hrun)];
    [exfalso; exact (no_success_run _ _ _ (no_success_parseExclusions args) Hrun) |].
  apply bind_done_inv in Hrun as [Hrun | ([] & s3 & H3 & Hrun)];
    [exfalso; exact (no_success_run _ _ _ (no_success_parseOutputFormatting args) Hrun) |].
  apply bind_done_inv in Hrun as [Hrun | ([] & s4 & H4 & Hrun)];
    [exfalso; exact (no_success_run _ _ _
       (no_success_parseEarlyExits args _argc interactiveTerminal) Hrun) |].
  apply bind_done_inv in Hrun as [Hrun | ([] & s5 & H5 & Hrun)];
    [exfalso; exact (no_success_run _ _ _ (no_success_parseRevertStrings args) Hrun) |].
  apply bind_done_inv in Hrun as [Hrun | ([] & s6 & H6 & Hrun)];
    [exfalso; exact (no_success_run _ _ _ (no_success_parseCombinedJson args) Hrun) |].
  apply bind_done_inv in Hrun as [Hrun | ([] & s7 & H7 & Hrun)];
    [exfalso; exact (no_success_run _ _ _ (no_success_parseOutputOptions args) Hrun) |].
  apply bind_done_inv in Hrun as [Hrun | ([] & s8 & H8 & Hrun)];
    [exfalso; exact (no_success_run _ _ _ (no_success_parseStopAfter args) Hrun) |].
  exists s1, s2, s3, s4, s5, s6, s7, s8. repeat (split; [assumption |]).
  match type of Hrun with ?m _ = _ =>
    assert (Hpres : preserves generalOptions m)
  end.
  { repeat (apply preserves_bind; [solve [block] | intros _]). block. }
  exact (preserves_run _ _ _ _ _ Hpres Hrun).
Qed.

Lemma parseExclusions_passed args st st' :
  parseExclusions args st = (Cont tt, st') ->
  st' = st
  /\ (count args g_argColor = 0 \/ count args g_argNoColor = 0)
  /\ (0 < count args g_strStopAfter ->
      forall option, In option conflictingWithStopAfter -> count args option = 0).
Proof.
  intros Hrun. unfold parseExclusions in Hrun.
  apply bind_cont_inv in Hrun as (ok & st1 & Hcolor & Hrun).
  unfold checkMutuallyExclusive in Hcolor.
  destruct (nonzero (count args g_argColor) && nonzero (count args g_argNoColor))
    eqn:Hboth; injection Hcolor as <- <-; [discriminate Hrun |].
  cbn [negb when] in Hrun. unfold mbind at 1, M_bind in Hrun. cbn [mret M_ret] in Hrun.
  assert (Hcolors : count args g_argColor = 0 \/ count args g_argNoColor = 0).
  { unfold nonzero in Hboth.
    destruct (count args g_argColor); [now left |].
    destruct (count args g_argNoColor); [now right | discriminate Hboth]. }
  destruct (nonzero (count args g_strStopAfter)) eqn:Hstop.
  - pose proof (check_conflictingWithStopAfter args conflictingWithStopAfter st Hstop)
      as Hloop.
    match type of Hloop with ?l = _ =>
      assert (Hrun' : l = (Cont tt, st')) by exact Hrun
    end.
    clear Hrun. rename Hrun' into Hrun. rewrite Hloop in Hrun. clear Hloop.
    destruct (List.find _ conflictingWithStopAfter) eqn:Hfind; [discriminate Hrun |].
    injection Hrun as <-. repeat split; [exact Hcolors |].
    intros _ option Hin. pose proof (find_none _ _ Hfind option Hin) as Hnone.
    cbv beta in Hnone. unfold nonzero in Hnone.
    destruct (count args option); [reflexivity | discriminate Hnone].
  - assert (Hloop : forall options_ s,
      for_each options_ (fun option =>
        ok ← checkMutuallyExclusive args g_strStopAfter option;
        when (negb ok) (return_ false)) s = (Cont tt, s)).
    { induction options_ as [| option options_ IH]; intros s; [reflexivity |].
      cbn [for_each]. erewrite bind_cont; [apply IH |].
      erewrite bind_cont.
      2:{ unfold checkMutuallyExclusive. rewrite Hstop. reflexivity. }
      reflexivity. }
    pose proof (Hloop conflictingWithStopAfter st) as Hloop'.
    match type of Hloop' with ?l = _ =>
      assert (Hrun' : l = (Cont tt, st')) by exact Hrun
    end.
    rewrite Hloop' in Hrun'. injection Hrun' as <-.
    repeat split; [exact Hcolors |].
    intros Hgiven. apply nonzero_pos in Hgiven. congruence.
Qed.

Lemma parseOutputFormatting_success args st st' :
  parseOutputFormatting args st = (Cont tt, st') ->
  coloredOutput (m_options st') = selectedColor args
  /\ withErrorIds (m_options st') = nonzero (count args g_argErrorIds)
  /\ (selectedColor args = None -> coloredOutput (m_options st) = None).
Proof.
  intros Hrun. unfold parseOutputFormatting in Hrun.
  exec_in Hrun.
  all: injection Hrun as <-; cbn -[count nonzero countEnabledOptions].
  all: unfold selectedColor.
  all: flags_finish.
  match goal with H : ~ is_Some (coloredOutput ?o) |- _ =>
    assert (Hnone : coloredOutput o = None)
      by (destruct (coloredOutput o); [exfalso; apply H; eauto | reflexivity])
  end.
  repeat split; auto.
Qed.

Lemma parseRevertStrings_success args st st' :
  parseRevertStrings args st = (Cont tt, st') ->
  (forall revertStringsString,
     args !! g_strRevertStrings = Some (string_value revertStringsString) ->
     revertStringsFromString revertStringsString
     = Some (revertStrings (m_options st'))
     /\ revertStrings (m_options st') <> RevertStrings.VerboseDebug)
  /\ (args !! g_strRevertStrings = None ->
      revertStrings (m_options st') = revertStrings (m_options st)).
Proof.
  intros Hrun. unfold parseRevertStrings in Hrun.
  exec_in Hrun.
  all: injection Hrun as <-; cbn -[count nonzero countEnabledOptions].
  all: flags_finish.
Qed.

Lemma parseOutputOptions_success args st st' :
  parseOutputOptions args st = (Cont tt, st') ->
  let o := m_options st in
  let o' := m_options st' in
  selectedOutputs o' = requestedOutputs args
  /\ estimateGas o' = nonzero (count args g_argGas)
  /\ overwriteFiles o' = nonzero (count args g_strOverwrite)
  /\ prettyJson o' = nonzero (count args g_argPrettyJson)
  /\ outputDir o' = storedString args g_argOutputDir (outputDir o)
  /\ basePath o' = storedString args g_argBasePath (basePath o).
Proof.
  intros Hrun. cbv zeta. unfold parseOutputOptions in Hrun.
  exec_in Hrun.
  all: first
    [ injection Hrun as <-
    | match type of Hrun with ?m _ = _ =>
        let Hpres := fresh "Hpres" in
        assert (Hpres : preserves
          (fun o => (selectedOutputs o, estimateGas o, overwriteFiles o,
                     prettyJson o, outputDir o, basePath o)) m)
          by (apply preserves_for_each; intros ? ?; reflexivity);
        apply (preserves_run _ _ _ _ _ Hpres) in Hrun;
        cbn -[count nonzero countEnabledOptions] in Hrun;
        injection Hrun as -> -> -> -> -> ->
      end ].
  all: cbn -[count nonzero countEnabledOptions].
  all: unfold storedString, requestedOutputs.
  all: flags_finish.
Qed.

Lemma parseStopAfter_success args st st' :
  parseStopAfter args st = (Cont tt, st') ->
  stopAfter (m_options st')
  = (if nonzero (count args g_strStopAfter) then Some CompilerStack.Parsed
     else stopAfter (m_options st))
  /\ (0 < count args g_strStopAfter ->
      args !! g_strStopAfter = Some (string_value "parsing")).
Proof.
  intros Hrun. unfold parseStopAfter in Hrun.
  exec_in Hrun.
  all: injection Hrun as <-; cbn -[count nonzero countEnabledOptions].
  all: flags_finish.
  all: split; [reflexivity | intros Hgiven].
  - match goal with H : String.eqb _ _ = true |- _ => apply String.eqb_eq in H end.
    congruence.
  - unfold count in Hgiven.
    match goal with H : _ !! _ = None |- _ => rewrite H in Hgiven end. lia.
Qed.

(** What a block that fell through has left alone *)
Ltac frame H f :=
  let Hf := fresh "Hframe" in
  match type of H with
  | ?m ?st = (?r, ?st') =>
      assert (Hf : f (m_options st') = f (m_options st))
        by (apply (preserves_run f m st r st'); [block | exact H]);
      cbv beta in Hf
  end.

(** The members that a successful [parse] has assigned before it looks at
    the mode options, and what it has checked on the way *)
Lemma parse_success_general args _argc interactiveTerminal st st' :
  parse (po_stored args) _argc interactiveTerminal st = (Returned true, st') ->
  let o := m_options st in
  let o' := m_options st' in
  (selectedOutputs o' = requestedOutputs args
   /\ estimateGas o' = nonzero (count args g_argGas)
   /\ overwriteFiles o' = nonzero (count args g_strOverwrite)
   /\ prettyJson o' = nonzero (count args g_argPrettyJson)
   /\ outputDir o' = storedString args g_argOutputDir (outputDir o)
   /\ basePath o' = storedString args g_argBasePath (basePath o))
  /\ (stopAfter o'
      = (if nonzero (count args g_strStopAfter) then Some CompilerStack.Parsed
         else stopAfter o)
      /\ (0 < count args g_strStopAfter ->
          args !! g_strStopAfter = Some (string_value "parsing")
          /\ forall option,
               In option conflictingWithStopAfter -> count args option = 0))
  /\ ((count args g_argColor = 0 \/ count args g_argNoColor = 0)
      /\ coloredOutput o' = selectedColor args
      /\ (selectedColor args = None -> coloredOutput o = None)
      /\ withErrorIds o' = nonzero (count args g_argErrorIds))
  /\ ((forall revertStringsString,
         args !! g_strRevertStrings = Some (string_value revertStringsString) ->
         revertStringsFromString revertStringsString = Some (revertStrings o')
         /\ revertStrings o' <> RevertStrings.VerboseDebug)
      /\ (args !! g_strRevertStrings = None -> revertStrings o' = revertStrings o)).
Proof.
  intros Hrun o o'. subst o o'.
  destruct (parse_success_blocks _ _ _ _ _ Hrun)
    as (s1 & s2 & s3 & s4 & s5 & s6 & s7 & s8
        & H1 & H2 & H3 & H4 & H5 & H6 & H7 & H8 & Hrest).
  unfold generalOptions in Hrest.
  injection Hrest
    as Hcolor Hids Hrevert Hdir Hoverwrite Hpretty Houtputs Hgas Hbase Hstop.
  rewrite Hcolor, Hids, Hrevert, Hdir, Hoverwrite, Hpretty, Houtputs, Hgas, Hbase,
    Hstop.
  clear Hcolor Hids Hrevert Hdir Hoverwrite Hpretty Houtputs Hgas Hbase Hstop.
  split; [| split; [| split]].
  - frame H8 (fun o => (selectedOutputs o, estimateGas o, overwriteFiles o,
                        prettyJson o, outputDir o, basePath o)).
    injection Hframe as F1 F2 F3 F4 F5 F6.
    apply parseOutputOptions_success in H7 as (O1 & O2 & O3 & O4 & O5 & O6).
    frame H6 (fun o => (outputDir o, basePath o)).
    frame H5 (fun o => (outputDir o, basePath o)).
    frame H4 (fun o => (outputDir o, basePath o)).
    frame H3 (fun o => (outputDir o, basePath o)).
    frame H2 (fun o => (outputDir o, basePath o)).
    frame H1 (fun o => (outputDir o, basePath o)).
    assert (Hbefore : (outputDir (m_options s6), basePath (m_options s6))
                      = (outputDir (m_options st), basePath (m_options st)))
      by congruence.
    injection Hbefore as B1 B2.
    rewrite F1, F2, F3, F4, F5, F6, O1, O2, O3, O4, O5, O6, B1, B2.
    repeat split.
  - apply parseExclusions_passed in H2 as (-> & _ & Hconflicts).
    apply parseStopAfter_success in H8 as (Hstop & Hvalue).
    frame H7 stopAfter. frame H6 stopAfter. frame H5 stopAfter.
    frame H4 stopAfter. frame H3 stopAfter. frame H1 stopAfter.
    split.
    + rewrite Hstop. destruct (nonzero (count args g_strStopAfter)); [reflexivity |].
      congruence.
    + intros Hgiven. split; [exact (Hvalue Hgiven) | exact (Hconflicts Hgiven)].
  - frame H8 (fun o => (coloredOutput o, withErrorIds o)).
    frame H7 (fun o => (coloredOutput o, withErrorIds o)).
    frame H6 (fun o => (coloredOutput o, withErrorIds o)).
    frame H5 (fun o => (coloredOutput o, withErrorIds o)).
    frame H4 (fun o => (coloredOutput o, withErrorIds o)).
    assert (Hafter : (coloredOutput (m_options s8), withErrorIds (m_options s8))
                     = (coloredOutput (m_options s3), withErrorIds (m_options s3)))
      by congruence.
    injection Hafter as A1 A2.
    apply parseOutputFormatting_success in H3 as (Hcolor & Hids & Hnone).
    apply parseExclusions_passed in H2 as (-> & Hexclusive & _).
    assert (Hbefore : coloredOutput (m_options s1) = coloredOutput (m_options st))
      by (apply (preserves_run coloredOutput reset_hasOutput st (Cont tt) s1);
          [block | exact H1]).
    rewrite A1, A2, Hcolor, Hids.
    repeat split; [exact Hexclusive |].
    intros Hneither.
    etransitivity; [symmetry; exact Hbefore | exact (Hnone Hneither)].
  - frame H8 revertStrings. frame H7 revertStrings. frame H6 revertStrings.
    apply parseRevertStrings_success in H5 as (Hgiven & Habsent).
    frame H4 revertStrings. frame H3 revertStrings. frame H2 revertStrings.
    frame H1 revertStrings.
    assert (Hafter : revertStrings (m_options s8) = revertStrings (m_options s5))
      by congruence.
    assert (Hbefore : revertStrings (m_options s4) = revertStrings (m_options st))
      by congruence.
    rewrite Hafter. split.
    + exact Hgiven.
    + intros Hnone. rewrite (Habsent Hnone). exact Hbefore.
Qed.

(** X22: the output options of a successful [parse].  Whatever the input
    mode, the selected output components are the output flags that are
    given, one by one; [--gas], [--overwrite] and [--pretty-json] are copied;
    the output directory and the base path are the stored strings of
    [--output-dir] and [--base-path], and are left as they were without
    them. *)
Theorem parse_success_output_options args _argc interactiveTerminal st st' :
  parse (po_stored args) _argc interactiveTerminal st = (Returned true, st') ->
  let o := m_options st in
  let o' := m_options st' in
  selectedOutputs o' = requestedOutputs args
  /\ estimateGas o' = nonzero (count args g_argGas)
  /\ overwriteFiles o' = nonzero (count args g_strOverwrite)
  /\ prettyJson o' = nonzero (count args g_argPrettyJson)
  /\ outputDir o' = storedString args g_argOutputDir (outputDir o)
  /\ basePath o' = storedString args g_argBasePath (basePath o).
Proof.
  intros Hrun. exact (proj1 (parse_success_general _ _ _ _ _ Hrun)).
Qed.

(** X23: [--stop-after] in a successful [parse].  The value of the option
    was [parsing] and the resolved options stop after parsing; none of
    [--bin], [--ir], [--ir-optimized], [--ewasm], [--gas], [--asm],
    [--asm-json] and [--opcodes] was given, so none of these outputs is
    selected.  Without the option the member is left as it was. *)
Theorem parse_success_stop_after args _argc interactiveTerminal st st' :
  parse (po_stored args) _argc interactiveTerminal st = (Returned true, st') ->
  let o := m_options st in
  let o' := m_options st' in
  (count args g_strStopAfter = 0 -> stopAfter o' = stopAfter o)
  /\ (0 < count args g_strStopAfter ->
      args !! g_strStopAfter = Some (string_value "parsing")
      /\ stopAfter o' = Some CompilerStack.Parsed
      /\ (forall option,
            In option conflictingWithStopAfter -> count args option = 0)
      /\ estimateGas o' = false
      /\ OutputSelection.binary (selectedOutputs o') = false
      /\ OutputSelection.ir (selectedOutputs o') = false
      /\ OutputSelection.irOptimized (selectedOutputs o') = false
      /\ OutputSelection.ewasm (selectedOutputs o') = false
      /\ OutputSelection.asm_ (selectedOutputs o') = false
      /\ OutputSelection.asmJson (selectedOutputs o') = false
      /\ OutputSelection.opcodes (selectedOutputs o') = false).
Proof.
  intros Hrun o o'. subst o o'.
  destruct (parse_success_general _ _ _ _ _ Hrun)
    as ((Houtputs & Hgas & _) & (Hstop & Hgiven) & _).
  cbv zeta in *. split.
  - intros Habsent. rewrite Hstop, (nonzero_zero _ Habsent). reflexivity.
  - intros Hpresent. destruct (Hgiven Hpresent) as [Hvalue Hconflicts].
    rewrite Hstop, (nonzero_pos _ Hpresent), Hgas, Houtputs.
    unfold requestedOutputs. cbn [OutputSelection.binary OutputSelection.ir
      OutputSelection.irOptimized OutputSelection.ewasm OutputSelection.asm_
      OutputSelection.asmJson OutputSelection.opcodes].
    assert (Hoff : forall option,
      In option conflictingWithStopAfter -> nonzero (count args option) = false).
    { intros option Hin. apply nonzero_zero, Hconflicts, Hin. }
    repeat split; try assumption; apply Hoff; unfold conflictingWithStopAfter;
      simpl; auto 10.
Qed.

(** X24: the colour, the error codes and the revert strings of a successful
    [parse].  [--color] and [--no-color] were not given together; the colour
    choice is [true] with [--color], [false] with [--no-color] and absent
    without both, and then it was absent in the parser before; the value of
    [--revert-strings] was accepted by [revertStringsFromString], it is the
    resolved member, and it is not the verbose debug mode. *)
Theorem parse_success_formatting args _argc interactiveTerminal st st' :
  parse (po_stored args) _argc interactiveTerminal st = (Returned true, st') ->
  let o := m_options st in
  let o' := m_options st' in
  (count args g_argColor = 0 \/ count args g_argNoColor = 0)
  /\ coloredOutput o' = selectedColor args
  /\ (selectedColor args = None -> coloredOutput o = None)
  /\ withErrorIds o' = nonzero (count args g_argErrorIds)
  /\ (forall revertStringsString,
        args !! g_strRevertStrings = Some (string_value revertStringsString) ->
        revertStringsFromString revertStringsString = Some (revertStrings o')
        /\ revertStrings o' <> RevertStrings.VerboseDebug)
  /\ (args !! g_strRevertStrings = None -> revertStrings o' = revertStrings o).
Proof.
  intros Hrun o o'. subst o o'.
  destruct (parse_success_general _ _ _ _ _ Hrun)
    as (_ & _ & (H1 & H2 & H3 & H4) & (H5 & H6)).
  split; [exact H1 |]. split; [exact H2 |]. split; [exact H3 |].
  split; [exact H4 |]. split; [exact H5 | exact H6].
Qed.

End GeneralOptions.

Section EVMVersionTheorems.
Context {collaborators : Collaborators}.

Lemma parseEVMVersion_success args st st' :
  parseEVMVersion args st = (Cont tt, st') ->
  (forall versionOptionStr,
     args !! g_strEVMVersion = Some (string_value versionOptionStr) ->
     EVMVersion_fromString versionOptionStr = Some (evmVersion (m_options st')))
  /\ (args !! g_strEVMVersion = None ->
      evmVersion (m_options st') = evmVersion (m_options st)).
Proof.
  intros Hrun. unfold parseEVMVersion in Hrun.
  exec_in Hrun.
  all: injection Hrun as <-; cbn -[count nonzero countEnabledOptions].
  all: flags_finish.
Qed.

Lemma evmVersion_before args _argc interactiveTerminal :
  preserves evmVersion (parse_until_Libraries args _argc interactiveTerminal;;
                        parseLibraries args).
Proof.
  unfold parse_until_Libraries, parse_until_Inputs, parse_until_ExclusiveModes,
    parse_until_CombinedJson, parse_until_EarlyExits.
  repeat first [ apply preserves_bind; [| intros _] | solve [block] ].
Qed.

Lemma evmVersion_after args :
  preserves evmVersion
    (parseAssembler args;; parseLinker args;; parseCompilerSettings args;;
     parseCompilerOptimizer args).
Proof. block. Qed.

(** X25: the EVM version of a successful [parse].  Without
    [--standard-json], the stored value of [--evm-version] was accepted by
    [EVMVersion::fromString] and the resolved version is what it returned,
    in every input mode; when nothing is stored for the option the version
    is left as it was. *)
Theorem parse_success_evm_version args _argc interactiveTerminal st st' :
  count args g_argStandardJSON = 0 ->
  parse (po_stored args) _argc interactiveTerminal st = (Returned true, st') ->
  (forall versionOptionStr,
     args !! g_strEVMVersion = Some (string_value versionOptionStr) ->
     EVMVersion_fromString versionOptionStr = Some (evmVersion (m_options st')))
  /\ (args !! g_strEVMVersion = None ->
      evmVersion (m_options st') = evmVersion (m_options st)).
Proof.
  intros Hjson Hrun.
  destruct (parse_success_reaches_Assembler _ _ _ _ _ (nonzero_zero _ Hjson) Hrun)
    as (st1 & Hreach & Hrest).
  apply (preserves_run _ _ _ _ _ (evmVersion_after args)) in Hrest.
  unfold parse_until_Assembler in Hreach.
  assert (Hsplit : exists st0,
    (parse_until_Libraries args _argc interactiveTerminal;; parseLibraries args) st
    = (Cont tt, st0) /\ parseEVMVersion args st0 = (Cont tt, st1)).
  { apply bind_cont_inv in Hreach as ([] & sa & Ha & Hreach).
    apply bind_cont_inv in Hreach as ([] & sb & Hb & Hreach).
    exists sb. split; [| exact Hreach].
    rewrite (bind_cont _ _ _ _ _ Ha). exact Hb. }
  destruct Hsplit as (st0 & Hbefore & Hversion).
  apply (preserves_run _ _ _ _ _ (evmVersion_before args _argc interactiveTerminal))
    in Hbefore.
  apply parseEVMVersion_success in Hversion as [Hgiven Habsent].
  split.
  - intros versionOptionStr Hstored. rewrite (Hgiven _ Hstored). congruence.
  - intros Hnone. specialize (Habsent Hnone). congruence.
Qed.

End EVMVersionTheorems.

(** ** The combined-json decoder on sets of names *)

(** ** The order of strings *)

Lemma ascii_compare_refl c : Ascii.compare c c = Eq.
Proof. unfold Ascii.compare. apply N.compare_refl. Qed.

Lemma ascii_compare_lt_trans a b c :
  Ascii.compare a b = Lt -> Ascii.compare b c = Lt -> Ascii.compare a c = Lt.
Proof.
  unfold Ascii.compare. rewrite !N.compare_lt_iff. apply N.lt_trans.
Qed.

Lemma string_compare_refl s : String.compare s s = Eq.
Proof.
  induction s as [| c s IH]; [reflexivity |].
  simpl. now rewrite ascii_compare_refl.
Qed.

Lemma string_compare_lt_trans a :
  forall b c, String.compare a b = Lt -> String.compare b c = Lt ->
              String.compare a c = Lt.
Proof.
  induction a as [| x a IH]; intros [| y b] [| z c]; simpl; try discriminate;
    try reflexivity.
  destruct (Ascii.compare x y) eqn:Hxy; try discriminate.
  - apply Ascii.compare_eq_iff in Hxy. subst y.
    destruct (Ascii.compare x z); try discriminate; [apply IH | reflexivity].
  - intros _. destruct (Ascii.compare y z) eqn:Hyz; try discriminate.
    + apply Ascii.compare_eq_iff in Hyz. subst z. now rewrite Hxy.
    + intros _. now rewrite (ascii_compare_lt_trans _ _ _ Hxy Hyz).
Qed.

Lemma ltb_trans a b c :
  String.ltb a b = true -> String.ltb b c = true -> String.ltb a c = true.
Proof.
  unfold String.ltb. intros Hab Hbc.
  destruct (String.compare a b) eqn:Eab; try discriminate.
  destruct (String.compare b c) eqn:Ebc; try discriminate.
  now rewrite (string_compare_lt_trans _ _ _ Eab Ebc).
Qed.

Lemma ltb_irrefl a : String.ltb a a = false.
Proof. unfold String.ltb. now rewrite string_compare_refl. Qed.

Lemma ltb_total a b :
  String.eqb a b = false -> String.ltb a b = false -> String.ltb b a = true.
Proof.
  unfold String.ltb. intros Hne Hnlt. rewrite String.compare_antisym.
  destruct (String.compare a b) eqn:Eab; try discriminate; [| reflexivity].
  apply String.compare_eq_iff in Eab. subst b.
  rewrite String.eqb_refl in Hne. discriminate.
Qed.

(** ** [std::set<std::string>] as an ascending list *)

Lemma set_insert_ascending x l : ascending l -> ascending (set_insert x l).
Proof.
  unfold ascending. induction l as [| y l IH]; intros Hl; simpl.
  - constructor; constructor.
  - destruct (String.eqb x y) eqn:Exy; [exact Hl |].
    destruct (String.ltb x y) eqn:Lxy.
    + constructor; [exact Hl |].
      constructor; [exact Lxy |].
      apply StronglySorted_inv in Hl as [_ Hall].
      apply List.Forall_forall. intros z Hz.
      exact (ltb_trans _ _ _ Lxy (proj1 (List.Forall_forall _ _) Hall z Hz)).
    + pose proof (StronglySorted_inv Hl) as [Hl' Hall].
      constructor; [exact (IH Hl') |].
      apply List.Forall_forall. intros z Hz.
      apply set_insert_In in Hz as [-> | Hz].
      * exact (ltb_total _ _ Exy Lxy).
      * exact (proj1 (List.Forall_forall _ _) Hall z Hz).
Qed.

Lemma set_of_list_ascending l : ascending (set_of_list l).
Proof.
  unfold set_of_list.
  assert (Hgen : forall acc,
    ascending acc -> ascending (fold_left (fun acc x => set_insert x acc) l acc)).
  { induction l as [| x l IH]; intros acc Hacc; simpl; [exact Hacc |].
    apply IH, set_insert_ascending, Hacc. }
  apply Hgen. constructor.
Qed.

(** Two ascending lists with the same elements are the same list. *)
Lemma ascending_ext l :
  forall l', ascending l -> ascending l' ->
             (forall x, In x l <-> In x l') -> l = l'.
Proof.
  unfold ascending.
  induction l as [| x l IH]; intros [| y l'] Hl Hl' Hsame.
  - reflexivity.
  - exfalso. apply (proj2 (Hsame y)). now left.
  - exfalso. apply (proj1 (Hsame x)). now left.
  - apply StronglySorted_inv in Hl as [Hl Hx].
    apply StronglySorted_inv in Hl' as [Hl' Hy].
    rewrite List.Forall_forall in Hx, Hy.
    assert (Hxy : x = y).
    { destruct (proj1 (Hsame x) (or_introl eq_refl)) as [Heq | Hin]; [now symmetry |].
      destruct (proj2 (Hsame y) (or_introl eq_refl)) as [Heq | Hin']; [exact Heq |].
      pose proof (ltb_trans _ _ _ (Hy _ Hin) (Hx _ Hin')) as Hyy.
      rewrite ltb_irrefl in Hyy. discriminate. }
    subst y. f_equal. apply IH; try assumption.
    intros z. split; intros Hz.
    + destruct (proj1 (Hsame z) (or_intror Hz)) as [Heq | Hin]; [| exact Hin].
      subst z. pose proof (Hx _ Hz) as Hxx. rewrite ltb_irrefl in Hxx. discriminate.
    + destruct (proj2 (Hsame z) (or_intror Hz)) as [Heq | Hin]; [| exact Hin].
      subst z. pose proof (Hy _ Hz) as Hxx. rewrite ltb_irrefl in Hxx. discriminate.
Qed.

Lemma set_of_list_ext l l' :
  (forall x, In x l <-> In x l') -> set_of_list l = set_of_list l'.
Proof.
  intros Hsame. apply ascending_ext; try apply set_of_list_ascending.
  intros x. rewrite !set_of_list_In. apply Hsame.
Qed.

(** The first element of an ascending list with a property is the least
    one. *)
Lemma find_ascending_least (p : string -> bool) l x :
  ascending l -> List.find p l = Some x ->
  forall y, In y l -> p y = true -> x = y \/ String.ltb x y = true.
Proof.
  unfold ascending. induction l as [| z l IH]; intros Hl Hfind y Hin Hp;
    [destruct Hin |].
  apply StronglySorted_inv in Hl as [Hl Hz].
  rewrite List.Forall_forall in Hz. simpl in Hfind.
  destruct (p z) eqn:Hpz.
  - injection Hfind as <-. destruct Hin as [-> | Hin]; [now left |].
    right. exact (Hz _ Hin).
  - destruct Hin as [-> | Hin]; [congruence |].
    exact (IH Hl Hfind y Hin Hp).
Qed.

Lemma isRequested_set (items : list string) name :
  nonzero (set_count name (set_of_list items)) = isRequested items name.
Proof.
  unfold isRequested.
  destruct (existsb (String.eqb name) items) eqn:Hin.
  - apply set_count_In. apply (proj2 (set_of_list_In _ _)).
    apply existsb_exists in Hin as (y & Hy & Exy).
    apply String.eqb_eq in Exy. now subst y.
  - apply set_count_not_In. intros Hin'.
    apply (proj1 (set_of_list_In _ _)) in Hin'.
    assert (existsb (String.eqb name) items = true) as E'.
    { apply existsb_exists. exists name. split; [exact Hin' | apply String.eqb_refl]. }
    congruence.
Qed.

Section CombinedJsonDecoder.
Context {collaborators : Collaborators}.

Lemma requested_flags (items : list string) :
  CombinedJsonRequests.flags (requested (set_of_list items))
  = map (isRequested items) combinedJsonRequestNames.
Proof.
  unfold requested, CombinedJsonRequests.flags, combinedJsonRequestNames.
  cbn [map CombinedJsonRequests.abi CombinedJsonRequests.metadata
       CombinedJsonRequests.binary CombinedJsonRequests.binaryRuntime
       CombinedJsonRequests.opcodes CombinedJsonRequests.asm_
       CombinedJsonRequests.storageLayout CombinedJsonRequests.generatedSources
       CombinedJsonRequests.generatedSourcesRuntime CombinedJsonRequests.srcMap
       CombinedJsonRequests.srcMapRuntime CombinedJsonRequests.funDebug
       CombinedJsonRequests.funDebugRuntime CombinedJsonRequests.signatureHashes
       CombinedJsonRequests.natspecDev CombinedJsonRequests.natspecUser
       CombinedJsonRequests.ast].
  rewrite !isRequested_set. reflexivity.
Qed.

(** A whole run of the decoder with a value for the option *)
Lemma run_parseCombinedJsonOption args value st :
  args !! g_argCombinedJson = Some (string_value value) ->
  run (parseCombinedJsonOption args) st
  = let requests := set_of_list (split is_comma value) in
    match List.find unknown requests with
    | Some item =>
        (Returned false,
         wrote_serr ("Invalid option to --combined-json: " +:+ item +:+ endl) st)
    | None =>
        (Returned true,
         assigned (set_combinedJsonRequests (Some (requested requests))) st)
    end.
Proof.
  intros Hgiven.
  pose proof (parseCombinedJsonOption_given args value st Hgiven) as Hcall.
  cbv zeta in *. unfold call in Hcall. unfold run.
  destruct (parseCombinedJsonOption args st) as [[[] | [b | status | what]] st1];
    destruct (List.find unknown _); try discriminate Hcall;
    injection Hcall as <- <-; reflexivity.
Qed.

(** X26: what the combined-json decoder accepts and stores.  When
    [parseCombinedJsonOption] returns [true] for a value of the option,
    every item of the value is in the vocabulary, and each of the 17 flags
    tells whether the name of the flag is among the items. *)
Theorem combined_json_decoded args value st st' :
  args !! g_argCombinedJson = Some (string_value value) ->
  run (parseCombinedJsonOption args) st = (Returned true, st') ->
  let items := split is_comma value in
  (forall item, In item items -> In item g_combinedJsonArgs)
  /\ exists requests,
       combinedJsonRequests (m_options st') = Some requests
       /\ CombinedJsonRequests.flags requests
          = map (isRequested items) combinedJsonRequestNames.
Proof.
  intros Hgiven Hrun items.
  rewrite (run_parseCombinedJsonOption _ _ _ Hgiven) in Hrun. cbv zeta in Hrun.
  destruct (List.find unknown _) eqn:Hfind; [discriminate Hrun |].
  injection Hrun as <-. split.
  - intros item Hin.
    pose proof (find_none _ _ Hfind item (proj2 (set_of_list_In _ _) Hin)) as Hknown.
    unfold unknown in Hknown. apply negb_false_iff in Hknown.
    apply set_count_In in Hknown. exact Hknown.
  - eexists. split; [reflexivity |]. apply requested_flags.
Qed.

(** X27: the combined-json decoder works on the set of the items.  Two
    values with the same items, in any order and with any repetitions, give
    the same outcome and the same parser; and when a value is rejected, the
    diagnostic names the least unknown item in the order of the strings,
    wherever it stands in the value. *)
Theorem combined_json_set_of_items args args' value value' st :
  args !! g_argCombinedJson = Some (string_value value) ->
  args' !! g_argCombinedJson = Some (string_value value') ->
  (forall item, In item (split is_comma value) <-> In item (split is_comma value')) ->
  run (parseCombinedJsonOption args) st = run (parseCombinedJsonOption args') st
  /\ forall st',
       run (parseCombinedJsonOption args) st = (Returned false, st') ->
       exists least,
         In least (split is_comma value) /\ unknown least = true
         /\ st' = wrote_serr ("Invalid option to --combined-json: " +:+ least +:+ endl) st
         /\ forall item,
              In item (split is_comma value) -> unknown item = true ->
              least = item \/ String.ltb least item = true.
Proof.
  intros Hgiven Hgiven' Hsame.
  rewrite (run_parseCombinedJsonOption _ _ _ Hgiven),
    (run_parseCombinedJsonOption _ _ _ Hgiven'). cbv zeta.
  rewrite (set_of_list_ext _ _ Hsame). split; [reflexivity |].
  intros st' Hrun.
  destruct (List.find unknown _) as [least |] eqn:Hfind; [| discriminate Hrun].
  injection Hrun as <-. exists least.
  pose proof (find_some _ _ Hfind) as [Hin Hunknown].
  apply (proj1 (set_of_list_In _ _)) in Hin. apply (proj2 (Hsame _)) in Hin.
  repeat split; try assumption.
  intros item Hitem Hu.
  apply (find_ascending_least unknown _ _ (set_of_list_ascending _) Hfind).
  - apply (proj2 (set_of_list_In _ _)), (proj1 (Hsame _)), Hitem.
  - exact Hu.
Qed.

End CombinedJsonDecoder.

(** ** The comparison operators of the flag records *)

Ltac members_equal :=
  repeat match goal with
  | H : andb _ _ = true |- _ =>
      let H1 := fresh "Hmember" in
      apply andb_prop in H as [H H1]; apply Bool.eqb_prop in H1
  | H : Bool.eqb _ _ = true |- _ => apply Bool.eqb_prop in H
  end.

(** X28: the comparison operators of the two flag records compare every
    member.  [OutputSelection::operator==] and
    [CombinedJsonRequests::operator==] return [true] exactly for two records
    whose 15, respectively 17, flags are the same. *)
Theorem flag_records_operator_eq :
  (forall this _other : OutputSelection.t,
     OutputSelection_operator_eq this _other = true <-> this = _other)
  /\ (forall this _other : CombinedJsonRequests.t,
        CombinedJsonRequests_operator_eq this _other = true <-> this = _other).
Proof.
  split; intros this _other; split.
  - unfold OutputSelection_operator_eq. intros Heq. members_equal.
    destruct this, _other. simpl in *. subst. reflexivity.
  - intros <-. unfold OutputSelection_operator_eq.
    rewrite !Bool.eqb_reflx. reflexivity.
  - unfold CombinedJsonRequests_operator_eq. intros Heq. members_equal.
    destruct this, _other. simpl in *. subst. reflexivity.
  - intros <-. unfold CombinedJsonRequests_operator_eq.
    rewrite !Bool.eqb_reflx. reflexivity.
Qed.

(** ** The exceptions of [parse] *)

Section Exceptions.
Context {collaborators : Collaborators}.

Lemma keeps_as_string_declared I E args name :
  stored_as_declared args -> In name declaredStrings ->
  nonzero (count args name) = true ->
  keeps I E (as_string args name).
Proof.
  intros (Hstrings & _) Hin Hgiven st HI. unfold as_string.
  unfold nonzero, count in Hgiven.
  destruct (args !! name) as [value |] eqn:Hlookup; [| discriminate Hgiven].
  destruct (Hstrings _ _ Hin Hlookup) as [s ->]. exact HI.
Qed.

Lemma keeps_as_strings_declared I E args name :
  stored_as_declared args -> In name [ g_argInputFile; g_argLibraries ] ->
  nonzero (count args name) = true ->
  keeps I E (as_strings args name).
Proof.
  intros (_ & Hlists & _) Hin Hgiven st HI. unfold as_strings.
  unfold nonzero, count in Hgiven.
  destruct (args !! name) as [value |] eqn:Hlookup; [| discriminate Hgiven].
  destruct (Hlists _ _ Hin Hlookup) as [l ->]. exact HI.
Qed.

Lemma keeps_as_unsigned_timeout I E args :
  stored_as_declared args ->
  nonzero (count args g_argModelCheckerTimeout) = true ->
  keeps I E (as_unsigned args g_argModelCheckerTimeout).
Proof.
  intros (_ & _ & Htimeout & _) Hgiven st HI. unfold as_unsigned.
  unfold nonzero, count in Hgiven.
  destruct (args !! g_argModelCheckerTimeout) as [value |] eqn:Hlookup;
    [| discriminate Hgiven].
  destruct (Htimeout _ eq_refl) as [n ->]. exact HI.
Qed.

Lemma keeps_as_unsigned_runs I E args :
  stored_as_declared args ->
  keeps I E (as_unsigned args g_argOptimizeRuns).
Proof.
  intros (_ & _ & _ & [n Hruns]) st HI. unfold as_unsigned. rewrite Hruns. exact HI.
Qed.

End Exceptions.

(** Membership in a list of names that is written out *)
Ltac declared_name :=
  unfold declaredStrings; simpl;
  repeat first [ left; reflexivity | right ].

(** The leaves of the statements under [stored_as_declared]. *)
Ltac declared_leaf :=
  lazymatch goal with
  | |- keeps _ _ (as_string _ _) =>
      apply keeps_as_string_declared; [assumption | declared_name | assumption]
  | |- keeps _ _ (as_strings _ _) =>
      apply keeps_as_strings_declared; [assumption | declared_name | assumption]
  | |- keeps _ _ (as_unsigned _ g_argOptimizeRuns) =>
      apply keeps_as_unsigned_runs; assumption
  | |- keeps _ _ (as_unsigned _ _) =>
      apply keeps_as_unsigned_timeout; assumption
  end.

Ltac exceptions_finish :=
  unfold only_InvalidAddress, as_constructed, callee, anything in *; cbn in *;
  first
    [ assumption
    | tauto
    | let what := fresh "what" in
      let Heq := fresh "Heq" in
      intros what Heq;
      first [ discriminate Heq
            | injection Heq as <-; split; [reflexivity | assumption] ] ].

Ltac exceptions_tail :=
  idtac;
  first
    [ declared_leaf
    | solve [intros; exceptions_finish]
    | unfold version, license, reset_hasOutput; exec; exceptions_finish ].

Section ExceptionTheorems.
Context {collaborators : Collaborators}.

(** A statement that never falls through keeps every invariant. *)
Lemma keeps_never_continues {A : Type} (I : CommandLineParser -> Prop) E (m : M A) :
  keeps anything E m -> never_continues m -> keeps I E m.
Proof.
  intros Hkeeps Hnever st _. specialize (Hkeeps st Logic.I). specialize (Hnever st).
  unfold ended in Hnever.
  destruct (m st) as [[a | o] st']; simpl in *; [congruence | exact Hkeeps].
Qed.

Lemma exceptions_parseOutputFormatting args :
  keeps (as_constructed args) (only_InvalidAddress args) (parseOutputFormatting args).
Proof.
  intros st [Hcolor Hmode]. unfold parseOutputFormatting.
  destruct (nonzero (count args g_argColor)) eqn:Hc1;
    [split; [left; first [reflexivity | exact Hc1] | exact Hmode] |].
  destruct (nonzero (count args g_argNoColor)) eqn:Hc2;
    [split; [right; left; first [reflexivity | exact Hc2] | exact Hmode] |].
  destruct Hcolor as [Hcolor | [Hcolor | Hcolor]]; try discriminate Hcolor.
  unfold mbind, M_bind, options, solAssert. rewrite Hcolor.
  split; [right; right; exact Hcolor | exact Hmode].
Qed.

Lemma exceptions_parseCombinedJsonOption args :
  stored_as_declared args ->
  keeps (as_constructed args)
    (callee (as_constructed args) (only_InvalidAddress args))
    (parseCombinedJsonOption args).
Proof.
  intros Hdeclared. unfold parseCombinedJsonOption.
  destruct (nonzero (count args g_argCombinedJson)) eqn:Hgiven.
  - keeps_tac writes exceptions_tail.
  - intros st HI. exact HI.
Qed.

Lemma exceptions_before_modes args _argc interactiveTerminal :
  stored_as_declared args ->
  keeps (as_constructed args) (only_InvalidAddress args) reset_hasOutput
  /\ keeps (as_constructed args) (only_InvalidAddress args) (parseExclusions args)
  /\ keeps (as_constructed args) (only_InvalidAddress args)
       (parseEarlyExits args _argc interactiveTerminal)
  /\ keeps (as_constructed args) (only_InvalidAddress args) (parseRevertStrings args)
  /\ keeps (as_constructed args) (only_InvalidAddress args) (parseCombinedJson args)
  /\ keeps (as_constructed args) (only_InvalidAddress args) (parseOutputOptions args)
  /\ keeps (as_constructed args) (only_InvalidAddress args) (parseStopAfter args)
  /\ keeps (as_constructed args) (only_InvalidAddress args)
       (parseExclusiveModes args).
Proof.
  intros Hdeclared.
  repeat match goal with |- _ /\ _ => split end;
    unfold parseExclusions, parseEarlyExits, parseRevertStrings, parseCombinedJson,
      parseOutputOptions, parseStopAfter, parseExclusiveModes;
    keeps_tac writes
      ltac:(idtac; first [ apply exceptions_parseCombinedJsonOption; assumption
                         | exceptions_tail ]).
Qed.

Lemma exceptions_parseStandardJson args :
  stored_as_declared args ->
  keeps (as_constructed args) (only_InvalidAddress args) (parseStandardJson args).
Proof.
  intros Hdeclared.
  destruct (nonzero (count args g_argStandardJSON)) eqn:Hgiven.
  - apply keeps_never_continues; [| apply parseStandardJson_given, Hgiven].
    unfold parseStandardJson. keeps_tac writes exceptions_tail.
  - intros st HI. rewrite (parseStandardJson_absent _ _ Hgiven). exact HI.
Qed.

Lemma exceptions_parseAssembler args :
  stored_as_declared args ->
  keeps (as_constructed args) (only_InvalidAddress args) (parseAssembler args).
Proof.
  intros Hdeclared.
  destruct (assemblerRequested args) eqn:Hgiven.
  - apply keeps_never_continues; [| apply parseAssembler_requested, Hgiven].
    unfold parseAssembler, parseYulOptimizations. keeps_tac writes exceptions_tail.
  - unfold assemblerRequested in Hgiven. unfold parseAssembler. rewrite Hgiven.
    keeps_tac writes exceptions_tail.
Qed.

Lemma exceptions_parseLinker args :
  keeps (as_constructed args) (only_InvalidAddress args) (parseLinker args).
Proof.
  destruct (nonzero (count args g_argLink)) eqn:Hgiven.
  - apply keeps_never_continues; [| apply parseLinker_given, Hgiven].
    unfold parseLinker. keeps_tac writes exceptions_tail.
  - intros st HI. rewrite (parseLinker_absent _ _ Hgiven). exact HI.
Qed.

Lemma exceptions_inputs args :
  stored_as_declared args ->
  keeps (as_constructed args) (only_InvalidAddress args) (parseInputs args)
  /\ keeps (as_constructed args) (only_InvalidAddress args) (parseLibraries args)
  /\ keeps (as_constructed args) (only_InvalidAddress args) (parseEVMVersion args).
Proof.
  intros Hdeclared.
  repeat match goal with |- _ /\ _ => split end;
    unfold parseInputs, parseLibraries, parseEVMVersion, parseInputPathsAndRemappings,
      parseInputPath, parseLibraryOption, parseLibrary;
    keeps_tac writes exceptions_tail.
Qed.

Lemma exceptions_compiler_mode args :
  keeps (as_constructed args) (only_InvalidAddress args)
    ((if nonzero (count args g_argImportAst) then
        assign (set_inputMode InputMode.CompilerWithASTImport)
      else
        assign (set_errorRecovery (nonzero (count args g_argErrorRecovery))));;
     o ← options;
     solAssert (bool_decide (inputMode o = InputMode.Compiler)
                || bool_decide (inputMode o = InputMode.CompilerWithASTImport));;
     (return_ true : M Empty_set)).
Proof.
  intros st [Hcolor Hmode].
  unfold mbind, M_bind, options, solAssert, assign.
  destruct (nonzero (count args g_argImportAst)); cbn.
  - intros what Heq. discriminate Heq.
  - match goal with |- context [if ?c then _ else _] =>
      assert (Hok : c = true)
        by (apply orb_true_iff; destruct Hmode; [left | right];
            apply bool_decide_eq_true; assumption);
      rewrite Hok
    end.
    cbn. intros what Heq. discriminate Heq.
Qed.

Ltac selects_compiler_mode m :=
  idtac;
  lazymatch m with
  | serr _ => idtac
  | (if _ then assign (set_inputMode _) else _) => idtac
  end.

Lemma exceptions_compiler args :
  stored_as_declared args ->
  keeps (as_constructed args) (only_InvalidAddress args) (parseCompilerSettings args)
  /\ keeps (as_constructed args) (only_InvalidAddress args)
       (parseCompilerOptimizer args).
Proof.
  intros Hdeclared.
  split; unfold parseCompilerSettings, parseCompilerOptimizer, parseYulOptimizations;
    keeps_tac selects_compiler_mode
      ltac:(idtac; first [ apply exceptions_compiler_mode | exceptions_tail ]).
Qed.

Lemma exceptions_parse_body cmdline _argc interactiveTerminal :
  match cmdline with
  | po_error _ => True
  | po_stored args => stored_as_declared args
  end ->
  keeps
    (match cmdline with
     | po_error _ => anything
     | po_stored args => as_constructed args
     end)
    (match cmdline with
     | po_error _ => fun o _ => forall what, o <> Thrown what
     | po_stored args => only_InvalidAddress args
     end)
    (parse_body cmdline _argc interactiveTerminal).
Proof.
  destruct cmdline as [what | args]; intros Hdeclared; unfold parse_body.
  - intros st _. cbn. intros what'. discriminate.
  - destruct (exceptions_before_modes args _argc interactiveTerminal Hdeclared)
      as (K1 & K2 & K4 & K5 & K6 & K7 & K8 & K9).
    destruct (exceptions_inputs args Hdeclared) as (K11 & K12 & K13).
    destruct (exceptions_compiler args Hdeclared) as (K16 & K17).
    apply keeps_bind; [exact K1 | intros _].
    apply keeps_bind; [exact K2 | intros _].
    apply keeps_bind; [apply exceptions_parseOutputFormatting | intros _].
    apply keeps_bind; [exact K4 | intros _].
    apply keeps_bind; [exact K5 | intros _].
    apply keeps_bind; [exact K6 | intros _].
    apply keeps_bind; [exact K7 | intros _].
    apply keeps_bind; [exact K8 | intros _].
    apply keeps_bind; [exact K9 | intros _].
    apply keeps_bind; [exact (exceptions_parseStandardJson args Hdeclared) | intros _].
    apply keeps_bind; [exact K11 | intros _].
    apply keeps_bind; [exact K12 | intros _].
    apply keeps_bind; [exact K13 | intros _].
    apply keeps_bind; [exact (exceptions_parseAssembler args Hdeclared) | intros _].
    apply keeps_bind; [exact (exceptions_parseLinker args) | intros _].
    apply keeps_bind; [exact K16 | intros _].
    exact K17.
Qed.

(** X29: the exceptions of [parse].  With the values stored as the option
    descriptions declare them, and a parser whose options are as their
    constructor leaves them, no cast of a stored value and no assertion
    fails: [parse] returns or exits, and the only exception it can end with
    is the [InvalidAddress] of the checksum functions, which needs
    [--libraries].  For a command line that the tokenizer rejects, [parse]
    ends with no exception at all. *)
Theorem parse_exceptions cmdline _argc interactiveTerminal st o st' :
  (forall args, cmdline = po_stored args ->
     stored_as_declared args /\ as_constructed args st) ->
  parse cmdline _argc interactiveTerminal st = (o, st') ->
  (exists b, o = Returned b)
  \/ (exists status, o = Exited status)
  \/ (exists args,
        cmdline = po_stored args /\ o = Thrown "InvalidAddress"
        /\ 0 < count args g_argLibraries).
Proof.
  intros Hstored Hrun.
  destruct o as [b | status | what]; [left; eauto | right; left; eauto |].
  right. right.
  destruct cmdline as [error | args].
  - exfalso.
    exact (keeps_run _ _ _ _ _ _
             (exceptions_parse_body (po_error error) _argc interactiveTerminal Logic.I)
             Logic.I Hrun what eq_refl).
  - destruct (Hstored args eq_refl) as [Hdeclared Hconstructed].
    pose proof (keeps_run _ _ _ _ _ _
      (exceptions_parse_body (po_stored args) _argc interactiveTerminal Hdeclared)
      Hconstructed Hrun what eq_refl) as [-> Hgiven].
    exists args. split; [reflexivity |]. split; [reflexivity |].
    unfold nonzero in Hgiven. destruct (count args g_argLibraries); [discriminate | lia].
Qed.

End ExceptionTheorems.

(** * The theorems at work on concrete command lines

    The reference collaborators, an empty file system, a fresh parser. *)

Lemma cont_eta {C : Collaborators} {A : Type}
    (r : Step A * CommandLineParser) (a : A) :
  r.1 = Cont a -> r = (Cont a, r.2).
Proof. destruct r as [s st]. simpl. now intros ->. Qed.

Lemma outcome_eta {C : Collaborators}
    (r : Outcome * CommandLineParser) (o : Outcome) :
  r.1 = o -> r = (o, r.2).
Proof. destruct r as [s st]. simpl. now intros ->. Qed.


(** ** The reference collaborators *)

Example keccak256_empty :
  Hex.hex_of_bytes (Keccak.keccak256 [])
  = "c5d2460186f7233c927e7db2dcc703c0e500b653ca82273b7bfad8045d85a470".
Proof. vm_compute. reflexivity. Qed.

Example keccak256_abc :
  Hex.hex_of_bytes (Keccak.keccak256 (Hex.bytes_of_string "abc"))
  = "4e03657aea45a94fc7d47ba826c8d667c0d1e6e33a64a036ec44f58fa12d6c45".
Proof. vm_compute. reflexivity. Qed.

Example getChecksummedAddress_examples :
  Hex.getChecksummedAddress "5aaeb6053f3e94c9b9a09f33669435e7ef1beaed"
  = Some address1
  /\ Hex.getChecksummedAddress "0xFB6916095CA1DF60BB79CE92CE3EA74C37C5D359"
     = Some address2
  /\ Hex.getChecksummedAddress "0x5aaeb6" = None.
Proof. repeat split; vm_compute; reflexivity. Qed.

Example passesAddressChecksum_examples :
  Hex.passesAddressChecksum address1 false = Some true
  /\ Hex.passesAddressChecksum address1_flipped false = Some false
  /\ Hex.passesAddressChecksum "0x5aaeb6053f3e94c9b9a09f33669435e7ef1beaed" false
     = Some true
  /\ Hex.passesAddressChecksum "0x5aaeb6053f3e94c9b9a09f33669435e7ef1beaed" true
     = Some false.
Proof. repeat split; vm_compute; reflexivity. Qed.

Example fromHex_examples :
  Hex.fromHex (string_drop 2 address1) = address1_bytes
  /\ Hex.fromHex "0x0aff" = [ Byte.x0a; Byte.xff ]
  /\ Hex.fromHex "aff" = [ Byte.x0a; Byte.xff ]
  /\ Hex.fromHex "0xzz" = [].
Proof. repeat split; vm_compute; reflexivity. Qed.

Example remove_filename_examples :
  BoostPath.remove_filename "/usr/lib/" = "/usr/lib"
  /\ BoostPath.remove_filename "/usr/lib/foo" = "/usr/lib"
  /\ BoostPath.remove_filename "/foo" = "/"
  /\ BoostPath.remove_filename "foo" = ""
  /\ BoostPath.filename "/usr/lib/" = "."
  /\ BoostPath.filename "/usr/lib/foo" = "foo".
Proof. repeat split; reflexivity. Qed.

Example split_examples :
  split is_comma "abi,,bin" = [ "abi"; ""; "bin" ]
  /\ split is_comma "" = [ "" ]
  /\ split_compress (fun c => is_space c || is_comma c) ", a=1 ,,b=2 "
     = [ ""; "a=1"; "b=2"; "" ]
  /\ set_of_list [ "bin"; "abi"; "bin" ] = [ "abi"; "bin" ]
  /\ trim "  a b  " = "a b".
Proof. repeat split; reflexivity. Qed.

(** With the reference collaborators the 40 characters of an accepted
    address are hex digits: anything else decodes to no byte at all, which
    is the zero address. *)
Lemma reference_accepts_hex_digits (name addr : string) st :
  let lib := name +:+ "=" +:+ addr in
  let digits := string_drop 2 addr in
  find_char "=" name = None -> find_char "=" addr = None ->
  is_token lib = true ->
  libraries (m_options st) !! name = None ->
  (run (collaborators := reference_instance) (parseLibraryOption lib) st).1 = Returned true ->
  String.length digits = 40
  /\ Hex.string_forallb Hex.is_hex_digit digits = true.
Proof.
  intros lib digits Hname Haddr Htoken Hfresh Htrue.
  assert (Hfile : @is_regular_file reference_instance lib <> Some true).
  { unfold is_regular_file, reference_instance, reference. rewrite lookup_empty. discriminate. }
  destruct (parseLibraryOption_accepted name addr st
              Hname Haddr Htoken Hfile Hfresh Htrue)
    as (_ & Hlen & Hpass & _ & Hzero).
  fold digits in Hlen, Hpass, Hzero. split; [exact Hlen |].
  change (Hex.passesAddressChecksum digits false = Some true) in Hpass.
  change (h160_AlignRight (Hex.fromHex digits) <> h160_zero) in Hzero.
  unfold Hex.passesAddressChecksum in Hpass. unfold Hex.fromHex in Hzero.
  destruct (String.eqb (string_take 2 digits) "0x") eqn:Hprefix.
  - rewrite Hlen in Hpass. discriminate Hpass.
  - rewrite Hlen in Hzero. cbn [Nat.odd Nat.even negb] in Hzero.
    destruct (Hex.decode_pairs digits) as [bs |] eqn:Hdecode.
    + exact (decode_pairs_hex _ _ _ (Nat.le_refl _) Hdecode).
    + exfalso. apply Hzero. reflexivity.
Qed.

#[local] Existing Instance reference_instance.

Lemma C1_exclusive_modes_witness :
  In g_argYul exclusiveModes /\ In g_argLink exclusiveModes
  /\ 0 < count yul_and_link g_argYul /\ 0 < count yul_and_link g_argLink
  /\ parse (po_stored yul_and_link) 3 false newParser
     = (Returned false,
        wrote_serr exclusiveModes_diagnostic
          (parse_until_ExclusiveModes yul_and_link 3 false newParser).2).
Proof.
  assert (Hyul : In g_argYul exclusiveModes) by (vm_compute; tauto).
  assert (Hlink : In g_argLink exclusiveModes) by (vm_compute; tauto).
  assert (Hcyul : 0 < count yul_and_link g_argYul) by (vm_compute; lia).
  assert (Hclink : 0 < count yul_and_link g_argLink) by (vm_compute; lia).
  repeat (split; [assumption |]).
  refine (proj1 (proj2 (C1_exclusive_modes yul_and_link 3 false newParser
                          g_argYul g_argLink Hyul Hlink _ Hcyul Hclink)) _ _).
  - discriminate.
  - apply cont_eta. vm_compute. reflexivity.
Defined.

(** C1, the claim as stated: the diagnostic for [--yul --link] also names
    the four mode options that were not supplied. *)
Lemma C1_exclusive_modes_counterexample :
  count yul_and_link g_argStandardJSON = 0
  /\ (parse (po_stored yul_and_link) 3 false newParser).1 = Returned false
  /\ m_serr (parse (po_stored yul_and_link) 3 false newParser).2
     = "The following options are mutually exclusive: --standard-json, --link, --assemble, --strict-assembly, --yul, --import-ast. Select at most one."
       +:+ endl.
Proof. repeat split; vm_compute; reflexivity. Qed.

(** The options the assembler branch refuses are absent. *)
Ltac absent_options :=
  let name := fresh "name" in
  let Hin := fresh "Hin" in
  intros name Hin; vm_compute in Hin;
  repeat (destruct Hin as [<- | Hin]; [vm_compute; reflexivity |]);
  destruct Hin.

Lemma C2_yul_on_ewasm_witness :
  parse (po_stored yul_ewasm) 4 false newParser
  = (Returned false,
     yul_on_ewasm_rejected (parse_until_Assembler yul_ewasm 4 false newParser).2)
  /\ parse (po_stored yul_ewasm_evm) 6 false newParser
     = (Returned true,
        yul_on_ewasm_evm_dialect
          (parse_until_Assembler yul_ewasm_evm 6 false newParser).2).
Proof.
  split.
  - refine (proj1 (proj1 (C2_yul_on_ewasm yul_ewasm 4 false newParser _
                            _ _ _ _ _ _) _)).
    + apply cont_eta. vm_compute. reflexivity.
    + vm_compute. lia.
    + vm_compute. reflexivity.
    + absent_options.
    + vm_compute. reflexivity.
    + vm_compute. reflexivity.
    + vm_compute. reflexivity.
  - refine (proj1 (proj2 (C2_yul_on_ewasm yul_ewasm_evm 6 false newParser _
                            _ _ _ _ _ _) _)).
    + apply cont_eta. vm_compute. reflexivity.
    + vm_compute. lia.
    + vm_compute. reflexivity.
    + absent_options.
    + vm_compute. reflexivity.
    + vm_compute. reflexivity.
    + vm_compute. reflexivity.
Defined.

(** C2, the claim as stated: [--yul --machine ewasm] does not succeed and
    the language is not Ewasm; with [--yul-dialect evm] added, [parse] does
    not fail. *)
Lemma C2_yul_on_ewasm_counterexample :
  (parse (po_stored yul_ewasm) 4 false newParser).1 = Returned false
  /\ inputAssemblyLanguage
       (m_options (parse (po_stored yul_ewasm) 4 false newParser).2)
     = Input.Yul
  /\ (parse (po_stored yul_ewasm_evm) 6 false newParser).1 = Returned true
  /\ inputAssemblyLanguage
       (m_options (parse (po_stored yul_ewasm_evm) 6 false newParser).2)
     = Input.StrictAssembly.
Proof. repeat split; vm_compute; reflexivity. Qed.



Lemma C4_combined_json_presence_witness :
  combinedJsonRequests
    (m_options (parse (po_stored combined_abi_bin) 3 false newParser).2)
  = Some abi_and_binary
  /\ combinedJsonRequests
       (m_options (parse (po_stored no_options) 1 false newParser).2)
     = None
  /\ parse (po_stored combined_abi_bogus) 3 false newParser
     = (Returned false,
        wrote_serr ("Invalid option to --combined-json: bogus" +:+ endl)
          (parse_until_CombinedJson combined_abi_bogus 3 false newParser).2).
Proof.
  assert (Hnone : combinedJsonRequests (m_options newParser) = None)
    by reflexivity.
  split; [| split].
  - refine (proj2 (proj2 (proj1
      (C4_combined_json_presence combined_abi_bin 3 false newParser Hnone)
      _ _)) _).
    + apply outcome_eta. vm_compute. reflexivity.
    + vm_compute. reflexivity.
  - refine (proj1 (proj2 (proj1
      (C4_combined_json_presence no_options 1 false newParser Hnone)
      _ _)) _).
    + apply outcome_eta. vm_compute. reflexivity.
    + vm_compute. reflexivity.
  - refine (proj2 (proj2
      (C4_combined_json_presence combined_abi_bogus 3 false newParser Hnone)
      _) _ _).
    + vm_compute. reflexivity.
    + apply cont_eta. vm_compute. reflexivity.
Defined.

Lemma C5_early_exits_witness :
  parse (po_stored only_help) 2 false newParser
  = (Returned false,
     wrote_sout desc (parse_until_EarlyExits only_help newParser).2)
  /\ parse (po_stored only_version) 2 false newParser
     = (Exited 0,
        wrote_sout version_text (parse_until_EarlyExits only_version newParser).2)
  /\ parse (po_stored only_license) 2 false newParser
     = (Exited 0,
        wrote_sout (licenseText +:+ endl)
          (wrote_sout (otherLicenses +:+ endl)
             (parse_until_EarlyExits only_license newParser).2))
  /\ parse (po_stored help_color_no_color) 4 false newParser
     = (Returned false,
        wrote_serr ("Option color and no-color are mutually exclusive." +:+ endl)
          (reset_hasOutput newParser).2).
Proof.
  split; [| split; [| split]].
  - refine (proj1 (proj1 (C5_early_exits only_help 2 false newParser) _ _) _).
    + apply cont_eta. vm_compute. reflexivity.
    + vm_compute. reflexivity.
  - refine (proj1 (proj2 (proj1 (C5_early_exits only_version 2 false newParser)
                            _ _)) _ _).
    + apply cont_eta. vm_compute. reflexivity.
    + vm_compute. reflexivity.
    + vm_compute. lia.
  - refine (proj2 (proj2 (proj1 (C5_early_exits only_license 2 false newParser)
                            _ _)) _ _ _).
    + apply cont_eta. vm_compute. reflexivity.
    + vm_compute. reflexivity.
    + vm_compute. reflexivity.
    + vm_compute. lia.
  - refine (proj2 (C5_early_exits help_color_no_color 4 false newParser) _ _).
    + vm_compute. lia.
    + vm_compute. lia.
Defined.

(** C5, the claim as stated: with [--help --color --no-color] the
    exclusivity check rejects the invocation, and no help text is written. *)
Lemma C5_early_exits_counterexample :
  0 < count help_color_no_color g_argHelp
  /\ (parse (po_stored help_color_no_color) 4 false newParser).1 = Returned false
  /\ m_sout (parse (po_stored help_color_no_color) 4 false newParser).2 = ""
  /\ m_serr (parse (po_stored help_color_no_color) 4 false newParser).2
     = "Option color and no-color are mutually exclusive." +:+ endl.
Proof.
  split; [vm_compute; lia |]. repeat split; vm_compute; reflexivity.
Qed.

Lemma C6_yul_optimizations_witness :
  parse (po_stored steps_only) 3 false newParser
  = (Returned false,
     wrote_serr ("--yul-optimizations is invalid if Yul optimizer is disabled"
                 +:+ endl)
       (optimizer_flags_assigned steps_only
          (parse_until_CompilerOptimizer steps_only 3 false newParser).2))
  /\ parse (po_stored steps_optimize_no_yul) 5 false newParser
     = (Returned false,
        wrote_serr ("--yul-optimizations is invalid if Yul optimizer is disabled"
                    +:+ endl)
          (optimizer_flags_assigned steps_optimize_no_yul
             (parse_until_CompilerOptimizer steps_optimize_no_yul 5 false newParser).2))
  /\ parse (po_stored steps_nested) 4 false newParser
     = (Returned false,
        wrote_serr ("Invalid optimizer step sequence in --yul-optimizations: "
                    +:+ "Nested brackets are not supported" +:+ endl)
          (optimizer_flags_assigned steps_nested
             (parse_until_CompilerOptimizer steps_nested 4 false newParser).2))
  /\ exists st',
       parse (po_stored steps_optimize) 4 false newParser = (Returned true, st')
       /\ yulOptimiserSteps (m_options st') = Some "dhfoDgvulfnTUtnIf".
Proof.
  split; [| split; [| split]].
  - refine (proj1 (C6_yul_optimizations steps_only 3 false newParser _
                     "dhfoDgvulfnTUtnIf" _ _ _) _).
    + apply cont_eta. vm_compute. reflexivity.
    + vm_compute. reflexivity.
    + vm_compute. reflexivity.
    + left. vm_compute. reflexivity.
  - refine (proj1 (C6_yul_optimizations steps_optimize_no_yul 5 false newParser _
                     "dhfoDgvulfnTUtnIf" _ _ _) _).
    + apply cont_eta. vm_compute. reflexivity.
    + vm_compute. reflexivity.
    + vm_compute. reflexivity.
    + right. vm_compute. lia.
  - refine (proj1 (proj2 (C6_yul_optimizations steps_nested 4 false newParser _
                            "dhf[o[D]]" _ _ _)) _ _ _ _).
    + apply cont_eta. vm_compute. reflexivity.
    + vm_compute. reflexivity.
    + vm_compute. reflexivity.
    + vm_compute. lia.
    + vm_compute. reflexivity.
    + vm_compute. reflexivity.
  - refine (proj2 (proj2 (C6_yul_optimizations steps_optimize 4 false newParser _
                            "dhfoDgvulfnTUtnIf" _ _ _)) _ _ _).
    + apply cont_eta. vm_compute. reflexivity.
    + vm_compute. reflexivity.
    + vm_compute. reflexivity.
    + vm_compute. lia.
    + vm_compute. reflexivity.
    + vm_compute. reflexivity.
Defined.

Lemma C7_duplicate_library_witness :
  parse (po_stored duplicate_libraries) 5 false newParser
  = (Returned false,
     wrote_serr (duplicate_diagnostic "A")
       (for_each [ "A=" +:+ address1; "B=" +:+ address2 ] parseLibrary
          (parse_until_Libraries duplicate_libraries 5 false newParser).2).2)
  /\ dom (libraries
            (m_options (parse (po_stored duplicate_libraries) 5 false newParser).2))
     = {[ "A"; "B" ]}.
Proof.
  assert (Hargs : duplicate_libraries !! g_argLibraries
                  = Some (strings_value libraries_twice))
    by (vm_compute; reflexivity).
  assert (Htokens : flat_map libraryTokens libraries_twice
                    = ([ "A=" +:+ address1; "B=" +:+ address2 ]
                       ++ ("A=" +:+ address2) :: [ "C=" +:+ address1 ])%list)
    by (vm_compute; reflexivity).
  assert (Hin : In ("A=" +:+ address1) [ "A=" +:+ address1; "B=" +:+ address2 ])
    by (left; reflexivity).
  assert (Hearlier : specifierName ("A=" +:+ address1) = Some "A")
    by (vm_compute; reflexivity).
  assert (Hlib : specifierName ("A=" +:+ address2) = Some "A")
    by (vm_compute; reflexivity).
  pose proof (C7_duplicate_library duplicate_libraries libraries_twice
    [ "A=" +:+ address1; "B=" +:+ address2 ] [ "C=" +:+ address1 ]
    ("A=" +:+ address1) ("A=" +:+ address2) "A"
    (parse_until_Libraries duplicate_libraries 5 false newParser).2
    (for_each [ "A=" +:+ address1; "B=" +:+ address2 ] parseLibrary
       (parse_until_Libraries duplicate_libraries 5 false newParser).2).2
    Hargs Htokens) as Hduplicate.
  destruct Hduplicate as (_ & _ & Hparse);
    [ apply cont_eta; vm_compute; reflexivity
    | exact Hin | discriminate | exact Hearlier | discriminate | exact Hlib |].
  split.
  - apply Hparse. apply cont_eta. vm_compute. reflexivity.
  - vm_compute. reflexivity.
Defined.

Lemma C8_remapping_targets_witness :
  parseInputPath remapping_directory newParser
  = (Cont tt,
     remapping_recorded
       {| context := "ctx"; prefix := "a/b"; target := "/usr/lib/" |}
       "/usr/lib/" newParser)
  /\ allowedDirectories
       (m_options (parseInputPath remapping_directory newParser).2)
     = {[ "/usr/lib" ]}
  /\ sourceFilePaths
       (m_options (parse (po_stored with_remappings) 4 false newParser).2)
     = {[ "c.sol" ]}
  /\ allowedDirectories
       (m_options (parse (po_stored with_remappings) 4 false newParser).2)
     = {[ "/usr/lib" ]}.
Proof.
  assert (Heq : find_char "=" remapping_directory = Some 7) by reflexivity.
  assert (Hr : parseRemapping remapping_directory
               = Some {| context := "ctx"; prefix := "a/b"; target := "/usr/lib/" |})
    by (vm_compute; reflexivity).
  pose proof (C8_remapping_targets remapping_directory 7 _ newParser Heq Hr)
    as (Hrun & _ & _ & Hallowed & _).
  split; [exact Hrun |]. split; [| split].
  - rewrite Hrun. cbn [snd]. rewrite Hallowed. vm_compute. reflexivity.
  - vm_compute. reflexivity.
  - vm_compute. reflexivity.
Defined.

(** C8, the claim as stated: the target of [x=/usr/lib/foo] ends in the
    file name [foo], not in [.], and all the same the allowed directory is
    [/usr/lib], the file name being stripped. *)
Lemma C8_remapping_targets_counterexample :
  path_filename "/usr/lib/foo" = "foo"
  /\ allowedDirectories (m_options (parseInputPath remapping_file newParser).2)
     = {[ "/usr/lib" ]}
  /\ "/usr/lib/foo"
     ∉ allowedDirectories (m_options (parseInputPath remapping_file newParser).2).
Proof.
  split; [vm_compute; reflexivity |].
  assert (Hdirs :
    allowedDirectories (m_options (parseInputPath remapping_file newParser).2)
    = {[ "/usr/lib" ]}) by (vm_compute; reflexivity).
  split; [exact Hdirs |]. rewrite Hdirs.
  intros Hin. apply elem_of_singleton in Hin. discriminate Hin.
Qed.

Lemma C9_combined_json_before_standard_json_witness :
  (parse (po_stored standard_json_bogus) 4 false newParser).1 <> Returned true
  /\ inputMode (m_options (parse (po_stored standard_json_bogus) 4 false newParser).2)
     = InputMode.Compiler
  /\ exists item',
       In item' (split is_comma "abi,bogus")
       /\ unknown item' = true
       /\ parse (po_stored standard_json_bogus) 4 false newParser
          = (Returned false,
             wrote_serr ("Invalid option to --combined-json: " +:+ item' +:+ endl)
               (parse_until_CombinedJson standard_json_bogus 4 false newParser).2).
Proof.
  assert (Hstandard : 0 < count standard_json_bogus g_argStandardJSON)
    by (vm_compute; lia).
  assert (Hgiven : standard_json_bogus !! g_argCombinedJson
                   = Some (string_value "abi,bogus"))
    by (vm_compute; reflexivity).
  assert (Hin : In "bogus" (split is_comma "abi,bogus"))
    by (vm_compute; tauto).
  assert (Hunknown : unknown "bogus" = true) by reflexivity.
  pose proof (C9_combined_json_before_standard_json
                standard_json_bogus 4 false newParser "abi,bogus" "bogus"
                Hstandard Hgiven Hin Hunknown) as (Hno & Hmode & Hreached).
  split; [exact Hno |]. split.
  - rewrite Hmode. reflexivity.
  - apply Hreached. apply cont_eta. vm_compute. reflexivity.
Defined.

Lemma C10_compact_format_and_interface_witness :
  (parse (po_stored combined_compact_interface) 3 false newParser).1
  = Returned true
  /\ combinedJsonRequests
       (m_options (parse (po_stored combined_compact_interface) 3 false newParser).2)
     = Some no_requests.
Proof.
  assert (Hgiven : combined_compact_interface !! g_argCombinedJson
                   = Some (string_value "compact-format,interface"))
    by (vm_compute; reflexivity).
  assert (Hnames : forall item,
    In item (split is_comma "compact-format,interface") ->
    item = g_strCompactJSON \/ item = g_strInterface).
  { intros item Hin. vm_compute in Hin.
    destruct Hin as [<- | [<- | []]]; [left | right]; reflexivity. }
  assert (Htrue :
    (parse (po_stored combined_compact_interface) 3 false newParser).1
    = Returned true) by (vm_compute; reflexivity).
  split; [exact Htrue |].
  refine (proj2 (proj2 (proj2 (proj2 (proj2
    (C10_compact_format_and_interface combined_compact_interface 3 false
       newParser "compact-format,interface" Hgiven Hnames))))) _ _).
  apply outcome_eta. exact Htrue.
Defined.

(** ** The further properties at work *)

Lemma parse_failure_has_output_witness :
  (parse (po_stored yul_and_link) 3 false newParser).1 = Returned false
  /\ m_hasOutput (parse (po_stored yul_and_link) 3 false newParser).2 = true.
Proof.
  assert (Hrun : (parse (po_stored yul_and_link) 3 false newParser).1
                 = Returned false) by (vm_compute; reflexivity).
  split; [exact Hrun |].
  exact (parse_failure_has_output _ _ _ _ _ _ (outcome_eta _ _ Hrun)
           (or_introl eq_refl)).
Defined.

Lemma parse_success_output_witness :
  (parse (po_stored yul_ewasm_evm) 6 false newParser).1 = Returned true
  /\ m_sout (parse (po_stored yul_ewasm_evm) 6 false newParser).2 = ""
  /\ m_serr (parse (po_stored yul_ewasm_evm) 6 false newParser).2 = yul_warning
  /\ m_hasOutput (parse (po_stored yul_ewasm_evm) 6 false newParser).2 = true.
Proof.
  assert (Hrun : (parse (po_stored yul_ewasm_evm) 6 false newParser).1
                 = Returned true) by (vm_compute; reflexivity).
  split; [exact Hrun |].
  destruct (parse_success_output _ _ _ _ _ (outcome_eta _ _ Hrun))
    as (Hsout & Hserr & Houtput).
  assert (Hmode : inputMode (m_options
            (parse (po_stored yul_ewasm_evm) 6 false newParser).2)
          = InputMode.Assembler) by (vm_compute; reflexivity).
  rewrite Hmode in Hserr, Houtput.
  repeat split; assumption.
Defined.

Lemma parse_success_inputMode_witness :
  (parse (po_stored yul_ewasm_evm) 6 false newParser).1 = Returned true
  /\ countEnabledOptions yul_ewasm_evm exclusiveModes <= 1
  /\ inputMode (m_options (parse (po_stored yul_ewasm_evm) 6 false newParser).2)
     = InputMode.Assembler.
Proof.
  assert (Hrun : (parse (po_stored yul_ewasm_evm) 6 false newParser).1
                 = Returned true) by (vm_compute; reflexivity).
  split; [exact Hrun |].
  destruct (parse_success_inputMode _ _ _ _ _ (outcome_eta _ _ Hrun))
    as (Hmodes & Hmode & _).
  split; [exact Hmodes | exact Hmode].
Defined.

Lemma standard_json_ignores_later_options_witness :
  0 < count standard_json_bogus g_argStandardJSON
  /\ assignedAfterStandardJson
       (m_options (parse (po_stored standard_json_bogus) 4 false newParser).2)
     = assignedAfterStandardJson (m_options newParser).
Proof.
  assert (Hjson : 0 < count standard_json_bogus g_argStandardJSON)
    by (vm_compute; lia).
  split; [exact Hjson |].
  apply (standard_json_ignores_later_options standard_json_bogus 4 false newParser
           (parse (po_stored standard_json_bogus) 4 false newParser).1 _ Hjson).
  apply outcome_eta. reflexivity.
Defined.

Lemma link_ignores_compiler_options_witness :
  0 < count link_berlin g_argLink
  /\ (parse (po_stored link_berlin) 4 false newParser).1 = Returned true
  /\ assignedByAssemblerOrCompiler
       (m_options (parse (po_stored link_berlin) 4 false newParser).2)
     = assignedByAssemblerOrCompiler (m_options newParser).
Proof.
  assert (Hlink : 0 < count link_berlin g_argLink) by (vm_compute; lia).
  assert (Hrun : (parse (po_stored link_berlin) 4 false newParser).1
                 = Returned true) by (vm_compute; reflexivity).
  split; [exact Hlink |]. split; [exact Hrun |].
  exact (link_ignores_compiler_options _ _ _ _ _ _ Hlink (outcome_eta _ _ Hrun)).
Defined.

Lemma assembler_ignores_compiler_options_witness :
  assemblerRequested yul_ewasm_evm = true
  /\ (parse (po_stored yul_ewasm_evm) 6 false newParser).1 = Returned true
  /\ assignedByCompiler
       (m_options (parse (po_stored yul_ewasm_evm) 6 false newParser).2)
     = assignedByCompiler (m_options newParser).
Proof.
  assert (Hasm : assemblerRequested yul_ewasm_evm = true) by (vm_compute; reflexivity).
  assert (Hrun : (parse (po_stored yul_ewasm_evm) 6 false newParser).1
                 = Returned true) by (vm_compute; reflexivity).
  split; [exact Hasm |]. split; [exact Hrun |].
  exact (assembler_ignores_compiler_options _ _ _ _ _ _ Hasm (outcome_eta _ _ Hrun)).
Defined.

Lemma parseLibraryOption_only_adds_witness :
  (run (parseLibraryOption ("A=" +:+ address1 +:+ ",B=0x00")) newParser).1
  = Returned false
  /\ (forall name address,
        libraries (m_options
          (run (parseLibraryOption ("A=" +:+ address1 +:+ ",B=0x00")) newParser).2)
        !! name = Some address ->
        List.length address = 20 /\ address <> h160_zero
        /\ exists lib,
             In lib (libraryTokens ("A=" +:+ address1 +:+ ",B=0x00"))
             /\ specifierName lib = Some name).
Proof.
  assert (Hrun : (run (parseLibraryOption ("A=" +:+ address1 +:+ ",B=0x00"))
                    newParser).1 = Returned false) by (vm_compute; reflexivity).
  split; [exact Hrun |].
  destruct (parseLibraryOption_only_adds _ _ _ _ (outcome_eta _ _ Hrun))
    as (_ & Hnew & _).
  intros name address Hlookup.
  destruct (Hnew name address Hlookup) as [Hold | Hadded]; [| exact Hadded].
  exfalso. revert Hold. vm_compute. discriminate.
Defined.

Lemma library_colon_separator_witness :
  find_char "=" "Lib" = None
  /\ find_char "=" address1 = None
  /\ find_char ":" address1 = None
  /\ trim address1 <> ""
  /\ parseLibrary ("Lib" +:+ ":" +:+ address1) newParser
     = parseLibrary ("Lib" +:+ "=" +:+ address1) newParser.
Proof.
  assert (H1 : find_char "=" "Lib" = None) by reflexivity.
  assert (H2 : find_char "=" address1 = None) by reflexivity.
  assert (H3 : find_char ":" address1 = None) by reflexivity.
  assert (H4 : trim address1 <> "") by (vm_compute; discriminate).
  repeat (split; [assumption |]).
  exact (library_colon_separator "Lib" address1 newParser H1 H2 H3 H4).
Defined.

Lemma library_blank_after_separator_witness :
  is_token "Lib" = true
  /\ find_char "=" "Lib" = None
  /\ is_space " " || is_comma " " = true
  /\ (run (parseLibraryOption ("Lib" +:+ "=" +:+ String " " address1)) newParser).1
     = Returned false
  /\ m_serr (run (parseLibraryOption ("Lib" +:+ "=" +:+ String " " address1))
               newParser).2
     = "Empty address provided for library " +:+ quote +:+ "Lib" +:+ quote
       +:+ "." +:+ endl
       +:+ "Note that there should not be any whitespace after the equal sign."
       +:+ endl.
Proof.
  assert (H1 : is_token "Lib" = true) by reflexivity.
  assert (H2 : find_char "=" "Lib" = None) by reflexivity.
  assert (H3 : is_space " " || is_comma " " = true) by reflexivity.
  assert (H4 : is_regular_file ("Lib" +:+ "=" +:+ String " " address1) <> Some true)
    by (vm_compute; discriminate).
  assert (H5 : libraries (m_options newParser) !! "Lib" = None)
    by (vm_compute; reflexivity).
  repeat (split; [assumption |]).
  rewrite (library_blank_after_separator "Lib" address1 " " newParser H1 H2 H3 H4 H5).
  split; reflexivity.
Defined.

Lemma parseInputPathsAndRemappings_success_witness :
  (run (parseInputPathsAndRemappings with_remappings) newParser).1 = Returned true
  /\ sourceFilePaths
       (m_options (run (parseInputPathsAndRemappings with_remappings) newParser).2)
     = ∅ ∪ list_to_set [ "c.sol" ]
  /\ List.length
       (remappings
          (m_options (run (parseInputPathsAndRemappings with_remappings) newParser).2))
     = 2
  /\ allowedDirectories
       (m_options (run (parseInputPathsAndRemappings with_remappings) newParser).2)
     = ∅ ∪ list_to_set [ "/usr/lib"; "/usr/lib" ].
Proof.
  assert (Hrun : (run (parseInputPathsAndRemappings with_remappings) newParser).1
                 = Returned true) by (vm_compute; reflexivity).
  split; [exact Hrun |].
  destruct (parseInputPathsAndRemappings_success _ _ _ (outcome_eta _ _ Hrun))
    as (Hpaths & _ & Hremappings & Hallowed & _).
  cbv zeta in *.
  split; [exact Hpaths |]. split; [| exact Hallowed].
  rewrite Hremappings. reflexivity.
Defined.

Lemma parseInputPathsAndRemappings_invalid_remapping_witness :
  isRemapping "=/usr" = true
  /\ parseRemapping "=/usr" = None
  /\ (run (parseInputPathsAndRemappings invalid_remapping) newParser).1
     = Returned false
  /\ m_serr (run (parseInputPathsAndRemappings invalid_remapping) newParser).2
     = "Invalid remapping: " +:+ quote +:+ "=/usr" +:+ quote +:+ "." +:+ endl.
Proof.
  assert (Hstored : invalid_remapping !! g_argInputFile
                    = Some (strings_value ([ "c.sol"; remapping_file ]
                                           ++ "=/usr" :: [ "d.sol" ])%list))
    by (vm_compute; reflexivity).
  assert (Hbefore : Forall (fun path => isRemapping path = true ->
                                        is_Some (parseRemapping path))
                      [ "c.sol"; remapping_file ]).
  { repeat constructor; intros Hremapping.
    - vm_compute in Hremapping. discriminate Hremapping.
    - vm_compute. eauto. }
  assert (Hbad : isRemapping "=/usr" = true) by (vm_compute; reflexivity).
  assert (Hinvalid : parseRemapping "=/usr" = None) by (vm_compute; reflexivity).
  split; [exact Hbad |]. split; [exact Hinvalid |].
  destruct (parseInputPathsAndRemappings_invalid_remapping
              invalid_remapping _ _ _ newParser Hstored Hbefore Hbad Hinvalid)
    as (st1 & -> & _ & _ & Hserr).
  split; [reflexivity |].
  cbn [snd wrote_serr m_serr]. rewrite Hserr. reflexivity.
Defined.

Lemma parse_success_allowedDirectories_witness :
  (parse (po_stored allow_paths) 5 false newParser).1 = Returned true
  /\ allowedDirectories (m_options (parse (po_stored allow_paths) 5 false newParser).2)
     = ∅ ∪ list_to_set [ "/a"; "/b/c" ] ∪ list_to_set [ "/usr/lib"; "/usr/lib" ].
Proof.
  assert (Hrun : (parse (po_stored allow_paths) 5 false newParser).1 = Returned true)
    by (vm_compute; reflexivity).
  split; [exact Hrun |].
  exact (parse_success_allowedDirectories _ _ _ _ _ (outcome_eta _ _ Hrun)).
Defined.

Lemma standard_json_input_files_witness :
  0 < count standard_json_file g_argStandardJSON
  /\ countEnabledOptions standard_json_file exclusiveModes <= 1
  /\ (parse (po_stored standard_json_file) 3 false newParser).1 = Returned true
  /\ standardJsonInputFile
       (m_options (parse (po_stored standard_json_file) 3 false newParser).2)
     = Some "input.json".
Proof.
  assert (Hjson : 0 < count standard_json_file g_argStandardJSON)
    by (vm_compute; lia).
  assert (Hmodes : countEnabledOptions standard_json_file exclusiveModes <= 1)
    by (vm_compute; lia).
  assert (Hstored : inputFilesStored standard_json_file).
  { right. exists [ "input.json" ]. vm_compute. reflexivity. }
  assert (Hreach : (parse_until_ExclusiveModes standard_json_file 3 false newParser).1
                   = Cont tt) by (vm_compute; reflexivity).
  repeat (split; [assumption |]).
  rewrite (standard_json_input_files _ _ _ _ _ Hjson Hmodes Hstored
             (cont_eta _ _ Hreach)).
  split; reflexivity.
Defined.

Lemma stop_after_conflict_witness :
  (count stop_after_bin g_argColor = 0 \/ count stop_after_bin g_argNoColor = 0)
  /\ 0 < count stop_after_bin g_strStopAfter
  /\ List.find (fun option => nonzero (count stop_after_bin option))
       conflictingWithStopAfter = Some g_argBinary
  /\ parse (po_stored stop_after_bin) 4 false newParser
     = (Returned false,
        wrote_serr (exclusive_diagnostic g_strStopAfter g_argBinary)
          (hasOutput_reset newParser)).
Proof.
  assert (Hcolor : count stop_after_bin g_argColor = 0
                   \/ count stop_after_bin g_argNoColor = 0)
    by (left; vm_compute; reflexivity).
  assert (Hstop : 0 < count stop_after_bin g_strStopAfter) by (vm_compute; lia).
  assert (Hfirst : List.find (fun option => nonzero (count stop_after_bin option))
                     conflictingWithStopAfter = Some g_argBinary)
    by (vm_compute; reflexivity).
  repeat (split; [assumption |]).
  exact (stop_after_conflict _ 4 false newParser _ Hcolor Hstop Hfirst).
Defined.

Lemma assembler_language_and_machine_witness :
  assemblerRequested yul_ewasm_evm = true
  /\ (parse (po_stored yul_ewasm_evm) 6 false newParser).1 = Returned true
  /\ targetMachine (m_options (parse (po_stored yul_ewasm_evm) 6 false newParser).2)
     = Machine.Ewasm
  /\ inputAssemblyLanguage
       (m_options (parse (po_stored yul_ewasm_evm) 6 false newParser).2)
     = Input.StrictAssembly.
Proof.
  assert (Hasm : assemblerRequested yul_ewasm_evm = true) by (vm_compute; reflexivity).
  assert (Hrun : (parse (po_stored yul_ewasm_evm) 6 false newParser).1
                 = Returned true) by (vm_compute; reflexivity).
  split; [exact Hasm |]. split; [exact Hrun |].
  destruct (assembler_language_and_machine _ _ _ _ _ Hasm (outcome_eta _ _ Hrun))
    as (Hmachine & Hlanguage & _).
  split; [exact Hmachine |].
  rewrite Hlanguage, Hmachine. reflexivity.
Defined.

Lemma assembler_optimizer_witness :
  assemblerRequested yul_ewasm_evm = true
  /\ (parse (po_stored yul_ewasm_evm) 6 false newParser).1 = Returned true
  /\ optimize (m_options (parse (po_stored yul_ewasm_evm) 6 false newParser).2)
     = false
  /\ yulOptimiserSteps
       (m_options (parse (po_stored yul_ewasm_evm) 6 false newParser).2)
     = None.
Proof.
  assert (Hasm : assemblerRequested yul_ewasm_evm = true) by (vm_compute; reflexivity).
  assert (Hrun : (parse (po_stored yul_ewasm_evm) 6 false newParser).1
                 = Returned true) by (vm_compute; reflexivity).
  split; [exact Hasm |]. split; [exact Hrun |].
  destruct (assembler_optimizer _ _ _ _ _ Hasm (outcome_eta _ _ Hrun))
    as (_ & Hoptimize & _ & Hsteps & _).
  split; [exact Hoptimize | exact Hsteps].
Defined.

Lemma assembler_invalid_options_witness :
  assemblerRequested yul_gas = true
  /\ 1 <= countEnabledOptions yul_gas nonAssemblyModeOptions
  /\ (parse (po_stored yul_gas) 3 false newParser).1 = Returned false
  /\ m_serr (parse (po_stored yul_gas) 3 false newParser).2
     = "The following options are invalid in assembly mode: --gas." +:+ endl.
Proof.
  assert (Hasm : assemblerRequested yul_gas = true) by (vm_compute; reflexivity).
  assert (Hcount : 1 <= countEnabledOptions yul_gas nonAssemblyModeOptions)
    by (vm_compute; lia).
  assert (Hreach : (parse_until_Assembler yul_gas 3 false newParser).1 = Cont tt)
    by (vm_compute; reflexivity).
  split; [exact Hasm |]. split; [exact Hcount |].
  destruct (assembler_invalid_options yul_gas 3 false newParser Hasm Hcount)
    as (_ & Hrun & _).
  rewrite (Hrun _ (cont_eta _ _ Hreach)).
  split; [reflexivity |]. vm_compute. reflexivity.
Defined.

Lemma machine_outside_assembler_witness :
  assemblerRequested only_machine = false
  /\ count only_machine g_argStandardJSON = 0
  /\ 0 < count only_machine g_argMachine
  /\ (parse (po_stored only_machine) 3 false newParser).1 = Returned false
  /\ m_serr (parse (po_stored only_machine) 3 false newParser).2
     = "--yul-dialect and --machine are only valid in assembly mode." +:+ endl.
Proof.
  assert (Hasm : assemblerRequested only_machine = false) by (vm_compute; reflexivity).
  assert (Hjson : count only_machine g_argStandardJSON = 0)
    by (vm_compute; reflexivity).
  assert (Hmachine : 0 < count only_machine g_argMachine) by (vm_compute; lia).
  assert (Hreach : (parse_until_Assembler only_machine 3 false newParser).1 = Cont tt)
    by (vm_compute; reflexivity).
  repeat (split; [assumption |]).
  destruct (machine_outside_assembler only_machine 3 false newParser Hasm Hjson
              (or_introl Hmachine)) as (_ & Hrun).
  rewrite (Hrun _ (cont_eta _ _ Hreach)).
  split; [reflexivity |]. vm_compute. reflexivity.
Defined.

Lemma compiler_settings_witness :
  count metadata_swarm g_argStandardJSON = 0
  /\ assemblerRequested metadata_swarm = false
  /\ count metadata_swarm g_argLink = 0
  /\ (parse (po_stored metadata_swarm) 6 false newParser).1 = Returned true
  /\ metadataHash (m_options (parse (po_stored metadata_swarm) 6 false newParser).2)
     = CompilerStack.Bzzr1
  /\ expectedExecutionsPerDeployment
       (m_options (parse (po_stored metadata_swarm) 6 false newParser).2)
     = 200%N
  /\ optimize (m_options (parse (po_stored metadata_swarm) 6 false newParser).2)
     = true.
Proof.
  assert (Hjson : count metadata_swarm g_argStandardJSON = 0)
    by (vm_compute; reflexivity).
  assert (Hasm : assemblerRequested metadata_swarm = false)
    by (vm_compute; reflexivity).
  assert (Hlink : count metadata_swarm g_argLink = 0) by (vm_compute; reflexivity).
  assert (Hrun : (parse (po_stored metadata_swarm) 6 false newParser).1
                 = Returned true) by (vm_compute; reflexivity).
  repeat (split; [assumption |]).
  destruct (compiler_settings _ _ _ _ _ Hjson Hasm Hlink (outcome_eta _ _ Hrun))
    as (Hhash & _ & Hruns & _ & _ & Hoptimize & _).
  cbv zeta in Hhash, Hruns, Hoptimize.
  split; [rewrite Hhash; vm_compute; reflexivity |].
  split; [| rewrite Hoptimize; vm_compute; reflexivity].
  assert (Hstored : metadata_swarm !! g_argOptimizeRuns = Some (unsigned_value 200))
    by (vm_compute; reflexivity).
  congruence.
Defined.

Lemma compiler_model_checker_witness :
  count metadata_swarm g_argStandardJSON = 0
  /\ assemblerRequested metadata_swarm = false
  /\ count metadata_swarm g_argLink = 0
  /\ (parse (po_stored metadata_swarm) 6 false newParser).1 = Returned true
  /\ initializeModelChecker
       (m_options (parse (po_stored metadata_swarm) 6 false newParser).2) = true
  /\ timeout (modelCheckerSettings
       (m_options (parse (po_stored metadata_swarm) 6 false newParser).2)) = Some 7%N.
Proof.
  assert (Hjson : count metadata_swarm g_argStandardJSON = 0)
    by (vm_compute; reflexivity).
  assert (Hasm : assemblerRequested metadata_swarm = false)
    by (vm_compute; reflexivity).
  assert (Hlink : count metadata_swarm g_argLink = 0) by (vm_compute; reflexivity).
  assert (Hrun : (parse (po_stored metadata_swarm) 6 false newParser).1
                 = Returned true) by (vm_compute; reflexivity).
  repeat (split; [assumption |]).
  destruct (compiler_model_checker _ _ _ _ _ Hjson Hasm Hlink (outcome_eta _ _ Hrun))
    as (Hinit & _ & _ & _ & Htimeout).
  split; [exact Hinit |].
  apply Htimeout. vm_compute. reflexivity.
Defined.

Lemma model_checker_initialised_by_default_witness :
  count (stored_args []) g_argStandardJSON = 0
  /\ assemblerRequested (stored_args []) = false
  /\ count (stored_args []) g_argLink = 0
  /\ (parse (stored []) 1 false newParser).1 = Returned true
  /\ initializeModelChecker (m_options (parse (stored []) 1 false newParser).2)
     = true.
Proof.
  assert (Hjson : count (stored_args []) g_argStandardJSON = 0)
    by (vm_compute; reflexivity).
  assert (Hasm : assemblerRequested (stored_args []) = false)
    by (vm_compute; reflexivity).
  assert (Hlink : count (stored_args []) g_argLink = 0) by (vm_compute; reflexivity).
  assert (Hrun : (parse (stored []) 1 false newParser).1 = Returned true)
    by (vm_compute; reflexivity).
  repeat (split; [assumption |]).
  exact (model_checker_initialised_by_default [] 1 false newParser _
           Hjson Hasm Hlink (outcome_eta _ _ Hrun)).
Defined.

Lemma parse_success_output_options_witness :
  (parse (po_stored stop_after_abi) 5 false newParser).1 = Returned true
  /\ OutputSelection.abi
       (selectedOutputs
          (m_options (parse (po_stored stop_after_abi) 5 false newParser).2)) = true
  /\ OutputSelection.binary
       (selectedOutputs
          (m_options (parse (po_stored stop_after_abi) 5 false newParser).2)) = false
  /\ prettyJson (m_options (parse (po_stored stop_after_abi) 5 false newParser).2)
     = true
  /\ outputDir (m_options (parse (po_stored stop_after_abi) 5 false newParser).2)
     = "".
Proof.
  assert (Hrun : (parse (po_stored stop_after_abi) 5 false newParser).1
                 = Returned true) by (vm_compute; reflexivity).
  split; [exact Hrun |].
  destruct (parse_success_output_options _ _ _ _ _ (outcome_eta _ _ Hrun))
    as (Houtputs & _ & _ & Hpretty & Hdir & _).
  cbv zeta in Houtputs, Hpretty, Hdir.
  rewrite Houtputs, Hpretty, Hdir.
  repeat split; vm_compute; reflexivity.
Defined.

Lemma parse_success_stop_after_witness :
  (parse (po_stored stop_after_abi) 5 false newParser).1 = Returned true
  /\ 0 < count stop_after_abi g_strStopAfter
  /\ stopAfter (m_options (parse (po_stored stop_after_abi) 5 false newParser).2)
     = Some CompilerStack.Parsed
  /\ count stop_after_abi g_argBinary = 0.
Proof.
  assert (Hrun : (parse (po_stored stop_after_abi) 5 false newParser).1
                 = Returned true) by (vm_compute; reflexivity).
  assert (Hstop : 0 < count stop_after_abi g_strStopAfter) by (vm_compute; lia).
  split; [exact Hrun |]. split; [exact Hstop |].
  destruct (parse_success_stop_after _ _ _ _ _ (outcome_eta _ _ Hrun)) as (_ & Hgiven).
  destruct (Hgiven Hstop) as (_ & Hparsed & Hconflicts & _).
  split; [exact Hparsed |].
  apply Hconflicts. vm_compute. tauto.
Defined.

Lemma parse_success_formatting_witness :
  (parse (po_stored color_strip) 5 false newParser).1 = Returned true
  /\ coloredOutput (m_options (parse (po_stored color_strip) 5 false newParser).2)
     = Some true
  /\ withErrorIds (m_options (parse (po_stored color_strip) 5 false newParser).2)
     = true
  /\ revertStrings (m_options (parse (po_stored color_strip) 5 false newParser).2)
     = RevertStrings.Strip.
Proof.
  assert (Hrun : (parse (po_stored color_strip) 5 false newParser).1 = Returned true)
    by (vm_compute; reflexivity).
  split; [exact Hrun |].
  destruct (parse_success_formatting _ _ _ _ _ (outcome_eta _ _ Hrun))
    as (_ & Hcolor & _ & Hids & Hrevert & _).
  cbv zeta in Hcolor, Hids, Hrevert.
  rewrite Hcolor, Hids.
  split; [vm_compute; reflexivity |]. split; [vm_compute; reflexivity |].
  assert (Hstored : color_strip !! g_strRevertStrings = Some (string_value "strip"))
    by (vm_compute; reflexivity).
  destruct (Hrevert _ Hstored) as [Hvalue _].
  assert (Hstrip : revertStringsFromString "strip" = Some RevertStrings.Strip)
    by reflexivity.
  congruence.
Defined.

Lemma parse_success_evm_version_witness :
  count link_berlin g_argStandardJSON = 0
  /\ (parse (po_stored link_berlin) 4 false newParser).1 = Returned true
  /\ EVMVersion_fromString "berlin"
     = Some (evmVersion (m_options (parse (po_stored link_berlin) 4 false newParser).2)).
Proof.
  assert (Hjson : count link_berlin g_argStandardJSON = 0)
    by (vm_compute; reflexivity).
  assert (Hrun : (parse (po_stored link_berlin) 4 false newParser).1 = Returned true)
    by (vm_compute; reflexivity).
  split; [exact Hjson |]. split; [exact Hrun |].
  destruct (parse_success_evm_version _ _ _ _ _ Hjson (outcome_eta _ _ Hrun))
    as [Hgiven _].
  apply Hgiven. vm_compute. reflexivity.
Defined.

Lemma combined_json_decoded_witness :
  (run (parseCombinedJsonOption combined_bin_abi_bin) newParser).1 = Returned true
  /\ (forall item, In item (split is_comma "bin,abi,bin") ->
        In item g_combinedJsonArgs)
  /\ exists requests,
       combinedJsonRequests
         (m_options (run (parseCombinedJsonOption combined_bin_abi_bin) newParser).2)
       = Some requests
       /\ CombinedJsonRequests.flags requests
          = [ true; false; true; false; false; false; false; false; false; false;
              false; false; false; false; false; false; false ].
Proof.
  assert (Hstored : combined_bin_abi_bin !! g_argCombinedJson
                    = Some (string_value "bin,abi,bin")) by (vm_compute; reflexivity).
  assert (Hrun : (run (parseCombinedJsonOption combined_bin_abi_bin) newParser).1
                 = Returned true) by (vm_compute; reflexivity).
  split; [exact Hrun |].
  destruct (combined_json_decoded _ _ _ _ Hstored (outcome_eta _ _ Hrun))
    as (Hknown & requests & Hrequests & Hflags).
  split; [exact Hknown |].
  exists requests. split; [exact Hrequests |].
  rewrite Hflags. vm_compute. reflexivity.
Defined.

Lemma combined_json_set_of_items_witness :
  (forall item, In item (split is_comma "zzz,abi,bogus")
                <-> In item (split is_comma "bogus,abi,zzz,bogus"))
  /\ run (parseCombinedJsonOption combined_zzz_abi_bogus) newParser
     = run (parseCombinedJsonOption combined_bogus_zzz) newParser
  /\ (run (parseCombinedJsonOption combined_zzz_abi_bogus) newParser).1
     = Returned false
  /\ m_serr (run (parseCombinedJsonOption combined_zzz_abi_bogus) newParser).2
     = "Invalid option to --combined-json: bogus" +:+ endl.
Proof.
  assert (Hstored : combined_zzz_abi_bogus !! g_argCombinedJson
                    = Some (string_value "zzz,abi,bogus")) by (vm_compute; reflexivity).
  assert (Hstored' : combined_bogus_zzz !! g_argCombinedJson
                     = Some (string_value "bogus,abi,zzz,bogus"))
    by (vm_compute; reflexivity).
  assert (Hsame : forall item, In item (split is_comma "zzz,abi,bogus")
                               <-> In item (split is_comma "bogus,abi,zzz,bogus")).
  { intros item. vm_compute. tauto. }
  assert (Hrun : (run (parseCombinedJsonOption combined_zzz_abi_bogus) newParser).1
                 = Returned false) by (vm_compute; reflexivity).
  split; [exact Hsame |].
  destruct (combined_json_set_of_items _ _ _ _ newParser Hstored Hstored' Hsame)
    as [Hequal Hleast].
  split; [exact Hequal |]. split; [exact Hrun |].
  destruct (Hleast _ (outcome_eta _ _ Hrun))
    as (least & Hin & Hunknown & Hstate & Hmin).
  rewrite Hstate. cbn [wrote_serr m_serr].
  vm_compute in Hin. destruct Hin as [<- | [<- | [<- | []]]].
  - destruct (Hmin "bogus") as [Hbad | Hbad];
      [vm_compute; tauto | reflexivity | discriminate Hbad | discriminate Hbad].
  - discriminate Hunknown.
  - reflexivity.
Defined.

Lemma parse_exceptions_witness :
  stored_as_declared invalid_address_library
  /\ as_constructed invalid_address_library newParser
  /\ (parse (po_stored invalid_address_library) 3 false newParser).1
     = Thrown "InvalidAddress"
  /\ 0 < count invalid_address_library g_argLibraries.
Proof.
  assert (Hdeclared : stored_as_declared invalid_address_library).
  { split; [| split; [| split]].
    - intros name value Hin Hlookup. unfold declaredStrings in Hin. simpl in Hin.
      repeat (destruct Hin as [<- | Hin];
              [vm_compute in Hlookup;
               first [discriminate Hlookup | injection Hlookup as <-; eauto] |]).
      destruct Hin.
    - intros name value Hin Hlookup. simpl in Hin.
      repeat (destruct Hin as [<- | Hin];
              [vm_compute in Hlookup;
               first [discriminate Hlookup | injection Hlookup as <-; eauto] |]).
      destruct Hin.
    - intros value Hlookup. vm_compute in Hlookup. discriminate Hlookup.
    - exists 200%N. vm_compute. reflexivity. }
  assert (Hconstructed : as_constructed invalid_address_library newParser).
  { split; [right; right; reflexivity | left; reflexivity]. }
  assert (Hrun : (parse (po_stored invalid_address_library) 3 false newParser).1
                 = Thrown "InvalidAddress") by (vm_compute; reflexivity).
  split; [exact Hdeclared |]. split; [exact Hconstructed |]. split; [exact Hrun |].
  assert (Hstored : forall args,
            po_stored invalid_address_library = po_stored args ->
            stored_as_declared args /\ as_constructed args newParser)
    by (intros args [= <-]; split; assumption).
  destruct (parse_exceptions _ 3 false newParser _ _ Hstored (outcome_eta _ _ Hrun))
    as [[b Hb] | [[status Hstatus] | (args & Heq & _ & Hlibraries)]].
  - discriminate Hb.
  - discriminate Hstatus.
  - injection Heq as <-. exact Hlibraries.
Defined.
